(* ===== verification/_CoqProject ===== *)
-Q . S2P
Prelude.v
RustStr.v
RustText.v
Slots.v
NetAddr.v
Json.v
Examples.v
Types.v
Canonical.v
Paths.v
Policy.v
Crypto.v
SigV4.v
Http.v
Store.v
Injection.v
Requests.v
Grants.v
ApiExt.v
Secrets.v
UiExt.v
Policies.v
Clients.v
Provision.v
Notify.v
Lifecycle.v
Refinement.v
Safety.v
StoreProps.v
Reconcile.v
Settle.v
Api.v
Columns.v
Push.v
ApiRequests.v
ApiGrants.v
Retire.v
Proxy.v
ProxyStream.v
Csrf.v
Human.v
Config.v
Startup.v
FirstStart.v
Ui.v
UiApprove.v
FormText.v
UiPolicies.v
ConfigPolicy.v
UiSecrets.v
ApiSecrets.v
Refusals.v
Pipeline.v
Cli.v
CliTrace.v
CliRequest.v
CurlCall.v
CurlKey.v
Curl.v
CurlTrace.v
CurlGrant.v
CliErrors.v
CliStore.v
ApiRoutes.v
CliMain.v
UiPrefill.v
UiView.v
UiPages.v
UiDecide.v
UiPageFacts.v
UiRoutes.v
UiSecretPages.v
Server.v
