(* ===== verification/Prelude.v ===== *)
(** * Keychute: a verification development

    Keychute releases credentials to agents under operator control.  A client
    asks for access to a secret; standing policies or the operator decide; an
    approved request becomes a grant, which the client reads (the bytes) or uses
    through the brokering proxy (the bytes never leave the server).  This library
    models the server's Rust sources and the command line client, and proves what
    makes them correct.

    ** Parts, and the files that model them

    - Prelude, RustStr, RustText, Json, Examples: the [result] monad and notations, lists
      sorted by key, what the sources use of Rust's strings (bytes; trimming,
      splitting, parsing of integers, UTF-8), [serde_json] values, and concrete
      instances for witnesses.  NetAddr: [std::net]'s address parser.
    - Types (types/src/lib.rs), Paths (types/src/paths.rs): tiers, mechanisms,
      origins, constraints and messages with their JSON; path canonicalisation
      and prefix matching.
    - Policy (server/src/policy/mod.rs): the policy engine.
    - Crypto (server/src/crypto/mod.rs): envelope encryption, keysets, MACs;
      Canonical (server/src/api/canonical.rs): the text the idempotency MAC
      covers; SigV4 (server/src/sigv4.rs); Injection (server/src/injection.rs).
    - Store: the tables of the migrations as finite maps keyed by primary key,
      with their constraints.  Requests, Grants, ApiExt, Secrets, UiExt,
      Policies, Clients, Provision, Notify: the store layer, file by file
      (server/src/db/*.rs, server/src/ui/policy_store.rs, server/src/audit.rs),
      one definition per query or transaction.
    - Lifecycle: the abstract specification of the store, a step relation on
      requests, grants, reads, secrets and the audit log, with its invariant.
      Refinement: every store operation is a sequence of those steps.  Safety,
      StoreProps, Columns, Retire (server/src/db/mod.rs, the retirement of a
      key): theorems about reachable databases.  Reconcile, Settle: what
      reconciling with the configuration leaves, and that it is a fixed point.
    - Api (server/src/api/mod.rs, api/error.rs, authn/client.rs): the handler
      monad, client authentication, revalidation; Slots (server/src/state.rs);
      ApiRequests, ApiGrants, ApiSecrets (server/src/api/*.rs); Proxy, up to the
      request sent, and ProxyStream, the deadline and the response
      (server/src/proxy.rs), over Http; Push (server/src/notify/mod.rs).
      ApiRoutes (server/src/api/mod.rs): the router, and that the client's calls
      arrive.
    - Human (server/src/authn/human.rs), Csrf (server/src/ui/csrf.rs), Ui,
      UiApprove, FormText, UiPolicies, UiPrefill, UiSecrets (server/src/ui/mod.rs):
      the operator's authentication, form guard and POST handlers.  UiView,
      UiPages, UiSecretPages, UiRoutes (the same file): the router and the GET
      pages, each as the texts and forms it holds.  UiDecide, UiPageFacts:
      theorems about pages and the decisions made on them.  Refusals: what a
      refused handler leaves.
    - Config, ConfigPolicy (server/src/config.rs): normalisation, validation,
      and the way from the file to an authenticated client.  Startup
      (server/src/state.rs, notify/mod.rs): what the process builds from the
      configuration, its transactions, the sweeper's loop; FirstStart: that a
      new installation starts.  Server
      (server/src/lib.rs): the listener and the one application of both routers.
    - Pipeline (cli/src/pipeline.rs): who is asking, from the output of [ps].
      Cli, CliRequest, CliStore, CliMain (cli/src/main.rs): the environment, the
      commands and the exit status.  CurlCall, Curl (cli/src/curl.rs): the checks
      and texts of [keychute curl], and the command.  CliTrace: the effects a run
      has, and the rules that bound them.  CliErrors, CurlKey, CurlGrant,
      CurlTrace: theorems, the first and third about client and server together.

    ** How they interact

    A store operation is a function of the transaction's [now()] and the
    database; it returns a [DbError] or an answer with the new database, and an
    error changes nothing (the transaction is rolled back).  A handler
    ([Api.Handler]) is a sequence of such calls; between two of them an
    environment [Env] moves the world as other handlers may: any number of store
    operations, with the clock not running backwards ([env_ok]).  Theorems about
    handlers quantify over the environment, so they hold under every
    interleaving; those that promise progress say when they need the handler to
    run alone.  [world_reachable] is what the store operations reach from the
    empty database.

    The client runs on a [Platform], which answers its requests, reads files and
    keeps the clock, and may answer anything.  Its theorems are about the trace of
    a run on an arbitrary platform: what was sent, with the replies, and what was
    written.  CurlGrant and CliErrors put the two sides together: what the client
    asks for is checked by the server's definitions, and the server's refusals
    are read by the client's.

    ** What the theorems show

    - Policy: the engine meets a specification stated without its loops; an
      automatic outcome needs a live containing rule, a vetted secret and every
      cap; every call an approved request admits is inside the policy.
    - Store: uses are accounted and bounded, approved requests have exactly one
      grant, live grants are backed by a secret, an idempotency key releases
      once, the first resolution wins, deletion revokes what it backed, and the
      store refines its lifecycle.
    - Handlers: what a read, a proxied call, a creation, a deposit or an approval
      commits and releases, and to whom; an upstream's answer is relayed once it
      is there, whatever the deadline; every path of the API is answered by the
      API; retries recover the first answer; the
      long poll ends; pushes are backed by rows and are delivered; refusals
      write nothing; concurrency caps hold.
    - Operator: what a decision page shows is what an approval made on it grants,
      and the block of what is enforced determines the constraints; every
      form of a page is accepted by the handler it posts to; tokens are verified
      with keys the provider published; a policy and a secret's settings survive
      being edited unchanged; vetting and deletion act on the version shown.
    - Startup: a configuration that loads reconciles, and then decides who is a
      client; a startup leaves the tables at the configuration's fixed point;
      plaintext stays on the machine unless allowed; a rule means the same in the
      file and in the form; a key found unreferenced can be taken out of the
      keyset file.
    - Client: a run sends what its arguments say, at most so often, and writes
      only what was released or answered; its requests pass the server's checks
      and are bound to the call; a deposit arrives as the bytes that were read;
      every refusal ends with its exit code.
    - Text: canonical JSON determines the request, a path is decoded once, sealed
      bytes open only in their context, a signature covers the whole request.

    ** Abstractions, bounds and fuel

    Transactions are atomic and isolated: the sources take row or advisory locks
    where two could race, and a guarded [UPDATE] is re-evaluated after waiting.
    Results of SQL queries without [ORDER BY] come in the order of the map's
    keys.  Integers are [Z]; where a column or a Rust type bounds them the bound
    is written ([int4_succ], [parse_uint], [as_i64]).  Times are nanoseconds and
    intervals exact.  Random draws (ids, nonces, keys) are arguments.
    Cryptography is an interface: the AEAD is ideal (it opens what it sealed and
    nothing else), hashes and MACs are functions and a theorem that needs them
    not to collide says so of the inputs at hand.  Third-party crates and
    services (url, http, hex, base64, chrono's formats, serde_json's literals,
    jsonwebtoken, TokenReview) are type classes with documented laws, each
    instantiated by concrete functions for the witnesses.  Texts of errors that
    quote input in Rust's debug form are constructors or fixed strings.
    Recursion is structural, over the input's text, a list or a count the sources
    bound: [dec_digits] has the number's bit length as fuel, which bounds its
    digits; the push queue runs on the sweep's budget; the long poll on the
    instants at which it wakes, and [wait_ends] shows when they suffice; the
    client's wait on a number of rounds, and [wait_for_resolution_returns] shows
    how many suffice on a clock that moves.

    ** Not modelled

    HTML elements, styles and escaping of the pages; YAML parsing; TLS, sockets, accepting connections, the shutdown
    signal and the drain (server/src/main.rs and the rest of lib.rs); the HTTP
    clients (what is handed to them is modelled, and what they answer is
    arbitrary); that a detached completion audit is inserted (it is the event
    returned); timers, which are the instants or wakes a definition is given;
    zeroisation of memory; connection pools, migrations and the lock statements;
    of the client, [clap]'s parsing, the
    HTTP client and its timeouts, the inode comparison of [same_file], running
    [ps]; the end-to-end harness. *)

From Stdlib Require Export ZArith Ascii String Sorted.
From stdpp Require Export base tactics option list gmap sets strings.

#[global] Set Default Goal Selector "1".
#[global] Set Printing Projections.

(** ** Scalars of the program

    A [uuid::Uuid] is its 128-bit big-endian value, so the derived order of
    the crate (byte-wise) is the numeric one.  A [DateTime<Utc>] is the number
    of nanoseconds since the epoch.  Fixed-width integers are their values in
    [Z]; the bounds they are stored under are stated where they matter. *)
Definition Uuid := N.
Definition DateTime := Z.
Bind Scope N_scope with Uuid.
Bind Scope Z_scope with DateTime.

#[export] Instance Uuid_eq_dec : EqDecision Uuid := _.
#[export] Instance Uuid_countable : Countable Uuid := _.
#[export] Instance DateTime_eq_dec : EqDecision DateTime := _.

Definition i32_MAX : Z := 2147483647.
Definition u64_MAX : Z := 18446744073709551615.
Definition second : Z := 1000000000.

(** [chrono::Duration::seconds] and Postgres [make_interval(secs => n)]. *)
Definition seconds (n : Z) : Z := n * second.

(** ** Fallible computations

    [result E A] is Rust's [Result<A, E>]; [x ← c; k] is the [?] operator. *)
Inductive result (E A : Type) : Type :=
| Ok (a : A)
| Err (e : E).
Arguments Ok {E A} a.
Arguments Err {E A} e.

#[export] Instance result_ret E : MRet (result E) := λ A a, Ok a.
#[export] Instance result_bind E : MBind (result E) :=
  λ A B f c, match c with Ok a => f a | Err e => Err e end.
#[export] Instance result_fmap E : FMap (result E) :=
  λ A B f c, match c with Ok a => Ok (f a) | Err e => Err e end.
#[export] Instance result_eq_dec E A `{EqDecision E, EqDecision A} :
  EqDecision (result E A).
Proof. solve_decision. Defined.

Declare Scope keychute_scope.
Delimit Scope keychute_scope with kc.

(** [if b { return Err(e) }; k] *)
Notation "'fail_if' b 'with' e ; k" := (if (b : bool) then Err e else k)
  (at level 100, b at level 99, e at level 99, k at level 200,
   right associativity, only parsing) : keychute_scope.
#[global] Open Scope keychute_scope.

Definition ok_or {E A} (o : option A) (e : E) : result E A :=
  match o with Some a => Ok a | None => Err e end.
Definition map_err {E F A} (f : E → F) (r : result E A) : result F A :=
  match r with Ok a => Ok a | Err e => Err (f e) end.
Definition is_ok {E A} (r : result E A) : bool :=
  match r with Ok _ => true | Err _ => false end.
Definition ok {E A} (r : result E A) : option A :=
  match r with Ok a => Some a | Err _ => None end.
(** [.iter().map(f).collect::<Result<_, _>>()] and the equivalent [for] loop
    whose body ends in [?]: left to right, stopping at the first error. *)
Fixpoint try_map {E A B} (f : A → result E B) (l : list A) : result E (list B) :=
  match l with
  | [] => Ok []
  | x :: l => y ← f x; ys ← try_map f l; Ok (y :: ys)
  end.

(** ** Boolean helpers *)
Definition is_some {A} (o : option A) : bool :=
  match o with Some _ => true | None => false end.
Definition is_none {A} (o : option A) : bool := negb (is_some o).
Definition is_empty {A} (l : list A) : bool :=
  match l with [] => true | _ => false end.
Definition eqb {A} `{EqDecision A} (x y : A) : bool := bool_decide (x = y).
Definition contains {A} `{EqDecision A} (l : list A) (x : A) : bool :=
  bool_decide (x ∈ l).

(** ** Ordered keys

    The derived lexicographic order of tuples and of byte strings, and the
    stable sort of a list by such a key ([sort_by_key], [ORDER BY]). *)
Fixpoint key_compare (a b : list Z) : comparison :=
  match a, b with
  | [], [] => Eq
  | [], _ => Lt
  | _, [] => Gt
  | x :: a, y :: b => match (x ?= y)%Z with Eq => key_compare a b | c => c end
  end.

Section SortByKey.
Context {A : Type} (key : A → list Z).

Definition key_le (x y : A) : Prop := key_compare (key x) (key y) ≠ Gt.

(** Insert before the first element with a greater key. *)
Fixpoint insert_by_key (x : A) (l : list A) : list A :=
  match l with
  | [] => [x]
  | y :: l =>
      match key_compare (key x) (key y) with
      | Gt => y :: insert_by_key x l
      | _ => x :: y :: l
      end
  end.
Fixpoint sort_by_key (l : list A) : list A :=
  match l with
  | [] => []
  | x :: l => insert_by_key x (sort_by_key l)
  end.
End SortByKey.

(** ** Tactics *)

(** Break the first [match]/[if] of the goal or of a hypothesis. *)
Ltac case_match_in H :=
  match type of H with
  | context [ match ?x with _ => _ end ] => destruct x eqn:?
  end.
Ltac inv_err H := repeat (case_match_in H; try discriminate H).

(** Normalise boolean hypotheses to propositions. *)
Ltac kbool :=
  repeat match goal with
  | H : is_true ?b |- _ => unfold is_true in H
  | H : _ && _ = true |- _ => apply andb_true_iff in H as [? ?]
  | H : _ || _ = false |- _ => apply orb_false_iff in H as [? ?]
  | H : negb _ = true |- _ => apply negb_true_iff in H
  | H : negb _ = false |- _ => apply negb_false_iff in H
  | H : bool_decide _ = true |- _ => apply bool_decide_eq_true in H
  | H : bool_decide _ = false |- _ => apply bool_decide_eq_false in H
  | H : eqb _ _ = true |- _ => apply bool_decide_eq_true in H
  | H : eqb _ _ = false |- _ => apply bool_decide_eq_false in H
  | H : contains _ _ = true |- _ => apply bool_decide_eq_true in H
  | H : contains _ _ = false |- _ => apply bool_decide_eq_false in H
  end.

(** ** Lemmas the components share *)
Create HintDb keychute.

Lemma bind_Ok {E A B} (c : result E A) (f : A → result E B) (b : B) :
  (c ≫= f) = Ok b ↔ ∃ a, c = Ok a ∧ f a = Ok b.
Proof. destruct c; cbn; naive_solver. Qed.

Lemma ok_or_Ok {E A} (o : option A) (e : E) a : ok_or o e = Ok a ↔ o = Some a.
Proof. destruct o; cbn; naive_solver. Qed.

Lemma map_err_Ok {E F A} (f : E → F) (r : result E A) a :
  map_err f r = Ok a ↔ r = Ok a.
Proof. destruct r; cbn; naive_solver. Qed.

Lemma try_map_Ok {E A B} (f : A → result E B) l l' :
  try_map f l = Ok l' ↔ Forall2 (λ x y, f x = Ok y) l l'.
Proof.
  revert l'. induction l as [|x l IH]; intros l'; cbn.
  - split; [intros [= <-]; constructor | by inversion 1].
  - rewrite bind_Ok. setoid_rewrite bind_Ok. split.
    + intros (y & Hy & ys & Hys & [= <-]). constructor; naive_solver.
    + inversion 1; subst. naive_solver.
Qed.

Lemma try_map_all {E A B} (f : A → result E B) l :
  (∀ x, x ∈ l → ∃ y, f x = Ok y) → ∃ l', try_map f l = Ok l'.
Proof.
  induction l as [|x l IH]; intros Hl; [by exists []|]. cbn.
  destruct (Hl x) as [y ->]; [by left|]. destruct IH as [l' ->]; [intros z Hz; apply Hl; by right|].
  by exists (y :: l').
Qed.

Lemma try_map_each {E A B} (f : A → result E B) l l' :
  try_map f l = Ok l' → ∀ x, x ∈ l → ∃ y, f x = Ok y.
Proof.
  rewrite try_map_Ok. intros Hl x [i Hi]%list_elem_of_lookup.
  destruct (Forall2_lookup_l _ _ _ _ _ Hl Hi) as (y & _ & Hy). by exists y.
Qed.

Lemma is_empty_true {A} (l : list A) : is_empty l = true ↔ l = [].
Proof. destruct l; cbn; naive_solver. Qed.
Lemma is_empty_false {A} (l : list A) : is_empty l = false ↔ l ≠ [].
Proof. destruct l; cbn; naive_solver. Qed.

Lemma eqb_refl {A} `{EqDecision A} (x : A) : eqb x x = true.
Proof. by apply bool_decide_eq_true. Qed.
Lemma eqb_sym {A} `{EqDecision A} (x y : A) : eqb x y = eqb y x.
Proof. apply bool_decide_ext. naive_solver. Qed.

Lemma existsb_elem {A} (f : A → bool) l :
  existsb f l = true ↔ ∃ x, x ∈ l ∧ f x = true.
Proof. rewrite existsb_exists. by setoid_rewrite list_elem_of_In. Qed.
Lemma forallb_elem {A} (f : A → bool) l :
  forallb f l = true ↔ ∀ x, x ∈ l → f x = true.
Proof. rewrite forallb_forall. by setoid_rewrite list_elem_of_In. Qed.
Lemma existsb_elem_false {A} (f : A → bool) l :
  existsb f l = false ↔ ∀ x, x ∈ l → f x = false.
Proof.
  rewrite <-not_true_iff_false, existsb_elem. split.
  - intros Hn x Hx. apply not_true_iff_false. naive_solver.
  - intros Hf (x & Hx & Ht). rewrite Hf in Ht; done.
Qed.

#[export] Hint Resolve eqb_refl : keychute.

(** *** The lexicographic order and sorting *)
Lemma key_compare_refl a : key_compare a a = Eq.
Proof. induction a as [|x a IH]; cbn; [done|]. by rewrite Z.compare_refl. Qed.
Lemma key_compare_eq a b : key_compare a b = Eq → a = b.
Proof.
  revert b. induction a as [|x a IH]; intros [|y b]; cbn; try done.
  destruct (Z.compare_spec x y); try done. intros H'. subst. f_equal. auto.
Qed.
Lemma key_compare_antisym a b : key_compare b a = CompOpp (key_compare a b).
Proof.
  revert b. induction a as [|x a IH]; intros [|y b]; cbn; try done.
  rewrite (Z.compare_antisym x y). destruct (Z.compare_spec x y); cbn; auto.
Qed.
Lemma key_compare_trans a b c :
  key_compare a b ≠ Gt → key_compare b c ≠ Gt → key_compare a c ≠ Gt.
Proof.
  revert b c. induction a as [|x a IH]; intros [|y b] [|z c]; cbn; try done.
  destruct (Z.compare_spec x y), (Z.compare_spec y z), (Z.compare_spec x z);
    subst; try done; try lia. eauto.
Qed.
Lemma key_compare_gt_trans a b c :
  key_compare a b = Gt → key_compare c b ≠ Gt → key_compare c a ≠ Gt.
Proof.
  intros H1 H2. apply key_compare_trans with b; [done|].
  rewrite key_compare_antisym, H1. done.
Qed.

Section SortByKeyFacts.
Context {A : Type} (key : A → list Z).

Lemma insert_by_key_perm x l : insert_by_key key x l ≡ₚ x :: l.
Proof.
  induction l as [|y l IH]; cbn; [done|].
  destruct (key_compare _ _); [done..|]. rewrite IH. apply perm_swap.
Qed.
Lemma sort_by_key_perm l : sort_by_key key l ≡ₚ l.
Proof. induction l as [|x l IH]; cbn; [done|]. by rewrite insert_by_key_perm, IH. Qed.

Lemma insert_by_key_sorted x l :
  StronglySorted (key_le key) l → StronglySorted (key_le key) (insert_by_key key x l).
Proof.
  induction 1 as [|y l Hs IH Hy]; cbn; [repeat constructor|].
  destruct (key_compare (key x) (key y)) eqn:E.
  1,2: constructor; [by constructor|]; constructor; [unfold key_le; by rewrite E|];
    eapply Forall_impl; [exact Hy|]; intros z Hz; eapply key_compare_trans; [|exact Hz];
    by rewrite E.
  constructor; [done|]. rewrite insert_by_key_perm. constructor; [|done].
  unfold key_le. by rewrite key_compare_antisym, E.
Qed.
Lemma sort_by_key_sorted l : StronglySorted (key_le key) (sort_by_key key l).
Proof. induction l; cbn; [constructor|]. by apply insert_by_key_sorted. Qed.

(** Sorting by a key that tells the elements apart forgets their order. *)
Lemma sort_by_key_unique l l' :
  (∀ x y, x ∈ l → y ∈ l → key x = key y → x = y) → l ≡ₚ l' →
  sort_by_key key l = sort_by_key key l'.
Proof.
  intros Hinj Hp.
  assert (Hpp : sort_by_key key l ≡ₚ sort_by_key key l') by by rewrite !sort_by_key_perm.
  assert (Hinj' : ∀ x y, x ∈ sort_by_key key l → y ∈ sort_by_key key l →
            key x = key y → x = y).
  { intros x y. rewrite (sort_by_key_perm l). apply Hinj. }
  revert Hinj' Hpp. generalize (sort_by_key_sorted l) (sort_by_key_sorted l').
  generalize (sort_by_key key l) as s, (sort_by_key key l') as s'. clear.
  intros s s' Hs. revert s'. induction Hs as [|x s Hs IH Hx]; intros s' Hs' Hinj Hp.
  { symmetry. by apply Permutation_nil. }
  destruct Hs' as [|y s' Hs' Hy]; [by symmetry in Hp; apply Permutation_nil_cons in Hp|].
  assert (x = y) as <-.
  { assert (Hyx : y ∈ x :: s) by (rewrite Hp; by left).
    assert (Hxy : x ∈ y :: s') by (rewrite <-Hp; by left).
    apply elem_of_cons in Hyx as [->|Hyx]; [done|].
    apply elem_of_cons in Hxy as [->|Hxy]; [done|].
    rewrite Forall_forall in Hx, Hy. specialize (Hx _ Hyx). specialize (Hy _ Hxy).
    apply Hinj; [by left|by right|]. apply key_compare_eq. unfold key_le in *.
    rewrite key_compare_antisym in Hy. by destruct (key_compare (key x) (key y)). }
  f_equal. apply IH; [done| |by apply Permutation_cons_inv in Hp].
  intros u v Hu Hv. apply Hinj; by right.
Qed.
End SortByKeyFacts.

(** Sorting commutes with a map that keeps the keys. *)
Lemma sort_by_key_map {A B} (k : A → list Z) (k' : B → list Z) (f : A → B) l :
  (∀ x, k' (f x) = k x) → sort_by_key k' (map f l) = map f (sort_by_key k l).
Proof.
  intros Hk. induction l as [|x l IH]; cbn; [done|]. rewrite IH.
  generalize (sort_by_key k l) as s. induction s as [|y s IHs]; cbn; [done|].
  rewrite !Hk. destruct (key_compare _ _); cbn; [done..|]. by rewrite IHs.
Qed.

(** ** Sequential stores

    Reflexive-transitive execution of a labelled step function: the database
    components are driven by operations [op] that map a state to a state. *)
Section Reachable.
Context {S : Type} (init : S → Prop) (step : S → S → Prop).

Definition reachable (s : S) : Prop := ∃ s0, init s0 ∧ rtc step s0 s.

Lemma reachable_invariant (I : S → Prop) :
    (∀ s, init s → I s) →
    (∀ s s', I s → step s s' → I s') →
    ∀ s, reachable s → I s.
Proof.
    intros Hi Hs s (s0 & H0 & Hr). apply Hi in H0.
    induction Hr as [|x y z Hxy Hr IH]; [done|]. eapply IH, Hs; eauto.
Qed.
End Reachable.
