(* ===== verification/RustStr.v ===== *)
(** Rust's [&str] and byte-slice operations, on Stdlib strings.

    A Rust [String] is its UTF-8 byte sequence, so a [string] (one [ascii] per
    byte) represents it; [len] is the byte length, as in Rust.  Every function
    here is the standard library's, with the name it has there; what holds of
    UTF-8 only ([chars], [String::from_utf8]) goes through [utf8_decode]. *)

From S2P Require Import Prelude.
Open Scope string_scope.
#[global] Arguments String.append !_ _ : simpl nomatch.

Definition byte_of (c : ascii) : N := N_of_ascii c.
Definition len (s : string) : Z := Z.of_nat (String.length s).

Definition NUL : ascii := "000"%char.
Definition TAB : ascii := "009"%char.
Definition LF : ascii := "010"%char.
Definition CR : ascii := "013"%char.

(** ** Byte classes *)
Definition in_range (lo hi : ascii) (c : ascii) : bool :=
  (byte_of lo <=? byte_of c)%N && (byte_of c <=? byte_of hi)%N.
Definition is_ascii_digit : ascii → bool := in_range "0" "9".
Definition is_ascii_lowercase : ascii → bool := in_range "a" "z".
Definition is_ascii_uppercase : ascii → bool := in_range "A" "Z".
Definition is_ascii_alphanumeric (c : ascii) : bool :=
  is_ascii_digit c || is_ascii_lowercase c || is_ascii_uppercase c.

(** ** Whole-string tests *)
Fixpoint all_bytes (f : ascii → bool) (s : string) : bool :=
  match s with "" => true | String c s => f c && all_bytes f s end.
Definition any_byte (f : ascii → bool) (s : string) : bool :=
  negb (all_bytes (λ c, negb (f c)) s).
Definition contains_char (c : ascii) (s : string) : bool := any_byte (eqb c) s.
Definition starts_with (p s : string) : bool := String.prefix p s.
Fixpoint contains_str (p s : string) : bool :=
  starts_with p s || match s with "" => false | String _ s => contains_str p s end.

(** ** Case mapping *)
Fixpoint map_bytes (f : ascii → ascii) (s : string) : string :=
  match s with "" => "" | String c s => String (f c) (map_bytes f s) end.
Definition lower_byte (c : ascii) : ascii :=
  if is_ascii_uppercase c then ascii_of_N (byte_of c + 32) else c.
Definition upper_byte (c : ascii) : ascii :=
  if is_ascii_lowercase c then ascii_of_N (byte_of c - 32) else c.
Definition to_ascii_lowercase : string → string := map_bytes lower_byte.
Definition to_ascii_uppercase : string → string := map_bytes upper_byte.
Definition eq_ignore_ascii_case (s t : string) : bool :=
  eqb (to_ascii_lowercase s) (to_ascii_lowercase t).

(** ** Splitting and trimming *)
Fixpoint split (c : ascii) (s : string) : list string :=
  match s with
  | "" => [""]
  | String a r =>
      if eqb a c then "" :: split c r
      else match split c r with
           | h :: t => String a h :: t
           | [] => [String a ""]
           end
  end.
Definition strip_prefix (p s : string) : option string :=
  if starts_with p s
  then Some (String.substring (String.length p) (String.length s - String.length p) s)
  else None.
Fixpoint split_once (c : ascii) (s : string) : option (string * string) :=
  match s with
  | "" => None
  | String a r =>
      if eqb a c then Some ("", r)
      else match split_once c r with
           | Some (x, y) => Some (String a x, y)
           | None => None
           end
  end.
Fixpoint rsplit_once (c : ascii) (s : string) : option (string * string) :=
  match s with
  | "" => None
  | String a r =>
      match rsplit_once c r with
      | Some (x, y) => Some (String a x, y)
      | None => if eqb a c then Some ("", r) else None
      end
  end.
Fixpoint trim_end_matches (c : ascii) (s : string) : string :=
  match s with
  | "" => ""
  | String a r =>
      match trim_end_matches c r with
      | "" => if eqb a c then "" else String a ""
      | r' => String a r'
      end
  end.

(** [str::trim]: the Unicode White_Space characters, in UTF-8. *)
Definition ws1 (a : ascii) : bool := in_range "009" "013" a || eqb a " "%char.
Definition ws2 (a b : ascii) : bool :=
  eqb a "194"%char && (eqb b "133"%char || eqb b "160"%char).
Definition ws3 (a b c : ascii) : bool :=
  (eqb a "225"%char && eqb b "154"%char && eqb c "128"%char) ||
  (eqb a "226"%char && eqb b "128"%char &&
     (in_range "128" "138" c || eqb c "168"%char || eqb c "169"%char || eqb c "175"%char)) ||
  (eqb a "226"%char && eqb b "129"%char && eqb c "159"%char) ||
  (eqb a "227"%char && eqb b "128"%char && eqb c "128"%char).
Fixpoint trim_start (s : string) : string :=
  match s with
  | "" => ""
  | String a r =>
      if ws1 a then trim_start r else
      match r with
      | "" => s
      | String b r2 =>
          if ws2 a b then trim_start r2 else
          match r2 with
          | "" => s
          | String c r3 => if ws3 a b c then trim_start r3 else s
          end
      end
  end.
(** A byte that starts no whitespace character is kept; no continuation byte
    starts one, so the cut never falls inside a character. *)
Fixpoint trim_end (s : string) : string :=
  match s with
  | "" => ""
  | String a r => if eqb (trim_start s) "" then "" else String a (trim_end r)
  end.
Definition trim (s : string) : string := trim_end (trim_start s).

(** [s.parse::<uN>()]: an optional [+], then at least one decimal digit, and
    no more than the type's maximum. *)
Fixpoint parse_digits (s : string) (acc : Z) : option Z :=
  match s with
  | "" => Some acc
  | String c r =>
      if is_ascii_digit c
      then parse_digits r (acc * 10 + Z.of_N (byte_of c - 48))%Z
      else None
  end.
Definition parse_uint (max : Z) (s : string) : option Z :=
  let digits := match s with String "+" r => r | _ => s end in
  match digits with
  | "" => None
  | _ => match parse_digits digits 0 with
         | Some n => if (n <=? max)%Z then Some n else None
         | None => None
         end
  end.
Definition u16_MAX : Z := 65535.

(** ** UTF-8 (Rust's validation table) *)
Definition cont (c : ascii) : bool := in_range "128" "191" c.
Definition cont_val (c : ascii) : N := (byte_of c - 128)%N.

Fixpoint utf8_decode (s : string) : option (list N) :=
  match s with
  | "" => Some []
  | String a r =>
      if (byte_of a <? 128)%N then cons (byte_of a) <$> utf8_decode r else
      match r with
      | "" => None
      | String b r2 =>
          if in_range "194" "223" a then
            if cont b
            then cons ((byte_of a - 192) * 64 + cont_val b)%N <$> utf8_decode r2
            else None
          else match r2 with
          | "" => None
          | String c r3 =>
              if in_range "224" "239" a then
                if (if eqb a "224"%char then in_range "160" "191" b
                    else if eqb a "237"%char then in_range "128" "159" b
                    else cont b) && cont c
                then cons ((byte_of a - 224) * 4096 + cont_val b * 64 + cont_val c)%N
                       <$> utf8_decode r3
                else None
              else match r3 with
              | "" => None
              | String d r4 =>
                  if in_range "240" "244" a then
                    if (if eqb a "240"%char then in_range "144" "191" b
                        else if eqb a "244"%char then in_range "128" "143" b
                        else cont b) && cont c && cont d
                    then cons ((byte_of a - 240) * 262144 + cont_val b * 4096
                               + cont_val c * 64 + cont_val d)%N <$> utf8_decode r4
                    else None
                  else None
              end
          end
      end
  end.

(** [char::is_control]: the Unicode category Cc. *)
Definition is_control (c : N) : bool :=
  (c <=? 31)%N || ((127 <=? c)%N && (c <=? 159)%N).
(** [s.chars().any(is_control)]; every Rust string decodes. *)
Definition any_control (s : string) : bool :=
  match utf8_decode s with Some cs => existsb is_control cs | None => false end.

(** ** Decimal rendering of integers ([Display]) *)
Definition digit (n : N) : ascii := ascii_of_N (48 + n).
Fixpoint dec_digits (fuel : nat) (n : N) (acc : string) : string :=
  match fuel with
  | O => acc
  | S fuel =>
      let acc := String (digit (n mod 10)) acc in
      if (n <? 10)%N then acc else dec_digits fuel (n / 10) acc
  end.
Definition N_to_string (n : N) : string := dec_digits (S (N.to_nat (N.log2 n))) n "".
Definition Z_to_string (z : Z) : string :=
  if (z <? 0)%Z then String "-" (N_to_string (Z.abs_N z)) else N_to_string (Z.to_N z).

(** ** Lemmas *)
Lemma string_app_assoc (s t u : string) : (s +:+ t) +:+ u = s +:+ (t +:+ u).
Proof. induction s as [|c s IH]; cbn; [done|]. by rewrite IH. Qed.
Lemma string_app_nil_r (s : string) : s +:+ "" = s.
Proof. induction s as [|c s IH]; cbn; [done|]. by rewrite IH. Qed.
Lemma string_app_inv_head (s t u : string) : s +:+ t = s +:+ u → t = u.
Proof. induction s as [|c s IH]; cbn; [done|]. intros [= ?]. auto. Qed.

Lemma starts_with_spec p s : starts_with p s = true ↔ ∃ t, s = p +:+ t.
Proof.
  unfold starts_with. revert s. induction p as [|a p IH]; intros s; cbn.
  - split; [intros _; by exists s | by intros _; destruct s].
  - destruct s as [|b s]; cbn; [split; [done | by intros [t Ht]]|].
    destruct (ascii_dec a b) as [->|Hne].
    + rewrite IH. split; intros [t Ht]; exists t; congruence.
    + split; [done|]. intros [t [= Ht _]]. congruence.
Qed.

Lemma all_bytes_app f s t : all_bytes f (s +:+ t) = all_bytes f s && all_bytes f t.
Proof. induction s as [|c s IH]; cbn; [done|]. by rewrite IH, andb_assoc. Qed.

Lemma contains_char_app c s t :
  contains_char c (s +:+ t) = contains_char c s || contains_char c t.
Proof.
  unfold contains_char, any_byte. by rewrite all_bytes_app, negb_andb.
Qed.
Lemma contains_char_cons c a s : contains_char c (String a s) = eqb c a || contains_char c s.
Proof. unfold contains_char, any_byte. cbn. by rewrite negb_andb, negb_involutive. Qed.

(** [split] inverts joining with the separator. *)
Fixpoint join (c : ascii) (l : list string) : string :=
  match l with
  | [] => ""
  | [x] => x
  | x :: l => x +:+ String c (join c l)
  end.

Lemma split_not_nil c s : split c s ≠ [].
Proof. destruct s as [|a s]; cbn; [done|]. destruct (eqb a c); [done|]. by destruct (split c s). Qed.

Lemma join_split c s : join c (split c s) = s.
Proof.
  induction s as [|a s IH]; cbn; [done|].
  pose proof (split_not_nil c s) as Hn.
  destruct (eqb a c) eqn:E; kbool; subst.
  - destruct (split c s) as [|h t] eqn:Es; [done|]. cbn in *. by rewrite IH.
  - destruct (split c s) as [|h t] eqn:Es; [done|].
    destruct t as [|h' t]; cbn in *; by rewrite IH.
Qed.

Lemma split_no_sep c s x : x ∈ split c s → contains_char c x = false.
Proof.
  revert x. induction s as [|a s IH]; cbn; intros x.
  - by intros ->%list_elem_of_singleton.
  - destruct (eqb a c) eqn:E; kbool.
    + intros [->|Hx]%elem_of_cons; [done|auto].
    + pose proof (split_not_nil c s).
      destruct (split c s) as [|h t]; [done|].
      intros [->|Hx]%elem_of_cons.
      * rewrite contains_char_cons, IH by (by left).
        rewrite orb_false_r. apply bool_decide_eq_false. congruence.
      * apply IH. by right.
Qed.

(** The two ways Rust has of losing a suffix of one byte. *)
Lemma trim_end_matches_spec c s :
  ∃ t, s = trim_end_matches c s +:+ t ∧ all_bytes (eqb c) t = true.
Proof.
  induction s as [|a s (t & Hs & Ht)]; [by exists ""|]. cbn.
  destruct (trim_end_matches c s) as [|b r] eqn:E.
  - destruct (eqb a c) eqn:Eac; kbool.
    + exists (String a s). split; [done|]. cbn. subst a.
      rewrite eqb_refl. cbn. by rewrite Hs.
    + exists t. cbn in *. split; [by rewrite Hs at 1|done].
  - exists t. split; [by rewrite Hs at 1|done].
Qed.

Lemma trim_end_matches_no_end c s t : trim_end_matches c s ≠ t +:+ String c "".
Proof.
  revert t. induction s as [|a s IH]; intros t; cbn; [by destruct t|].
  destruct (trim_end_matches c s) as [|b r] eqn:E.
  - destruct (eqb a c) eqn:Eac; kbool; [by destruct t|].
    destruct t as [|t0 t]; cbn; [congruence|]. by destruct t.
  - destruct t as [|t0 t]; cbn; [congruence|]. intros [= _ Ht]. by eapply IH.
Qed.

(** A string that does not end in [c] is its own trim. *)
Lemma trim_end_matches_id c s :
  (∀ t, s ≠ t +:+ String c "") → trim_end_matches c s = s.
Proof.
  induction s as [|a s IH]; intros Hs; cbn; [done|].
  destruct s as [|b s].
  - cbn. destruct (eqb a c) eqn:E; kbool; [|done]. subst. by destruct (Hs "").
  - rewrite IH; [done|]. intros t Ht. apply (Hs (String a t)). cbn. by rewrite Ht.
Qed.

Lemma trim_end_matches_idemp c s :
  trim_end_matches c (trim_end_matches c s) = trim_end_matches c s.
Proof. apply trim_end_matches_id, trim_end_matches_no_end. Qed.

Lemma to_ascii_lowercase_app s t :
  to_ascii_lowercase (s +:+ t) = to_ascii_lowercase s +:+ to_ascii_lowercase t.
Proof. unfold to_ascii_lowercase. induction s as [|c s IH]; cbn; [done|]. by rewrite IH. Qed.

Lemma map_bytes_compose f g s : map_bytes f (map_bytes g s) = map_bytes (λ c, f (g c)) s.
Proof. induction s as [|c s IH]; cbn; [done|]. by rewrite IH. Qed.
Lemma map_bytes_ext f g s : (∀ c, f c = g c) → map_bytes f s = map_bytes g s.
Proof. intros H. induction s as [|c s IH]; cbn; [done|]. by rewrite H, IH. Qed.

(** A property of every byte, decided by running it on all 256. *)
Lemma ascii_all (P : ascii → bool) :
  forallb (λ n, P (ascii_of_nat n)) (List.seq 0 256) = true → ∀ c, P c = true.
Proof.
  intros H c. rewrite <-(ascii_nat_embedding c).
  rewrite forallb_forall in H. apply H, in_seq.
  split; [lia|]. apply nat_ascii_bounded.
Qed.

Lemma lower_upper c : lower_byte (upper_byte c) = lower_byte c.
Proof.
  assert (H : ∀ c, eqb (lower_byte (upper_byte c)) (lower_byte c) = true)
    by (apply ascii_all; vm_compute; done).
  specialize (H c). by kbool.
Qed.
Lemma upper_upper c : upper_byte (upper_byte c) = upper_byte c.
Proof.
  assert (H : ∀ c, eqb (upper_byte (upper_byte c)) (upper_byte c) = true)
    by (apply ascii_all; vm_compute; done).
  specialize (H c). by kbool.
Qed.

Lemma to_lower_upper s : to_ascii_lowercase (to_ascii_uppercase s) = to_ascii_lowercase s.
Proof.
  unfold to_ascii_lowercase, to_ascii_uppercase.
  rewrite map_bytes_compose. apply map_bytes_ext, lower_upper.
Qed.
Lemma to_upper_idemp s : to_ascii_uppercase (to_ascii_uppercase s) = to_ascii_uppercase s.
Proof.
  unfold to_ascii_uppercase. rewrite map_bytes_compose. apply map_bytes_ext, upper_upper.
Qed.
Lemma map_bytes_length f s : String.length (map_bytes f s) = String.length s.
Proof. induction s as [|c s IH]; cbn; [done|]. by rewrite IH. Qed.
Lemma len_upper s : len (to_ascii_uppercase s) = len s.
Proof. unfold len, to_ascii_uppercase. by rewrite map_bytes_length. Qed.

Lemma eq_ignore_ascii_case_refl s : eq_ignore_ascii_case s s = true.
Proof. apply eqb_refl. Qed.
Lemma eq_ignore_ascii_case_sym s t : eq_ignore_ascii_case s t = eq_ignore_ascii_case t s.
Proof. apply eqb_sym. Qed.
Lemma eq_ignore_ascii_case_trans s t u :
  eq_ignore_ascii_case s t = true → eq_ignore_ascii_case t u = true →
  eq_ignore_ascii_case s u = true.
Proof. unfold eq_ignore_ascii_case. intros H1 H2. kbool. by rewrite H1, H2, eqb_refl. Qed.

#[export] Hint Resolve eq_ignore_ascii_case_refl eq_ignore_ascii_case_trans : keychute.

(** Byte classes: what [f] accepts, [g] accepts. *)
Lemma all_bytes_mono (f g : ascii → bool) s :
  (∀ c, f c = true → g c = true) → all_bytes f s = true → all_bytes g s = true.
Proof.
  intros Hfg. induction s as [|c s IH]; cbn; [done|].
  rewrite !andb_true_iff. naive_solver.
Qed.
Lemma contains_char_false c s :
  contains_char c s = false ↔ all_bytes (λ a, negb (eqb c a)) s = true.
Proof. unfold contains_char, any_byte. by rewrite negb_false_iff. Qed.
Lemma contains_char_excluded (f : ascii → bool) c s :
  f c = false → all_bytes f s = true → contains_char c s = false.
Proof.
  intros Hc Hs. apply contains_char_false. revert Hs. apply all_bytes_mono.
  intros a Ha. apply negb_true_iff, bool_decide_eq_false. congruence.
Qed.

(** Graphic ASCII: what [trim] leaves alone. *)
Definition graphic : ascii → bool := in_range "033" "126".

Lemma graphic_not_ws c : graphic c = true →
  ws1 c = false ∧ (∀ d, ws2 c d = false) ∧ (∀ d e, ws3 c d e = false).
Proof.
  intros Hg.
  assert (H : ∀ c, implb (graphic c) (negb (ws1 c || eqb c "194"%char || eqb c "225"%char
             || eqb c "226"%char || eqb c "227"%char)) = true)
    by (apply ascii_all; vm_compute; done).
  specialize (H c). rewrite Hg in H. cbn in H. kbool.
  unfold ws2, ws3, eqb in *. repeat split; intros; repeat case_bool_decide; try congruence; done.
Qed.
Lemma trim_start_graphic c s : graphic c = true → trim_start (String c s) = String c s.
Proof.
  intros (H1 & H2 & H3)%graphic_not_ws. cbn. rewrite H1.
  destruct s as [|b s]; [done|]. rewrite H2. destruct s as [|d s]; [done|]. by rewrite H3.
Qed.
Lemma trim_end_graphic s : all_bytes graphic s = true → trim_end s = s.
Proof.
  induction s as [|c s IH]; [done|]. intros Hs. cbn [all_bytes] in Hs. kbool.
  cbn [trim_end]. rewrite trim_start_graphic by done. cbn. by rewrite IH.
Qed.
Lemma trim_graphic s : all_bytes graphic s = true → trim s = s.
Proof.
  intros Hs. unfold trim. destruct s as [|c s]; [done|].
  rewrite trim_start_graphic; [by apply trim_end_graphic|]. cbn in Hs. by kbool.
Qed.

Lemma rsplit_once_none c s : contains_char c s = false → rsplit_once c s = None.
Proof.
  induction s as [|a s IH]; [done|]. rewrite contains_char_cons. intros H. kbool. cbn.
  rewrite IH by done. unfold eqb. by rewrite bool_decide_eq_false_2 by congruence.
Qed.
Lemma rsplit_once_app c s t :
  contains_char c t = false → rsplit_once c (s +:+ String c t) = Some (s, t).
Proof.
  intros Ht. induction s as [|a s IH]; cbn.
  - rewrite rsplit_once_none by done. by rewrite eqb_refl.
  - by rewrite IH.
Qed.

Lemma digit_is_digit n : (n < 10)%N →
  is_ascii_digit (digit n) = true ∧ byte_of (digit n) = (48 + n)%N.
Proof.
  intros Hn. unfold digit, is_ascii_digit, in_range, byte_of.
  rewrite N_ascii_embedding by lia. split; [|done].
  change (N_of_ascii "0") with 48%N. change (N_of_ascii "9") with 57%N.
  apply andb_true_iff. rewrite !N.leb_le. lia.
Qed.

(** [parse] reads back what [Display] prints. *)
Lemma parse_dec_digits fuel n acc :
  (n < 2 ^ N.of_nat fuel)%N →
  parse_digits (dec_digits fuel n acc) 0 = parse_digits acc (Z.of_N n).
Proof.
  revert n acc. induction fuel as [|fuel IH]; intros n acc Hn.
  - cbn in *. by replace n with 0%N by lia.
  - cbn [dec_digits].
    assert (Hm : (n mod 10 < 10)%N) by (apply N.mod_lt; lia).
    pose proof (N.div_mod n 10 ltac:(lia)) as Hdm.
    destruct (digit_is_digit _ Hm) as [Hd Hv].
    destruct (N.ltb_spec n 10).
    + cbn. rewrite Hd, Hv. f_equal. rewrite N.mod_small by done. lia.
    + rewrite Nat2N.inj_succ, N.pow_succ_r' in Hn.
      rewrite IH by (apply N.Div0.div_lt_upper_bound; lia).
      cbn. rewrite Hd, Hv. f_equal. clear -Hdm.
      generalize dependent (n `div` 10)%N. generalize (n `mod` 10)%N. intros. lia.
Qed.
Lemma dec_digits_all fuel n acc :
  all_bytes is_ascii_digit acc = true → all_bytes is_ascii_digit (dec_digits fuel n acc) = true.
Proof.
  revert n acc. induction fuel as [|fuel IH]; intros n acc Ha; [done|]. cbn [dec_digits].
  assert (H : all_bytes is_ascii_digit (String (digit (n mod 10)) acc) = true).
  { cbn. rewrite Ha, (proj1 (digit_is_digit _ (N.mod_lt n 10 ltac:(lia)))). done. }
  destruct (n <? 10)%N; [done|]. by apply IH.
Qed.
Lemma dec_digits_cons fuel n acc : ∃ c s, dec_digits (S fuel) n acc = String c s.
Proof.
  revert n acc. induction fuel as [|fuel IH]; intros n acc; cbn [dec_digits];
    (destruct (n <? 10)%N; [by do 2 eexists|]); [by do 2 eexists|]. apply IH.
Qed.
Lemma N_to_string_digits n : all_bytes is_ascii_digit (N_to_string n) = true.
Proof. by apply dec_digits_all. Qed.
Lemma parse_N_to_string n : parse_digits (N_to_string n) 0 = Some (Z.of_N n).
Proof.
  unfold N_to_string. rewrite parse_dec_digits; [done|].
  rewrite Nat2N.inj_succ, N2Nat.id.
  destruct (N.eq_dec n 0%N) as [->|]; [done|]. apply N.log2_spec. lia.
Qed.
Lemma parse_uint_Z_to_string m z :
  (0 ≤ z ≤ m)%Z → parse_uint m (Z_to_string z) = Some z.
Proof.
  intros Hz. unfold Z_to_string, parse_uint.
  destruct (Z.ltb_spec z 0); [lia|].
  pose proof (N_to_string_digits (Z.to_N z)) as Hd.
  pose proof (parse_N_to_string (Z.to_N z)) as Hp.
  destruct (dec_digits_cons (N.to_nat (N.log2 (Z.to_N z))) (Z.to_N z) "") as (c & s & Hs).
  unfold N_to_string in *. rewrite Hs in *. cbn [all_bytes] in Hd. kbool.
  rewrite Z2N.id in Hp by lia.
  assert (Hc : c ≠ "+"%char) by (intros ->; discriminate).
  assert (Hm : (if (z <=? m)%Z then Some z else None) = Some z)
    by (destruct (Z.leb_spec z m); [done|lia]).
  destruct c as [[] [] [] [] [] [] [] []]; try (rewrite Hp; exact Hm). by destruct Hc.
Qed.
Lemma Z_to_string_digits z : (0 ≤ z)%Z → all_bytes is_ascii_digit (Z_to_string z) = true.
Proof.
  intros. unfold Z_to_string. destruct (Z.ltb_spec z 0); [lia|]. apply N_to_string_digits.
Qed.

Lemma lower_idemp c : lower_byte (lower_byte c) = lower_byte c.
Proof.
  assert (H : ∀ c, eqb (lower_byte (lower_byte c)) (lower_byte c) = true)
    by (apply ascii_all; vm_compute; done).
  specialize (H c). by kbool.
Qed.
Lemma to_lower_idemp s : to_ascii_lowercase (to_ascii_lowercase s) = to_ascii_lowercase s.
Proof.
  unfold to_ascii_lowercase. rewrite map_bytes_compose. apply map_bytes_ext, lower_idemp.
Qed.
(** Lower-casing commutes with trimming a byte that is not a letter. *)
Lemma lower_trim_end_matches c s :
  (∀ a, lower_byte a = c ↔ a = c) →
  trim_end_matches c (to_ascii_lowercase s) = to_ascii_lowercase (trim_end_matches c s).
Proof.
  intros Hc. unfold to_ascii_lowercase. induction s as [|a s IH]; [done|].
  cbn [map_bytes trim_end_matches]. rewrite IH.
  destruct (trim_end_matches c s) as [|b r]; [cbn|done].
  replace (eqb (lower_byte a) c) with (eqb a c); [by destruct (eqb a c)|].
  apply bool_decide_ext. by rewrite Hc.
Qed.

(** Splitting at a separator that is there, and joining the pieces back. *)
Lemma split_app c s t : split c (s +:+ String c t) = (split c s ++ split c t)%list.
Proof.
  induction s as [|a s IH]; cbn; [by rewrite eqb_refl|].
  destruct (eqb a c); [by rewrite IH|].
  rewrite IH. pose proof (split_not_nil c s). by destruct (split c s).
Qed.
Lemma join_app c l k : l ≠ [] → k ≠ [] → join c (l ++ k)%list = join c l +:+ String c (join c k).
Proof.
  intros Hl Hk. induction l as [|x l IH]; [done|].
  destruct l as [|y l].
  - cbn. by destruct k.
  - change (join c ((x :: y :: l) ++ k)%list) with (x +:+ String c (join c ((y :: l) ++ k)%list)).
    rewrite IH by done. cbn [join]. by rewrite string_app_assoc.
Qed.

(** The byte-wise order of strings, as a sort key. *)
Definition bytes_key (s : string) : list Z :=
  map (λ c, Z.of_N (byte_of c)) (list_ascii_of_string s).
Lemma bytes_key_inj s t : bytes_key s = bytes_key t → s = t.
Proof.
  unfold bytes_key, byte_of. revert t. induction s as [|a s IH]; intros [|b t]; cbn; try done.
  intros [= Hab Hst]. apply N2Z.inj, (f_equal ascii_of_N) in Hab.
  rewrite !ascii_N_embedding in Hab. subst b. by rewrite (IH _ Hst).
Qed.

(** Decimal texts determine their number. *)
Lemma N_to_string_inj n m : N_to_string n = N_to_string m → n = m.
Proof.
  intros E. apply N2Z.inj. pose proof (parse_N_to_string n) as H1.
  rewrite E, parse_N_to_string in H1. by injection H1.
Qed.
Lemma N_to_string_head n : ∃ c r, N_to_string n = String c r ∧ is_ascii_digit c = true.
Proof.
  pose proof (N_to_string_digits n) as Hd.
  destruct (dec_digits_cons (N.to_nat (N.log2 n)) n "") as (c & r & E).
  unfold N_to_string in *. rewrite E in *. cbn in Hd. kbool. by exists c, r.
Qed.
Lemma Z_to_string_inj z z' : Z_to_string z = Z_to_string z' → z = z'.
Proof.
  unfold Z_to_string.
  destruct (Z.ltb_spec z 0), (Z.ltb_spec z' 0); intros E.
  - injection E as E%N_to_string_inj. lia.
  - destruct (N_to_string_head (Z.to_N z')) as (c & r & Hr & Hc).
    rewrite Hr in E. injection E as <- _. done.
  - destruct (N_to_string_head (Z.to_N z)) as (c & r & Hr & Hc).
    rewrite Hr in E. injection E as -> _. done.
  - apply N_to_string_inj in E. lia.
Qed.

(** Reading past the first occurrence of a separator. *)
Lemma app_sep_inj c s t x y :
  contains_char c s = false → contains_char c t = false →
  s +:+ String c x = t +:+ String c y → s = t ∧ x = y.
Proof.
  revert t. induction s as [|a s IH]; intros [|b t]; cbn [String.append];
    rewrite ?contains_char_cons; intros Hs Ht E.
  - by injection E.
  - injection E as <- _. by rewrite eqb_refl in Ht.
  - injection E as -> _. by rewrite eqb_refl in Hs.
  - injection E as -> E. kbool. by destruct (IH t) as [-> ->].
Qed.

Lemma length_append s t : String.length (s +:+ t) = (String.length s + String.length t)%nat.
Proof. induction s as [|a s IH]; cbn; [done|]. by rewrite IH. Qed.
Lemma len_nonneg s : (0 ≤ len s)%Z.
Proof. unfold len. lia. Qed.
Lemma len_append s t : len (s +:+ t) = (len s + len t)%Z.
Proof. unfold len. rewrite length_append. lia. Qed.
Lemma substring_all s : String.substring 0 (String.length s) s = s.
Proof. induction s as [|a s IH]; cbn; [done|]. by rewrite IH. Qed.
Lemma substring_app p s : String.substring (String.length p) (String.length s) (p +:+ s) = s.
Proof. induction p as [|a p IH]; cbn; [apply substring_all|exact IH]. Qed.
Lemma strip_prefix_app p s : strip_prefix p (p +:+ s) = Some s.
Proof.
  unfold strip_prefix. rewrite (proj2 (starts_with_spec p (p +:+ s))) by by exists s.
  rewrite length_append, Nat.add_comm, Nat.add_sub. by rewrite substring_app.
Qed.

(** [uuid]'s text: [Display] is the hyphenated lower-case form, and
    [Uuid::parse_str] reads it back. *)
Definition uuid_char (c : ascii) : bool :=
  is_ascii_digit c || in_range "a" "f" c || eqb c "-"%char.
Class UuidText := {
  uuid_display : Uuid → string;
  uuid_parse : string → option Uuid;
  uuid_display_chars : ∀ u,
    uuid_display u ≠ "" ∧ all_bytes uuid_char (uuid_display u) = true;
  uuid_parse_display : ∀ u, uuid_parse (uuid_display u) = Some u
}.
Lemma uuid_display_inj `{UuidText} u v : uuid_display u = uuid_display v → u = v.
Proof.
  intros E. pose proof (uuid_parse_display u) as Hu.
  rewrite E, uuid_parse_display in Hu. congruence.
Qed.
Lemma uuid_display_excludes `{UuidText} c u :
  uuid_char c = false → contains_char c (uuid_display u) = false.
Proof.
  intros Hc. destruct (uuid_display_chars u) as [_ Hu].
  by apply (contains_char_excluded uuid_char).
Qed.
