(* ===== verification/RustText.v ===== *)
(** More of Rust's text functions: [str::lines], and what trimming and splitting
    leave alone, strings without whitespace above all. *)

From S2P Require Import Prelude RustStr.
Open Scope string_scope.

(** [str::lines]: without the line ends, and no empty last line. *)
Definition strip_cr (s : string) : string :=
  match rsplit_once CR s with Some (line, "") => line | _ => s end.
Fixpoint line_list (parts : list string) : list string :=
  match parts with
  | [] => []
  | [last] => if eqb last "" then [] else [last]
  | line :: parts => strip_cr line :: line_list parts
  end.
Definition lines (s : string) : list string := line_list (split LF s).

(** ** Whitespace *)

(** A whitespace character at the head of a string, and strings without any. *)
Definition ws_at (s : string) : bool :=
  match s with
  | "" => false
  | String a r =>
      ws1 a || match r with
               | "" => false
               | String b r2 =>
                   ws2 a b || match r2 with "" => false | String c _ => ws3 a b c end
               end
  end.
Fixpoint solid (s : string) : bool :=
  match s with "" => true | String _ r => negb (ws_at s) && solid r end.

Lemma trim_start_id s : ws_at s = false → trim_start s = s.
Proof.
  destruct s as [|a r]; [done|]. cbn. intros H; kbool.
  rewrite H. destruct r as [|b r2]; [done|]. kbool. rewrite H0. destruct r2 as [|c r3]; [done|].
  kbool. by rewrite H1.
Qed.

Lemma trim_start_no_ws s : ws_at (trim_start s) = false.
Proof.
  remember (String.length s) as n eqn:Hn. revert s Hn.
  induction n as [n IH] using lt_wf_ind. intros s Hn.
  destruct s as [|a r]; [done|]. cbn in Hn |- *. destruct (ws1 a) eqn:E1.
  { apply (IH (String.length r)); [lia|done]. }
  destruct r as [|b r2]; [cbn; by rewrite E1|]. cbn in Hn. destruct (ws2 a b) eqn:E2.
  { apply (IH (String.length r2)); [lia|done]. }
  destruct r2 as [|c r3]; [cbn; by rewrite E1, E2|]. cbn in Hn. destruct (ws3 a b c) eqn:E3.
  { apply (IH (String.length r3)); [lia|done]. }
  cbn. by rewrite E1, E2, E3.
Qed.

Lemma trim_end_cons a r :
  trim_end (String a r) = if eqb (trim_start (String a r)) "" then "" else String a (trim_end r).
Proof. done. Qed.
Lemma trim_end_empty s : trim_end s = "" → trim_start s = "".
Proof.
  destruct s as [|a r]; [done|]. rewrite trim_end_cons.
  destruct (eqb _ "") eqn:E; [by kbool|done].
Qed.

(** What [trim_end] leaves is a prefix, so it has no new whitespace in front. *)
Lemma trim_end_no_ws s : ws_at s = false → ws_at (trim_end s) = false.
Proof.
  destruct s as [|a r]; [done|]. rewrite trim_end_cons. destruct (eqb _ ""); [done|].
  cbn [ws_at]. intros HH; apply orb_false_iff in HH as [-> HH]. cbn [orb].
  destruct r as [|b r2]; [done|]. rewrite trim_end_cons. destruct (eqb _ ""); [done|].
  apply orb_false_iff in HH as [-> HH]. cbn [orb].
  destruct r2 as [|c r3]; [done|]. rewrite trim_end_cons. by destruct (eqb _ "").
Qed.

Lemma trim_start_end s : trim_start (trim_end s) = "" → trim_end s = "".
Proof.
  remember (String.length s) as n eqn:Hn. revert s Hn.
  induction n as [n IH] using lt_wf_ind. intros s Hn.
  destruct s as [|a r]; [done|]. rewrite trim_end_cons. cbn in Hn.
  destruct (eqb _ "") eqn:E; [done|]. kbool. intros Ht. exfalso. apply E. clear E.
  assert (Hgo : ∀ t, (String.length t < n)%nat → trim_start (trim_end t) = "" → trim_start t = "").
  { intros t Hlt Htt. apply trim_end_empty. by apply (IH (String.length t) ltac:(lia) t eq_refl). }
  cbn in Ht |- *. destruct (ws1 a); [apply Hgo; [lia|done]|].
  destruct r as [|b r2]; [done|]. cbn in Hn. rewrite trim_end_cons in Ht.
  destruct (eqb _ ""); [done|]. destruct (ws2 a b); [apply Hgo; [lia|done]|].
  destruct r2 as [|c r3]; [done|]. cbn in Hn. rewrite trim_end_cons in Ht.
  destruct (eqb _ ""); [done|]. destruct (ws3 a b c); [apply Hgo; [lia|done]|done].
Qed.

Lemma trim_end_idemp s : trim_end (trim_end s) = trim_end s.
Proof.
  induction s as [|a r IH]; [done|]. rewrite trim_end_cons.
  destruct (eqb (trim_start (String a r)) "") eqn:E; [done|].
  assert (Ee : trim_end (String a r) = String a (trim_end r)).
  { rewrite trim_end_cons, E. reflexivity. }
  rewrite trim_end_cons.
  destruct (eqb (trim_start (String a (trim_end r))) "") eqn:E2; [|by rewrite IH].
  kbool. rewrite <-Ee in E2. apply trim_start_end in E2. rewrite Ee in E2. discriminate E2.
Qed.

Lemma trim_idemp s : trim (trim s) = trim s.
Proof.
  unfold trim. rewrite (trim_start_id (trim_end _)); [apply trim_end_idemp|].
  apply trim_end_no_ws, trim_start_no_ws.
Qed.

Lemma solid_trim s : solid s = true → trim s = s.
Proof.
  intros Hs. unfold trim. rewrite trim_start_id.
  2:{ destruct s; [done|]. cbn [solid] in Hs. by kbool. }
  induction s as [|a r IH]; [done|]. cbn [solid] in Hs. apply andb_true_iff in Hs as [Ha Hr].
  apply negb_true_iff in Ha. rewrite trim_end_cons, (trim_start_id _ Ha). cbn [eqb bool_decide].
  by rewrite IH.
Qed.

(** An ASCII byte that is no whitespace neither is nor starts a whitespace
    character. *)
Definition low (a : ascii) : bool := (byte_of a <? 128)%N && negb (ws1 a).
Lemma ws_second a b : ws2 a b = true → low a = false ∧ low b = false.
Proof.
  unfold ws2. intros (Ha & Hb)%andb_true_iff. kbool. subst a. split; [done|].
  apply orb_true_iff in Hb as [Hb|Hb]; kbool; by subst b.
Qed.
Lemma ws_third a b c : ws3 a b c = true → low a = false ∧ low b = false ∧ low c = false.
Proof.
  unfold ws3. rewrite !orb_true_iff, !andb_true_iff, !orb_true_iff.
  assert (Hr : in_range "128" "138" c = true → low c = false).
  { intros HH. destruct c as [[] [] [] [] [] [] [] []]; vm_compute in HH |- *; congruence. }
  intros HH. destruct_or?; destruct_and?; destruct_or?; kbool; subst; auto.
Qed.
Lemma ws_at_low a r : low a = true → ws_at (String a r) = false.
Proof.
  intros Ha. cbn. pose proof Ha as Ha'. unfold low in Ha'. kbool. rewrite H0. cbn [orb].
  destruct r as [|b r2]; [done|]. destruct (ws2 a b) eqn:E2.
  { apply ws_second in E2 as [E2 _]. congruence. }
  cbn [orb]. destruct r2 as [|c r3]; [done|]. destruct (ws3 a b c) eqn:E3; [|done].
  apply ws_third in E3 as [E3 _]. congruence.
Qed.
Lemma solid_low a r : low a = true → solid (String a r) = solid r.
Proof. intros Ha. cbn [solid]. by rewrite (ws_at_low _ _ Ha). Qed.
Lemma solid_all_low s : all_bytes low s = true → solid s = true.
Proof.
  induction s as [|a r IH]; [done|]. cbn [all_bytes]. intros [Ha Hr]%andb_true_iff.
  rewrite solid_low by done. auto.
Qed.
Lemma solid_app_low s t : all_bytes low s = true → solid (s +:+ t) = solid t.
Proof.
  induction s as [|a s IH]; [done|]. cbn [all_bytes String.append]. intros [Ha Hs]%andb_true_iff.
  rewrite solid_low by done. auto.
Qed.
Lemma solid_excludes c s : ws1 c = true → solid s = true → contains_char c s = false.
Proof.
  intros Hc. induction s as [|a r IH]; [done|]. cbn [solid]. intros [Ha Hr]%andb_true_iff.
  rewrite contains_char_cons, IH, orb_false_r by done. apply negb_true_iff in Ha.
  destruct (eqb c a) eqn:E; [|done]. kbool. subst c. cbn in Ha. by rewrite Hc in Ha.
Qed.

(** ** Lines *)
Lemma split_join c l :
  l ≠ [] → (∀ x, x ∈ l → contains_char c x = false) → split c (join c l) = l.
Proof.
  induction l as [|x l IH]; [done|]. intros _ Hl.
  assert (Hx : split c x = [x]).
  { assert (Hn : contains_char c x = false) by (apply Hl; by left). clear -Hn.
    induction x as [|a x IH]; [done|]. rewrite contains_char_cons in Hn.
    apply orb_false_iff in Hn as [Hc Hn]. cbn [split]. rewrite eqb_sym, Hc. by rewrite IH. }
  destruct l as [|y l]; [done|]. change (join c (x :: y :: l)) with (x +:+ String c (join c (y :: l))).
  rewrite split_app, Hx, IH; [done|done|]. intros z Hz. apply Hl. by right.
Qed.
Lemma split_path l :
  (∀ x, x ∈ l → contains_char "/" x = false) → l ≠ [] → split "/" (join "/" l) = l.
Proof. intros Hl Hne. by apply split_join. Qed.
Lemma uuid_segment `{UuidText} id : contains_char "/" (uuid_display id) = false ∧ eqb (uuid_display id) "" = false.
Proof.
  destruct (uuid_display_chars id) as [Hne Hc]. split.
  - by apply (contains_char_excluded uuid_char).
  - unfold eqb. by apply bool_decide_eq_false_2.
Qed.
Lemma split_join_lf l :
  l ≠ [] → (∀ x, x ∈ l → contains_char LF x = false) → split LF (join LF l) = l.
Proof. apply split_join. Qed.

Lemma line_list_solid l :
  (∀ x, x ∈ l → solid x = true ∧ x ≠ "") → line_list l = l.
Proof.
  induction l as [|x l IH]; [done|]. intros Hl. destruct (Hl x ltac:(by left)) as [Hx Hne].
  destruct l as [|y l].
  - cbn. destruct (eqb x "") eqn:E; [by kbool|done].
  - change (line_list (x :: y :: l)) with (strip_cr x :: line_list (y :: l)).
    rewrite IH by (intros z Hz; apply Hl; by right). f_equal.
    unfold strip_cr. destruct (rsplit_once CR x) as [[h t]|] eqn:E; [|done].
    exfalso. pose proof (solid_excludes CR x eq_refl Hx) as Hn.
    rewrite rsplit_once_none in E by done. done.
Qed.

Lemma lines_join l :
  (∀ x, x ∈ l → solid x = true ∧ x ≠ "") → lines (join LF l) = l.
Proof.
  intros Hl. unfold lines. destruct l as [|x l]; [done|].
  rewrite split_join_lf; [by apply line_list_solid|done|].
  intros y Hy. apply solid_excludes; [done|]. by apply Hl.
Qed.
