(* ===== verification/Slots.v ===== *)
(** [server/src/state.rs]: the per-client concurrency slots of the long poll and
    of the proxy, and that their counters agree with the guards held. *)

From S2P Require Import Prelude.
Open Scope string_scope.

Definition Slots : Type := gmap string Z.
(** The counts after the attempt, and whether a slot was taken. *)
Definition try_take_slot (cap : Z) (client : string) (counts : Slots) : Slots * bool :=
  let n := default 0%Z (counts !! client) in
  let counts := <[client := n]> counts in
  if (cap <=? n)%Z then (counts, false) else (<[client := (n + 1)%Z]> counts, true).
(** [Drop for SlotGuard]: a count at zero is removed. *)
Definition drop_slot (client : string) (counts : Slots) : Slots :=
  match counts !! client with
  | Some n =>
      let n := Z.max 0 (n - 1) in
      if Z.eqb n 0 then delete client counts else <[client := n]> counts
  | None => counts
  end.

(** ** Runs

    The counts, and the clients whose guards are alive, newest first: guards are
    taken and dropped by any client in any order, one under the lock at a time. *)
Section Runs.
Context (cap : Z).

Inductive slots_run : Slots → list string → Prop :=
| slots_start : slots_run ∅ []
| slots_take counts held client counts' (taken : bool) :
    slots_run counts held → try_take_slot cap client counts = (counts', taken) →
    slots_run counts' (if taken then client :: held else held)
| slots_drop counts before client after :
    slots_run counts (before ++ client :: after) →
    slots_run (drop_slot client counts) (before ++ after).

Definition holds (held : list string) (client : string) : Z :=
  Z.of_nat (length (List.filter (eqb client) held)).
(** The counters are the guards held, under the cap, and (but for a cap of zero)
    only clients that hold one have an entry. *)
Record slots_inv (counts : gmap string Z) (held : list string) : Prop := mk_slots_inv {
  si_count : ∀ c, default 0%Z (counts !! c) = holds held c;
  si_cap : ∀ c, (holds held c ≤ cap)%Z;
  si_tight : (0 < cap)%Z → ∀ c n, counts !! c = Some n → (0 < n)%Z
}.

Lemma holds_cons c d held :
  holds (d :: held) c = (holds held c + if eqb c d then 1 else 0)%Z.
Proof. unfold holds. cbn. destruct (eqb c d); cbn [length]; lia. Qed.
Lemma holds_middle c before d after :
  holds (before ++ d :: after) c = holds (d :: before ++ after) c.
Proof. unfold holds. cbn. rewrite !List.filter_app. cbn. destruct (eqb c d); rewrite ?length_app; cbn; rewrite ?length_app; lia. Qed.
Lemma holds_nonneg held c : (0 ≤ holds held c)%Z.
Proof. unfold holds. lia. Qed.
Lemma eqb_self (c : string) : eqb c c = true.
Proof. apply eqb_refl. Qed.

Lemma take_inv counts held client counts' (taken : bool) :
  (0 ≤ cap)%Z → slots_inv counts held → try_take_slot cap client counts = (counts', taken) →
  slots_inv counts' (if taken then client :: held else held).
Proof.
  intros Hcap [Hc Hm Ht]. unfold try_take_slot, Slots in *. pose proof (holds_nonneg held client) as Hpos.
  destruct (_ <=? _)%Z eqn:E; [apply Z.leb_le in E|apply Z.leb_gt in E]; intros [= <- <-]; split.
  - intros c. destruct (decide (client = c)) as [->|?].
    + by rewrite lookup_insert_eq, <-Hc.
    + by rewrite lookup_insert_ne.
  - done.
  - intros Hp c n. rewrite lookup_insert_Some. intros [[<- <-]|[_ Hl]]; [lia|by eapply Ht].
  - intros c. rewrite holds_cons. destruct (decide (client = c)) as [->|Hne].
    + by rewrite eqb_self, lookup_insert_eq, <-Hc.
    + rewrite !lookup_insert_ne, Hc by done. unfold eqb. rewrite bool_decide_false by congruence. lia.
  - intros c. rewrite holds_cons. destruct (eqb c client) eqn:Ec; [|rewrite Z.add_0_r; apply Hm].
    kbool. subst c. rewrite Hc in E. lia.
  - intros Hp c n. rewrite lookup_insert_Some, lookup_insert_Some.
    intros [[<- <-]|[Hne [[-> _]|[_ Hl]]]]; [|done|by eapply Ht]. rewrite Hc. lia.
Qed.

Lemma drop_inv counts before client after :
  slots_inv counts (before ++ client :: after) →
  slots_inv (drop_slot client counts) (before ++ after).
Proof.
  unfold Slots in *. intros [Hc Hm Ht].
  assert (Hh : ∀ c, holds (before ++ client :: after) c
                    = (holds (before ++ after) c + if eqb c client then 1 else 0)%Z).
  { intros c. by rewrite holds_middle, holds_cons. }
  pose proof (holds_nonneg (before ++ after) client) as Hpos.
  pose proof (Hc client) as Hn. rewrite Hh, eqb_self in Hn. unfold drop_slot, Slots in *.
  destruct (counts !! client) as [n|] eqn:El; cbn [from_option] in Hn; [|lia]. change (id n) with n in Hn. subst n.
  assert (Hcap : ∀ c, (holds (before ++ after) c ≤ cap)%Z).
  { intros c. pose proof (Hm c) as HH. rewrite Hh in HH. destruct (eqb c client); lia. }
  replace (Z.max 0 _) with (holds (before ++ after) client) by lia.
  assert (Hother : ∀ c, c ≠ client → default 0%Z (counts !! c) = holds (before ++ after) c).
  { intros c Hne. rewrite Hc, Hh. unfold eqb. rewrite bool_decide_false by done. lia. }
  destruct (Z.eqb_spec (holds (before ++ after) client) 0) as [E|E]; split; try done.
  - intros c. destruct (decide (c = client)) as [->|?].
    + by rewrite lookup_delete_eq, E.
    + rewrite lookup_delete_ne by done. by apply Hother.
  - intros Hp c n. rewrite lookup_delete_Some. intros [_ Hl]. by eapply Ht.
  - intros c. destruct (decide (c = client)) as [->|?].
    + by rewrite lookup_insert_eq.
    + rewrite lookup_insert_ne by done. by apply Hother.
  - intros Hp c n. rewrite lookup_insert_Some. intros [[<- <-]|[_ Hl]]; [lia|by eapply Ht].
Qed.

Lemma slots_run_inv counts held :
  (0 ≤ cap)%Z → slots_run counts held → slots_inv counts held.
Proof.
  intros Hcap. induction 1 as [|????? _ IH Ht|???? _ IH].
  - split; [done| |]; [|by intros _ c n]. intros c. unfold holds. cbn. lia.
  - by eapply take_inv.
  - by apply drop_inv.
Qed.
End Runs.


