(* ===== verification/NetAddr.v ===== *)
(** The parts of [std::net] the configuration is checked with: [IpAddr] and
    [SocketAddr] read from text, and whether an address is a loopback one. *)

From S2P Require Import Prelude RustStr.
Open Scope string_scope.

(** ** The standard library's address parser

    A parser takes a value off the front of the text, or fails without moving. *)
Definition Parser (A : Type) : Type := string → option (A * string).
#[local] Instance Parser_ret : MRet Parser := λ A a s, Some (a, s).
#[local] Instance Parser_bind : MBind Parser := λ A B f m s,
  match m s with Some (a, s') => f a s' | None => None end.
Definition failed {A} : Parser A := λ s, None.
Definition read_given_char (c : ascii) : Parser unit := λ s,
  match s with
  | String a r => if eqb a c then Some (tt, r) else None
  | "" => None
  end.
Definition read_separator {A} (sep : ascii) (index : nat) (p : Parser A) : Parser A :=
  match index with O => p | S _ => _ ← read_given_char sep; p end.

(** [char::to_digit] *)
Definition to_digit (radix : Z) (c : ascii) : option Z :=
  let n := Z.of_N (byte_of c) in
  let d := if is_ascii_digit c then Some (n - 48)%Z
           else if is_ascii_lowercase c then Some (n - 87)%Z
           else if is_ascii_uppercase c then Some (n - 55)%Z
           else None in
  d ← d; if (d <? radix)%Z then Some d else None.
(** The value and count of the digits on the front; [None] above [max]. *)
Fixpoint digits (radix max : Z) (s : string) (acc count : Z) : option (Z * Z * string) :=
  match s with
  | String c r =>
      match to_digit radix c with
      | Some d =>
          let acc := (acc * radix + d)%Z in
          if (max <? acc)%Z then None else digits radix max r acc (count + 1)
      | None => Some (acc, count, s)
      end
  | "" => Some (acc, count, s)
  end.
Definition read_number (radix max : Z) (max_digits : option Z) (allow_zero_prefix : bool)
  : Parser Z := λ s,
  '(n, count, r) ← digits radix max s 0 0;
  if (count =? 0)%Z then None
  else if match max_digits with Some m => (m <? count)%Z | None => false end then None
  else if negb allow_zero_prefix && starts_with "0" s && (1 <? count)%Z then None
  else Some (n, r).

Definition read_ipv4_addr : Parser (list Z) :=
  let octet i := read_separator "." i (read_number 10 255 (Some 3%Z) false) in
  a ← octet 0%nat; b ← octet 1%nat; c ← octet 2%nat; d ← octet 3%nat; mret [a; b; c; d].

(** Groups of an IPv6 address from the [index]-th, at most [limit]; whether they
    ended with an embedded IPv4 address. *)
Fixpoint read_groups (limit index : nat) (s : string) : list Z * bool * string :=
  match limit with
  | O => ([], false, s)
  | S rest =>
      let group :=
        match read_separator ":" index (read_number 16 u16_MAX (Some 4%Z) true) s with
        | Some (g, s') =>
            let '(gs, v4, s'') := read_groups rest (S index) s' in (g :: gs, v4, s'')
        | None => ([], false, s)
        end in
      match rest with
      | O => group
      | S _ =>
          match read_separator ":" index read_ipv4_addr s with
          | Some ([a; b; c; d], s') => ([(a * 256 + b)%Z; (c * 256 + d)%Z], true, s')
          | _ => group
          end
      end
  end.
Definition read_ipv6_addr : Parser (list Z) := λ s,
  let '(head, head_ipv4, s1) := read_groups 8 0 s in
  if (length head =? 8)%nat then Some (head, s1)
  else if head_ipv4 then None
  else
    '(_, s2) ← (_ ← read_given_char ":"; read_given_char ":") s1;
    let limit := (8 - (length head + 1))%nat in
    let '(tail, _, s3) := read_groups limit 0 s2 in
    Some ((head ++ repeat 0%Z (8 - length head - length tail) ++ tail)%list, s3).

(** [IpAddr]: octets, or groups. *)
Inductive IpAddr := V4 (octets : list Z) | V6 (groups : list Z).
Definition read_ip_addr : Parser IpAddr := λ s,
  match read_ipv4_addr s with
  | Some (a, r) => Some (V4 a, r)
  | None => '(g, r) ← read_ipv6_addr s; Some (V6 g, r)
  end.
(** A parser that must consume the text. *)
Definition parse_with {A} (p : Parser A) (s : string) : option A :=
  '(a, r) ← p s; if eqb r "" then Some a else None.
Definition parse_ip_addr : string → option IpAddr := parse_with read_ip_addr.

Definition read_port : Parser Z :=
  _ ← read_given_char ":"; read_number 10 u16_MAX None true.
Definition read_scope_id : Parser unit := λ s,
  match (_ ← read_given_char "%"; read_number 10 (2 ^ 32 - 1) None true) s with
  | Some (_, r) => Some (tt, r)
  | None => Some (tt, s)
  end.
Definition read_socket_addr_v4 : Parser (IpAddr * Z) :=
  a ← read_ipv4_addr; port ← read_port; mret (V4 a, port).
Definition read_socket_addr_v6 : Parser (IpAddr * Z) :=
  _ ← read_given_char "["; g ← read_ipv6_addr; _ ← read_scope_id; _ ← read_given_char "]";
  port ← read_port; mret (V6 g, port).
Definition parse_socket_addr (s : string) : option (IpAddr * Z) :=
  parse_with (λ s, match read_socket_addr_v4 s with
                   | Some x => Some x
                   | None => read_socket_addr_v6 s
                   end) s.

Definition is_loopback (a : IpAddr) : bool :=
  match a with
  | V4 (a :: _) => (a =? 127)%Z
  | V4 [] => false
  | V6 g => eqb g [0; 0; 0; 0; 0; 0; 0; 1]%Z
  end.

Example loopback_texts :
  map (λ s, is_loopback <$> parse_ip_addr s)
    ["127.0.0.1"; "127.9"; "::1"; "0:0::0001"; "::127.0.0.1"; "10.0.0.1"; "localhost"]
  = [Some true; None; Some true; Some true; Some false; Some false; None].
Proof. reflexivity. Qed.
Example socket_texts :
  map (λ s, (λ a, is_loopback a.1) <$> parse_socket_addr s)
    ["127.0.0.1:8443"; "[::1%2]:80"; "0.0.0.0:8443"; "127.0.0.1"; "127.0.0.1:65536"; "::1:80"]
  = [Some true; Some true; Some false; None; None; None].
Proof. reflexivity. Qed.
