(* ===== verification/Json.v ===== *)
(** [serde_json::Value], as far as the program uses it: the data type, object
    access, and the encodings its [derive]s generate for scalar fields.  An
    object is the entry list of its [BTreeMap]: in key order, without
    duplicates ([obj] builds it so). *)

From S2P Require Import Prelude RustStr.
Open Scope string_scope.

Inductive number :=
| NInt (z : Z)
| NFloat (bits : N).

#[export] Instance number_eq_dec : EqDecision number.
Proof. solve_decision. Defined.

Inductive Value :=
| Null
| Bool (b : bool)
| Number (n : number)
| Str (s : string)
| Array (items : list Value)
| Object (map : list (string * Value)).

(** Induction through the two nested lists. *)
Section ValueInd.
Context (P : Value → Prop)
  (HNull : P Null) (HBool : ∀ b, P (Bool b)) (HNumber : ∀ n, P (Number n))
  (HStr : ∀ s, P (Str s))
  (HArray : ∀ items, Forall P items → P (Array items))
  (HObject : ∀ m, Forall (λ kv, P kv.2) m → P (Object m)).

Fixpoint Value_nested_ind (v : Value) : P v :=
  match v with
  | Null => HNull
  | Bool b => HBool b
  | Number n => HNumber n
  | Str s => HStr s
  | Array items =>
      HArray items ((fix go l : Forall P l :=
        match l with
        | [] => Forall_nil_2 P
        | x :: l => Forall_cons_2 P x l (Value_nested_ind x) (go l)
        end) items)
  | Object m =>
      HObject m ((fix go l : Forall (λ kv, P kv.2) l :=
        match l with
        | [] => Forall_nil_2 _
        | kv :: l => Forall_cons_2 _ kv l (Value_nested_ind kv.2) (go l)
        end) m)
  end.
End ValueInd.

(** Decidable equality: [jsonb = jsonb]. *)
Fixpoint Value_eqb (v w : Value) : bool :=
  match v, w with
  | Null, Null => true
  | Bool a, Bool b => eqb a b
  | Number a, Number b => eqb a b
  | Str a, Str b => eqb a b
  | Array l, Array k =>
      (fix go l k := match l, k with
       | [], [] => true
       | x :: l, y :: k => Value_eqb x y && go l k
       | _, _ => false
       end) l k
  | Object l, Object k =>
      (fix go l k := match l, k with
       | [], [] => true
       | (i, x) :: l, (j, y) :: k => eqb i j && Value_eqb x y && go l k
       | _, _ => false
       end) l k
  | _, _ => false
  end.

Lemma Value_eqb_eq v w : Value_eqb v w = true ↔ v = w.
Proof.
  revert w. induction v as [|b|n|s|l IH|m IH] using Value_nested_ind; intros [| | | |k|k];
    cbn; try (by split; [done|intros [=]]);
    try (unfold eqb; rewrite bool_decide_eq_true; split; congruence).
  - assert (H : ∀ k, (fix go l k := match l, k with
       | [], [] => true | x :: l, y :: k => Value_eqb x y && go l k | _, _ => false
       end) l k = true ↔ l = k); [|rewrite H; split; congruence].
    clear k. induction IH as [|x l Hx _ IHl]; intros [|y k]; try (by split; [done|intros [=]]).
    rewrite andb_true_iff, Hx, IHl. split; [by intros [-> ->]|by intros [= -> ->]].
  - assert (H : ∀ k, (fix go l k := match l, k with
       | [], [] => true | (i, x) :: l, (j, y) :: k => eqb i j && Value_eqb x y && go l k
       | _, _ => false end) m k = true ↔ m = k); [|rewrite H; split; congruence].
    clear k. induction IH as [|[i x] l Hx _ IHl]; intros [|[j y] k];
      try (by split; [done|intros [=]]).
    cbn in Hx. rewrite !andb_true_iff, Hx, IHl. unfold eqb. rewrite bool_decide_eq_true.
    split; [by intros [[-> ->] ->]|by intros [= -> -> ->]].
Qed.

#[export] Instance Value_eq_dec : EqDecision Value.
Proof.
  intros v w. destruct (Value_eqb v w) eqn:E; [left|right]; rewrite <-Value_eqb_eq; congruence.
Defined.

(** ** Objects *)
Definition entry_key {A} (kv : string * A) : list Z := bytes_key kv.1.
Definition sort_entries {A} : list (string * A) → list (string * A) := sort_by_key entry_key.

(** [json!({ … })] and the struct serializers. *)
Definition obj (entries : list (string * Value)) : Value := Object (sort_entries entries).

Fixpoint map_get {A} (m : list (string * A)) (k : string) : option A :=
  match m with
  | [] => None
  | (k', v) :: m => if eqb k' k then Some v else map_get m k
  end.
Definition map_remove {A} (m : list (string * A)) (k : string) : list (string * A) :=
  List.filter (λ kv, negb (eqb kv.1 k)) m.
Definition map_update {A} (m : list (string * A)) (k : string) (f : A → A)
  : list (string * A) :=
  map (λ kv, if eqb kv.1 k then (kv.1, f kv.2) else kv) m.

(** [skip_serializing_if = "Option::is_none"] *)
Definition opt_field {A} (k : string) (enc : A → Value) (o : option A)
  : list (string * Value) :=
  match o with Some a => [(k, enc a)] | None => [] end.

Definition int (z : Z) : Value := Number (NInt z).
Definition strs (l : list string) : Value := Array (map Str l).

(** ** Decoding: [None] is a deserialization error *)
Definition as_str (v : Value) : option string :=
  match v with Str s => Some s | _ => None end.
Definition as_array (v : Value) : option (list Value) :=
  match v with Array l => Some l | _ => None end.
Definition as_object (v : Value) : option (list (string * Value)) :=
  match v with Object m => Some m | _ => None end.
(** An unsigned integer field of the given maximum. *)
Definition as_uint (max : Z) (v : Value) : option Z :=
  match v with
  | Number (NInt z) => if (0 <=? z)%Z && (z <=? max)%Z then Some z else None
  | _ => None
  end.
Definition as_strs (v : Value) : option (list string) :=
  l ← as_array v; mapM as_str l.
(** [#[serde(default)] Option<T>]: absent and [null] are [None]. *)
Definition opt_of {A} (dec : Value → option A) (v : option Value) : option (option A) :=
  match v with
  | None | Some Null => Some None
  | Some v => Some <$> dec v
  end.
(** [#[serde(default)] T]. *)
Definition default_of {A} (d : A) (dec : Value → option A) (v : option Value) : option A :=
  match v with None => Some d | Some v => dec v end.

(** ** Lemmas *)
Lemma entry_key_inj {A} (m : list (string * A)) x y :
  NoDup m.*1 → x ∈ m → y ∈ m → entry_key x = entry_key y → x = y.
Proof.
  intros Hnd (i & Hi)%list_elem_of_lookup (j & Hj)%list_elem_of_lookup Hk%bytes_key_inj.
  assert (i = j) as ->; [|congruence].
  eapply (NoDup_lookup m.*1 _ _ x.1); [done|rewrite list_lookup_fmap|rewrite list_lookup_fmap].
  - by rewrite Hi.
  - rewrite Hj. cbn. by rewrite Hk.
Qed.

Lemma sort_entries_ext {A} (m m' : list (string * A)) :
  NoDup m.*1 → m ≡ₚ m' → sort_entries m = sort_entries m'.
Proof.
  intros Hnd Hp. apply sort_by_key_unique; [|done]. intros x y. by apply entry_key_inj.
Qed.

Lemma map_get_elem {A} (m : list (string * A)) k v :
  NoDup m.*1 → map_get m k = Some v ↔ (k, v) ∈ m.
Proof.
  induction m as [|[k' v'] m IH]; cbn; [intros _; split; [done|by intros ?%elem_of_nil]|].
  intros [Hk Hnd]%NoDup_cons. rewrite elem_of_cons.
  destruct (eqb k' k) eqn:E; kbool.
  - subst k'. split; [intros [= <-]; by left|]. intros [[= ->]|Hin]; [done|].
    destruct Hk. apply list_elem_of_fmap. by exists (k, v).
  - rewrite IH by done. naive_solver.
Qed.

Lemma map_get_perm {A} (m m' : list (string * A)) k :
  NoDup m.*1 → m ≡ₚ m' → map_get m k = map_get m' k.
Proof.
  intros Hnd Hp. apply option_eq. intros v.
  rewrite !map_get_elem, Hp; [done| |done]. by rewrite <-Hp.
Qed.

(** Reading a field of a built object. *)
Lemma obj_get {A} (entries : list (string * A)) k :
  NoDup entries.*1 → map_get (sort_entries entries) k = map_get entries k.
Proof.
  intros Hnd. symmetry. apply map_get_perm; [done|].
  symmetry. apply sort_by_key_perm.
Qed.

Lemma mapM_as_str l : mapM as_str (map Str l) = Some l.
Proof. induction l as [|s l IH]; cbn; [done|]. by rewrite IH. Qed.
Lemma as_strs_strs l : as_strs (strs l) = Some l.
Proof. cbn. apply mapM_as_str. Qed.
Lemma as_uint_int max z : (0 ≤ z ≤ max)%Z → as_uint max (int z) = Some z.
Proof.
  intros Hz. cbn. by rewrite (proj2 (Z.leb_le _ _)), (proj2 (Z.leb_le _ _)) by lia.
Qed.
