(* ===== verification/Examples.v ===== *)
(** Concrete instances of the third-party text interfaces, for the examples
    and witnesses of the other files: they show the interfaces can be met. *)

From S2P Require Import Prelude RustStr.
Open Scope string_scope.

(** A self-delimiting frame around any bytes. *)
Fixpoint escape (s : string) : string :=
  match s with
  | "" => String "034" ""
  | String c s =>
      if eqb c "034"%char || eqb c "\"%char then String "\" (String c (escape s))
      else String c (escape s)
  end.
Fixpoint unescape (s : string) : option (string * string) :=
  match s with
  | "" => None
  | String c s =>
      if eqb c "034"%char then Some ("", s)
      else if eqb c "\"%char then
        match s with
        | "" => None
        | String d s => match unescape s with
                        | Some (a, r) => Some (String d a, r)
                        | None => None
                        end
        end
      else match unescape s with
           | Some (a, r) => Some (String c a, r)
           | None => None
           end
  end.

Lemma unescape_escape s x : unescape (escape s +:+ x) = Some (s, x).
Proof.
  induction s as [|a s IH]; cbn [escape].
  - cbn. done.
  - destruct (eqb a "034"%char) eqn:E1; kbool; [subst; cbn; by rewrite IH|].
    destruct (eqb a "\"%char) eqn:E2; kbool; [subst; cbn; by rewrite IH|].
    cbn. unfold eqb. rewrite !bool_decide_eq_false_2 by done. by rewrite IH.
Qed.
Lemma escape_delimited s t x y : escape s +:+ x = escape t +:+ y → s = t ∧ x = y.
Proof.
  intros E. pose proof (unescape_escape s x) as H. rewrite E, unescape_escape in H.
  by injection H.
Qed.

(** A text for [Uuid]: its decimal number. *)
Definition uuid_parse_example (s : string) : option Uuid := Z.to_N <$> parse_digits s 0.
Lemma uuid_example_chars u :
  N_to_string u ≠ "" ∧ all_bytes uuid_char (N_to_string u) = true.
Proof.
  destruct (N_to_string_head u) as (c & r & E & _). split; [by rewrite E|].
  pose proof (N_to_string_digits u) as H. revert H. apply all_bytes_mono.
  intros a Ha. unfold uuid_char. by rewrite Ha.
Qed.
Lemma uuid_example_parse u : uuid_parse_example (N_to_string u) = Some u.
Proof. unfold uuid_parse_example. rewrite parse_N_to_string. cbn. by rewrite N2Z.id. Qed.
Definition uuid_text_example : UuidText := {|
  uuid_display := N_to_string;
  uuid_parse := uuid_parse_example;
  uuid_display_chars := uuid_example_chars;
  uuid_parse_display := uuid_example_parse
|}.
