(* ===== verification/Types.v ===== *)
(** [types/src/lib.rs]: the contract shared by server and client: tiers,
    mechanisms, origins, constraints and the request and grant shapes. *)

From S2P Require Import Prelude RustStr Json.
Open Scope string_scope.

Module Tier.
Inductive t := Brokered | TrustedClient | CooperatingClient | Direct.

#[global] Instance eq_dec : EqDecision t.
Proof. solve_decision. Defined.

Definition as_int (v : t) : Z :=
  match v with Brokered => 0 | TrustedClient => 1 | CooperatingClient => 2 | Direct => 3 end.
Definition from_int (v : Z) : option t :=
  match v with
  | 0 => Some Brokered | 1 => Some TrustedClient
  | 2 => Some CooperatingClient | 3 => Some Direct
  | _ => None
  end%Z.
Definition as_str (v : t) : string :=
  match v with
  | Brokered => "brokered"
  | TrustedClient => "trusted-client"
  | CooperatingClient => "cooperating-client"
  | Direct => "direct"
  end.
Definition human_label (v : t) : string :=
  match v with
  | Brokered => "brokered (tier 0): the client never sees the secret"
  | TrustedClient => "trusted-client (tier 1): deterministic client code handles the secret"
  | CooperatingClient =>
      "cooperating-client (tier 2): code in the agent's own container handles the secret — the agent CAN read it"
  | Direct => "direct (tier 3): the agent itself receives the secret"
  end.
(** The derived [PartialOrd]: [a > b]. *)
Definition gt (a b : t) : bool := (as_int b <? as_int a)%Z.

Lemma from_as_int v : from_int (as_int v) = Some v.
Proof. by destruct v. Qed.
Lemma as_from_int z v : from_int z = Some v ↔ as_int v = z.
Proof.
  split; [|intros <-; apply from_as_int].
  unfold from_int. destruct z as [|[[]| []|]|]; cbn; try done; by intros [= <-].
Qed.
Lemma gt_false a b : gt a b = false ↔ (as_int a ≤ as_int b)%Z.
Proof. unfold gt. rewrite Z.ltb_ge. done. Qed.
End Tier.

Module Mechanism.
Inductive t := Brokered | Autofill | CliRead | DirectRead.

#[global] Instance eq_dec : EqDecision t.
Proof. solve_decision. Defined.

Definition tier (m : t) : Tier.t :=
  match m with
  | Brokered => Tier.Brokered
  | Autofill => Tier.TrustedClient
  | CliRead => Tier.CooperatingClient
  | DirectRead => Tier.Direct
  end.
Definition as_str (m : t) : string :=
  match m with
  | Brokered => "brokered" | Autofill => "autofill"
  | CliRead => "cli-read" | DirectRead => "direct-read"
  end.
Definition from_str_opt (s : string) : option t :=
  if eqb s "brokered" then Some Brokered
  else if eqb s "autofill" then Some Autofill
  else if eqb s "cli-read" then Some CliRead
  else if eqb s "direct-read" then Some DirectRead
  else None.
Definition is_releasing (m : t) : bool :=
  match m with Brokered => false | _ => true end.

Lemma from_as_str m : from_str_opt (as_str m) = Some m.
Proof. by destruct m. Qed.
Lemma as_from_str s m : from_str_opt s = Some m ↔ as_str m = s.
Proof.
  split; [|intros <-; apply from_as_str].
  unfold from_str_opt. intros H. inv_err H; kbool; by injection H as <-.
Qed.
Lemma tier_inj m m' : tier m = tier m' → m = m'.
Proof. by destruct m, m'. Qed.
End Mechanism.

Module RequestState.
Inductive t := Pending | Approved | Denied | Expired.

#[global] Instance eq_dec : EqDecision t.
Proof. solve_decision. Defined.

Definition as_str (s : t) : string :=
  match s with
  | Pending => "pending" | Approved => "approved"
  | Denied => "denied" | Expired => "expired"
  end.
Definition from_str_opt (s : string) : option t :=
  if eqb s "pending" then Some Pending
  else if eqb s "approved" then Some Approved
  else if eqb s "denied" then Some Denied
  else if eqb s "expired" then Some Expired
  else None.

Lemma state_from_as_str s : from_str_opt (as_str s) = Some s.
Proof. by destruct s. Qed.
End RequestState.

(** ** Origins *)
Record Origin := mkOrigin { host : string; port : option Z }.

#[export] Instance Origin_eq_dec : EqDecision Origin.
Proof. solve_decision. Defined.

(** The message text of each [Err] is abstracted to its branch. *)
Inductive OriginError :=
| EmptyOrigin
| NotHostPort
| BadPort
| PortZero
| InvalidHost
| ColonInHost
| NoncanonicalHost.

Definition effective_port (o : Origin) : Z := default 443%Z (port o).
Definition to_display (o : Origin) : string :=
  match port o with
  | Some p => "https://" +:+ host o +:+ ":" +:+ Z_to_string p
  | None => "https://" +:+ host o
  end.
Definition same_target (a b : Origin) : bool :=
  eqb (host a) (host b) && Z.eqb (effective_port a) (effective_port b).

Definition origin_host_char (c : ascii) : bool :=
  is_ascii_alphanumeric c || eqb c "-"%char || eqb c "."%char.

Section OriginParse.
(** [url::Url::parse(s)], as far as the program looks at it: [None] when it
    errs, otherwise its [host_str()]. *)
Variable url_host_str : string → option (option string).

Definition Origin_parse (s : string) : result OriginError Origin :=
  let s := trim s in
  fail_if eqb s "" with EmptyOrigin;
  fail_if contains_char "/" s || contains_char "@" s
          || contains_char "?" s || contains_char "#" s with NotHostPort;
  '(host, port) ←
    match rsplit_once ":" s with
    | Some (h, p) =>
        if negb (contains_char ":" h) then
          port ← ok_or (parse_uint u16_MAX p) BadPort;
          fail_if Z.eqb port 0 with PortZero;
          Ok (h, Some port)
        else Ok (s, None)
    | None => Ok (s, None)
    end;
  let host := to_ascii_lowercase (trim_end_matches "." host) in
  fail_if eqb host "" || contains_char "*" host || negb (all_bytes origin_host_char host)
    with InvalidHost;
  parsed ← ok_or (url_host_str ("https://" +:+ host)) InvalidHost;
  fail_if negb (eqb parsed (Some host)) with NoncanonicalHost;
  Ok (mkOrigin host port).

(** [impl Deserialize for Origin], after serde has read the [{host, port}]
    object shape. *)
Definition Origin_deserialize (raw_host : string) (raw_port : option Z)
  : result OriginError Origin :=
  fail_if contains_char ":" raw_host with ColonInHost;
  fail_if eqb raw_port (Some 0%Z) with PortZero;
  parsed ← Origin_parse raw_host;
  Ok (mkOrigin (host parsed) raw_port).

(** What an accepted origin satisfies. *)
Definition origin_valid (o : Origin) : Prop :=
  host o ≠ ""
  ∧ all_bytes origin_host_char (host o) = true
  ∧ to_ascii_lowercase (host o) = host o
  ∧ trim_end_matches "." (host o) = host o
  ∧ url_host_str ("https://" +:+ host o) = Some (Some (host o))
  ∧ match port o with Some p => (1 ≤ p ≤ u16_MAX)%Z | None => True end.

(** The spelling [Origin_parse] reads back. *)
Definition authority (o : Origin) : string :=
  match port o with
  | Some p => host o +:+ ":" +:+ Z_to_string p
  | None => host o
  end.
End OriginParse.

(** ** Constraints and requests *)
Record Constraints := mkConstraints {
  origins : list Origin;
  methods : list string;
  path_prefixes : list string;
  ttl_seconds : Z;            (* u64 *)
  max_uses : option Z         (* Option<u32> *)
}.

#[export] Instance Constraints_eq_dec : EqDecision Constraints.
Proof. solve_decision. Defined.

Definition RESOLVED_BY_POLICY_AUTO : string := "policy:auto".

(** [AccessRequestStatus] *)
Record AccessRequestStatus := mkStatus {
  st_request_id : Uuid;
  st_state : RequestState.t;
  st_grant_id : option Uuid;
  st_deny_reason : option string;
  st_expires_at : DateTime;
  st_granted_secret_name : option string;
  st_auto_approved : bool
}.

(** [GrantInfo] *)
Record GrantInfo := mkGrantInfo {
  gi_grant_id : Uuid;
  gi_mechanism : Mechanism.t;
  gi_constraints : Constraints;
  gi_not_after : DateTime;
  gi_max_uses : option Z;
  gi_use_count : Z;
  gi_revoked : bool;
  gi_server_time : option DateTime
}.

Module SecretEncoding.
Inductive t := Utf8 | Base64.
End SecretEncoding.

(** [RequestContext], [CreateAccessRequest] *)
Record RequestContext := mkRequestContext {
  reason : string;
  structured : option Value
}.
Record CreateAccessRequest := mkCreateAccessRequest {
  idempotency_key : string;
  secret_name : string;
  mechanism : Mechanism.t;
  constraints : Constraints;
  context : RequestContext
}.

(** ** Serialization: the derived [Serialize] and [Deserialize] *)
Definition u32_MAX : Z := 4294967295.

Definition Origin_to_value (o : Origin) : Value :=
  obj ([("host", Str (host o))] ++ opt_field "port" int (port o)).

Definition Constraints_to_value (k : Constraints) : Value :=
  obj ([("origins", Array (map Origin_to_value (origins k)));
        ("methods", strs (methods k));
        ("path_prefixes", strs (path_prefixes k));
        ("ttl_seconds", int (ttl_seconds k))]
       ++ opt_field "max_uses" int (max_uses k)).

Definition RequestContext_to_value (c : RequestContext) : Value :=
  obj ([("reason", Str (reason c))] ++ opt_field "structured" id (structured c)).

Definition CreateAccessRequest_to_value (r : CreateAccessRequest) : Value :=
  obj [("idempotency_key", Str (idempotency_key r));
       ("secret_name", Str (secret_name r));
       ("mechanism", Str (Mechanism.as_str (mechanism r)));
       ("constraints", Constraints_to_value (constraints r));
       ("context", RequestContext_to_value (context r))].

Section Deserialize.
Variable url_host_str : string → option (option string).

Definition Origin_of_value (v : Value) : option Origin :=
  m ← as_object v;
  h ← map_get m "host" ≫= as_str;
  p ← opt_of (as_uint u16_MAX) (map_get m "port");
  ok (Origin_deserialize url_host_str h p).

(** [serde_json::from_value::<Vec<Origin>>] *)
Definition Origins_of_value (v : Value) : option (list Origin) :=
  as_array v ≫= mapM Origin_of_value.

Definition Constraints_of_value (v : Value) : option Constraints :=
  m ← as_object v;
  os ← default_of [] Origins_of_value (map_get m "origins");
  ms ← default_of [] as_strs (map_get m "methods");
  ps ← default_of [] as_strs (map_get m "path_prefixes");
  ttl ← map_get m "ttl_seconds" ≫= as_uint u64_MAX;
  uses ← opt_of (as_uint u32_MAX) (map_get m "max_uses");
  Some (mkConstraints os ms ps ttl uses).

(** What the types of the fields and [Origin]'s deserializer guarantee. *)
Definition constraints_wf (k : Constraints) : Prop :=
  Forall (origin_valid url_host_str) (origins k)
  ∧ (0 ≤ ttl_seconds k ≤ u64_MAX)%Z
  ∧ match max_uses k with Some n => (0 ≤ n ≤ u32_MAX)%Z | None => True end.
End Deserialize.

(** ** Lemmas *)
Lemma same_target_spec a b :
  same_target a b = true ↔ host a = host b ∧ effective_port a = effective_port b.
Proof.
  unfold same_target. rewrite andb_true_iff, Z.eqb_eq.
  unfold eqb. by rewrite bool_decide_eq_true.
Qed.

Lemma same_target_sym a b : same_target a b = same_target b a.
Proof. unfold same_target. by rewrite (eqb_sym (host a)), Z.eqb_sym. Qed.
Lemma same_target_trans a b c :
  same_target a b = true → same_target b c = true → same_target a c = true.
Proof. rewrite !same_target_spec. intros [-> ->] [-> ->]. done. Qed.
#[export] Hint Resolve same_target_trans : keychute.

Lemma parse_uint_bound m s n : parse_uint m s = Some n → (n ≤ m)%Z.
Proof.
  unfold parse_uint. intros H. inv_err H. injection H as <-. by apply Z.leb_le.
Qed.
Lemma parse_digits_nonneg s acc n : (0 ≤ acc)%Z → parse_digits s acc = Some n → (0 ≤ n)%Z.
Proof.
  revert acc. induction s as [|c s IH]; cbn; intros acc Ha; [naive_solver|].
  destruct (is_ascii_digit c); [|done]. apply IH. lia.
Qed.
Lemma parse_uint_nonneg m s n : parse_uint m s = Some n → (0 ≤ n)%Z.
Proof.
  unfold parse_uint. intros H. inv_err H. injection H as <-.
  by eapply parse_digits_nonneg; [|eassumption].
Qed.

(** Origins: parsing yields valid origins, and reads a valid one back. *)
Section OriginFacts.
Context (url_host_str : string → option (option string)).

Lemma dot_lower a : lower_byte a = "."%char ↔ a = "."%char.
Proof.
  assert (H : ∀ a, eqb (eqb (lower_byte a) "."%char) (eqb a "."%char) = true)
    by (apply ascii_all; vm_compute; done).
  specialize (H a). kbool. unfold eqb in H.
  destruct (decide (a = ".")%char) as [->|Hn]; [done|].
  rewrite (bool_decide_eq_false_2 (a = _)) in H by done. kbool. naive_solver.
Qed.

Lemma Origin_parse_Ok_valid s o :
  Origin_parse url_host_str s = Ok o → origin_valid url_host_str o.
Proof.
  unfold Origin_parse.
  destruct (eqb (trim s) ""); [done|]. destruct (_ || _); [done|].
  rewrite bind_Ok. intros ([h p] & Hhp & Hrest).
  destruct (_ || _ || _) eqn:Hbad; [done|].
  apply bind_Ok in Hrest as (parsed & Hparsed%ok_or_Ok & Hrest).
  destruct (negb (eqb parsed _)) eqn:Hcanon; [done|]. injection Hrest as <-. kbool.
  subst parsed. unfold origin_valid. cbn [host port].
  rewrite to_lower_idemp, lower_trim_end_matches, trim_end_matches_idemp by apply dot_lower.
  repeat split; try done.
  destruct p as [p|]; [|done].
  destruct (rsplit_once ":" (trim s)) as [[h' p']|]; [|done].
  destruct (negb _); [|done].
  apply bind_Ok in Hhp as (q & Hq%ok_or_Ok & Hhp).
  destruct (Z.eqb q 0) eqn:Hz; [done|]. injection Hhp as <- <-.
  apply Z.eqb_neq in Hz. pose proof (parse_uint_bound _ _ _ Hq).
  pose proof (parse_uint_nonneg _ _ _ Hq). lia.
Qed.

Lemma origin_host_char_graphic c : origin_host_char c = true → graphic c = true.
Proof.
  assert (H : ∀ c, implb (origin_host_char c) (graphic c) = true)
    by (apply ascii_all; vm_compute; done).
  specialize (H c). by destruct (origin_host_char c), (graphic c).
Qed.
Lemma digit_graphic c : is_ascii_digit c = true → graphic c = true.
Proof.
  assert (H : ∀ c, implb (is_ascii_digit c) (graphic c) = true)
    by (apply ascii_all; vm_compute; done).
  specialize (H c). by destruct (is_ascii_digit c), (graphic c).
Qed.

(** The checks after the port split accept a valid host as it is. *)
Lemma Origin_parse_tail h (p : option Z) :
  origin_valid url_host_str (mkOrigin h p) →
  eqb h "" || contains_char "*" h || negb (all_bytes origin_host_char h) = false
  ∧ to_ascii_lowercase (trim_end_matches "." h) = h
  ∧ url_host_str ("https://" +:+ h) = Some (Some h).
Proof.
  intros (Hne & Hc & Hl & Ht & Hu & _). cbn [host] in *.
  split; [|by rewrite Ht, Hl]. rewrite Hc.
  rewrite (contains_char_excluded origin_host_char) by done.
  unfold eqb. by rewrite bool_decide_eq_false_2.
Qed.

Lemma Origin_parse_authority o :
  origin_valid url_host_str o → Origin_parse url_host_str (authority o) = Ok o.
Proof.
  destruct o as [h p]. intros Hv.
  pose proof (Origin_parse_tail _ _ Hv) as (Hbad & Htrim & Hurl).
  destruct Hv as (Hne & Hc & _ & _ & _ & Hp). cbn [host port] in *.
  assert (Hg : all_bytes graphic h = true)
    by (revert Hc; apply all_bytes_mono, origin_host_char_graphic).
  assert (Hx : ∀ c, origin_host_char c = false → contains_char c h = false)
    by (intros c ?; by apply (contains_char_excluded origin_host_char)).
  unfold Origin_parse, authority. cbn [host port]. destruct p as [p|].
  - pose proof (Z_to_string_digits p ltac:(lia)) as Hd.
    assert (Hpc : ∀ c, is_ascii_digit c = false → contains_char c (Z_to_string p) = false)
      by (intros c ?; by apply (contains_char_excluded is_ascii_digit)).
    change (":" +:+ Z_to_string p) with (String ":" (Z_to_string p)).
    rewrite trim_graphic.
    2:{ rewrite all_bytes_app, Hg. cbn. revert Hd. apply all_bytes_mono, digit_graphic. }
    destruct (eqb (h +:+ String ":" (Z_to_string p)) "") eqn:E; [kbool; by destruct h|]. clear E.
    rewrite !contains_char_app, !contains_char_cons, !Hx, !Hpc by done.
    cbn [orb]. rewrite rsplit_once_app by by apply Hpc.
    change (eqb _ _ || _ || eqb _ _ || eqb _ _) with false; cbn [negb].
    rewrite !Hx by done. cbn [negb].
    rewrite parse_uint_Z_to_string by (unfold u16_MAX in *; lia). cbn [ok_or mbind result_bind].
    destruct (Z.eqb_spec p 0); [lia|]. cbn [mbind result_bind].
    rewrite Htrim, Hbad, Hurl. cbn. by rewrite eqb_refl.
  - rewrite trim_graphic by done.
    destruct (eqb h "") eqn:E; [by kbool|]. rewrite !(Hx "/"%char), !(Hx "@"%char),
      !(Hx "?"%char), !(Hx "#"%char), rsplit_once_none by (done || by apply Hx).
    cbn [mbind result_bind orb]. rewrite Htrim, Hurl, E.
    rewrite Hbad. cbn. by rewrite eqb_refl.
Qed.

Lemma to_display_authority o : to_display o = "https://" +:+ authority o.
Proof. unfold to_display, authority. by destruct (port o). Qed.
Lemma to_display_inj o o' :
  origin_valid url_host_str o → origin_valid url_host_str o' → to_display o = to_display o' → o = o'.
Proof.
  intros Ho%Origin_parse_authority Ho'%Origin_parse_authority E. rewrite !to_display_authority in E.
  assert (Ea : authority o = authority o') by by injection E.
  rewrite Ea, Ho' in Ho. by injection Ho.
Qed.

(** The host of a parsed origin re-parses with no port: the [debug_assert!]
    of the deserializer never fires on a host it lets through. *)
Lemma Origin_parse_no_colon_no_port s o :
  contains_char ":" s = false → Origin_parse url_host_str s = Ok o →
  contains_char ":" (trim s) = false → port o = None.
Proof.
  intros _ H Hc. unfold Origin_parse in H.
  destruct (eqb (trim s) ""); [done|]. destruct (_ || _); [done|].
  rewrite rsplit_once_none in H by done. cbn [mbind result_bind] in H.
  destruct (_ || _ || _); [done|].
  apply bind_Ok in H as (parsed & _ & H). destruct (negb _); [done|]. by injection H as <-.
Qed.
End OriginFacts.

(** Serialization round trips. *)
Section SerializeFacts.
Context (url_host_str : string → option (option string)).

Lemma Origin_deserialize_valid h p o :
  (∀ n, p = Some n → (0 ≤ n ≤ u16_MAX)%Z) →
  Origin_deserialize url_host_str h p = Ok o → origin_valid url_host_str o.
Proof.
  unfold Origin_deserialize. intros Hp.
  destruct (contains_char _ _); [done|].
  destruct (eqb p _) eqn:E; [done|]. kbool.
  intros (parsed & Hv%Origin_parse_Ok_valid & [= <-])%bind_Ok.
  destruct Hv as (H1 & H2 & H3 & H4 & H5 & _). repeat split; try done. cbn.
  destruct p as [n|]; [|done]. specialize (Hp n eq_refl).
  assert (n ≠ 0%Z) by congruence. lia.
Qed.

Lemma origin_valid_no_port h p :
  origin_valid url_host_str (mkOrigin h p) → origin_valid url_host_str (mkOrigin h None).
Proof. intros (H1 & H2 & H3 & H4 & H5 & _). by repeat split. Qed.

Lemma Origin_deserialize_id o :
  origin_valid url_host_str o →
  Origin_deserialize url_host_str (host o) (port o) = Ok o.
Proof.
  destruct o as [h p]. intros Hv. unfold Origin_deserialize. cbn [host port].
  pose proof Hv as (_ & Hc & _ & _ & _ & Hp). cbn [host port] in *.
  rewrite (contains_char_excluded origin_host_char) by done.
  destruct (eqb p (Some 0%Z)) eqn:E; kbool; [subst p; lia|].
  apply origin_valid_no_port, Origin_parse_authority in Hv. cbn [authority port host] in Hv.
  by rewrite Hv.
Qed.

Lemma Origin_of_to_value o :
  origin_valid url_host_str o → Origin_of_value url_host_str (Origin_to_value o) = Some o.
Proof.
  intros Hv. pose proof (Origin_deserialize_id o Hv) as Hd.
  destruct Hv as (_ & _ & _ & _ & _ & Hp).
  unfold Origin_to_value, Origin_of_value, obj, as_object. cbn [mbind option_bind].
  destruct (port o) as [n|].
  - rewrite !obj_get by (apply (bool_decide_unpack _); by vm_compute).
    change (map_get _ "host") with (Some (Str (host o))).
    change (map_get _ "port") with (Some (int n)).
    change (opt_of _ _) with (Some <$> as_uint u16_MAX (int n)).
    rewrite as_uint_int by lia. cbn [mbind option_bind as_str fmap option_fmap option_map].
    by rewrite Hd.
  - rewrite !obj_get by (apply (bool_decide_unpack _); by vm_compute).
    change (map_get _ "host") with (Some (Str (host o))).
    cbn [mbind option_bind as_str map_get opt_field app opt_of].
    change (opt_of _ _) with (@Some (option Z) None). cbn [mbind option_bind].
    by rewrite Hd.
Qed.

#[local] Arguments Origin_of_value : simpl never.
#[local] Arguments Origin_to_value : simpl never.

Lemma Origin_of_value_valid v o :
  Origin_of_value url_host_str v = Some o → origin_valid url_host_str o.
Proof.
  unfold Origin_of_value. intros H.
  apply bind_Some in H as (m & _ & H). apply bind_Some in H as (h & _ & H).
  apply bind_Some in H as (p & Hp & H).
  destruct (Origin_deserialize url_host_str h p) as [o'|] eqn:E; [|done].
  injection H as ->. eapply Origin_deserialize_valid; [|exact E].
  intros n ->. destruct (map_get m "port") as [w|]; [|done].
  destruct w as [| |[z|]| | |]; cbn in Hp; try done.
  destruct (_ && _) eqn:Hr; [|done]. injection Hp as ->. lia.
Qed.

Lemma Origins_of_to_value os :
  Forall (origin_valid url_host_str) os →
  Origins_of_value url_host_str (Array (map Origin_to_value os)) = Some os.
Proof.
  unfold Origins_of_value. cbn. induction 1 as [|o os Ho _ IH]; [done|].
  cbn. by rewrite Origin_of_to_value, IH.
Qed.

Lemma Origins_of_value_valid v os :
  Origins_of_value url_host_str v = Some os → Forall (origin_valid url_host_str) os.
Proof.
  unfold Origins_of_value. intros (l & _ & H)%bind_Some.
  apply mapM_Some_1 in H. induction H; constructor; eauto using Origin_of_value_valid.
Qed.

Lemma Constraints_of_to_value k :
  constraints_wf url_host_str k →
  Constraints_of_value url_host_str (Constraints_to_value k) = Some k.
Proof.
  destruct k as [os ms ps ttl uses]. intros (Ho & Ht & Hu). cbn in Ho, Ht, Hu.
  unfold Constraints_of_value, Constraints_to_value, obj, as_object. cbn [mbind option_bind].
  cbn [origins methods path_prefixes ttl_seconds max_uses].
  rewrite !obj_get
    by (destruct uses; apply (bool_decide_unpack _); by vm_compute).
  set (O := Array _). set (M := strs ms). set (P := strs ps).
  change (map_get _ "origins") with (Some O).
  change (map_get _ "methods") with (Some M).
  change (map_get _ "path_prefixes") with (Some P).
  change (map_get _ "ttl_seconds") with (Some (int ttl)).
  cbn [default_of mbind option_bind].
  unfold O, M, P. rewrite Origins_of_to_value by done.
  cbn [mbind option_bind]. rewrite !as_strs_strs. cbn [mbind option_bind].
  rewrite as_uint_int by done. cbn [mbind option_bind].
  destruct uses as [n|].
  - change (map_get _ "max_uses") with (Some (int n)).
    change (opt_of _ _) with (Some <$> as_uint u32_MAX (int n)).
    by rewrite as_uint_int.
  - done.
Qed.

Lemma as_uint_range max v z : as_uint max v = Some z → (0 ≤ z ≤ max)%Z.
Proof.
  destruct v as [| |[n|]| | |]; cbn; try done.
  destruct (_ && _) eqn:E; [|done]. intros [= ->]. lia.
Qed.

Lemma Constraints_of_value_wf v k :
  Constraints_of_value url_host_str v = Some k → constraints_wf url_host_str k.
Proof.
  unfold Constraints_of_value. intros H.
  apply bind_Some in H as (m & _ & H). apply bind_Some in H as (os & Hos & H).
  apply bind_Some in H as (ms & _ & H). apply bind_Some in H as (ps & _ & H).
  apply bind_Some in H as (ttl & Httl & H). apply bind_Some in H as (uses & Hu & H).
  injection H as <-. split; [|split]; cbn.
  - destruct (map_get m "origins") as [w|]; cbn in Hos;
      [by eapply Origins_of_value_valid|by injection Hos as <-].
  - apply bind_Some in Httl as (w & _ & Hw). by eapply as_uint_range.
  - destruct uses as [n|]; [|done]. destruct (map_get m "max_uses") as [w|]; [|done].
    apply (as_uint_range _ w). destruct w; cbn in Hu; try done;
      apply fmap_Some in Hu as (x & Hx & [= ->]); exact Hx.
Qed.
End SerializeFacts.

(** ** Properties *)

(** [Origin::parse] only ever yields valid origins (a non-empty lower-case
    host of letters, digits, dots and hyphens without a trailing dot, which the
    URL parser targets verbatim, and a port that is absent or in 1..65535), and
    it reads the [host] or [host:port] spelling of every valid origin back as
    that origin.  So what is parsed from any spelling re-parses to itself. *)
Theorem Origin_parse_valid_roundtrip url_host_str o :
  (origin_valid url_host_str o → Origin_parse url_host_str (authority o) = Ok o)
  ∧ ∀ s, Origin_parse url_host_str s = Ok o →
      origin_valid url_host_str o ∧ Origin_parse url_host_str (authority o) = Ok o.
Proof.
  split; [apply Origin_parse_authority|].
  intros s Hs%Origin_parse_Ok_valid. auto using Origin_parse_authority.
Qed.

Lemma Origin_parse_valid_roundtrip_witness :
  Origin_parse (λ _, Some (Some "api.example.com")) "api.example.com:8443"
  = Ok (mkOrigin "api.example.com" (Some 8443%Z)).
Proof.
  apply (Origin_parse_valid_roundtrip (λ _, Some (Some "api.example.com"))
           (mkOrigin "api.example.com" (Some 8443%Z)))
    with (s := " API.Example.com.:8443 ").
  vm_compute. reflexivity.
Defined.

(** Constraints survive the database.  The JSON document written for a
    well-formed constraint set reads back as that set, and whatever document a
    row holds, the constraints read from it are well-formed: every origin valid,
    the TTL a u64 and the use count a u32. *)
Theorem Constraints_roundtrip url_host_str k :
  (constraints_wf url_host_str k →
   Constraints_of_value url_host_str (Constraints_to_value k) = Some k)
  ∧ ∀ v, Constraints_of_value url_host_str v = Some k → constraints_wf url_host_str k.
Proof.
  split; [apply Constraints_of_to_value|]. intros v. apply Constraints_of_value_wf.
Qed.

Lemma Constraints_roundtrip_witness :
  let u := λ _, Some (Some "api.example.com") in
  let k := mkConstraints [mkOrigin "api.example.com" (Some 8443%Z)] ["GET"] ["/v1"] 60 (Some 1%Z) in
  Constraints_of_value u (Constraints_to_value k) = Some k.
Proof.
  intros u k. apply (Constraints_roundtrip u k).
  apply (proj2 (Constraints_roundtrip u k) (Constraints_to_value k)).
  vm_compute. reflexivity.
Defined.
