(* ===== verification/Canonical.v ===== *)
(** [server/src/api/canonical.rs]: the canonical JSON text the idempotency MAC
    is taken over.  The text of numbers and of string literals is
    [serde_json]'s, a parameter; what is used of it is that literals are
    self-delimiting. *)

From S2P Require Import Prelude RustStr Json Examples Types.
Open Scope string_scope.

(** The bytes a JSON number is written with. *)
Definition number_char (c : ascii) : bool :=
  is_ascii_digit c || eqb c "-"%char || eqb c "+"%char || eqb c "."%char
  || eqb c "e"%char || eqb c "E"%char.
Definition quote : ascii := "034"%char.

(** [Number::to_string] and [serde_json::to_string] of a string. *)
Class JsonText := {
  number_to_string : number → string;
  json_string : string → string;
  number_to_string_inj : ∀ n m, number_to_string n = number_to_string m → n = m;
  number_to_string_chars : ∀ n,
    number_to_string n ≠ "" ∧ all_bytes number_char (number_to_string n) = true;
  json_string_quote : ∀ s, ∃ r, json_string s = String quote r;
  json_string_delimited : ∀ s t x y,
    json_string s +:+ x = json_string t +:+ y → s = t ∧ x = y
}.

Section Canonical.
Context `{JsonText}.

Definition render_entry (kt : string * string) : string := json_string kt.1 +:+ ":" +:+ kt.2.

Fixpoint canonical_json (v : Value) : string :=
  match v with
  | Null => "null"
  | Bool b => if b then "true" else "false"
  | Number n => number_to_string n
  | Str s => json_string s
  | Array items => "[" +:+ join "," (map canonical_json items) +:+ "]"
  | Object m =>
      "{" +:+ join "," (map render_entry
                          (sort_entries (map (λ kv, (kv.1, canonical_json kv.2)) m)))
      +:+ "}"
  end.

(** The typed request without its key and without the captured environment. *)
Definition payload_value (req : CreateAccessRequest) : Value :=
  match CreateAccessRequest_to_value req with
  | Object m =>
      Object (map_update (map_remove m "idempotency_key") "context"
        (λ ctx, match ctx with
                | Object ctx => Object (map_remove ctx "structured")
                | ctx => ctx
                end))
  | v => v
  end.

Definition canonical_request_payload (req : CreateAccessRequest) : string :=
  canonical_json (payload_value req).

(** ** What the text stands for *)

(** A value up to the order of object keys. *)
Fixpoint normalize (v : Value) : Value :=
  match v with
  | Array items => Array (map normalize items)
  | Object m => Object (sort_entries (map (λ kv, (kv.1, normalize kv.2)) m))
  | v => v
  end.

Fixpoint render (v : Value) : string :=
  match v with
  | Null => "null"
  | Bool b => if b then "true" else "false"
  | Number n => number_to_string n
  | Str s => json_string s
  | Array items => "[" +:+ join "," (map render items) +:+ "]"
  | Object m => "{" +:+ join "," (map (λ kv, render_entry (kv.1, render kv.2)) m) +:+ "}"
  end.

Lemma canonical_json_render v : canonical_json v = render (normalize v).
Proof.
  induction v as [| | | |l IH|m IH] using Value_nested_ind; cbn; try done.
  - assert (Hl : map canonical_json l = map render (map normalize l)); [|by rewrite Hl].
    rewrite map_map. induction IH as [|x l Hx _ IHl]; cbn; [done|]. by rewrite Hx, IHl.
  - assert (Hm : map (λ kv, (kv.1, canonical_json kv.2)) m
                 = map (λ kv, (kv.1, render kv.2)) (map (λ kv, (kv.1, normalize kv.2)) m)).
    { rewrite map_map. induction IH as [|x l Hx _ IHl]; cbn; [done|]. by rewrite Hx, IHl. }
    rewrite Hm. unfold sort_entries.
    rewrite (sort_by_key_map (entry_key (A := Value)) (entry_key (A := string))) by done.
    by rewrite map_map.
Qed.

(** A position where a number ends. *)
Definition stops (x : string) : Prop :=
  match x with "" => True | String c _ => number_char c = false end.

Lemma span_unique (f : ascii → bool) s t x y :
  all_bytes f s = true → all_bytes f t = true →
  match x with "" => True | String c _ => f c = false end →
  match y with "" => True | String c _ => f c = false end →
  s +:+ x = t +:+ y → s = t ∧ x = y.
Proof.
  revert t. induction s as [|a s IH]; intros [|b t]; cbn; intros Hs Ht Hx Hy E; try done.
  - subst x. kbool. congruence.
  - subst y. kbool. congruence.
  - kbool. injection E as -> E. by destruct (IH t) as [-> ->].
Qed.

Lemma number_head n : ∃ c r, number_to_string n = String c r ∧ number_char c = true.
Proof.
  destruct (number_to_string_chars n) as [Hn Hc].
  destruct (number_to_string n) as [|c r]; [done|]. cbn in Hc. kbool. by exists c, r.
Qed.

(** No value starts with a closing bracket or a comma. *)
Lemma render_head v : ∃ c r, render v = String c r ∧ c ≠ "]"%char ∧ c ≠ "}"%char.
Proof.
  destruct v as [|[]|n|s|l|m]; cbn; try by eexists _, _.
  - destruct (number_head n) as (c & r & -> & Hc). exists c, r. split; [done|].
    split; intros ->; done.
  - destruct (json_string_quote s) as [r ->]. by eexists _, _.
Qed.

Definition unique_reading (v : Value) : Prop :=
  ∀ w x y, stops x → stops y → render v +:+ x = render w +:+ y → v = w ∧ x = y.

(** A comma-separated, bracketed list of self-delimiting items reads back. *)
Lemma join_unique {A} (f : A → string) (close : ascii) l :
  number_char close = false → close ≠ ","%char →
  (∀ a, ∃ c r, f a = String c r ∧ c ≠ close) →
  Forall (λ a, ∀ b x y, stops x → stops y → f a +:+ x = f b +:+ y → a = b ∧ x = y) l →
  ∀ k x y, (join "," (map f l) +:+ String close "") +:+ x
           = (join "," (map f k) +:+ String close "") +:+ y → l = k ∧ x = y.
Proof.
  intros Hn Hcomma Hhead Hl.
  assert (Hstop : ∀ z, stops (String close z)) by done.
  assert (Hstop' : ∀ z, stops (String "," z)) by done.
  induction Hl as [|a l Ha Hl IH]; intros k x y; rewrite !string_app_assoc.
  - destruct k as [|b k]; [by intros [= ->]|]. intros E. exfalso.
    destruct (Hhead b) as (c & r & Hb & Hc).
    destruct k; cbn in E; rewrite Hb in E; cbn in E; congruence.
  - destruct k as [|b k].
    { intros E. exfalso. destruct (Hhead a) as (c & r & Hb & Hc).
      destruct l; cbn in E; rewrite Hb in E; cbn in E; congruence. }
    destruct l as [|a' l], k as [|b' k].
    + cbn [map join]. intros [-> E]%Ha; [|done..]. by injection E as ->.
    + change (join "," (map f (b :: b' :: k)))
        with (f b +:+ String "," (join "," (map f (b' :: k)))).
      cbn [map join]. rewrite !string_app_assoc. intros [-> E]%Ha; [|done..].
      by injection E as E _.
    + change (join "," (map f (a :: a' :: l)))
        with (f a +:+ String "," (join "," (map f (a' :: l)))).
      cbn [map join]. rewrite !string_app_assoc. intros [-> E]%Ha; [|done..].
      by injection E as E _.
    + change (join "," (map f (a :: a' :: l)))
        with (f a +:+ String "," (join "," (map f (a' :: l)))).
      change (join "," (map f (b :: b' :: k)))
        with (f b +:+ String "," (join "," (map f (b' :: k)))).
      rewrite !string_app_assoc. intros [-> E]%Ha; [|done..].
      injection E as E. destruct (IH (b' :: k) x y) as [-> ->]; [|done].
      by rewrite !string_app_assoc.
Qed.

Ltac head_clash :=
  repeat match goal with
  | H : context [number_to_string ?n +:+ _] |- _ =>
      let c := fresh "c" in let r := fresh "r" in let Hc := fresh in
      destruct (number_head n) as (c & r & Hc & ?); rewrite Hc in H; clear Hc
  | H : context [json_string ?s +:+ _] |- _ =>
      let r := fresh "r" in destruct (json_string_quote s) as [r Hc]; rewrite Hc in H; clear Hc
  | b : bool |- _ => destruct b
  end.

Lemma render_unique v : unique_reading v.
Proof.
  unfold unique_reading.
  induction v as [|b|n|s|l IH|m IH] using Value_nested_ind; intros w x y Hx Hy E;
    destruct w as [|b'|n'|s'|l'|m']; cbn [render] in E;
    try (exfalso; head_clash; cbn in E; try discriminate E;
         injection E as E _; subst; done).
  - by injection E.
  - destruct b, b'; cbn in E; try discriminate; by injection E.
  - destruct (number_to_string_chars n) as [_ H1], (number_to_string_chars n') as [_ H2].
    apply (span_unique number_char) in E as [E ->]; [|done..].
    by rewrite (number_to_string_inj _ _ E).
  - by apply json_string_delimited in E as [-> ->].
  - rewrite !(string_app_assoc "[") in E. injection E as E.
    apply join_unique in E as [-> ->]; try done.
    intros a. destruct (render_head a) as (c & r & ? & ? & ?). by eexists _, _.
  - rewrite !(string_app_assoc "{") in E. injection E as E.
    apply (join_unique (λ kv : string * Value, render_entry (kv.1, render kv.2))) in E
      as [-> ->]; try done.
    { intros a. unfold render_entry. cbn. destruct (json_string_quote a.1) as [r ->].
      by eexists _, _. }
    clear -IH H. induction IH as [|[k v] l Hv _ IHl]; constructor; [|done].
    intros [k' v'] p q Hp Hq. unfold render_entry. cbn [fst snd]. rewrite !string_app_assoc.
    intros [-> E]%json_string_delimited. injection E as E.
    cbn in Hv. by destruct (Hv _ _ _ Hp Hq E) as [-> ->].
Qed.

Lemma canonical_json_normalize v w :
  canonical_json v = canonical_json w ↔ normalize v = normalize w.
Proof.
  rewrite !canonical_json_render. split; [|by intros ->]. intros E.
  apply (render_unique (normalize v) (normalize w) "" ""); [done..|].
  by rewrite !string_app_nil_r.
Qed.
End Canonical.

(** ** The typed request *)
Lemma normalize_strs l : normalize (strs l) = strs l.
Proof. unfold strs. cbn. f_equal. rewrite map_map. by apply map_ext. Qed.
Lemma normalize_origin o : normalize (Origin_to_value o) = Origin_to_value o.
Proof. destruct o as [h [p|]]; reflexivity. Qed.
Lemma normalize_origins os :
  normalize (Array (map Origin_to_value os)) = Array (map Origin_to_value os).
Proof. cbn. f_equal. rewrite map_map. apply map_ext, normalize_origin. Qed.

(** The objects the serializers build, entry by entry. *)
Lemma Constraints_to_value_eq k :
  Constraints_to_value k =
  Object (opt_field "max_uses" int (max_uses k)
          ++ [("methods", strs (methods k));
              ("origins", Array (map Origin_to_value (origins k)));
              ("path_prefixes", strs (path_prefixes k));
              ("ttl_seconds", int (ttl_seconds k))])%list.
Proof. destruct k as [os ms ps ttl [n|]]; reflexivity. Qed.

Lemma normalize_constraints k : normalize (Constraints_to_value k) = Constraints_to_value k.
Proof.
  rewrite Constraints_to_value_eq. generalize (normalize_origins (origins k)).
  generalize (Array (map Origin_to_value (origins k))) as O. intros O HO.
  generalize (normalize_strs (methods k)) (normalize_strs (path_prefixes k)).
  generalize (strs (methods k)) as M, (strs (path_prefixes k)) as P. intros M P HM HP.
  destruct (max_uses k) as [n|]; cbn [normalize app opt_field map fst snd];
    rewrite HO, HM, HP; reflexivity.
Qed.

Lemma payload_value_eq req :
  payload_value req =
  Object [("constraints", Constraints_to_value (constraints req));
          ("context", Object [("reason", Str (reason (context req)))]);
          ("mechanism", Str (Mechanism.as_str (mechanism req)));
          ("secret_name", Str (secret_name req))].
Proof. destruct req as [? ? ? ? [r [v|]]]; reflexivity. Qed.

Lemma normalize_payload req : normalize (payload_value req) = payload_value req.
Proof.
  rewrite payload_value_eq. cbn [normalize map fst snd].
  by rewrite normalize_constraints.
Qed.

Lemma map_Str_inj l k : map Str l = map Str k → l = k.
Proof. revert k. induction l as [|x l IH]; intros [|y k] [=]; f_equal; auto. Qed.
Lemma Origin_to_value_inj o o' : Origin_to_value o = Origin_to_value o' → o = o'.
Proof. destruct o as [h [p|]], o' as [h' [p'|]]; cbv; congruence. Qed.
Lemma Origins_to_value_inj os os' :
  map Origin_to_value os = map Origin_to_value os' → os = os'.
Proof.
  revert os'. induction os as [|o os IH]; intros [|o' os'] E; try done.
  pose proof (Some_inj _ _ (f_equal head E)) as Ho%Origin_to_value_inj.
  by rewrite Ho, (IH os' (f_equal tail E)).
Qed.
Lemma Constraints_to_value_inj k k' :
  Constraints_to_value k = Constraints_to_value k' → k = k'.
Proof.
  rewrite !Constraints_to_value_eq.
  destruct k as [os ms ps ttl n], k' as [os' ms' ps' ttl' n'].
  destruct n, n'; cbn [app opt_field max_uses origins methods path_prefixes ttl_seconds];
    intros E; try done; injection E; intros;
    repeat match goal with
    | H : map Str _ = map Str _ |- _ => apply map_Str_inj in H
    | H : map Origin_to_value _ = _ |- _ => apply Origins_to_value_inj in H
    end; congruence.
Qed.

(** ** Properties *)

(** The canonical text determines the document and nothing else: two JSON
    values have the same canonical text exactly when they are equal up to the
    order of object keys, at every depth. *)
Theorem canonical_json_faithful `{JsonText} v w :
  canonical_json v = canonical_json w ↔ normalize v = normalize w.
Proof. apply canonical_json_normalize. Qed.

(** The idempotency payload covers exactly what was asked for: two create
    requests have the same payload if and only if they agree on the secret
    name, the mechanism, the constraints and the stated reason.  The
    idempotency key and the machine-captured context do not enter it. *)
Theorem payload_determines_request `{JsonText} r r' :
  canonical_request_payload r = canonical_request_payload r' ↔
  secret_name r = secret_name r' ∧ mechanism r = mechanism r'
  ∧ constraints r = constraints r' ∧ reason (context r) = reason (context r').
Proof.
  unfold canonical_request_payload.
  rewrite canonical_json_normalize, !normalize_payload, !payload_value_eq. split.
  - intros E.
    assert (Hf : ∀ k, (as_object (payload_value r) ≫= λ m, map_get m k)
                      = (as_object (payload_value r') ≫= λ m, map_get m k))
      by (intros k; by rewrite !payload_value_eq, E).
    rewrite !payload_value_eq in Hf.
    pose proof (Some_inj _ _ (Hf "constraints")) as Hk%Constraints_to_value_inj.
    pose proof (Hf "mechanism") as [= Hm]. pose proof (Hf "secret_name") as [= Hs].
    pose proof (Hf "context") as [= Hr]. repeat split; try done.
    pose proof (Mechanism.from_as_str (mechanism r)) as H1.
    rewrite Hm, Mechanism.from_as_str in H1. by injection H1.
  - by intros (-> & -> & -> & ->).
Qed.

(** ** Witnesses: a text of JSON that meets the interface *)
Module JsonExample.
Definition json_string (s : string) : string := String quote (escape s).
Definition number_to_string (n : number) : string :=
  match n with
  | NInt z => if (z <? 0)%Z then "-" +:+ N_to_string (Z.to_N (- z)) else N_to_string (Z.to_N z)
  | NFloat b => "e" +:+ N_to_string b
  end.

#[local] Arguments N_to_string : simpl never.
Lemma number_inj n m : number_to_string n = number_to_string m → n = m.
Proof.
  destruct n as [z|b], m as [z'|b']; cbn;
    repeat match goal with |- context [(?z <? 0)%Z] => destruct (Z.ltb_spec z 0) end;
    cbn; intros E;
    try (injection E as E; apply N_to_string_inj in E; f_equal; lia);
    try (apply N_to_string_inj in E; f_equal; lia);
    try discriminate E; exfalso;
    match type of E with
    | N_to_string ?n = _ => destruct (N_to_string_head n) as (c & r & Hn & Hc)
    | _ = N_to_string ?n => destruct (N_to_string_head n) as (c & r & Hn & Hc)
    end; rewrite Hn in E; injection E; intros; subst c; done.
Qed.
Lemma number_chars n :
  number_to_string n ≠ "" ∧ all_bytes number_char (number_to_string n) = true.
Proof.
  assert (Hd : ∀ n, N_to_string n ≠ "" ∧ all_bytes number_char (N_to_string n) = true).
  { clear n. intros n. destruct (N_to_string_head n) as (c & r & E & _). split; [by rewrite E|].
    pose proof (N_to_string_digits n) as H. revert H. apply all_bytes_mono.
    intros a Ha. unfold number_char. by rewrite Ha. }
  destruct n as [z|b]; cbn; [destruct (z <? 0)%Z|]; cbn; try apply Hd.
  - split; [done|]. apply Hd.
  - split; [done|]. apply Hd.
Qed.
Lemma json_delimited s t x y :
  json_string s +:+ x = json_string t +:+ y → s = t ∧ x = y.
Proof. intros [= E]. by apply escape_delimited. Qed.

#[export] Instance text : JsonText := {|
  Canonical.number_to_string := number_to_string;
  Canonical.json_string := json_string;
  number_to_string_inj := number_inj;
  number_to_string_chars := number_chars;
  json_string_quote := λ s, ex_intro _ (escape s) eq_refl;
  json_string_delimited := json_delimited
|}.

Definition req (key : string) (env : option Value) : CreateAccessRequest :=
  mkCreateAccessRequest key "example-api-token" Mechanism.Brokered
    (mkConstraints [mkOrigin "api.example.com" None] ["GET"] ["/v1"] 3600 None)
    (mkRequestContext "read the account" env).
End JsonExample.

Lemma canonical_json_faithful_witness :
  let a := Object [("b", Array [int 1; Null]); ("a", Object [("y", Bool true); ("x", int 2)])] in
  let b := Object [("a", Object [("x", int 2); ("y", Bool true)]); ("b", Array [int 1; Null])] in
  @canonical_json JsonExample.text a = @canonical_json JsonExample.text b.
Proof.
  intros a b. apply (@canonical_json_faithful JsonExample.text a b). vm_compute. reflexivity.
Defined.

Lemma payload_determines_request_witness :
  @canonical_request_payload JsonExample.text (JsonExample.req "key-1" None)
  = @canonical_request_payload JsonExample.text (JsonExample.req "key-2" (Some (int 7))).
Proof.
  apply (@payload_determines_request JsonExample.text). repeat split; reflexivity.
Defined.
