(* ===== verification/Paths.v ===== *)
(** [types/src/paths.rs]: path canonicalization and prefix matching, shared by
    the policy engine, the proxy and the command-line client. *)

From S2P Require Import Prelude RustStr.
Open Scope string_scope.

Definition hex_val (b : ascii) : option N :=
  if in_range "0" "9" b then Some (byte_of b - 48)%N
  else if in_range "a" "f" b then Some (byte_of b - 97 + 10)%N
  else if in_range "A" "F" b then Some (byte_of b - 65 + 10)%N
  else None.

(** The percent-decoding loop of [canonicalize]: each byte once, left to
    right, stopping at the first byte it refuses. *)
Fixpoint percent_decode (raw : string) : result string string :=
  match raw with
  | "" => Ok ""
  | String b rest =>
      if eqb b "%"%char then
        match rest with
        | String h (String l rest) =>
            hv ← ok_or (hex_val h) "invalid percent escape";
            lv ← ok_or (hex_val l) "invalid percent escape";
            let v := ascii_of_N (N.lor (N.shiftl hv 4) lv) in
            fail_if eqb v "/"%char with "encoded '/' in path";
            fail_if eqb v "\"%char with "encoded '\' in path";
            decoded ← percent_decode rest;
            Ok (String v decoded)
        | _ => Err "truncated percent escape"
        end
      else if eqb b "\"%char then Err "raw '\' in path"
      else decoded ← percent_decode rest; Ok (String b decoded)
  end.

(** A segment judged by the part before any [;]. *)
Definition dot_segment (seg : string) : bool :=
  let base := default seg (head (split ";" seg)) in
  eqb base "." || eqb base "..".

Definition canonicalize (raw : string) : result string string :=
  fail_if negb (starts_with "/" raw) with "path must start with '/'";
  s ← percent_decode raw;
  fail_if negb (is_some (utf8_decode s)) with "path is not valid UTF-8 after decoding";
  fail_if any_control s with "control character in path";
  fail_if existsb dot_segment (split "/" s) with "dot segment in path";
  fail_if contains_str "//" s with "duplicate slash in path";
  Ok s.

Definition prefix_matches (prefix path : string) : bool :=
  if eqb prefix "/" then true
  else
    let p := trim_end_matches "/" prefix in
    if eqb p "" then false
    else eqb path p
         || ((len p <? len path)%Z
             && eqb (String.get (String.length p) path) (Some "/"%char)
             && starts_with p path).

(** ** What a canonical path is *)
Record canonical (s : string) : Prop := mk_canonical {
  can_slash : starts_with "/" s = true;
  can_backslash : contains_char "\" s = false;
  can_utf8 : is_some (utf8_decode s) = true;
  can_control : any_control s = false;
  can_dots : ∀ seg, seg ∈ split "/" s → dot_segment seg = false;
  can_slashes : contains_str "//" s = false
}.

(** ** Lemmas *)
Lemma percent_decode_no_backslash raw s :
  percent_decode raw = Ok s → contains_char "\" s = false.
Proof.
  remember (String.length raw) as n eqn:Hn. revert raw s Hn.
  induction n as [n IH] using lt_wf_ind. intros [|b rest] s Hn; cbn [percent_decode].
  { by intros [= <-]. }
  destruct (eqb b "%"%char).
  - destruct rest as [|h [|l rest]]; try done.
    rewrite bind_Ok. intros (hv & _ & H). apply bind_Ok in H as (lv & _ & H).
    cbn zeta in H. destruct (eqb _ "/"%char); [done|].
    destruct (eqb (ascii_of_N _) "\"%char) eqn:E; [done|].
    apply bind_Ok in H as (d & Hd & [= <-]).
    rewrite contains_char_cons, eqb_sym, E. apply (IH (String.length rest) ltac:(subst n; cbn; lia) rest d eq_refl Hd).
  - destruct (eqb b "\"%char) eqn:E; [done|].
    rewrite bind_Ok. intros (d & Hd & [= <-]).
    rewrite contains_char_cons, eqb_sym, E. apply (IH (String.length rest) ltac:(subst n; cbn; lia) rest d eq_refl Hd).
Qed.

Lemma percent_decode_slash raw s :
  percent_decode raw = Ok s → starts_with "/" raw = true → starts_with "/" s = true.
Proof.
  rewrite !starts_with_spec. intros H [t ->]. cbn in H.
  apply bind_Ok in H as (d & _ & [= <-]). by exists d.
Qed.

(** [canonicalize] accepts exactly the raw paths that decode to a canonical
    path, and returns that path. *)
Lemma canonicalize_Ok raw s :
  canonicalize raw = Ok s ↔
  starts_with "/" raw = true ∧ percent_decode raw = Ok s ∧ canonical s.
Proof.
  unfold canonicalize. destruct (starts_with "/" raw) eqn:Hs; cbn [negb].
  2:{ split; [done|]. by intros (? & _). }
  rewrite bind_Ok. split.
  - intros (s' & Hd & H).
    destruct (is_some (utf8_decode s')) eqn:H1; [|done]. cbn [negb] in H.
    destruct (any_control s') eqn:H2; [done|].
    destruct (existsb _ _) eqn:H3; [done|].
    destruct (contains_str _ _) eqn:H4; [done|]. injection H as <-.
    split; [done|]. split; [done|]. constructor; try done.
    + by eapply percent_decode_slash.
    + by eapply percent_decode_no_backslash.
    + by apply existsb_elem_false.
  - intros (_ & Hd & [_ _ Hu Hc Hdots Hdup]). exists s. split; [done|].
    rewrite Hu, Hc, Hdup. cbn [negb].
    by rewrite (proj2 (existsb_elem_false dot_segment _) Hdots).
Qed.

(** Decoding leaves a path without escapes alone. *)
Lemma percent_decode_id s :
  contains_char "%" s = false → contains_char "\" s = false → percent_decode s = Ok s.
Proof.
  induction s as [|b s IH]; [done|]. rewrite !contains_char_cons, (eqb_sym "%"%char),
    (eqb_sym "\"%char). intros H1 H2. kbool. cbn.
  unfold eqb in *. rewrite !bool_decide_eq_false_2 by done.
  by rewrite IH.
Qed.

(** *** Prefix matching as a statement about strings *)
Lemma get_app_length s c t : String.get (String.length s) (s +:+ String c t) = Some c.
Proof. induction s as [|a s IH]; cbn; [done|]. apply IH. Qed.

Lemma prefix_matches_spec prefix path :
  prefix_matches prefix path = true ↔
  prefix = "/" ∨
  (trim_end_matches "/" prefix ≠ "" ∧
   (path = trim_end_matches "/" prefix ∨
    ∃ rest, path = trim_end_matches "/" prefix +:+ String "/" rest)).
Proof.
  unfold prefix_matches. destruct (eqb prefix "/") eqn:E1; kbool; [naive_solver|].
  generalize (trim_end_matches "/" prefix) as p; intros p.
  destruct (eqb p "") eqn:E2; kbool; [naive_solver|].
  rewrite orb_true_iff, !andb_true_iff. unfold eqb. rewrite !bool_decide_eq_true.
  rewrite Z.ltb_lt, starts_with_spec. split.
  - intros [->|[[Hlen Hget] [t ->]]]; right; (split; [done|]); [by left|].
    right. destruct t as [|c t].
    { unfold len in Hlen. rewrite length_append in Hlen. cbn in Hlen. lia. }
    rewrite get_app_length in Hget. injection Hget as ->. by exists t.
  - intros [->|[_ [->|[rest ->]]]]; [done|by left|right].
    rewrite get_app_length. unfold len. rewrite length_append. cbn.
    split; [split; [lia|done]|]. by eexists.
Qed.

Lemma trim_slash_app t rest :
  trim_end_matches "/" t = t → t ≠ "" →
  trim_end_matches "/" (t +:+ String "/" rest) = t ∨
  ∃ rest', trim_end_matches "/" (t +:+ String "/" rest) = t +:+ String "/" rest'.
Proof.
  intros Ht Hne. revert Ht Hne. induction t as [|c t IH]; intros Ht Hne; [done|].
  cbn [String.append trim_end_matches] in *.
  destruct t as [|d t].
  - cbn [String.append trim_end_matches] in *.
    destruct (eqb c "/"%char) eqn:Ec; [discriminate|].
    destruct (trim_end_matches "/" rest) as [|r rs] eqn:Er; cbn; [by left|].
    right. by eexists.
  - assert (Ht' : trim_end_matches "/" (String d t) = String d t).
    { destruct (trim_end_matches "/" (String d t)); [|congruence].
      by destruct (eqb c _). }
    specialize (IH Ht' ltac:(done)). destruct IH as [IH|[rest' IH]];
      rewrite IH; [by left|right; by exists rest'].
Qed.

(** A prefix of a prefix is a prefix: scopes nest. *)
Lemma prefix_matches_trans a b c :
  prefix_matches a b = true → prefix_matches b c = true → prefix_matches a c = true.
Proof.
  rewrite !prefix_matches_spec. intros [->|[Ha Hb]]; [by left|]. intros Hc. right.
  split; [done|]. set (t := trim_end_matches "/" a) in *.
  assert (Ht : trim_end_matches "/" t = t) by apply trim_end_matches_idemp.
  assert (Hnb : b ≠ "/").
  { intros ->. destruct Hb as [Hb|[r Hb]]; [by rewrite <-Hb in Ht|].
    destruct t as [|x [|y t]]; cbn in Hb; congruence. }
  destruct Hc as [?|[_ Hc]]; [done|].
  assert (Hbt : trim_end_matches "/" b = t ∨
                ∃ r, trim_end_matches "/" b = t +:+ String "/" r).
  { destruct Hb as [->|[r ->]]; [by left|]. by apply trim_slash_app. }
  destruct Hbt as [Hbt|[r Hbt]]; rewrite Hbt in Hc; [done|].
  right. destruct Hc as [->|[r' ->]]; [by eexists|].
  eexists. by rewrite string_app_assoc.
Qed.

(** A non-root path covers itself. *)
Lemma prefix_matches_refl p :
  trim_end_matches "/" p ≠ "" → prefix_matches p p = true.
Proof.
  intros Hne. apply prefix_matches_spec. right. split; [done|].
  destruct (trim_end_matches_spec "/" p) as (t & Hp & Ht).
  destruct t as [|c t]; [left; by rewrite Hp, string_app_nil_r at 1|].
  right. exists t. cbn in Ht. kbool. by subst c.
Qed.

(** Two prefixes of one path are comparable: this is what makes checking the
    two directions of a prefix match enough for an overlap test. *)
Lemma prefix_matches_comparable a b path :
  prefix_matches a path = true → prefix_matches b path = true →
  prefix_matches a b = true ∨ prefix_matches b a = true.
Proof.
  intros Ha Hb. 
  destruct (decide (a = "/")) as [->|Hna]; [by left|].
  destruct (decide (b = "/")) as [->|Hnb]; [by right|].
  apply prefix_matches_spec in Ha as [?|[Ha Hpa]]; [done|].
  apply prefix_matches_spec in Hb as [?|[Hb Hpb]]; [done|].
  assert (Hlift : ∀ x y, trim_end_matches "/" x ≠ "" → trim_end_matches "/" y ≠ "" →
    (trim_end_matches "/" y = trim_end_matches "/" x ∨
     ∃ r, trim_end_matches "/" y = trim_end_matches "/" x +:+ String "/" r) →
    prefix_matches x y = true).
  { intros x y Hx Hy Hxy. apply prefix_matches_spec. right. split; [done|].
    destruct (trim_end_matches_spec "/" y) as (s & Hys & Hs). rewrite Hys.
    destruct Hxy as [->|[r ->]].
    - destruct s as [|c s]; [left; by rewrite string_app_nil_r|].
      right. cbn in Hs. kbool. subst c. by eexists.
    - right. eexists. by rewrite string_app_assoc. }
  enough (H : ∀ p q, (∃ s, path = p +:+ s ∧ (s = "" ∨ ∃ r, s = String "/" r)) →
                     (∃ s, path = q +:+ s ∧ (s = "" ∨ ∃ r, s = String "/" r)) →
                     (q = p ∨ ∃ r, q = p +:+ String "/" r) ∨
                     (p = q ∨ ∃ r, p = q +:+ String "/" r)).
  { destruct (H (trim_end_matches "/" a) (trim_end_matches "/" b)) as [H'|H'].
    - destruct Hpa as [->|[r ->]]; [exists ""|exists (String "/" r)];
        rewrite ?string_app_nil_r; naive_solver.
    - destruct Hpb as [->|[r ->]]; [exists ""|exists (String "/" r)];
        rewrite ?string_app_nil_r; naive_solver.
    - left. by apply Hlift.
    - right. by apply Hlift. }
  clear. intros p q (s & Hp & Hs) (u & Hq & Hu). rewrite Hp in Hq. clear Hp.
  revert q Hq. induction p as [|x p IH]; intros [|y q] Hq; cbn in *.
  - by left; left.
  - left. destruct Hs as [->|[r ->]]; [done|]. injection Hq as <- ->. right. by exists q.
  - right. destruct Hu as [->|[r ->]]; [done|]. injection Hq as -> <-. right. by exists p.
  - injection Hq as <- Hq. destruct (IH _ Hq) as [[->|[r ->]]|[->|[r ->]]]; naive_solver.
Qed.

#[export] Hint Resolve prefix_matches_trans : keychute.

(** ** Properties *)

(** The segments of a path: what a server that splits at [/] sees. *)
Definition segments (path : string) : list string := split "/" path.


(** Prefix matching is segment matching: apart from the root prefix, which
    covers everything, a prefix covers a path exactly when the segments of the
    prefix (trailing slashes dropped) are the first segments of the path, so
    [/v1/account] never covers [/v1/account-delete]. *)
Theorem prefix_matches_segments prefix path :
  prefix_matches prefix path = true ↔
  prefix = "/" ∨
  (trim_end_matches "/" prefix ≠ ""
   ∧ segments (trim_end_matches "/" prefix) `prefix_of` segments path).
Proof.
  rewrite prefix_matches_spec. unfold segments.
  generalize (trim_end_matches "/" prefix) as p. intros p.
  apply or_iff_compat_l, and_iff_compat_l. split.
  - intros [->|[rest ->]]; [done|]. rewrite split_app. by eexists.
  - intros [k Hk]. apply (f_equal (join "/")) in Hk. rewrite join_split in Hk.
    destruct k as [|x k].
    + left. by rewrite app_nil_r, join_split in Hk.
    + right. rewrite join_app, join_split in Hk by (done || apply split_not_nil). by eexists.
Qed.
