(* ===== verification/Policy.v ===== *)
(** [server/src/policy/mod.rs]: the policy engine, a pure function from the
    client, the secret, the requested grant and the policy rows to a decision.

    The second half relates the engine's scope tests to the calls a scope
    admits: the subset test is sound and the overlap test complete. *)

From S2P Require Import Prelude RustStr Types Paths.
Open Scope string_scope.

Definition MAX_HTTP_METHOD_LEN : Z := 64.

(** RFC 9110 [tchar]. *)
Definition tchar (b : ascii) : bool :=
  is_ascii_alphanumeric b
  || eqb b "!"%char || in_range "#" "'" b || eqb b "*"%char || eqb b "+"%char
  || eqb b "-"%char || eqb b "."%char || eqb b "^"%char || eqb b "_"%char
  || eqb b "`"%char || eqb b "|"%char || eqb b "~"%char.

Definition is_valid_http_method (s : string) : bool :=
  negb (eqb s "") && (len s <=? MAX_HTTP_METHOD_LEN)%Z && all_bytes tchar s.

Module Outcome.
Inductive t := AutoApprove | NotifyOnly | RequireApproval | Deny.

#[global] Instance eq_dec : EqDecision t.
Proof. solve_decision. Defined.

Definition from_str_opt (s : string) : option t :=
  if eqb s "auto-approve" then Some AutoApprove
  else if eqb s "notify-only" then Some NotifyOnly
  else if eqb s "require-approval" then Some RequireApproval
  else if eqb s "deny" then Some Deny
  else None.
Definition as_str (o : t) : string :=
  match o with
  | AutoApprove => "auto-approve" | NotifyOnly => "notify-only"
  | RequireApproval => "require-approval" | Deny => "deny"
  end.
Definition restrictiveness (o : t) : Z :=
  match o with AutoApprove => 0 | NotifyOnly => 1 | RequireApproval => 2 | Deny => 3 end.

Lemma outcome_from_as_str o : from_str_opt (as_str o) = Some o.
Proof. by destruct o. Qed.
End Outcome.

Record ClientRow := mkClientRow {
  c_name : string;
  c_enabled : bool;
  c_max_tier : Tier.t;
  c_allowed_mechanisms : list Mechanism.t
}.

Record SecretRow := mkSecretRow {
  s_name : string;
  s_enabled : bool;
  s_max_tier : Tier.t;
  s_operator_vetted : bool
}.

Record PolicyRow := mkPolicyRow {
  p_id : Uuid;
  p_client_name : option string;
  p_secret_name : option string;
  p_secret_tag : option string;
  p_mechanism : Mechanism.t;
  p_outcome : Outcome.t;
  p_priority : Z;
  p_origins : list Origin;
  p_methods : list string;
  p_path_prefixes : list string;
  p_max_ttl_seconds : option Z;
  p_max_uses : option Z;
  p_not_after : option DateTime
}.

Record RequestedGrant := mkRequestedGrant {
  r_secret_name : string;
  r_mechanism : Mechanism.t;
  r_constraints : Constraints
}.

Module Decision.
Inductive t :=
| Deny (reason : string)
| RequireApproval
| NotifyOnly
| AutoApprove.
End Decision.

Record Evaluation := mkEvaluation {
  decision : Decision.t;
  policy_not_after : option DateTime;
  policy_id : option Uuid
}.

Definition Evaluation_deny (reason : string) : Evaluation :=
  mkEvaluation (Decision.Deny reason) None None.

(** Row applicability: client, secret, mechanism and expiry. *)
Definition is_applicable (p : PolicyRow) (client : ClientRow) (req : RequestedGrant)
    (secret_tags : list string) (now : DateTime) : bool :=
  if negb (eqb (p_mechanism p) (r_mechanism req)) then false
  else if match p_not_after p with Some nafter => (nafter <=? now)%Z | None => false end
  then false
  else if match p_client_name p with
          | Some c => negb (eqb c (c_name client)) | None => false end
  then false
  else match p_secret_name p, p_secret_tag p with
       | Some name, _ => eqb name (r_secret_name req)
       | None, Some tag => existsb (eqb tag) secret_tags
       | None, None => true
       end.

Definition scopes_overlap (p : PolicyRow) (req : Constraints) : bool :=
  let origins_overlap :=
    is_empty (p_origins p) || is_empty (origins req)
    || existsb (λ po, existsb (λ ro, same_target po ro) (origins req)) (p_origins p) in
  let methods_overlap :=
    is_empty (p_methods p) || is_empty (methods req)
    || existsb (λ pm, existsb (λ rm, eq_ignore_ascii_case pm rm) (methods req))
               (p_methods p) in
  let prefixes_overlap :=
    is_empty (p_path_prefixes p) || is_empty (path_prefixes req)
    || existsb (λ pp,
         let pp := to_ascii_lowercase pp in
         existsb (λ rp,
           let rp := to_ascii_lowercase rp in
           prefix_matches pp rp || prefix_matches rp pp) (path_prefixes req))
         (p_path_prefixes p) in
  origins_overlap && methods_overlap && prefixes_overlap.

Definition request_is_subset (p : PolicyRow) (req : Constraints) : bool :=
  let origins_ok :=
    if is_empty (origins req) then is_empty (p_origins p)
    else is_empty (p_origins p)
         || forallb (λ ro, existsb (λ po, same_target po ro) (p_origins p)) (origins req) in
  if negb origins_ok then false else
  let methods_ok :=
    if is_empty (methods req) then is_empty (p_methods p)
    else is_empty (p_methods p)
         || forallb (λ rm, existsb (λ pm, eq_ignore_ascii_case pm rm) (p_methods p))
                    (methods req) in
  if negb methods_ok then false else
  let prefixes_ok :=
    if is_empty (path_prefixes req) then is_empty (p_path_prefixes p)
    else is_empty (p_path_prefixes p)
         || forallb (λ rp, existsb (λ pp, prefix_matches pp rp) (p_path_prefixes p))
                    (path_prefixes req) in
  if negb prefixes_ok then false else
  if match p_max_ttl_seconds p with
     | Some max_ttl => (max_ttl <? ttl_seconds req)%Z | None => false end
  then false
  else match max_uses req, p_max_uses p with
       | _, None => true
       | None, Some _ => false
       | Some r, Some m => negb (m <? r)%Z
       end.

(** ** Precedence *)
(** [Iterator::max_by_key]: the last of the greatest elements. *)
Definition max_by_key {A} (key : A → list Z) (l : list A) : option A :=
  match l with
  | [] => None
  | x :: l =>
      Some (fold_left
        (λ best y, match key_compare (key best) (key y) with Gt => best | _ => y end) l x)
  end.

Section Evaluate.
(** [DateTime::<Utc>::MAX_UTC] and [Display for Uuid]. *)
Variables (MAX_UTC : DateTime) (uuid_display : Uuid → string).

(** [Reverse t] is [-t]: the tuple is compared component by component. *)
Definition precedence_key (p : PolicyRow) : list Z :=
  let client_spec := if is_some (p_client_name p) then 1%Z else 0%Z in
  let secret_spec :=
    if is_some (p_secret_name p) then 2%Z
    else if is_some (p_secret_tag p) then 1%Z else 0%Z in
  [client_spec; secret_spec; p_priority p; Outcome.restrictiveness (p_outcome p);
   (- default MAX_UTC (p_not_after p))%Z; Z.of_N (p_id p)].

(** [None] is the [unreachable!] of a winning deny row. *)
Definition outcome_decision (o : Outcome.t) : option Decision.t :=
  match o with
  | Outcome.AutoApprove => Some Decision.AutoApprove
  | Outcome.NotifyOnly => Some Decision.NotifyOnly
  | Outcome.RequireApproval => Some Decision.RequireApproval
  | Outcome.Deny => None
  end.

Definition is_auto (d : Decision.t) : bool :=
  match d with Decision.AutoApprove | Decision.NotifyOnly => true | _ => false end.

Definition is_deny (o : Outcome.t) : bool := eqb o Outcome.Deny.

(** The hard caps, which deny regardless of policy rows. *)
Definition hard_caps (client : ClientRow) (secret : option SecretRow)
    (req : RequestedGrant) : option string :=
  if negb (c_enabled client) then Some "client is disabled"
  else if negb (contains (c_allowed_mechanisms client) (r_mechanism req)) then
    Some ("mechanism " +:+ Mechanism.as_str (r_mechanism req)
          +:+ " not allowed for client " +:+ c_name client)
  else
    let tier := Mechanism.tier (r_mechanism req) in
    if Tier.gt tier (c_max_tier client) then
      Some ("tier " +:+ Tier.as_str tier +:+ " exceeds client max tier "
            +:+ Tier.as_str (c_max_tier client))
    else match secret with
    | Some s =>
        if negb (s_enabled s) then Some "secret is disabled"
        else if Tier.gt tier (s_max_tier s) then
          Some ("tier " +:+ Tier.as_str tier +:+ " exceeds secret max tier "
                +:+ Tier.as_str (s_max_tier s))
        else None
    | None => None
    end.

(** The winning row's decision after the two clamps. *)
Definition winner_decision (secret : option SecretRow) (req : RequestedGrant)
    (p : PolicyRow) : option Decision.t :=
  decision ← outcome_decision (p_outcome p);
  let unvetted := match secret with None => true | Some s => negb (s_operator_vetted s) end in
  let decision :=
    if unvetted && is_auto decision then Decision.RequireApproval else decision in
  let decision :=
    if eqb (r_mechanism req) Mechanism.Brokered && is_empty (p_origins p) && is_auto decision
    then Decision.RequireApproval else decision in
  Some decision.

Definition evaluate (client : ClientRow) (secret : option SecretRow)
    (secret_tags : list string) (req : RequestedGrant) (policies : list PolicyRow)
    (now : DateTime) : option Evaluation :=
  match hard_caps client secret req with
  | Some reason => Some (Evaluation_deny reason)
  | None =>
      let applicable :=
        List.filter (λ p, is_applicable p client req secret_tags now) policies in
      match List.find (λ p, scopes_overlap p (r_constraints req))
              (List.filter (λ p, is_deny (p_outcome p)) applicable) with
      | Some p =>
          Some (mkEvaluation
            (Decision.Deny ("denied by policy " +:+ uuid_display (p_id p)))
            (p_not_after p) (Some (p_id p)))
      | None =>
          let winner :=
            max_by_key precedence_key
              (List.filter (λ p, negb (is_deny (p_outcome p))
                                 && request_is_subset p (r_constraints req)) applicable) in
          match winner with
          | Some p =>
              decision ← winner_decision secret req p;
              Some (mkEvaluation decision (p_not_after p) (Some (p_id p)))
          | None => Some (mkEvaluation Decision.RequireApproval None None)
          end
      end
  end.
End Evaluate.

(** ** The calls a scope admits *)
Record Call := mkCall { call_origin : Origin; call_method : string; call_path : string }.

Definition in_dim {A} (dim : list A) (ok : A → bool) : bool := is_empty dim || existsb ok dim.

(** Empty is unconstrained, in every dimension. *)
Definition in_scope (os : list Origin) (ms ps : list string) (c : Call) : bool :=
  in_dim os (λ o, same_target o (call_origin c))
  && in_dim ms (λ m, eq_ignore_ascii_case m (call_method c))
  && in_dim ps (λ p, prefix_matches p (call_path c)).

Definition row_admits (p : PolicyRow) (c : Call) : bool :=
  in_scope (p_origins p) (p_methods p) (p_path_prefixes p) c.
Definition constraints_admit (k : Constraints) (c : Call) : bool :=
  in_scope (origins k) (methods k) (path_prefixes k) c.

(** What a deny row is meant to keep out: paths compared without case. *)
Definition deny_row_covers (p : PolicyRow) (c : Call) : bool :=
  in_dim (p_origins p) (λ o, same_target o (call_origin c))
  && in_dim (p_methods p) (λ m, eq_ignore_ascii_case m (call_method c))
  && in_dim (p_path_prefixes p)
       (λ pp, prefix_matches (to_ascii_lowercase pp) (to_ascii_lowercase (call_path c))).

(** ** Scope lemmas *)
Lemma in_dim_spec {A} (dim : list A) ok :
  in_dim dim ok = true ↔ dim = [] ∨ ∃ x, x ∈ dim ∧ ok x = true.
Proof. unfold in_dim. by rewrite orb_true_iff, is_empty_true, existsb_elem. Qed.

(** A requested dimension that fits a row's dimension admits no more. *)
Definition dim_subset {A} (rdim pdim : list A) (covers : A → A → bool) : bool :=
  if is_empty rdim then is_empty pdim
  else is_empty pdim || forallb (λ r, existsb (λ p, covers p r) pdim) rdim.

Lemma dim_subset_sound {A} (rdim pdim : list A) covers (okp okr : A → bool) :
  (∀ p r, covers p r = true → okr r = true → okp p = true) →
  dim_subset rdim pdim covers = true → in_dim rdim okr = true → in_dim pdim okp = true.
Proof.
  unfold dim_subset. intros Hc Hs. rewrite !in_dim_spec.
  destruct (is_empty rdim) eqn:E.
  - apply is_empty_true in Hs. naive_solver.
  - apply is_empty_false in E. apply orb_true_iff in Hs as [Hs|Hs].
    { apply is_empty_true in Hs. naive_solver. }
    rewrite forallb_elem in Hs. intros [?|(r & Hr & Hok)]; [done|]. right.
    specialize (Hs _ Hr). apply existsb_elem in Hs as (p & Hp & Hpr). eauto.
Qed.

Lemma request_is_subset_dims p k :
  request_is_subset p k = true →
  dim_subset (origins k) (p_origins p) same_target = true
  ∧ dim_subset (methods k) (p_methods p) eq_ignore_ascii_case = true
  ∧ dim_subset (path_prefixes k) (p_path_prefixes p) prefix_matches = true
  ∧ (∀ m, p_max_ttl_seconds p = Some m → (ttl_seconds k ≤ m)%Z)
  ∧ (∀ m, p_max_uses p = Some m → ∃ r, max_uses k = Some r ∧ (r ≤ m)%Z).
Proof.
  unfold request_is_subset, dim_subset. intros H.
  destruct (if is_empty (origins k) then _ else _); [|done].
  destruct (if is_empty (methods k) then _ else _); [|done].
  destruct (if is_empty (path_prefixes k) then _ else _); [|done]. cbn [negb] in H.
  repeat split; try done.
  - intros m Hm. rewrite Hm in H. destruct (m <? ttl_seconds k)%Z eqn:E; [done|]. by apply Z.ltb_ge in E.
  - intros m Hm. rewrite Hm in H.
    destruct (match p_max_ttl_seconds p with
              | Some max_ttl => (max_ttl <? ttl_seconds k)%Z | None => false end); [done|].
    destruct (max_uses k) as [r|]; [|done].
    exists r. split; [done|]. apply negb_true_iff in H. lia.
Qed.

Lemma in_scope_spec os ms ps c :
  in_scope os ms ps c = true ↔
  in_dim os (λ o, same_target o (call_origin c)) = true
  ∧ in_dim ms (λ m, eq_ignore_ascii_case m (call_method c)) = true
  ∧ in_dim ps (λ p, prefix_matches p (call_path c)) = true.
Proof. unfold in_scope. rewrite !andb_true_iff. tauto. Qed.



Lemma request_is_subset_admits p k c :
  request_is_subset p k = true → constraints_admit k c = true → row_admits p c = true.
Proof.
  intros (Ho & Hm & Hp & _)%request_is_subset_dims.
  unfold constraints_admit, row_admits. rewrite !in_scope_spec.
  intros (H1 & H2 & H3). repeat split.
  - revert Ho H1. apply dim_subset_sound. eauto using same_target_trans.
  - revert Hm H2. apply dim_subset_sound. eauto using eq_ignore_ascii_case_trans.
  - revert Hp H3. apply dim_subset_sound. eauto using prefix_matches_trans.
Qed.

(** Lower-casing keeps the prefix relation. *)
Lemma slash_lower a : lower_byte a = "/"%char ↔ a = "/"%char.
Proof.
  assert (H : ∀ a, eqb (eqb (lower_byte a) "/"%char) (eqb a "/"%char) = true)
    by (apply ascii_all; vm_compute; done).
  specialize (H a). kbool. unfold eqb in H.
  destruct (decide (a = "/")%char) as [->|Hn]; [done|].
  rewrite (bool_decide_eq_false_2 (a = _)) in H by done. kbool. naive_solver.
Qed.

Lemma prefix_matches_lower a b :
  prefix_matches a b = true →
  prefix_matches (to_ascii_lowercase a) (to_ascii_lowercase b) = true.
Proof.
  rewrite !prefix_matches_spec. intros [->|[Hne Hb]]; [by left|right].
  rewrite lower_trim_end_matches by apply slash_lower. split.
  - intros H. apply Hne. by destruct (trim_end_matches "/" a).
  - destruct Hb as [->|[r ->]]; [by left|right].
    rewrite to_ascii_lowercase_app. by eexists.
Qed.

Lemma dims_overlap {A} (pdim rdim : list A) (okp okr : A → bool) (meets : A → A → bool) :
  (∀ p r, okp p = true → okr r = true → meets p r = true) →
  in_dim pdim okp = true → in_dim rdim okr = true →
  is_empty pdim || is_empty rdim
  || existsb (λ p, existsb (λ r, meets p r) rdim) pdim = true.
Proof.
  intros Hm. rewrite !in_dim_spec, !orb_true_iff, !is_empty_true.
  intros [?|(p & Hp & Hpk)] [?|(r & Hr & Hrk)];
    [by left; left|by left; left|by left; right|right].
  apply existsb_elem. exists p. split; [done|]. apply existsb_elem. eauto.
Qed.

Lemma deny_covers_overlap p k c :
  deny_row_covers p c = true → constraints_admit k c = true → scopes_overlap p k = true.
Proof.
  unfold deny_row_covers, constraints_admit, scopes_overlap.
  rewrite in_scope_spec, !andb_true_iff. intros ((H1 & H2) & H3) (H4 & H5 & H6).
  repeat split; eapply dims_overlap; try eassumption; cbn.
  - intros po ro Hpo Hro. eapply same_target_trans; [exact Hpo|]. by rewrite same_target_sym.
  - intros pm rm Hpm Hrm. eapply eq_ignore_ascii_case_trans; [exact Hpm|].
    by rewrite eq_ignore_ascii_case_sym.
  - intros pp rp Hpp Hrp%prefix_matches_lower. apply orb_true_iff.
    eauto using prefix_matches_comparable.
Qed.

(** ** The precedence order *)
Definition is_max {A} (key : A → list Z) (l : list A) (m : A) : Prop :=
  m ∈ l ∧ ∀ y, y ∈ l → key_compare (key y) (key m) ≠ Gt.

Lemma max_by_key_some {A} (key : A → list Z) l m :
  max_by_key key l = Some m → is_max key l m.
Proof.
  destruct l as [|x l]; [done|]. cbn. intros [= <-]. revert x.
  induction l as [|y l IH]; intros x; cbn.
  - split; [by left|]. intros z ->%list_elem_of_singleton. by rewrite key_compare_refl.
  - destruct (key_compare (key x) (key y)) eqn:E.
    1,2: destruct (IH y) as [Hin Hmax]; split; [by right|];
      intros z [->|Hz]%elem_of_cons; [|by apply Hmax];
      apply key_compare_trans with (key y); [by rewrite E|apply Hmax; by left].
    destruct (IH x) as [Hin Hmax]. split.
    { apply elem_of_cons in Hin as [->|?]; [by left|by do 2 right]. }
    intros z [->|[->|Hz]%elem_of_cons]%elem_of_cons; [apply Hmax; by left| |apply Hmax; by right].
    apply key_compare_trans with (key x); [by rewrite key_compare_antisym, E|apply Hmax; by left].
Qed.
Lemma max_by_key_none {A} (key : A → list Z) l : max_by_key key l = None ↔ l = [].
Proof. by destruct l. Qed.

Lemma is_max_unique {A} (key : A → list Z) l m m' :
  (∀ x y, x ∈ l → y ∈ l → key x = key y → x = y) →
  is_max key l m → is_max key l m' → m = m'.
Proof.
  intros Hinj [Hm H1] [Hm' H2]. apply Hinj; [done..|]. apply key_compare_eq.
  specialize (H1 _ Hm'). specialize (H2 _ Hm).
  rewrite key_compare_antisym in H1. by destruct (key_compare (key m) (key m')).
Qed.

Lemma filter_In_elem {A} (f : A → bool) l x : x ∈ List.filter f l ↔ x ∈ l ∧ f x = true.
Proof. rewrite !list_elem_of_In. apply filter_In. Qed.

Lemma find_none_elem {A} (f : A → bool) l : List.find f l = None ↔ ∀ x, x ∈ l → f x = false.
Proof.
  induction l as [|a l IH]; cbn; [set_solver|].
  destruct (f a) eqn:E; [|rewrite IH; set_solver].
  split; [done|]. intros H. specialize (H a ltac:(by left)). congruence.
Qed.
Lemma find_some_elem {A} (f : A → bool) l x : List.find f l = Some x → x ∈ l ∧ f x = true.
Proof. rewrite list_elem_of_In. apply find_some. Qed.

(** ** The decision, specified without the list traversals

    [decides policies e] says which evaluations a *set* of rows allows: hard
    caps first, then any overlapping deny row, then the greatest matching row
    in the precedence order, then the default. *)
Section Spec.
Context (MAX_UTC : DateTime) (uuid_display : Uuid → string).
Context (client : ClientRow) (secret : option SecretRow) (secret_tags : list string).
Context (req : RequestedGrant) (now : DateTime).

Definition applies (p : PolicyRow) : Prop :=
  is_applicable p client req secret_tags now = true.
Definition denies (p : PolicyRow) : Prop :=
  applies p ∧ p_outcome p = Outcome.Deny ∧ scopes_overlap p (r_constraints req) = true.
Definition matches (p : PolicyRow) : Prop :=
  applies p ∧ p_outcome p ≠ Outcome.Deny ∧ request_is_subset p (r_constraints req) = true.

Inductive decides (policies : list PolicyRow) : Evaluation → Prop :=
| decides_capped reason :
    hard_caps client secret req = Some reason →
    decides policies (Evaluation_deny reason)
| decides_denied p :
    hard_caps client secret req = None →
    p ∈ policies → denies p →
    decides policies
      (mkEvaluation (Decision.Deny ("denied by policy " +:+ uuid_display (p_id p)))
         (p_not_after p) (Some (p_id p)))
| decides_won p d :
    hard_caps client secret req = None →
    (∀ q, q ∈ policies → ¬ denies q) →
    p ∈ policies → matches p →
    (∀ q, q ∈ policies → matches q →
       key_compare (precedence_key MAX_UTC q) (precedence_key MAX_UTC p) ≠ Gt) →
    winner_decision secret req p = Some d →
    decides policies (mkEvaluation d (p_not_after p) (Some (p_id p)))
| decides_default :
    hard_caps client secret req = None →
    (∀ q, q ∈ policies → ¬ denies q ∧ ¬ matches q) →
    decides policies (mkEvaluation Decision.RequireApproval None None).

Lemma elem_deny_candidates policies p :
  p ∈ List.filter (λ p, is_deny (p_outcome p))
        (List.filter (λ p, is_applicable p client req secret_tags now) policies) ↔
  p ∈ policies ∧ applies p ∧ p_outcome p = Outcome.Deny.
Proof. rewrite !filter_In_elem. unfold is_deny, eqb. rewrite bool_decide_eq_true. tauto. Qed.

Lemma elem_win_candidates policies p :
  p ∈ List.filter (λ p, negb (is_deny (p_outcome p))
                        && request_is_subset p (r_constraints req))
        (List.filter (λ p, is_applicable p client req secret_tags now) policies) ↔
  p ∈ policies ∧ matches p.
Proof.
  rewrite !filter_In_elem, andb_true_iff, negb_true_iff.
  unfold is_deny, eqb, matches, applies. rewrite bool_decide_eq_false. tauto.
Qed.

Lemma winner_decision_total p :
  p_outcome p ≠ Outcome.Deny → is_Some (winner_decision secret req p).
Proof. unfold winner_decision. destruct (p_outcome p); cbn; try done; by eexists. Qed.

(** The evaluation of a row list refines the specification, and never reaches
    [unreachable!]. *)
Lemma evaluate_decides policies :
  ∃ e, evaluate MAX_UTC uuid_display client secret secret_tags req policies now = Some e
       ∧ decides policies e.
Proof.
  unfold evaluate. destruct (hard_caps client secret req) as [reason|] eqn:Hcap.
  { eexists. split; [done|]. by apply decides_capped. }
  match goal with |- context [List.find ?f ?l] => destruct (List.find f l) as [p|] eqn:Hf end.
  - apply find_some_elem in Hf as [(Hp & Ha & Hd)%elem_deny_candidates Ho].
    eexists. split; [done|]. by apply decides_denied.
  - assert (Hnd : ∀ q, q ∈ policies → ¬ denies q).
    { rewrite find_none_elem in Hf. intros q Hq (Ha & Hd & Ho).
      rewrite (Hf q) in Ho by by apply elem_deny_candidates. done. }
    match goal with |- context [max_by_key ?k ?l] =>
      destruct (max_by_key k l) as [p|] eqn:Hw end.
    + apply max_by_key_some in Hw as [(Hp & Hm)%elem_win_candidates Hmax].
      destruct (winner_decision_total p) as [d Hd]; [by apply Hm|].
      rewrite Hd. eexists. split; [done|]. apply decides_won; try done.
      intros q Hq Hmq. apply Hmax, elem_win_candidates. done.
    + apply max_by_key_none in Hw. eexists. split; [done|]. apply decides_default; [done|].
      intros q Hq. split; [by apply Hnd|]. intros Hm.
      assert (Hin : q ∈ @nil PolicyRow); [|by apply elem_of_nil in Hin].
      rewrite <-Hw. by apply elem_win_candidates.
Qed.

(** Two evaluations of the same rows agree, except for which overlapping deny
    row they blame. *)
Definition same_evaluation (e e' : Evaluation) : Prop :=
  match decision e, decision e' with
  | Decision.Deny _, Decision.Deny _ => True
  | _, _ => e = e'
  end.

Lemma precedence_key_inj p q :
  precedence_key MAX_UTC p = precedence_key MAX_UTC q → p_id p = p_id q.
Proof. intros [= _ _ _ _ _ H]. by apply N2Z.inj. Qed.

Lemma decides_deterministic policies e e' :
  (∀ p q, p ∈ policies → q ∈ policies → p_id p = p_id q → p = q) →
  decides policies e → decides policies e' → same_evaluation e e'.
Proof.
  intros Hid H H'. unfold same_evaluation.
  inversion H as [r1 Hc1|p1 Hc1 Hp1 Hd1|p1 d1 Hc1 Hn1 Hp1 Hm1 Hx1 Hw1|Hc1 Hn1];
  inversion H' as [r2 Hc2|p2 Hc2 Hp2 Hd2|p2 d2 Hc2 Hn2 Hp2 Hm2 Hx2 Hw2|Hc2 Hn2];
    subst; cbn; try congruence; try done;
    try (by destruct (Hn1 _ Hp2)); try (by destruct (Hn2 _ Hp1));
    try (by destruct (proj2 (Hn1 _ Hp2))); try (by destruct (proj2 (Hn2 _ Hp1))).
  assert (p1 = p2) as ->.
  { apply Hid; [done..|]. apply precedence_key_inj, key_compare_eq.
    specialize (Hx1 _ Hp2 Hm2). specialize (Hx2 _ Hp1 Hm1).
    rewrite key_compare_antisym in Hx1.
    by destruct (key_compare (precedence_key MAX_UTC p1) (precedence_key MAX_UTC p2)). }
  replace d2 with d1 by congruence. by destruct d1.
Qed.

Lemma decides_ext policies policies' e :
  (∀ p, p ∈ policies ↔ p ∈ policies') → decides policies e → decides policies' e.
Proof.
  intros Hext. destruct 1.
  - by apply decides_capped.
  - apply decides_denied; naive_solver.
  - apply decides_won; try naive_solver.
  - apply decides_default; naive_solver.
Qed.
End Spec.

Lemma hard_caps_none client secret req :
  hard_caps client secret req = None →
  c_enabled client = true
  ∧ r_mechanism req ∈ c_allowed_mechanisms client
  ∧ (Tier.as_int (Mechanism.tier (r_mechanism req)) ≤ Tier.as_int (c_max_tier client))%Z
  ∧ ∀ s, secret = Some s →
      s_enabled s = true
      ∧ (Tier.as_int (Mechanism.tier (r_mechanism req)) ≤ Tier.as_int (s_max_tier s))%Z.
Proof.
  unfold hard_caps. destruct (c_enabled client); [|done]. cbn [negb].
  destruct (contains _ _) eqn:Hm; [|done]. cbn [negb].
  destruct (Tier.gt _ (c_max_tier client)) eqn:Ht; [done|].
  apply Tier.gt_false in Ht. intros H. kbool. repeat split; try done;
    intros; subst; cbn in H; destruct (s_enabled _); try done; cbn [negb] in H;
    destruct (Tier.gt _ (s_max_tier _)) eqn:Hs; try done; by apply Tier.gt_false.
Qed.

Lemma winner_decision_auto secret req p d :
  winner_decision secret req p = Some d → is_auto d = true →
  outcome_decision (p_outcome p) = Some d
  ∧ (∃ s, secret = Some s ∧ s_operator_vetted s = true)
  ∧ (r_mechanism req = Mechanism.Brokered → p_origins p ≠ []).
Proof.
  unfold winner_decision. intros H Ha.
  destruct (outcome_decision (p_outcome p)) as [d0|]; [|done]. cbn in H.
  injection H as H. destruct (_ && is_auto d0) eqn:Hu.
  { rewrite andb_false_r in H. by subst d. }
  destruct (_ && is_empty _ && _) eqn:Hb; [by subst d|]. subst d0.
  rewrite Ha, andb_true_r in *. split; [done|]. split.
  - destruct secret as [s|]; [|done]. exists s. by destruct (s_operator_vetted s).
  - intros Hm He. rewrite Hm, He, eqb_refl in Hb. done.
Qed.

Lemma applicable_live p client req tags now t :
  is_applicable p client req tags now = true → p_not_after p = Some t → (now < t)%Z.
Proof.
  unfold is_applicable. intros H Ht. rewrite Ht in H.
  destruct (negb _); [done|]. destruct (t <=? now)%Z eqn:E; [done|]. by apply Z.leb_gt.
Qed.

(** ** Properties of the engine *)

(** C1: the engine refines its list-free specification: on every input it
    returns an evaluation (the [unreachable!] of a winning deny row is never
    reached), and that evaluation is the one [decides] allows: hard caps, then
    any overlapping live deny row, then the greatest matching row in the
    precedence order, then require-approval. *)
Theorem evaluate_refines_spec MAX_UTC uuid_display client secret tags req policies now :
  ∃ e, evaluate MAX_UTC uuid_display client secret tags req policies now = Some e
       ∧ decides MAX_UTC uuid_display client secret tags req now policies e.
Proof. apply evaluate_decides. Qed.

(** C2: whenever the engine auto-approves or notifies only, the client is
    enabled, may use the mechanism and its tier cap covers it; the secret
    exists, is enabled, has been vetted by an operator and its cap covers the
    mechanism; some live row of that outcome contains the whole request, its
    expiry is the one reported as the grant cap, and a brokered release is
    granted by a row that names its origins; no live deny row overlaps. *)
Theorem evaluate_auto_sound MAX_UTC uuid_display client secret tags req policies now e :
  evaluate MAX_UTC uuid_display client secret tags req policies now = Some e →
  is_auto (decision e) = true →
  c_enabled client = true
  ∧ r_mechanism req ∈ c_allowed_mechanisms client
  ∧ (Tier.as_int (Mechanism.tier (r_mechanism req)) ≤ Tier.as_int (c_max_tier client))%Z
  ∧ (∃ s, secret = Some s ∧ s_enabled s = true ∧ s_operator_vetted s = true
          ∧ (Tier.as_int (Mechanism.tier (r_mechanism req)) ≤ Tier.as_int (s_max_tier s))%Z)
  ∧ (∀ q, q ∈ policies → ¬ denies client tags req now q)
  ∧ ∃ p, p ∈ policies
      ∧ is_applicable p client req tags now = true
      ∧ outcome_decision (p_outcome p) = Some (decision e)
      ∧ request_is_subset p (r_constraints req) = true
      ∧ (r_mechanism req = Mechanism.Brokered → p_origins p ≠ [])
      ∧ policy_id e = Some (p_id p)
      ∧ policy_not_after e = p_not_after p
      ∧ (∀ t, policy_not_after e = Some t → (now < t)%Z).
Proof.
  destruct (evaluate_decides MAX_UTC uuid_display client secret tags req now policies)
    as (e' & He' & Hd).
  rewrite He'. intros [= <-] Ha. destruct Hd as [| |p d Hcap Hnd Hp Hm _ Hw|]; try done.
  cbn in *. apply hard_caps_none in Hcap as (H1 & H2 & H3 & H4).
  apply winner_decision_auto in Hw as (Ho & (s & -> & Hv) & Hor); [|done].
  destruct (H4 s eq_refl) as [Hse Hst]. destruct Hm as (Happ & _ & Hsub).
  repeat split; try done; [by exists s|].
  exists p. repeat split; try done. intros t. by eapply applicable_live.
Qed.

(** Deny rows win.  If the hard caps pass and any live row that applies to
    the request has outcome deny and overlaps the requested scope, the request
    is denied by a policy row, whatever the priorities of the other rows. *)
Theorem evaluate_deny_wins MAX_UTC uuid_display client secret tags req policies now p :
  p ∈ policies → denies client tags req now p →
  ∃ e reason, evaluate MAX_UTC uuid_display client secret tags req policies now = Some e
    ∧ decision e = Decision.Deny reason.
Proof.
  intros Hp Hden.
  destruct (evaluate_decides MAX_UTC uuid_display client secret tags req now policies)
    as (e & He & Hd).
  exists e. destruct Hd as [reason|q ? ? ?|q d ? Hn|? Hn].
  - by exists reason.
  - by eexists.
  - by destruct (Hn p Hp).
  - by destruct (proj1 (Hn p Hp)).
Qed.

(** C3: evaluation does not depend on the order of the policy rows: over any
    rows with distinct ids, a permutation yields the same evaluation, except
    that a denial may blame another of the overlapping deny rows. *)
Theorem evaluate_order_independent MAX_UTC uuid_display client secret tags req now
    policies policies' :
  NoDup (p_id <$> policies) → policies ≡ₚ policies' →
  ∃ e e', evaluate MAX_UTC uuid_display client secret tags req policies now = Some e
    ∧ evaluate MAX_UTC uuid_display client secret tags req policies' now = Some e'
    ∧ same_evaluation e e'.
Proof.
  intros Hnd Hperm.
  destruct (evaluate_decides MAX_UTC uuid_display client secret tags req now policies)
    as (e & He & Hd).
  destruct (evaluate_decides MAX_UTC uuid_display client secret tags req now policies')
    as (e' & He' & Hd').
  exists e, e'. split; [done|]. split; [done|].
  eapply (decides_deterministic _ _ _ _ _ _ _ policies); [|done|].
  - intros p q (i & Hi)%list_elem_of_lookup (j & Hj)%list_elem_of_lookup Hid.
    assert (i = j) as ->; [|congruence].
    eapply (NoDup_lookup _ _ _ (p_id p) Hnd); rewrite list_lookup_fmap;
      [by rewrite Hi|rewrite Hj; cbn; by rewrite Hid].
  - eapply decides_ext; [|done]. intros p. by rewrite Hperm.
Qed.

(** C4: an automatic approval stays inside policy, call by call.  Every call
    (origin, method, path) the requested constraints admit is one the winning
    row admits, and one no live deny row covers, comparing paths without case
    on the deny side. *)
Theorem auto_approved_calls_within_policy MAX_UTC uuid_display client secret tags req
    policies now e call :
  evaluate MAX_UTC uuid_display client secret tags req policies now = Some e →
  is_auto (decision e) = true →
  constraints_admit (r_constraints req) call = true →
  (∃ p, p ∈ policies ∧ policy_id e = Some (p_id p) ∧ row_admits p call = true)
  ∧ ∀ q, q ∈ policies → is_applicable q client req tags now = true →
      p_outcome q = Outcome.Deny → deny_row_covers q call = false.
Proof.
  destruct (evaluate_decides MAX_UTC uuid_display client secret tags req now policies)
    as (e' & He' & Hd).
  rewrite He'. intros [= <-] Ha Hcall.
  destruct Hd as [| |p d Hcap Hnd Hp (_ & _ & Hm) _ _|]; try done. split.
  - exists p. eauto using request_is_subset_admits.
  - intros q Hq Happ Hout. apply not_true_iff_false. intros Hcov.
    destruct (Hnd q Hq). split; [done|]. split; [done|]. by eapply deny_covers_overlap.
Qed.

(** ** Witnesses: one client, one vetted secret, three rows *)
Module PolicyExample.
Definition api : Origin := mkOrigin "api.example.com" None.
Definition client : ClientRow :=
  mkClientRow "family-assistant" true Tier.Direct [Mechanism.Brokered; Mechanism.CliRead].
Definition secret : SecretRow := mkSecretRow "example-api-token" true Tier.Direct true.
Definition req : RequestedGrant :=
  mkRequestedGrant "example-api-token" Mechanism.Brokered
    (mkConstraints [api] ["GET"] ["/v1/account"] 3600 (Some 5%Z)).
Definition row (id : Uuid) (o : Outcome.t) (prefixes : list string) : PolicyRow :=
  mkPolicyRow id None None None Mechanism.Brokered o 0 [api] [] prefixes None None (Some 100%Z).
Definition allow : PolicyRow := row 1%N Outcome.AutoApprove ["/v1"].
Definition notify : PolicyRow := row 2%N Outcome.NotifyOnly ["/v1/account"].
Definition deny : PolicyRow := row 3%N Outcome.Deny ["/V1/Account/close"].
Definition uuid_display (u : Uuid) : string := N_to_string u.
Definition eval (policies : list PolicyRow) : option Evaluation :=
  evaluate 1000 uuid_display client (Some secret) [] req policies 50.
Definition call : Call := mkCall (mkOrigin "api.example.com" (Some 443%Z)) "get" "/v1/account/x".
End PolicyExample.

Example eval_notify_beats_allow :
  PolicyExample.eval [PolicyExample.allow; PolicyExample.notify]
  = Some (mkEvaluation Decision.NotifyOnly (Some 100%Z) (Some 2%N)).
Proof. vm_compute. reflexivity. Qed.

Lemma evaluate_auto_sound_witness :
  ∃ p, p ∈ [PolicyExample.allow; PolicyExample.notify] ∧ p_id p = 2%N.
Proof.
  destruct (evaluate_auto_sound 1000 PolicyExample.uuid_display PolicyExample.client
    (Some PolicyExample.secret) [] PolicyExample.req
    [PolicyExample.allow; PolicyExample.notify] 50
    (mkEvaluation Decision.NotifyOnly (Some 100%Z) (Some 2%N))
    ltac:(vm_compute; reflexivity) ltac:(reflexivity))
    as (_ & _ & _ & _ & _ & p & Hp & _ & _ & _ & _ & Hid & _).
  exists p. split; [exact Hp|]. by injection Hid.
Defined.

Lemma evaluate_deny_wins_witness :
  ∃ e reason, PolicyExample.eval
      [PolicyExample.allow; PolicyExample.deny; PolicyExample.notify] = Some e
    ∧ decision e = Decision.Deny reason.
Proof.
  apply (evaluate_deny_wins 1000 PolicyExample.uuid_display PolicyExample.client
    (Some PolicyExample.secret) [] PolicyExample.req _ 50 PolicyExample.deny).
  - right. left.
  - repeat split; vm_compute; reflexivity.
Defined.

Lemma evaluate_order_independent_witness :
  ∃ e e', PolicyExample.eval [PolicyExample.allow; PolicyExample.notify] = Some e
    ∧ PolicyExample.eval [PolicyExample.notify; PolicyExample.allow] = Some e'
    ∧ same_evaluation e e'.
Proof.
  apply (evaluate_order_independent 1000 PolicyExample.uuid_display PolicyExample.client
    (Some PolicyExample.secret) [] PolicyExample.req 50).
  - apply (bool_decide_unpack _). vm_compute. exact I.
  - apply perm_swap.
Defined.

Lemma auto_approved_calls_within_policy_witness :
  ∃ p, p ∈ [PolicyExample.allow; PolicyExample.notify]
       ∧ row_admits p PolicyExample.call = true.
Proof.
  destruct (auto_approved_calls_within_policy 1000 PolicyExample.uuid_display
    PolicyExample.client (Some PolicyExample.secret) [] PolicyExample.req
    [PolicyExample.allow; PolicyExample.notify] 50
    (mkEvaluation Decision.NotifyOnly (Some 100%Z) (Some 2%N)) PolicyExample.call
    ltac:(vm_compute; reflexivity) ltac:(reflexivity) ltac:(vm_compute; reflexivity))
    as [(p & Hp & _ & Hadm) _].
  by exists p.
Defined.
