(* ===== verification/Crypto.v ===== *)
(** [server/src/crypto/mod.rs]: envelope encryption, the keyset and its MACs.

    The AEAD, HMAC and base64 come from crates: they are the operations of the
    class [Primitives], with the ideal behaviour the code relies on.  The bytes
    drawn from the OS generator are arguments ([Draw]). *)

From S2P Require Import Prelude RustStr Examples.
Open Scope string_scope.

Definition DEK_WRAP_AAD : string := "keychute/v1/dek-wrap".
Definition EPHEMERAL_KEK_ID : string := "ephemeral".
Definition KEY_LEN : Z := 32.
Definition NONCE_LEN : Z := 24.

Inductive CryptoError :=
| Keyset_error (what : string)
| DecryptFailed
| UnknownKek (id : string).

#[export] Instance CryptoError_eq_dec : EqDecision CryptoError.
Proof. solve_decision. Defined.

Inductive AadContext :=
| SecretVersion (secret_id : Uuid) (version : Z)
| GrantPassthrough (grant_id : Uuid)
| RequestContext (request_id : Uuid).

#[export] Instance AadContext_eq_dec : EqDecision AadContext.
Proof. solve_decision. Defined.

Record Sealed := mkSealed {
  sealed_ciphertext : string;
  sealed_nonce : string;
  sealed_wrapped_dek : string;
  sealed_kek_id : string
}.

(** [XChaCha20Poly1305] ([encrypt]/[decrypt] on key, nonce, associated data and
    message) and base64.  A ciphertext opens only under what it was made with:
    the authenticity an AEAD promises, taken as certain. *)
Class Primitives := {
  aead_encrypt : string → string → string → string → option string;
  aead_decrypt : string → string → string → string → option string;
  hmac_sha256 : string → string → string;
  base64_decode : string → option string;
  aead_nonempty : ∀ k n a m c, aead_encrypt k n a m = Some c → c ≠ "";
  aead_decrypts : ∀ k n a m c,
    aead_encrypt k n a m = Some c → aead_decrypt k n a c = Some m;
  aead_authentic : ∀ k n a m c k' n' a' m',
    aead_encrypt k n a m = Some c → aead_decrypt k' n' a' c = Some m' →
    k = k' ∧ n = n' ∧ a = a'
}.

Section Crypto.
Context `{UuidText, Primitives}.

Definition derive (ctx : AadContext) : string :=
  match ctx with
  | SecretVersion secret_id version =>
      "keychute/v1/secret-version/" +:+ uuid_display secret_id +:+ "/" +:+ Z_to_string version
  | GrantPassthrough grant_id => "keychute/v1/grant-passthrough/" +:+ uuid_display grant_id
  | RequestContext request_id => "keychute/v1/request-context/" +:+ uuid_display request_id
  end.

(** [KeyMaterial]: a key is its bytes. *)
Definition from_slice (bytes : string) : option string :=
  if negb (Z.eqb (len bytes) KEY_LEN) then None else Some bytes.

(** What one sealing draws: [KeyMaterial::random] and two [random_nonce]s. *)
Record Draw := mkDraw { dek : string; payload_nonce : string; wrap_nonce : string }.
Definition draw_ok (d : Draw) : Prop :=
  len (dek d) = KEY_LEN ∧ len (payload_nonce d) = NONCE_LEN ∧ len (wrap_nonce d) = NONCE_LEN.

Definition seal_with_kek (d : Draw) (kek kek_id plaintext : string) (aad : AadContext)
  : result CryptoError Sealed :=
  ciphertext ←
    ok_or (aead_encrypt (dek d) (payload_nonce d) (derive aad) plaintext) DecryptFailed;
  wrap_ct ← ok_or (aead_encrypt kek (wrap_nonce d) DEK_WRAP_AAD (dek d)) DecryptFailed;
  Ok (mkSealed ciphertext (payload_nonce d) (wrap_nonce d +:+ wrap_ct) kek_id).

Fixpoint split_at (n : nat) (s : string) : string * string :=
  match n, s with
  | S n, String c s => let '(a, b) := split_at n s in (String c a, b)
  | _, _ => ("", s)
  end.

Definition unwrap_dek (kek wrapped_dek : string) : result CryptoError string :=
  fail_if (len wrapped_dek <=? NONCE_LEN)%Z with DecryptFailed;
  let '(wrap_nonce, wrap_ct) := split_at (Z.to_nat NONCE_LEN) wrapped_dek in
  dek_bytes ← ok_or (aead_decrypt kek wrap_nonce DEK_WRAP_AAD wrap_ct) DecryptFailed;
  ok_or (from_slice dek_bytes) DecryptFailed.

Definition open_with_kek (kek ciphertext nonce wrapped_dek : string) (aad : AadContext)
  : result CryptoError string :=
  fail_if negb (Z.eqb (len nonce) NONCE_LEN) with DecryptFailed;
  dek ← unwrap_dek kek wrapped_dek;
  ok_or (aead_decrypt dek nonce (derive aad) ciphertext) DecryptFailed.

(** ** The keyset *)
Record KeysetFile := mkKeysetFile {
  file_active : string;
  file_keys : gmap string string;
  file_mac_key : string
}.
Record Keyset := mkKeyset {
  active : string;
  keys : gmap string string;
  mac_key : string
}.

Inductive KeysetError :=
| NoKeys
| ActiveNotPresent
| ReservedKekId
| InvalidBase64 (what : string)
| WrongKeyLength (what : string).

Definition decode_key (b64 what : string) : result KeysetError string :=
  decoded ← ok_or (base64_decode b64) (InvalidBase64 what);
  ok_or (from_slice decoded) (WrongKeyLength what).

Definition from_file (file : KeysetFile) : result KeysetError Keyset :=
  fail_if bool_decide (file_keys file = ∅) with NoKeys;
  fail_if is_none (file_keys file !! file_active file) with ActiveNotPresent;
  fail_if is_some (file_keys file !! EPHEMERAL_KEK_ID) with ReservedKekId;
  decoded ← try_map (λ '(id, b64), k ← decode_key b64 ("key " +:+ id); Ok (id, k))
                    (map_to_list (file_keys file));
  mac_key ← decode_key (file_mac_key file) "mac_key";
  Ok (mkKeyset (file_active file) (list_to_map decoded) mac_key).

Definition Keyset_kek (ks : Keyset) (kek_id : string) : result CryptoError string :=
  ok_or (keys ks !! kek_id) (UnknownKek kek_id).

Definition Keyset_seal (ks : Keyset) (d : Draw) (plaintext : string) (aad : AadContext)
  : result CryptoError Sealed :=
  kek ← Keyset_kek ks (active ks);
  seal_with_kek d kek (active ks) plaintext aad.

Definition Keyset_open (ks : Keyset) (ciphertext nonce wrapped_dek kek_id : string)
    (aad : AadContext) : result CryptoError string :=
  kek ← Keyset_kek ks kek_id;
  open_with_kek kek ciphertext nonce wrapped_dek aad.

Definition Keyset_rewrap (ks : Keyset) (wrap_nonce wrapped_dek old_kek_id : string)
  : result CryptoError (string * string) :=
  old ← Keyset_kek ks old_kek_id;
  active_kek ← Keyset_kek ks (active ks);
  dek ← unwrap_dek old wrapped_dek;
  wrap_ct ← ok_or (aead_encrypt active_kek wrap_nonce DEK_WRAP_AAD dek) DecryptFailed;
  Ok (wrap_nonce +:+ wrap_ct, active ks).

(** The two MACs: what is fed to HMAC, and the tag. *)
Definition NUL_str : string := String NUL "".
Definition idem_mac_input (client payload_canonical : string) : string :=
  "keychute/v1/idem-mac" +:+ NUL_str +:+ client +:+ NUL_str +:+ payload_canonical.
Definition idem_mac (ks : Keyset) (client payload_canonical : string) : string :=
  hmac_sha256 (mac_key ks) (idem_mac_input client payload_canonical).
Definition csrf_mac_input (payload : string) : string :=
  "keychute/v1/csrf" +:+ NUL_str +:+ payload.
Definition csrf_mac (ks : Keyset) (payload : string) : string :=
  hmac_sha256 (mac_key ks) (csrf_mac_input payload).

(** [ct_eq], whose running time is not modelled. *)
Definition ct_eq (a b : string) : bool := eqb a b.

(** [EphemeralKek]: its key. *)
Definition EphemeralKek := string.
Definition Ephemeral_seal (kek : EphemeralKek) (d : Draw) (plaintext : string)
    (aad : AadContext) : result CryptoError Sealed :=
  seal_with_kek d kek EPHEMERAL_KEK_ID plaintext aad.
Definition Ephemeral_open (kek : EphemeralKek) (ciphertext nonce wrapped_dek : string)
    (aad : AadContext) : result CryptoError string :=
  open_with_kek kek ciphertext nonce wrapped_dek aad.

(** What a loaded keyset satisfies. *)
Record keyset_wf (ks : Keyset) : Prop := mk_keyset_wf {
  wf_active : is_Some (keys ks !! active ks);
  wf_reserved : keys ks !! EPHEMERAL_KEK_ID = None;
  wf_lengths : ∀ id k, keys ks !! id = Some k → len k = KEY_LEN;
  wf_mac : len (mac_key ks) = KEY_LEN
}.

(** ** Lemmas *)
Lemma derive_inj c c' : derive c = derive c' → c = c'.
Proof.
  destruct c as [u v|u|u], c' as [u' v'|u'|u']; unfold derive; cbn; intros E; try discriminate E.
  - repeat (injection E as E). apply app_sep_inj in E as [Hu Hv];
      [|by apply uuid_display_excludes..].
    by rewrite (uuid_display_inj _ _ Hu), (Z_to_string_inj _ _ Hv).
  - repeat (injection E as E). by rewrite (uuid_display_inj _ _ E).
  - repeat (injection E as E). by rewrite (uuid_display_inj _ _ E).
Qed.

Lemma split_at_app s t : split_at (String.length s) (s +:+ t) = (s, t).
Proof. induction s as [|c s IH]; cbn; [done|]. by rewrite IH. Qed.

Lemma from_slice_Some b k : from_slice b = Some k ↔ k = b ∧ len b = KEY_LEN.
Proof.
  unfold from_slice. destruct (Z.eqb_spec (len b) KEY_LEN); cbn; naive_solver.
Qed.

(** The authenticated data is not the wrapping label's, so a payload key cannot
    be confused with a wrapping key; a wrapped DEK unwraps under its KEK only. *)
Lemma unwrap_wrapped kek n c k :
  len n = NONCE_LEN → c ≠ "" →
  unwrap_dek kek (n +:+ c) = Ok k ↔
  aead_decrypt kek n DEK_WRAP_AAD c = Some k ∧ len k = KEY_LEN.
Proof.
  intros Hn Hc. unfold unwrap_dek.
  assert (Hlt : (len (n +:+ c) <=? NONCE_LEN)%Z = false).
  { apply Z.leb_gt. revert Hn. unfold len, NONCE_LEN. intros Hn.
    assert (Hl : String.length (n +:+ c) = (String.length n + String.length c)%nat).
    { clear. induction n as [|a n IH]; cbn; [done|]. by rewrite IH. }
    rewrite Hl. destruct c; [done|]. cbn. lia. }
  rewrite Hlt. replace (Z.to_nat NONCE_LEN) with (String.length n)
    by (unfold len, NONCE_LEN in *; lia).
  rewrite split_at_app, bind_Ok. setoid_rewrite ok_or_Ok. setoid_rewrite from_slice_Some.
  naive_solver.
Qed.

(** Opening what was sealed: exactly the same key and context, and then the
    plaintext. *)
Lemma open_sealed d kek kek_id pt a s kek' a' r :
  draw_ok d → seal_with_kek d kek kek_id pt a = Ok s →
  open_with_kek kek' (sealed_ciphertext s) (sealed_nonce s) (sealed_wrapped_dek s) a' = Ok r ↔
  kek' = kek ∧ a' = a ∧ r = pt.
Proof.
  intros (Hk & Hn & Hw). unfold seal_with_kek.
  intros (c & Hc%ok_or_Ok & (w & Hwc%ok_or_Ok & [= <-])%bind_Ok)%bind_Ok. cbn.
  unfold open_with_kek. rewrite (proj2 (Z.eqb_eq _ _) Hn). cbn [negb].
  rewrite bind_Ok. setoid_rewrite ok_or_Ok.
  setoid_rewrite (unwrap_wrapped kek' (wrap_nonce d) w _ Hw (aead_nonempty _ _ _ _ _ Hwc)).
  split.
  - intros (k & [Hu _] & Hd).
    destruct (aead_authentic _ _ _ _ _ _ _ _ _ Hwc Hu) as (<- & _).
    rewrite (aead_decrypts _ _ _ _ _ Hwc) in Hu. injection Hu as <-.
    destruct (aead_authentic _ _ _ _ _ _ _ _ _ Hc Hd) as (_ & _ & Ha%derive_inj).
    subst a'. rewrite (aead_decrypts _ _ _ _ _ Hc) in Hd. by injection Hd.
  - intros (-> & -> & ->). exists (dek d). split; [split; [|done]|];
      by apply aead_decrypts.
Qed.

Lemma keyset_sealed_opens ks d pt a s :
  draw_ok d → Keyset_seal ks d pt a = Ok s →
  Keyset_open ks (sealed_ciphertext s) (sealed_nonce s) (sealed_wrapped_dek s) (sealed_kek_id s) a
  = Ok pt.
Proof.
  intros Hd (kek & Hkek & Hs)%bind_Ok.
  assert (Hid : sealed_kek_id s = active ks).
  { apply bind_Ok in Hs as (? & _ & (? & _ & [= <-])%bind_Ok). done. }
  unfold Keyset_open. rewrite Hid, Hkek. cbn. by apply (open_sealed d kek (active ks) pt a).
Qed.

(** Opening fails with one error only. *)
Lemma open_with_kek_err kek ct n w a e : open_with_kek kek ct n w a = Err e → e = DecryptFailed.
Proof.
  unfold open_with_kek, unwrap_dek. intros H'.
  repeat (match type of H' with
  | context [match ?x with _ => _ end] => destruct x
  | context [ok_or ?x _] => destruct x
  | context [from_slice ?x] => destruct (from_slice x)
  end; cbn in H'; try discriminate H'; try congruence).
Qed.

Lemma decoded_ids m l :
  try_map (λ '(id, b64), k ← decode_key b64 ("key " +:+ id); Ok (id, k)) (map_to_list m) = Ok l →
  l.*1 = ((map_to_list m).*1 : list string).
Proof.
  rewrite try_map_Ok. induction 1 as [|[id b] [id' k] l1 l2 Hx _ IH]; cbn; [done|].
  apply bind_Ok in Hx as (x & _ & [= <- <-]). by rewrite IH.
Qed.

Lemma from_file_Ok f ks :
  from_file f = Ok ks →
  keyset_wf ks ∧ dom (keys ks) = dom (file_keys f) ∧ active ks = file_active f.
Proof.
  unfold from_file. destruct (bool_decide _); [done|].
  destruct (is_none _) eqn:Ha; [done|]. destruct (is_some _) eqn:Hr; [done|].
  intros (l & Hl & (mk & Hm & [= <-])%bind_Ok)%bind_Ok. cbn.
  pose proof (decoded_ids _ _ Hl) as Hfst. rewrite try_map_Ok in Hl.
  assert (Hdk : ∀ b w k, decode_key b w = Ok k → len k = KEY_LEN).
  { intros b w k (x & _ & Hx%ok_or_Ok)%bind_Ok. by apply from_slice_Some in Hx as [-> ?]. }
  assert (Hnd : NoDup l.*1) by (rewrite Hfst; apply NoDup_fst_map_to_list).
  assert (Hdom : dom (list_to_map l : gmap string string) = dom (file_keys f)).
  { rewrite dom_list_to_map_L, Hfst, <-dom_list_to_map_L, list_to_map_to_list. done. }
  split; [|done]. constructor; cbn.
  - apply elem_of_dom. rewrite Hdom. apply elem_of_dom.
    unfold is_none in Ha. destruct (file_keys f !! file_active f); [by eexists|done].
  - apply not_elem_of_dom. rewrite Hdom. apply not_elem_of_dom.
    by destruct (file_keys f !! EPHEMERAL_KEK_ID).
  - intros id k Hk. apply elem_of_list_to_map in Hk; [|done].
    apply list_elem_of_lookup in Hk as [i Hi].
    destruct (Forall2_lookup_r _ _ _ _ _ Hl Hi) as ([id' b] & _ & Hx).
    apply bind_Ok in Hx as (x & Hx & [= <- <-]). by eapply Hdk.
  - by eapply Hdk.
Qed.
End Crypto.

(** ** Properties *)

(** C28: sealing is bound to its row.  What the keyset seals for a context opens,
    from the stored columns, to the plaintext under that context and the
    recorded KEK, and under every other context (another secret, version, grant
    or request: a relocated row) opening it is a decryption failure. *)
Theorem seal_open_binds_context `{UuidText, Primitives} ks d pt a s :
  draw_ok d → Keyset_seal ks d pt a = Ok s →
  sealed_kek_id s = active ks
  ∧ Keyset_open ks (sealed_ciphertext s) (sealed_nonce s) (sealed_wrapped_dek s)
      (sealed_kek_id s) a = Ok pt
  ∧ ∀ a', a' ≠ a →
      Keyset_open ks (sealed_ciphertext s) (sealed_nonce s) (sealed_wrapped_dek s)
        (sealed_kek_id s) a' = Err DecryptFailed.
Proof.
  intros Hd (kek & Hkek & Hs)%bind_Ok.
  assert (Hid : sealed_kek_id s = active ks).
  { apply bind_Ok in Hs as (? & _ & (? & _ & [= <-])%bind_Ok). done. }
  unfold Keyset_open. rewrite Hid, Hkek. cbn. split; [done|]. split.
  - by apply (open_sealed d kek (active ks) pt a).
  - intros a' Ha'. destruct (open_with_kek _ _ _ _ _) as [r|e] eqn:Ho.
    + by apply (open_sealed d kek (active ks) pt a) in Ho as (_ & ? & _).
    + by apply open_with_kek_err in Ho as ->.
Qed.

(** Rewrapping moves a row to the active KEK and changes nothing else: if a
    row opens under its recorded KEK, then after a rewrap its unchanged
    ciphertext opens, under the id the rewrap returned, to the same plaintext. *)
Theorem rewrap_preserves_plaintext `{UuidText, Primitives} ks n ct nonce wrapped kek_id a pt w' id' :
  len n = NONCE_LEN →
  Keyset_open ks ct nonce wrapped kek_id a = Ok pt →
  Keyset_rewrap ks n wrapped kek_id = Ok (w', id') →
  id' = active ks ∧ Keyset_open ks ct nonce w' id' a = Ok pt.
Proof.
  intros Hn (kek & Hkek & Ho)%bind_Ok Hr. unfold Keyset_rewrap in Hr. rewrite Hkek in Hr.
  apply bind_Ok in Hr as (? & [= <-] & (ak & Hak & (k & Hk & Hr)%bind_Ok)%bind_Ok).
  apply bind_Ok in Hr as (c & Hc%ok_or_Ok & [= <- <-]).
  split; [done|]. unfold Keyset_open. rewrite Hak. cbn.
  unfold open_with_kek in *. destruct (negb _); [done|]. rewrite Hk in Ho.
  assert (Hlen : len k = KEY_LEN).
  { unfold unwrap_dek in Hk. destruct (_ <=? _)%Z; [done|]. destruct (split_at _ _).
    apply bind_Ok in Hk as (b & _ & Hb%ok_or_Ok). by apply from_slice_Some in Hb as [-> ?]. }
  rewrite (proj2 (unwrap_wrapped ak n c k Hn (aead_nonempty _ _ _ _ _ Hc))); [done|].
  split; [by apply aead_decrypts|done].
Qed.

(** A keyset that loads is usable: it holds exactly the ids of the file, its
    active id names one of its keys, every key and the MAC key has 32 bytes, and
    no key goes by the id reserved for the ephemeral KEK. *)
Theorem from_file_usable `{Primitives} f ks :
  from_file f = Ok ks →
  keyset_wf ks ∧ dom (keys ks) = dom (file_keys f) ∧ active ks = file_active f
  ∧ ∃ kek, Keyset_kek ks (active ks) = Ok kek.
Proof.
  intros (Hwf & Hd & Ha)%from_file_Ok. split; [done|]. split; [done|]. split; [done|].
  destruct (wf_active _ Hwf) as [k Hk]. exists k. unfold Keyset_kek. by rewrite Hk.
Qed.

(** The two uses of the MAC key are separated, and the idempotency MAC
    covers both of its arguments: no client name and payload are MACed as the
    bytes of a CSRF token, and two idempotency inputs are equal only for the same
    client and payload, for client names without NUL bytes. *)
Theorem mac_inputs_separated client payload client' payload' token :
  idem_mac_input client payload ≠ csrf_mac_input token
  ∧ (contains_char NUL client = false → contains_char NUL client' = false →
     idem_mac_input client payload = idem_mac_input client' payload' →
     client = client' ∧ payload = payload').
Proof.
  split; [discriminate|]. unfold idem_mac_input, NUL_str. cbn. intros H1 H2 E.
  repeat (injection E as E). by apply app_sep_inj in E.
Qed.

(** ** Witnesses: primitives that meet the interface *)
Module CryptoExample.
Definition encrypt (k n a m : string) : option string :=
  Some (escape k +:+ (escape n +:+ (escape a +:+ escape m))).
Definition decrypt (k n a c : string) : option string :=
  '(k', c) ← unescape c;
  '(n', c) ← unescape c;
  '(a', c) ← unescape c;
  '(m, _) ← unescape c;
  if eqb k' k && eqb n' n && eqb a' a then Some m else None.

Lemma decrypt_encrypted k n a m k' n' a' :
  decrypt k' n' a' (escape k +:+ (escape n +:+ (escape a +:+ escape m)))
  = if eqb k k' && eqb n n' && eqb a a' then Some m else None.
Proof.
  unfold decrypt. rewrite unescape_escape. cbn [mbind option_bind].
  rewrite unescape_escape. cbn [mbind option_bind].
  rewrite unescape_escape. cbn [mbind option_bind].
  rewrite <-(string_app_nil_r (escape m)), unescape_escape. done.
Qed.
Lemma encrypt_nonempty k n a m c : encrypt k n a m = Some c → c ≠ "".
Proof. intros [= <-]. destruct k as [|x k]; cbn; [done|]. by destruct (_ || _). Qed.
Lemma decrypts k n a m c : encrypt k n a m = Some c → decrypt k n a c = Some m.
Proof. intros [= <-]. by rewrite decrypt_encrypted, !eqb_refl. Qed.
Lemma authentic k n a m c k' n' a' m' :
  encrypt k n a m = Some c → decrypt k' n' a' c = Some m' → k = k' ∧ n = n' ∧ a = a'.
Proof.
  intros [= <-]. rewrite decrypt_encrypted.
  destruct (eqb k k') eqn:E1; [|done]. destruct (eqb n n') eqn:E2; [|done].
  destruct (eqb a a') eqn:E3; [|done]. by kbool.
Qed.
(** A 32-byte tag: a window of the message. *)
Fixpoint pad (n : nat) (s : string) : string :=
  match n, s with
  | O, _ => ""
  | S n, "" => String "0" (pad n "")
  | S n, String c s => String c (pad n s)
  end.
Definition tag (k m : string) : string := pad 32 (split_at 38 m).2.
Lemma pad_length n s : String.length (pad n s) = n.
Proof. revert s. induction n as [|n IH]; intros [|c s]; cbn; try done; by rewrite IH. Qed.
Lemma tag_length k m : len (tag k m) = 32%Z.
Proof. unfold len, tag. by rewrite pad_length. Qed.
Definition primitives : Primitives := {|
  aead_encrypt := encrypt;
  aead_decrypt := decrypt;
  hmac_sha256 := tag;
  base64_decode := Some;
  aead_nonempty := encrypt_nonempty;
  aead_decrypts := decrypts;
  aead_authentic := authentic
|}.
#[export] Existing Instance primitives.
#[export] Existing Instance uuid_text_example.

Definition key (c : ascii) : string := string_of_list_ascii (replicate 32 c).
Definition nonce (c : ascii) : string := string_of_list_ascii (replicate 24 c).
Definition draw : Draw := mkDraw (key "d") (nonce "n") (nonce "w").
Definition file : KeysetFile :=
  mkKeysetFile "k2" {["k1" := key "1"; "k2" := key "2"]} (key "m").
Definition old_set : Keyset := mkKeyset "k1" {["k1" := key "1"; "k2" := key "2"]} (key "m").
Definition new_set : Keyset := mkKeyset "k2" {["k1" := key "1"; "k2" := key "2"]} (key "m").
Definition ctx : AadContext := SecretVersion 7%N 1.
Definition sealed : Sealed :=
  match Keyset_seal old_set draw "hunter2" ctx with Ok s => s | Err _ => mkSealed "" "" "" "" end.
Definition rewrapped : string * string :=
  match Keyset_rewrap new_set (nonce "x") (sealed_wrapped_dek sealed) "k1" with
  | Ok r => r | Err _ => ("", "") end.
End CryptoExample.
Import CryptoExample.

Lemma seal_open_binds_context_witness :
  Keyset_open old_set (sealed_ciphertext sealed) (sealed_nonce sealed)
    (sealed_wrapped_dek sealed) (sealed_kek_id sealed) (SecretVersion 7%N 2)
  = Err DecryptFailed.
Proof.
  apply (seal_open_binds_context old_set draw "hunter2" ctx sealed).
  - repeat split; reflexivity.
  - vm_compute. reflexivity.
  - discriminate.
Defined.

Lemma rewrap_preserves_plaintext_witness :
  Keyset_open new_set (sealed_ciphertext sealed) (sealed_nonce sealed)
    rewrapped.1 rewrapped.2 ctx = Ok "hunter2".
Proof.
  apply (rewrap_preserves_plaintext new_set (nonce "x") (sealed_ciphertext sealed)
    (sealed_nonce sealed) (sealed_wrapped_dek sealed) "k1" ctx "hunter2"
    rewrapped.1 rewrapped.2); vm_compute; reflexivity.
Defined.

Lemma from_file_usable_witness : ∃ kek, Keyset_kek new_set (active new_set) = Ok kek.
Proof.
  apply (from_file_usable file new_set). vm_compute. reflexivity.
Defined.

Lemma mac_inputs_separated_witness : "client-a" = "client-a" ∧ "{}" = "{}".
Proof.
  apply (mac_inputs_separated "client-a" "{}" "client-a" "{}" "token"); reflexivity.
Defined.
