(* ===== verification/SigV4.v ===== *)
(** [server/src/sigv4.rs] and [server/src/injection.rs]: the wire form of
    signed paths, the signature, and the validation of injection templates. *)

From S2P Require Import Prelude RustStr Crypto Paths.
Open Scope string_scope.

Definition SYNTHESIZED : list string :=
  ["x-amz-date"; "x-amz-content-sha256"; "x-amz-security-token"].
Definition STRIPPED_CALLER_HEADERS : list string :=
  ["x-amz-copy-source"; "x-amz-copy-source-range"; "x-amz-copy-source-if-match";
   "x-amz-copy-source-if-none-match"; "x-amz-copy-source-if-modified-since";
   "x-amz-copy-source-if-unmodified-since"].
Definition MAX_SCOPE_PART_BYTES : Z := 64.

Record Scope := mkScope { access_key_id : string; region : string; service : string }.

Definition validate_access_key_id (id : string) : result string unit :=
  fail_if eqb id "" || (128 <? len id)%Z with "SigV4 access key id must be 1-128 characters";
  fail_if negb (all_bytes (λ b, is_ascii_alphanumeric b || eqb b "-"%char || eqb b "_"%char) id)
    with "SigV4 access key id may contain only letters, digits, '-' and '_'";
  Ok tt.

Definition scope_part_ok (part : string) : bool :=
  negb (eqb part "") && (len part <=? MAX_SCOPE_PART_BYTES)%Z
  && all_bytes (λ b, is_ascii_lowercase b || is_ascii_digit b || eqb b "-"%char) part.
Definition parse_scope (scope : string) : result string (string * string) :=
  '(region, service) ← ok_or (split_once "/" scope)
                         "SigV4 scope must be 'region/service', e.g. 'us-east-1/s3'";
  fail_if negb (scope_part_ok region && scope_part_ok service)
    with "SigV4 region and service must be lowercase letters, digits and '-'";
  fail_if negb (eqb service "s3")
    with "SigV4 service must be 's3'; other AWS services are not supported";
  Ok (region, service).

Definition is_unreserved (b : ascii) : bool :=
  is_ascii_alphanumeric b || contains ["-"; "."; "_"; "~"]%char b.

(** [format!("%{b:02X}")] *)
Definition hex_upper (n : N) : ascii :=
  if (n <? 10)%N then ascii_of_N (48 + n) else ascii_of_N (55 + n).
Definition escape_byte (b : ascii) : string :=
  String "%" (String (hex_upper (N.shiftr (byte_of b) 4))
                (String (hex_upper (N.land (byte_of b) 15)) "")).
Fixpoint uri_encode (input : string) (keep_slash : bool) : string :=
  match input with
  | "" => ""
  | String b rest =>
      if is_unreserved b || (keep_slash && eqb b "/"%char)
      then String b (uri_encode rest keep_slash)
      else escape_byte b +:+ uri_encode rest keep_slash
  end.

Definition wire_path (decoded_path : string) : string :=
  if eqb decoded_path "" then "/" else uri_encode decoded_path true.

(** ** Signing

    SHA-256, hexadecimal text and calendar formatting are third-party code. *)
Class SigText := {
  sha256_hex : string → string;
  hex_encode : string → string;
  format_datetime : DateTime → string;   (* %Y%m%dT%H%M%SZ *)
  format_date : DateTime → string;       (* %Y%m%d *)
  sha256_hex_line : ∀ m, contains_char LF (sha256_hex m) = false;
  format_datetime_line : ∀ t, contains_char LF (format_datetime t) = false
}.

Record SigRequest := mkSigRequest {
  sq_method : string;
  sq_host : string;
  sq_wire_path : string;
  extra_signed_headers : list (string * string);
  sq_payload : string
}.
Record Signed := mkSigned { authorization : string; amz_date : string; content_sha256 : string }.

(** [str::split_whitespace] *)
Fixpoint split_whitespace (s cur : string) : list string :=
  let flush := if eqb cur "" then [] else [cur] in
  match s with
  | "" => flush
  | String a r =>
      if ws1 a then flush ++ split_whitespace r ""
      else
        match r with
        | String b r2 =>
            if ws2 a b then flush ++ split_whitespace r2 ""
            else match r2 with
                 | String c r3 =>
                     if ws3 a b c then flush ++ split_whitespace r3 ""
                     else split_whitespace r (cur +:+ String a "")
                 | "" => split_whitespace r (cur +:+ String a "")
                 end
        | "" => split_whitespace r (cur +:+ String a "")
        end
  end%list.
Definition canonical_header_value (v : string) : string := join " " (split_whitespace v "").

(** Repeated names fold into one comma-joined line; the last is at the head. *)
Definition fold_header (folded : list (string * string)) (kv : string * string)
  : list (string * string) :=
  match folded with
  | (lk, lv) :: rest =>
      if eqb lk kv.1 then (lk, lv +:+ "," +:+ kv.2) :: rest else kv :: folded
  | [] => [kv]
  end.

Section Sign.
Context `{SigText}.

Definition signed_header_list (req : SigRequest) (now : DateTime) : list (string * string) :=
  let headers :=
    (map (λ kv, (to_ascii_lowercase kv.1, canonical_header_value kv.2)) (extra_signed_headers req)
     ++ [("host", sq_host req);
         ("x-amz-content-sha256", sha256_hex (sq_payload req));
         ("x-amz-date", format_datetime now)])%list in
  rev (fold_left fold_header (sort_by_key (λ kv, bytes_key kv.1) headers) []).

Definition header_line (kv : string * string) : string := kv.1 +:+ ":" +:+ kv.2.
Definition canonical_request (req : SigRequest) (now : DateTime) : string :=
  let folded := signed_header_list req now in
  sq_method req +:+ String LF (sq_wire_path req +:+ String LF ("" +:+ String LF
    (fold_right (λ kv s, header_line kv +:+ String LF s) "" folded +:+ String LF
       (join ";" (map fst folded) +:+ String LF (sha256_hex (sq_payload req)))))).

Definition credential_scope (scope : Scope) (now : DateTime) : string :=
  format_date now +:+ "/" +:+ region scope +:+ "/" +:+ service scope +:+ "/aws4_request".
Definition string_to_sign (scope : Scope) (req : SigRequest) (now : DateTime) : string :=
  "AWS4-HMAC-SHA256" +:+ String LF (format_datetime now +:+ String LF
    (credential_scope scope now +:+ String LF (sha256_hex (canonical_request req now)))).

Definition sign `{Primitives} (scope : Scope) (secret_access_key : string) (req : SigRequest)
    (now : DateTime) : Signed :=
  let k_date := hmac_sha256 ("AWS4" +:+ secret_access_key) (format_date now) in
  let k_region := hmac_sha256 k_date (region scope) in
  let k_service := hmac_sha256 k_region (service scope) in
  let k_signing := hmac_sha256 k_service "aws4_request" in
  let signature := hex_encode (hmac_sha256 k_signing (string_to_sign scope req now)) in
  mkSigned
    ("AWS4-HMAC-SHA256 Credential=" +:+ access_key_id scope +:+ "/" +:+ credential_scope scope now
       +:+ ", SignedHeaders=" +:+ join ";" (map fst (signed_header_list req now))
       +:+ ", Signature=" +:+ signature)
    (format_datetime now) (sha256_hex (sq_payload req)).
End Sign.

(** ** Encoding, then decoding once *)
Lemma escape_byte_spec b :
  hex_val (hex_upper (N.shiftr (byte_of b) 4)) = Some (N.shiftr (byte_of b) 4)
  ∧ hex_val (hex_upper (N.land (byte_of b) 15)) = Some (N.land (byte_of b) 15)
  ∧ ascii_of_N (N.lor (N.shiftl (N.shiftr (byte_of b) 4) 4) (N.land (byte_of b) 15)) = b.
Proof. destruct b as [[] [] [] [] [] [] [] []]; by vm_compute. Qed.

Lemma percent_decode_escape b rest :
  b ≠ "/"%char → b ≠ "\"%char →
  percent_decode (escape_byte b +:+ rest) = (d ← percent_decode rest; Ok (String b d)).
Proof.
  intros H1 H2. destruct (escape_byte_spec b) as (E1 & E2 & E3).
  cbn [escape_byte String.append percent_decode]. rewrite E1, E2. cbn [ok_or mbind result_bind].
  rewrite E3. unfold eqb at 2 3. by rewrite !bool_decide_false.
Qed.

Lemma unreserved_plain b : is_unreserved b = true → b ≠ "%"%char ∧ b ≠ "\"%char.
Proof. intros H. split; intros ->; by vm_compute in H. Qed.

Lemma percent_decode_plain b rest :
  b ≠ "%"%char → b ≠ "\"%char →
  percent_decode (String b rest) = (d ← percent_decode rest; Ok (String b d)).
Proof.
  intros H1 H2. cbn [percent_decode]. unfold eqb. by rewrite !bool_decide_false.
Qed.

Lemma decode_uri_encode s :
  contains_char "\" s = false → percent_decode (uri_encode s true) = Ok s.
Proof.
  induction s as [|b s IH]; [done|]. rewrite contains_char_cons, orb_false_iff.
  intros [Hb Hs]. specialize (IH Hs). kbool. cbn [uri_encode].
  destruct (is_unreserved b) eqn:Eu; cbn [orb].
  { apply unreserved_plain in Eu as [??]. by rewrite percent_decode_plain, IH. }
  destruct (eqb b "/"%char) eqn:Es; cbn [andb].
  { kbool. subst b. by rewrite percent_decode_plain, IH by done. }
  kbool. by rewrite percent_decode_escape, IH by congruence.
Qed.

(** The bytes of an encoded path are the ones URL libraries leave alone. *)
Definition wire_char (b : ascii) : bool :=
  is_unreserved b || contains ["/"; "%"]%char b.
Lemma uri_encode_wire s : all_bytes wire_char (uri_encode s true) = true.
Proof.
  induction s as [|b s IH]; [done|]. cbn [uri_encode].
  destruct (is_unreserved b) eqn:Eu; cbn [orb].
  { cbn. unfold wire_char at 1. by rewrite Eu, IH. }
  destruct (eqb b "/"%char) eqn:Es; cbn [andb].
  { kbool. subst b. cbn. by rewrite IH. }
  rewrite all_bytes_app, IH, andb_true_r. clear. destruct b as [[] [] [] [] [] [] [] []]; by vm_compute.
Qed.

(** ** What the signature covers *)
Lemma split_whole c s : contains_char c s = false → split c s = [s].
Proof.
  induction s as [|a s IH]; [done|]. rewrite contains_char_cons, orb_false_iff, eqb_sym.
  intros [Ha Hs]. cbn. rewrite Ha. by rewrite IH.
Qed.

Lemma split_whitespace_line s cur x :
  contains_char LF cur = false → x ∈ split_whitespace s cur → contains_char LF x = false.
Proof.
  remember (String.length s) as n eqn:Hn. revert s cur Hn.
  induction n as [n IH] using lt_wf_ind. intros s cur Hn Hc.
  assert (Hflush : x ∈ (if eqb cur "" then [] else [cur]) → contains_char LF x = false).
  { destruct (eqb cur ""); [by intros ?%elem_of_nil|]. by intros ->%list_elem_of_singleton. }
  assert (Hrec : ∀ r cur', String.length r < n → contains_char LF cur' = false →
            x ∈ split_whitespace r cur' → contains_char LF x = false).
  { intros r cur' Hlt. by apply (IH (String.length r) Hlt). }
  destruct s as [|a r]; cbn [split_whitespace]; [done|].
  destruct (ws1 a) eqn:Ea.
  { intros [?|?]%elem_of_app; [auto|]. by apply (Hrec r ""); [subst n; cbn; lia|..]. }
  assert (Hc' : contains_char LF (cur +:+ String a "") = false).
  { rewrite contains_char_app, Hc, contains_char_cons, orb_false_r. cbn.
    apply bool_decide_eq_false. by intros <-. }
  destruct r as [|b r2]; [by apply Hrec; [subst n; cbn; lia|]|].
  destruct (ws2 a b).
  { intros [?|?]%elem_of_app; [auto|]. by apply (Hrec r2 ""); [subst n; cbn; lia|..]. }
  destruct r2 as [|c r3]; [by apply Hrec; [subst n; cbn; lia|]|].
  destruct (ws3 a b c); [|by apply Hrec; [subst n; cbn; lia|]].
  intros [?|?]%elem_of_app; [auto|]. by apply (Hrec r3 ""); [subst n; cbn; lia|..].
Qed.

Lemma join_line c sep l :
  eqb c sep = false → (∀ x, x ∈ l → contains_char c x = false) → contains_char c (join sep l) = false.
Proof.
  intros Hs. induction l as [|x l IH]; [done|]. intros Hl.
  assert (IH' : contains_char c (join sep l) = false) by (apply IH; intros y Hy; apply Hl; by right).
  pose proof (Hl x ltac:(by left)) as Hx. destruct l as [|y l]; [done|].
  change (join sep (x :: y :: l)) with (x +:+ String sep (join sep (y :: l))).
  by rewrite contains_char_app, contains_char_cons, Hx, Hs, IH'.
Qed.

(** A header the signer can write on a line of its own. *)
Definition header_ok (kv : string * string) : Prop :=
  contains_char ":" kv.1 = false ∧ contains_char LF kv.1 = false ∧ contains_char LF kv.2 = false.

Lemma fold_header_ok folded kv :
  Forall header_ok folded → header_ok kv → Forall header_ok (fold_header folded kv).
Proof.
  intros Hf (H1 & H2 & H3). destruct folded as [|[lk lv] rest]; cbn; [by apply Forall_singleton|].
  destruct (eqb lk kv.1); [|by constructor].
  apply Forall_cons in Hf as [(G1 & G2 & G3) Hf]. constructor; [|done].
  split; [done|]. split; [done|]. cbn [snd] in *.
  by rewrite contains_char_app, G3, contains_char_cons, H3.
Qed.
Lemma fold_headers_ok l folded :
  Forall header_ok folded → Forall header_ok l → Forall header_ok (fold_left fold_header l folded).
Proof.
  intros Hf Hl. revert folded Hf. induction Hl as [|kv l Hkv _ IH]; intros folded Hf; cbn; [done|].
  by apply IH, fold_header_ok.
Qed.

Lemma lower_line c s :
  is_ascii_lowercase c = false → is_ascii_uppercase c = false →
  contains_char c s = false → contains_char c (to_ascii_lowercase s) = false.
Proof.
  intros Hl Hu. induction s as [|a s IH]; [done|]. cbn [to_ascii_lowercase map_bytes].
  rewrite !contains_char_cons, !orb_false_iff. intros [Ha Hs]. split; [|by apply IH].
  apply bool_decide_eq_false. intros ->. apply bool_decide_eq_false in Ha.
  revert Hl Hu Ha. clear. by destruct a as [[] [] [] [] [] [] [] []]; vm_compute.
Qed.

Section Binds.
Context `{SigText}.

Record sig_request_wf (req : SigRequest) : Prop := mk_sig_request_wf {
  sw_method : contains_char LF (sq_method req) = false;
  sw_host : contains_char LF (sq_host req) = false;
  sw_path : contains_char LF (sq_wire_path req) = false;
  sw_headers : Forall (λ kv, contains_char ":" kv.1 = false ∧ contains_char LF kv.1 = false)
    (extra_signed_headers req)
}.

Lemma signed_headers_ok req now :
  sig_request_wf req → Forall header_ok (signed_header_list req now).
Proof.
  intros [Hm Hh Hp Hx]. unfold signed_header_list. apply Forall_rev, fold_headers_ok; [done|].
  rewrite (sort_by_key_perm _ _). apply Forall_app. split.
  - apply Forall_fmap. eapply Forall_impl; [exact Hx|]. intros [k v] [H1 H2]. cbn in *.
    split; [by apply lower_line|]. split; [by apply lower_line|].
    apply join_line; [done|]. intros x. by apply split_whitespace_line.
  - apply Forall_cons; split; [by split|].
    apply Forall_cons; split; [by split; [|split; [|apply sha256_hex_line]]|].
    apply Forall_singleton. by split; [|split; [|apply format_datetime_line]].
Qed.

Lemma split_header_lines folded t :
  Forall header_ok folded →
  split LF (fold_right (λ kv s, header_line kv +:+ String LF s) "" folded +:+ t)
  = (map header_line folded ++ split LF t)%list.
Proof.
  induction 1 as [|kv folded (H1 & H2 & H3) _ IH]; [done|]. cbn [fold_right map].
  rewrite string_app_assoc. cbn [String.append]. rewrite split_app, IH. cbn [app].
  rewrite split_whole; [done|]. unfold header_line. by rewrite !contains_char_app, H2, H3.
Qed.

Lemma split_canonical_request req now :
  sig_request_wf req →
  split LF (canonical_request req now)
  = ([sq_method req; sq_wire_path req; ""] ++ map header_line (signed_header_list req now)
     ++ [""; join ";" (map fst (signed_header_list req now)); sha256_hex (sq_payload req)])%list.
Proof.
  intros Hwf. pose proof (signed_headers_ok req now Hwf) as Hok. unfold canonical_request.
  set (folded := signed_header_list req now) in *.
  assert (Hnames : contains_char LF (join ";" (map fst folded)) = false).
  { apply join_line; [done|]. intros x (kv & -> & Hkv)%list_elem_of_fmap.
    rewrite Forall_forall in Hok. by apply Hok. }
  pose proof (sha256_hex_line (sq_payload req)) as Hsha.
  generalize dependent (join ";" (map fst folded)). intros names Hnames.
  generalize dependent (sha256_hex (sq_payload req)). intros sha Hsha.
  rewrite split_app, (split_whole _ _ (sw_method _ Hwf)), split_app,
    (split_whole _ _ (sw_path _ Hwf)), split_app, split_header_lines by done.
  change (String LF (names +:+ String LF sha)) with ("" +:+ String LF (names +:+ String LF sha)).
  by rewrite !split_app, (split_whole _ names Hnames), (split_whole _ sha Hsha).
Qed.

Lemma header_lines_inj l l' :
  Forall header_ok l → Forall header_ok l' → map header_line l = map header_line l' → l = l'.
Proof.
  intros Hl. revert l'. induction Hl as [|[k v] l (Hk & _) _ IH]; intros [|[k' v'] l'] Hl' E;
    try done. apply Forall_cons in Hl' as [(Hk' & _) Hl']. injection E as E E'.
  cbn in *. apply app_sep_inj in E as [-> ->]; [|done|done]. f_equal. by apply IH.
Qed.
End Binds.

(** A signature covers the request.  Two requests with the same canonical
    text have the same method, the same wire path, the same payload hash and
    the same signed headers, host and date among them, so a signature made for
    one request authorizes no other. *)
Theorem canonical_request_binds `{SigText} req now req' now' :
  sig_request_wf req → sig_request_wf req' →
  canonical_request req now = canonical_request req' now' →
  sq_method req = sq_method req' ∧ sq_wire_path req = sq_wire_path req'
  ∧ sha256_hex (sq_payload req) = sha256_hex (sq_payload req')
  ∧ signed_header_list req now = signed_header_list req' now'.
Proof.
  intros Hw Hw' E. apply (f_equal (split LF)) in E. rewrite !split_canonical_request in E by done.
  cbn [app] in E. injection E as E1 E2 E. apply app_inj_2 in E as [E3 E4]; [|done].
  injection E4 as _ E4. split; [done|]. split; [done|]. split; [done|].
  by apply header_lines_inj; [apply signed_headers_ok|apply signed_headers_ok|].
Qed.

(** Signed paths are sent as they were approved.  The wire path of a
    canonical path consists of characters URL libraries leave alone, and
    decoding it once gives the canonical path back, so the bytes signed, the
    bytes sent and the path the grant was checked against agree. *)
Theorem wire_path_roundtrip p :
  canonical p → all_bytes wire_char (wire_path p) = true ∧ canonicalize (wire_path p) = Ok p.
Proof.
  intros Hc. pose proof (can_slash _ Hc) as Hs. apply starts_with_spec in Hs as [t Ht].
  assert (Hp : wire_path p = uri_encode p true) by (by subst p). rewrite Hp.
  split; [apply uri_encode_wire|]. apply canonicalize_Ok.
  split; [rewrite Ht; cbn; apply starts_with_spec; by eexists|].
  split; [|done]. apply decode_uri_encode, Hc.
Qed.

(** ** Witnesses *)
Module SigExample.
Definition hex_lower (n : N) : ascii :=
  if (n <? 10)%N then ascii_of_N (48 + n) else ascii_of_N (87 + n).
Fixpoint hex_text (s : string) : string :=
  match s with
  | "" => ""
  | String b s =>
      String (hex_lower (N.shiftr (byte_of b) 4))
        (String (hex_lower (N.land (byte_of b) 15)) (hex_text s))
  end.
Lemma hex_text_line s : contains_char LF (hex_text s) = false.
Proof.
  induction s as [|b s IH]; [done|]. cbn [hex_text]. rewrite !contains_char_cons, IH, orb_false_r.
  destruct b as [[] [] [] [] [] [] [] []]; by vm_compute.
Qed.
Lemma decimal_line z : contains_char LF (Z_to_string z) = false.
Proof.
  apply contains_char_excluded with (λ c, is_ascii_digit c || eqb c "-"%char); [done|].
  unfold Z_to_string. destruct (z <? 0)%Z; cbn [all_bytes].
  - rewrite eqb_refl, orb_true_r. cbn [andb]. apply all_bytes_mono with is_ascii_digit;
      [by intros a ->|]. apply N_to_string_digits.
  - apply all_bytes_mono with is_ascii_digit; [by intros a ->|]. apply N_to_string_digits.
Qed.
Definition text : SigText := {|
  sha256_hex := hex_text;
  hex_encode := hex_text;
  format_datetime := Z_to_string;
  format_date := λ t, Z_to_string (t / seconds 86400);
  sha256_hex_line := hex_text_line;
  format_datetime_line := decimal_line
|}.
#[export] Existing Instance text.

Definition req : SigRequest :=
  mkSigRequest "GET" "s3.example.com" "/bucket/key" [("X-Amz-Meta", " a  b ")] "".
Definition same : SigRequest :=
  mkSigRequest "GET" "s3.example.com" "/bucket/key" [("x-amz-meta", "a b")] "".
End SigExample.
Import SigExample.

Lemma canonical_request_binds_witness :
  signed_header_list req (seconds 60) = signed_header_list same (seconds 60).
Proof.
  refine (proj2 (proj2 (proj2 (canonical_request_binds req (seconds 60) same (seconds 60) _ _ _)))).
  - split; try reflexivity. by apply Forall_singleton.
  - split; try reflexivity. by apply Forall_singleton.
  - vm_compute. reflexivity.
Defined.

Lemma wire_path_roundtrip_witness : canonicalize (wire_path "/a b/100%") = Ok "/a b/100%".
Proof.
  apply (wire_path_roundtrip "/a b/100%"). apply (proj1 (canonicalize_Ok "/a%20b/100%25" _)).
  vm_compute. reflexivity.
Defined.
