(* ===== verification/Http.v ===== *)
(** What the server relies on of the [http] and [url] crates: header names and
    values, header maps and URL mutation, as an interface the proxy's theorems
    are proved against. *)

From S2P Require Import Prelude RustStr Paths SigV4.
Open Scope string_scope.

(** [StatusCode]'s classes *)
Definition is_success (status : Z) : bool := (200 <=? status)%Z && (status <? 300)%Z.
Definition is_redirection (status : Z) : bool := (300 <=? status)%Z && (status <? 400)%Z.
Definition is_client_error (status : Z) : bool := (400 <=? status)%Z && (status <? 500)%Z.
Definition is_server_error (status : Z) : bool := (500 <=? status)%Z && (status <? 600)%Z.

(** RFC 9110 token characters. *)
Definition token_char (b : ascii) : bool :=
  is_ascii_alphanumeric b
  || contains ["!"; "#"; "$"; "%"; "&"; "'"; "*"; "+"; "-"; "."; "^"; "_"; "`"; "|"; "~"]%char b.
Definition token (s : string) : bool := negb (eqb s "") && all_bytes token_char s.
(** The bytes [HeaderValue::to_str] accepts. *)
Definition visible_ascii (b : ascii) : bool := in_range " " "~" b || eqb b TAB.

Class HttpLib := {
  (** [HeaderName::from_bytes(b)?.as_str()]: lower-cased, or refused. *)
  header_name : string → option string;
  header_name_token : ∀ n, token n = true → header_name n = Some (to_ascii_lowercase n);
  header_name_lower : ∀ n m, header_name n = Some m → m = to_ascii_lowercase n;
  (** [HeaderValue::from_bytes(b)?.as_bytes()] *)
  header_value : string → option string;
  header_value_bytes : ∀ v w, header_value v = Some w → w = v;
  header_value_visible : ∀ v, all_bytes visible_ascii v = true → header_value v = Some v;
  (** A map from lower-case names to their values; [iter] visits every entry. *)
  HeaderMap : Type;
  headers_new : HeaderMap;
  headers_iter : HeaderMap → list (string * string);
  headers_append : string → string → HeaderMap → HeaderMap;
  headers_insert : string → string → HeaderMap → HeaderMap;
  iter_new : headers_iter headers_new = [];
  iter_append : ∀ n v m, headers_iter (headers_append n v m) ≡ₚ (n, v) :: headers_iter m;
  iter_insert : ∀ n v m, headers_iter (headers_insert n v m)
    ≡ₚ (n, v) :: List.filter (λ kv, negb (eqb kv.1 n)) (headers_iter m)
}.

(** [url::Url]; parsing an origin, and the mutators and getters used here. *)
Class UrlLib := {
  Url : Type;
  url_parse : string → option Url;
  set_path : string → Url → Url;
  set_query : option string → Url → Url;
  url_path : Url → string;
  url_query : Url → option string;
  host_str : Url → option string;
  url_port : Url → option Z;
  (** A path that decodes to a canonical path keeps decoding to it: [set_path]
      only adds escapes and leaves those that are there. *)
  set_path_decodes : ∀ p s u, starts_with "/" p = true → percent_decode p = Ok s → canonical s →
    percent_decode (url_path (set_path p u)) = Ok s;
  set_path_slash : ∀ p u, starts_with "/" p = true →
    starts_with "/" (url_path (set_path p u)) = true;
  (** Unreserved characters, slashes and escapes are sent as they are. *)
  set_path_wire : ∀ p s u, starts_with "/" p = true → all_bytes wire_char p = true →
    percent_decode p = Ok s → canonical s → url_path (set_path p u) = p;
  set_query_path : ∀ q u, url_path (set_query q u) = url_path u;
  set_query_query : ∀ q u, url_query (set_query q u) = None → q = None;
  set_path_host : ∀ p u, host_str (set_path p u) = host_str u;
  set_query_host : ∀ q u, host_str (set_query q u) = host_str u;
  set_path_port : ∀ p u, url_port (set_path p u) = url_port u;
  set_query_port : ∀ q u, url_port (set_query q u) = url_port u
}.

(** [headers.get_all(name)] *)
Definition headers_get_all `{HttpLib} (name : string) (m : HeaderMap) : list string :=
  map snd (List.filter (λ kv, eqb kv.1 name) (headers_iter m)).
Definition headers_get `{HttpLib} (name : string) (m : HeaderMap) : option string :=
  head (headers_get_all name m).
(** [HeaderValue::to_str] *)
Definition to_str (v : string) : option string :=
  if all_bytes visible_ascii v then Some v else None.
(** [Url::parse(s)?.host_str()], what [Origin]'s parser looks at. *)
Definition url_host_str `{UrlLib} (s : string) : option (option string) :=
  host_str <$> url_parse s.

(** ** Instances that meet the interfaces *)
Module HttpExample.
Definition name_of (n : string) : option string :=
  if token n then Some (to_ascii_lowercase n) else None.
Lemma name_of_token n : token n = true → name_of n = Some (to_ascii_lowercase n).
Proof. unfold name_of. by intros ->. Qed.
Lemma name_of_lower n m : name_of n = Some m → m = to_ascii_lowercase n.
Proof. unfold name_of. destruct (token n); [by intros [= <-]|done]. Qed.
Lemma value_bytes v w : to_str v = Some w → w = v.
Proof. unfold to_str. destruct (all_bytes _ v); [by intros [= <-]|done]. Qed.
Lemma value_visible v : all_bytes visible_ascii v = true → to_str v = Some v.
Proof. unfold to_str. by intros ->. Qed.
Definition append (n v : string) (m : list (string * string)) : list (string * string) :=
  m ++ [(n, v)].
Definition insert (n v : string) (m : list (string * string)) : list (string * string) :=
  (n, v) :: List.filter (λ kv, negb (eqb kv.1 n)) m.
Lemma append_perm n v m : append n v m ≡ₚ (n, v) :: m.
Proof. unfold append. by rewrite Permutation_app_comm. Qed.
Lemma insert_perm n v m :
  insert n v m ≡ₚ (n, v) :: List.filter (λ kv, negb (eqb kv.1 n)) m.
Proof. done. Qed.
Definition http : HttpLib := {|
  header_name := name_of;
  header_name_token := name_of_token;
  header_name_lower := name_of_lower;
  header_value := to_str;
  header_value_bytes := value_bytes;
  header_value_visible := value_visible;
  HeaderMap := list (string * string);
  headers_new := [];
  headers_iter := λ m, m;
  headers_append := append;
  headers_insert := insert;
  iter_new := eq_refl;
  iter_append := append_perm;
  iter_insert := insert_perm
|}.
#[export] Existing Instance http.

(** An [https] URL: authority, path and query. *)
Record url_record := mkUrl {
  u_host : string; u_port : option Z; u_path : string; u_query : option string
}.
Definition parse (s : string) : option url_record :=
  rest ← strip_prefix "https://" s;
  match rsplit_once ":" rest with
  | Some (h, p) => p ← parse_uint u16_MAX p; Some (mkUrl h (Some p) "/" None)
  | None => Some (mkUrl rest None "/" None)
  end.
Definition with_path (p : string) (u : url_record) := mkUrl (u_host u) (u_port u) p (u_query u).
Definition with_query (q : option string) (u : url_record) :=
  mkUrl (u_host u) (u_port u) (u_path u) q.
Definition url : UrlLib := {|
  Url := url_record;
  url_parse := parse;
  set_path := with_path;
  set_query := with_query;
  url_path := u_path;
  url_query := u_query;
  host_str := λ u, Some (u_host u);
  url_port := u_port;
  set_path_decodes := λ p s u _ Hd _, Hd;
  set_path_slash := λ p u Hs, Hs;
  set_path_wire := λ p s u _ _ _ _, eq_refl;
  set_query_path := λ q u, eq_refl;
  set_query_query := λ q u Hq, Hq;
  set_path_host := λ p u, eq_refl;
  set_query_host := λ q u, eq_refl;
  set_path_port := λ p u, eq_refl;
  set_query_port := λ q u, eq_refl
|}.
#[export] Existing Instance url.
End HttpExample.
