(* ===== verification/Store.v ===== *)
(** The database: the tables of [migrations/] as the row structs of
    [server/src/db/] mirror them, and the SQL statements the store layer is
    written with, as operations on finite maps keyed by primary key.

    A store operation takes the transaction's [now()] (fixed when it starts),
    the random ids the database would draw, and the tables; it returns its
    result and the tables it commits.  A rolled-back or dropped transaction
    returns the tables it was given; an error ([Err]) leaves them unchanged. *)

From S2P Require Import Prelude RustStr Json Crypto.
Open Scope string_scope.

Inductive DbError :=
| UniqueViolation
| ForeignKeyViolation
| CheckViolation
| IntegerOutOfRange
| RowNotFound
| Sealing (e : CryptoError)
| Bail (what : string).

#[export] Instance DbError_eq_dec : EqDecision DbError.
Proof. solve_decision. Defined.

(** [integer] arithmetic of Postgres: out of range is an error. *)
Definition int4_succ (z : Z) : result DbError Z :=
  if (z <? i32_MAX)%Z then Ok (z + 1)%Z else Err IntegerOutOfRange.

(** ** Rows *)
Record SecretRow := mkSecretRow {
  sr_id : Uuid;
  sr_name : string;
  sr_description : string;
  sr_max_tier : Z;
  sr_injection_kind : string;
  sr_injection_header : option string;
  sr_injection_username : option string;
  sr_current_version : Z;
  sr_enabled : bool;
  sr_operator_vetted : bool;
  sr_managed_by_config : bool;
  sr_created_at : DateTime;
  sr_updated_at : DateTime
}.

Record SecretVersionRow := mkSecretVersionRow {
  sv_id : Uuid;
  sv_secret_id : Uuid;
  sv_version : Z;
  sv_ciphertext : string;
  sv_nonce : string;
  sv_wrapped_dek : string;
  sv_kek_id : string;
  sv_created_at : DateTime;
  sv_created_by_request : option Uuid
}.

Record ClientRow := mkClientRow {
  cl_id : Uuid;
  cl_name : string;
  cl_max_tier : Z;
  cl_mechanisms : list string;
  cl_auth_kind : string;
  cl_api_token_sha256 : option string;
  cl_sa_audience : option string;
  cl_sa_subject : option string;
  cl_enabled : bool;
  cl_may_store_secrets : bool
}.

Record PolicyRow := mkPolicyRow {
  po_id : Uuid;
  po_client_name : option string;
  po_secret_name : option string;
  po_secret_tag : option string;
  po_mechanism : string;
  po_outcome : string;
  po_priority : Z;
  po_origins : Value;
  po_methods : list string;
  po_path_prefixes : list string;
  po_max_ttl_seconds : option Z;
  po_max_uses : option Z;
  po_not_after : option DateTime;
  po_created_by : string;
  po_created_at : DateTime;
  po_managed_by_config : bool
}.

Record AccessRequestRow := mkAccessRequestRow {
  ar_id : Uuid;
  ar_client_name : string;
  ar_secret_name : string;
  ar_mechanism : string;
  ar_constraints : Value;
  ar_context_ciphertext : option string;
  ar_context_nonce : option string;
  ar_context_wrapped_dek : option string;
  ar_context_kek_id : option string;
  ar_state : string;
  ar_policy_not_after : option DateTime;
  ar_deny_reason : option string;
  ar_resolved_by : option string;
  ar_created_at : DateTime;
  ar_resolved_at : option DateTime;
  ar_expires_at : DateTime;
  ar_push_delivered_at : option DateTime;
  ar_push_attempts : Z;
  ar_notify_only : bool;
  ar_idem_client : string;
  ar_idem_key : string;
  ar_idem_mac : string
}.

Record GrantRow := mkGrantRow {
  g_id : Uuid;
  g_request_id : Uuid;
  g_client_name : string;
  g_secret_name : string;
  g_mechanism : string;
  g_constraints : Value;
  g_not_after : DateTime;
  g_max_uses : option Z;
  g_use_count : Z;
  g_revoked : bool;
  g_passthrough_ciphertext : option string;
  g_passthrough_nonce : option string;
  g_passthrough_wrapped_dek : option string;
  g_passthrough_ephemeral : bool;
  g_created_at : DateTime
}.

(** [grant_reads], keyed by [(grant_id, idem_key)]. *)
Record GrantRead := mkGrantRead {
  gr_secret_version_id : option Uuid;
  gr_passthrough : bool;
  gr_first_read_at : DateTime
}.

(** [audit::kinds] *)
Module kinds.
Definition REQUEST_CREATED : string := "request-created".
Definition REQUEST_APPROVED : string := "request-approved".
Definition REQUEST_DENIED : string := "request-denied".
Definition REQUEST_EXPIRED : string := "request-expired".
Definition GRANT_REVOKED : string := "grant-revoked".
Definition RELEASE_ATTEMPT : string := "release-attempt".
Definition RELEASE_COMPLETED : string := "release-completed".
Definition PROXY_ATTEMPT : string := "proxy-attempt".
Definition PROXY_COMPLETED : string := "proxy-completed".
Definition SECRET_CREATED : string := "secret-created".
Definition SECRET_ROTATED : string := "secret-rotated".
Definition SECRET_UPDATED : string := "secret-updated".
Definition SECRET_DELETED : string := "secret-deleted".
Definition SECRET_VETTED : string := "secret-vetted".
Definition SECRET_REVEALED : string := "secret-revealed".
Definition POLICY_CREATED : string := "policy-created".
Definition POLICY_DELETED : string := "policy-deleted".
Definition POLICY_UPDATED : string := "policy-updated".
End kinds.

Record AuditEvent := mkAuditEvent {
  ev_kind : string;
  ev_request_id : option Uuid;
  ev_grant_id : option Uuid;
  ev_client_name : option string;
  ev_secret_name : option string;
  ev_secret_version_id : option Uuid;
  ev_actor : option string;
  ev_method : option string;
  ev_origin : option string;
  ev_path : option string;
  ev_status : option Z;
  ev_detail : option Value
}.

(** One row of [audit_log]; its id is its position. *)
Record AuditRow := mkAuditRow { au_at : DateTime; au_event : AuditEvent }.

Record Db := mkDb {
  secrets : gmap Uuid SecretRow;
  secret_versions : gmap Uuid SecretVersionRow;
  secret_tags : gset (Uuid * string);
  clients : gmap Uuid ClientRow;
  policies : gmap Uuid PolicyRow;
  access_requests : gmap Uuid AccessRequestRow;
  grants : gmap Uuid GrantRow;
  grant_reads : gmap (Uuid * string) GrantRead;
  audit_log : list AuditRow
}.

Definition empty_db : Db := mkDb ∅ ∅ ∅ ∅ ∅ ∅ ∅ ∅ [].

Definition with_secrets f (d : Db) :=
  mkDb (f (secrets d)) (secret_versions d) (secret_tags d) (clients d) (policies d)
    (access_requests d) (grants d) (grant_reads d) (audit_log d).
Definition with_secret_versions f (d : Db) :=
  mkDb (secrets d) (f (secret_versions d)) (secret_tags d) (clients d) (policies d)
    (access_requests d) (grants d) (grant_reads d) (audit_log d).
Definition with_secret_tags f (d : Db) :=
  mkDb (secrets d) (secret_versions d) (f (secret_tags d)) (clients d) (policies d)
    (access_requests d) (grants d) (grant_reads d) (audit_log d).
Definition with_clients f (d : Db) :=
  mkDb (secrets d) (secret_versions d) (secret_tags d) (f (clients d)) (policies d)
    (access_requests d) (grants d) (grant_reads d) (audit_log d).
Definition with_policies f (d : Db) :=
  mkDb (secrets d) (secret_versions d) (secret_tags d) (clients d) (f (policies d))
    (access_requests d) (grants d) (grant_reads d) (audit_log d).
Definition with_access_requests f (d : Db) :=
  mkDb (secrets d) (secret_versions d) (secret_tags d) (clients d) (policies d)
    (f (access_requests d)) (grants d) (grant_reads d) (audit_log d).
Definition with_grants f (d : Db) :=
  mkDb (secrets d) (secret_versions d) (secret_tags d) (clients d) (policies d)
    (access_requests d) (f (grants d)) (grant_reads d) (audit_log d).
Definition with_grant_reads f (d : Db) :=
  mkDb (secrets d) (secret_versions d) (secret_tags d) (clients d) (policies d)
    (access_requests d) (grants d) (f (grant_reads d)) (audit_log d).
Definition with_audit_log f (d : Db) :=
  mkDb (secrets d) (secret_versions d) (secret_tags d) (clients d) (policies d)
    (access_requests d) (grants d) (grant_reads d) (f (audit_log d)).

(** ** Statements *)
Section Rows.
Context {K V : Type} `{Countable K}.
Implicit Types (m : gmap K V) (f : V → bool).

Definition rows m : list V := (map_to_list m).*2.
(** [SELECT … WHERE f] *)
Definition select f m : list V := List.filter f (rows m).
(** [SELECT … WHERE f], [fetch_optional] *)
Definition find_row f m : option V := List.find f (rows m).
(** [SELECT EXISTS (… WHERE f)] *)
Definition exists_row f m : bool := existsb f (rows m).
(** [SELECT count( * ) … WHERE f] *)
Definition count_rows f m : Z := Z.of_nat (List.length (select f m)).
(** [UPDATE … SET g WHERE f]; the rows [RETURNING] yields are [select f]
    before the update, with [g] applied where the statement returns new values. *)
Definition update_rows f (g : V → V) m : gmap K V := (λ v, if f v then g v else v) <$> m.
(** [DELETE … WHERE f] *)
Definition delete_rows f m : gmap K V := filter (λ kv, f kv.2 = false) m.
End Rows.

(** Text that must be one of a CHECK list. *)
Definition valid_injection_kind (k : string) : bool :=
  contains ["bearer"; "header"; "basic"; "basic-password"; "aws-sigv4"] k.
Definition valid_outcome (o : string) : bool :=
  contains ["auto-approve"; "notify-only"; "require-approval"; "deny"] o.

(** [INSERT INTO secrets]: the CHECK, then the two unique keys. *)
Definition insert_secret (s : SecretRow) (d : Db) : result DbError Db :=
  fail_if negb (valid_injection_kind (sr_injection_kind s)) with CheckViolation;
  fail_if is_some (secrets d !! sr_id s) with UniqueViolation;
  fail_if exists_row (λ r, eqb (sr_name r) (sr_name s)) (secrets d) with UniqueViolation;
  Ok (with_secrets <[sr_id s := s]> d).
(** [… ON CONFLICT (name) DO NOTHING]: [None] when the name is taken. *)
Definition insert_secret_or_nothing (s : SecretRow) (d : Db) : result DbError (option Db) :=
  fail_if negb (valid_injection_kind (sr_injection_kind s)) with CheckViolation;
  if exists_row (λ r, eqb (sr_name r) (sr_name s)) (secrets d) then Ok None
  else
    fail_if is_some (secrets d !! sr_id s) with UniqueViolation;
    Ok (Some (with_secrets <[sr_id s := s]> d)).

Definition insert_secret_version_row (v : SecretVersionRow) (d : Db) : result DbError Db :=
  fail_if is_some (secret_versions d !! sv_id v) with UniqueViolation;
  fail_if exists_row (λ r, eqb (sv_secret_id r) (sv_secret_id v)
                           && Z.eqb (sv_version r) (sv_version v)) (secret_versions d)
    with UniqueViolation;
  fail_if is_none (secrets d !! sv_secret_id v) with ForeignKeyViolation;
  Ok (with_secret_versions <[sv_id v := v]> d).

(** [… ON CONFLICT (idem_client, idem_key) DO NOTHING] *)
Definition insert_request_or_nothing (r : AccessRequestRow) (d : Db)
  : result DbError (option Db) :=
  if exists_row (λ x, eqb (ar_idem_client x) (ar_idem_client r)
                      && eqb (ar_idem_key x) (ar_idem_key r)) (access_requests d)
  then Ok None
  else
    fail_if is_some (access_requests d !! ar_id r) with UniqueViolation;
    Ok (Some (with_access_requests <[ar_id r := r]> d)).

Definition insert_grant (g : GrantRow) (d : Db) : result DbError Db :=
  fail_if is_some (grants d !! g_id g) with UniqueViolation;
  fail_if exists_row (λ x, eqb (g_request_id x) (g_request_id g)) (grants d)
    with UniqueViolation;
  fail_if is_none (access_requests d !! g_request_id g) with ForeignKeyViolation;
  Ok (with_grants <[g_id g := g]> d).

Definition insert_grant_read (grant_id : Uuid) (key : string) (r : GrantRead) (d : Db)
  : result DbError Db :=
  fail_if is_some (grant_reads d !! (grant_id, key)) with UniqueViolation;
  fail_if is_none (grants d !! grant_id) with ForeignKeyViolation;
  Ok (with_grant_reads <[(grant_id, key) := r]> d).

Definition insert_policy_row (p : PolicyRow) (d : Db) : result DbError Db :=
  fail_if negb (valid_outcome (po_outcome p)) with CheckViolation;
  fail_if is_some (po_secret_name p) && is_some (po_secret_tag p) with CheckViolation;
  fail_if is_some (policies d !! po_id p) with UniqueViolation;
  Ok (with_policies <[po_id p := p]> d).

(** [INSERT INTO secret_tags … ON CONFLICT DO NOTHING] *)
Definition insert_tags (secret_id : Uuid) (tags : list string) (d : Db) : result DbError Db :=
  fail_if negb (is_empty tags) && is_none (secrets d !! secret_id) with ForeignKeyViolation;
  Ok (with_secret_tags (λ s, list_to_set (map (pair secret_id) tags) ∪ s) d).
Definition delete_tags (secret_id : Uuid) (d : Db) : Db :=
  with_secret_tags (filter (λ t, t.1 ≠ secret_id)) d.

(** [insert_audit]: append only. *)
Definition insert_audit (now : DateTime) (ev : AuditEvent) (d : Db) : Db :=
  with_audit_log (λ l, (l ++ [mkAuditRow now ev])%list) d.

(** [AuditEvent { kind, ..Default::default() }] *)
Definition audit_default (kind : string) : AuditEvent :=
  mkAuditEvent kind None None None None None None None None None None None.

(** ** Lemmas on statements *)
Section RowsFacts.
Context {K V : Type} `{Countable K}.
Implicit Types (m : gmap K V) (f : V → bool).

Lemma elem_rows m v : v ∈ rows m ↔ ∃ k, m !! k = Some v.
Proof.
  unfold rows. rewrite list_elem_of_fmap. setoid_rewrite <-elem_of_map_to_list.
  split; [intros ([k x] & -> & ?); eauto|intros [k ?]; by exists (k, v)].
Qed.

Lemma elem_select f m v : v ∈ select f m ↔ (∃ k, m !! k = Some v) ∧ f v = true.
Proof.
  unfold select. rewrite <-elem_rows, list_elem_of_In, filter_In, <-list_elem_of_In. done.
Qed.

Lemma find_row_Some f m v : find_row f m = Some v → (∃ k, m !! k = Some v) ∧ f v = true.
Proof.
  unfold find_row. intros Hf. apply find_some in Hf as [Hin Hv].
  by rewrite <-list_elem_of_In, elem_rows in Hin.
Qed.

Lemma exists_row_true f m : exists_row f m = true ↔ ∃ k v, m !! k = Some v ∧ f v = true.
Proof.
  unfold exists_row. rewrite existsb_elem. setoid_rewrite elem_rows. naive_solver.
Qed.
Lemma exists_row_false f m : exists_row f m = false ↔ ∀ k v, m !! k = Some v → f v = false.
Proof.
  unfold exists_row. rewrite existsb_elem_false. setoid_rewrite elem_rows. naive_solver.
Qed.
Lemma find_row_None f m : find_row f m = None ↔ ∀ k v, m !! k = Some v → f v = false.
Proof.
  rewrite <-exists_row_false. unfold find_row, exists_row.
  induction (rows m) as [|v l IH]; cbn; [done|]. by destruct (f v).
Qed.

(** A row that is there and found by a predicate only it satisfies. *)
Lemma find_row_unique f m k v :
  m !! k = Some v → f v = true →
  (∀ k' v', m !! k' = Some v' → f v' = true → v' = v) → find_row f m = Some v.
Proof.
  intros Hk Hv Hu. destruct (find_row f m) as [v'|] eqn:E.
  - apply find_row_Some in E as [[k' Hk'] Hv']. by rewrite (Hu k' v').
  - rewrite find_row_None in E. by rewrite (E k v) in Hv.
Qed.

Lemma lookup_update_rows f g m k :
  update_rows f g m !! k = (λ v, if f v then g v else v) <$> m !! k.
Proof. apply lookup_fmap. Qed.

Lemma lookup_delete_rows f m k v :
  delete_rows f m !! k = Some v ↔ m !! k = Some v ∧ f v = false.
Proof. unfold delete_rows. by rewrite map_lookup_filter_Some. Qed.

Lemma rows_insert m k v : m !! k = None → rows (<[k:=v]> m) ≡ₚ v :: rows m.
Proof. intros Hk. unfold rows. by rewrite map_to_list_insert. Qed.

Lemma List_filter_perm f (l l' : list V) : l ≡ₚ l' → List.filter f l ≡ₚ List.filter f l'.
Proof.
  induction 1 as [|x l l' _ IH|x y l|l l' l'' _ IH1 _ IH2]; cbn; [done| | |by rewrite IH1].
  - destruct (f x); [by rewrite IH|done].
  - destruct (f x), (f y); try done. apply perm_swap.
Qed.

Lemma count_rows_insert f m k v :
  m !! k = None → count_rows f (<[k:=v]> m) = (count_rows f m + if f v then 1 else 0)%Z.
Proof.
  intros Hk. unfold count_rows, select.
  rewrite (Permutation_length (List_filter_perm f _ _ (rows_insert m k v Hk))). cbn.
  destruct (f v); cbn; lia.
Qed.

Lemma count_rows_nonneg f m : (0 ≤ count_rows f m)%Z.
Proof. unfold count_rows. lia. Qed.
End RowsFacts.

(** ** Well-formed tables

    What the schema itself enforces: primary keys are the map keys, the unique
    and foreign keys hold, and the CHECK lists are respected. *)
Record db_wf (d : Db) : Prop := mk_db_wf {
  wf_secret_pk : ∀ k s, secrets d !! k = Some s → sr_id s = k;
  wf_secret_name : ∀ k k' s s', secrets d !! k = Some s → secrets d !! k' = Some s' →
    sr_name s = sr_name s' → k = k';
  wf_version_pk : ∀ k v, secret_versions d !! k = Some v → sv_id v = k;
  wf_version_fk : ∀ k v, secret_versions d !! k = Some v →
    is_Some (secrets d !! sv_secret_id v);
  wf_version_number : ∀ k k' v v', secret_versions d !! k = Some v →
    secret_versions d !! k' = Some v' →
    sv_secret_id v = sv_secret_id v' → sv_version v = sv_version v' → k = k';
  wf_tag_fk : ∀ t, t ∈ secret_tags d → is_Some (secrets d !! t.1);
  wf_request_pk : ∀ k r, access_requests d !! k = Some r → ar_id r = k;
  wf_request_state : ∀ k r, access_requests d !! k = Some r →
    ar_state r ∈ ["pending"; "approved"; "denied"; "expired"];
  wf_request_idem : ∀ k k' r r', access_requests d !! k = Some r →
    access_requests d !! k' = Some r' →
    ar_idem_client r = ar_idem_client r' → ar_idem_key r = ar_idem_key r' → k = k';
  wf_grant_pk : ∀ k g, grants d !! k = Some g → g_id g = k;
  wf_grant_request : ∀ k k' g g', grants d !! k = Some g → grants d !! k' = Some g' →
    g_request_id g = g_request_id g' → k = k';
  wf_grant_fk : ∀ k g, grants d !! k = Some g → is_Some (access_requests d !! g_request_id g);
  wf_read_fk : ∀ k r, grant_reads d !! k = Some r → is_Some (grants d !! k.1);
  wf_policy_pk : ∀ k p, policies d !! k = Some p → po_id p = k
}.

Lemma empty_db_wf : db_wf empty_db.
Proof. constructor; cbn; intros; by simplify_map_eq || set_solver. Qed.
