(* ===== verification/Injection.v ===== *)
(** [server/src/injection.rs]: validation of injection templates, for the
    operator's form and for client deposits. *)

From S2P Require Import Prelude RustStr SigV4 Http Store.
Open Scope string_scope.

Definition RESERVED : list string :=
  ["host"; "authorization"; "proxy-authorization"; "cookie"; "set-cookie"; "forwarded";
   "x-real-ip"; "x-http-method-override"; "x-method-override"; "x-original-url";
   "x-rewrite-url"; "x-original-method"; "connection"; "keep-alive"; "proxy-connection";
   "te"; "trailer"; "transfer-encoding"; "upgrade"; "content-length"; "expect"].
Definition MAX_INJECTION_FIELD_BYTES : Z := 128.

Definition validate_injection (kind : string) (header scope : option string)
  : result string (string * option string * option string) :=
  fail_if is_some scope && negb (eqb kind "aws-sigv4")
    with "a SigV4 scope is only valid for injection kind 'aws-sigv4'";
  if eqb kind "bearer" then Ok ("bearer", None, None)
  else if eqb kind "header" then
    name ← ok_or header "injection kind 'header' requires a header name";
    fail_if (MAX_INJECTION_FIELD_BYTES <? len name)%Z with "injection header name is too long";
    let lower := to_ascii_lowercase name in
    fail_if negb (token name) with "injection header is not a valid header name";
    fail_if contains RESERVED lower || starts_with "x-forwarded-" lower
      with "injection header is reserved";
    Ok ("header", Some name, None)
  else if eqb kind "basic" || eqb kind "basic-password" then
    username ← ok_or header "injection kind 'basic-password' requires a username";
    fail_if (MAX_INJECTION_FIELD_BYTES <? len username)%Z with "basic-auth username is too long";
    fail_if contains_char ":" username || any_control username
      with "invalid basic-auth username";
    Ok ("basic", None, Some username)
  else if eqb kind "aws-sigv4" then
    access_key_id ← ok_or header "injection kind 'aws-sigv4' requires an access key id";
    _ ← validate_access_key_id access_key_id;
    scope ← ok_or scope "injection kind 'aws-sigv4' requires a region/service scope";
    _ ← parse_scope scope;
    Ok ("aws-sigv4", Some scope, Some access_key_id)
  else Err "unknown injection kind".

(** An accepted template passes the table's CHECK. *)
Lemma validate_injection_kind kind header scope k h u :
  validate_injection kind header scope = Ok (k, h, u) → valid_injection_kind k = true.
Proof.
  unfold validate_injection. destruct (is_some scope && _); [done|].
  destruct (eqb kind "bearer"); [by intros [= <- _ _]|].
  destruct (eqb kind "header").
  { intros (name & _ & HH)%bind_Ok. destruct (_ <? _)%Z; [done|].
    destruct (negb (token name)); [done|]. destruct (contains _ _ || _); [done|].
    by injection HH as <- _ _. }
  destruct (eqb kind "basic" || eqb kind "basic-password").
  { intros (name & _ & HH)%bind_Ok. destruct (_ <? _)%Z; [done|].
    destruct (contains_char _ _ || _); [done|]. by injection HH as <- _ _. }
  destruct (eqb kind "aws-sigv4"); [|done].
  by intros (? & _ & (? & _ & (? & _ & (? & _ & [= <- _ _])%bind_Ok)%bind_Ok)%bind_Ok)%bind_Ok.
Qed.
