(* ===== verification/Requests.v ===== *)
(** [server/src/db/requests.rs]: access requests: idempotent creation,
    resolution, expiry and the push outbox. *)

From S2P Require Import Prelude RustStr Json Crypto Store.
Open Scope string_scope.

Definition PENDING : string := "pending".
Definition APPROVED : string := "approved".
Definition DENIED : string := "denied".
Definition EXPIRED : string := "expired".
Definition is_pending (r : AccessRequestRow) : bool := eqb (ar_state r) PENDING.

Record NewAccessRequest := mkNewAccessRequest {
  n_client_name : string;
  n_secret_name : string;
  n_mechanism : string;
  n_constraints : Value;
  n_expires_at : DateTime;
  n_policy_not_after : option DateTime;
  n_idem_client : string;
  n_idem_key : string;
  n_idem_mac : string
}.

(** The row an INSERT of a new request writes: column defaults included. *)
Definition new_request_row (id : Uuid) (now : DateTime) (req : NewAccessRequest)
    (context : option Sealed) : AccessRequestRow :=
  mkAccessRequestRow id (n_client_name req) (n_secret_name req) (n_mechanism req)
    (n_constraints req)
    (sealed_ciphertext <$> context) (sealed_nonce <$> context)
    (sealed_wrapped_dek <$> context) (sealed_kek_id <$> context)
    PENDING (n_policy_not_after req) None None now None (n_expires_at req)
    None 0 false (n_idem_client req) (n_idem_key req) (n_idem_mac req).

(** The UPDATEs of [access_requests]. *)
Definition set_approved (by_ : string) (now : DateTime) (r : AccessRequestRow) :=
  mkAccessRequestRow (ar_id r) (ar_client_name r) (ar_secret_name r) (ar_mechanism r)
    (ar_constraints r) (ar_context_ciphertext r) (ar_context_nonce r)
    (ar_context_wrapped_dek r) (ar_context_kek_id r)
    APPROVED (ar_policy_not_after r) (ar_deny_reason r) (Some by_) (ar_created_at r)
    (Some now) (ar_expires_at r) (ar_push_delivered_at r) (ar_push_attempts r)
    (ar_notify_only r) (ar_idem_client r) (ar_idem_key r) (ar_idem_mac r).
Definition set_denied (reason by_ : string) (now : DateTime) (r : AccessRequestRow) :=
  mkAccessRequestRow (ar_id r) (ar_client_name r) (ar_secret_name r) (ar_mechanism r)
    (ar_constraints r) (ar_context_ciphertext r) (ar_context_nonce r)
    (ar_context_wrapped_dek r) (ar_context_kek_id r)
    DENIED (ar_policy_not_after r) (Some reason) (Some by_) (ar_created_at r)
    (Some now) (ar_expires_at r) (ar_push_delivered_at r) (ar_push_attempts r)
    (ar_notify_only r) (ar_idem_client r) (ar_idem_key r) (ar_idem_mac r).
Definition set_expired (now : DateTime) (r : AccessRequestRow) :=
  mkAccessRequestRow (ar_id r) (ar_client_name r) (ar_secret_name r) (ar_mechanism r)
    (ar_constraints r) (ar_context_ciphertext r) (ar_context_nonce r)
    (ar_context_wrapped_dek r) (ar_context_kek_id r)
    EXPIRED (ar_policy_not_after r) (ar_deny_reason r) (ar_resolved_by r) (ar_created_at r)
    (Some now) (ar_expires_at r) (ar_push_delivered_at r) (ar_push_attempts r)
    (ar_notify_only r) (ar_idem_client r) (ar_idem_key r) (ar_idem_mac r).
Definition set_notify_only (b : bool) (r : AccessRequestRow) :=
  mkAccessRequestRow (ar_id r) (ar_client_name r) (ar_secret_name r) (ar_mechanism r)
    (ar_constraints r) (ar_context_ciphertext r) (ar_context_nonce r)
    (ar_context_wrapped_dek r) (ar_context_kek_id r)
    (ar_state r) (ar_policy_not_after r) (ar_deny_reason r) (ar_resolved_by r)
    (ar_created_at r) (ar_resolved_at r) (ar_expires_at r) (ar_push_delivered_at r)
    (ar_push_attempts r) b (ar_idem_client r) (ar_idem_key r) (ar_idem_mac r).
Definition clear_context (r : AccessRequestRow) :=
  mkAccessRequestRow (ar_id r) (ar_client_name r) (ar_secret_name r) (ar_mechanism r)
    (ar_constraints r) None None None None
    (ar_state r) (ar_policy_not_after r) (ar_deny_reason r) (ar_resolved_by r)
    (ar_created_at r) (ar_resolved_at r) (ar_expires_at r) (ar_push_delivered_at r)
    (ar_push_attempts r) (ar_notify_only r) (ar_idem_client r) (ar_idem_key r) (ar_idem_mac r).
Definition set_push (delivered : option DateTime) (attempts : Z) (r : AccessRequestRow) :=
  mkAccessRequestRow (ar_id r) (ar_client_name r) (ar_secret_name r) (ar_mechanism r)
    (ar_constraints r) (ar_context_ciphertext r) (ar_context_nonce r)
    (ar_context_wrapped_dek r) (ar_context_kek_id r)
    (ar_state r) (ar_policy_not_after r) (ar_deny_reason r) (ar_resolved_by r)
    (ar_created_at r) (ar_resolved_at r) (ar_expires_at r) delivered attempts
    (ar_notify_only r) (ar_idem_client r) (ar_idem_key r) (ar_idem_mac r).

(** [seal_context]: [None], or what sealing inside the transaction yields. *)
Definition SealedContext := option (result CryptoError Sealed).
Definition run_seal (seal : SealedContext) : result DbError (option Sealed) :=
  match seal with
  | None => Ok None
  | Some s => map_err Sealing (Some <$> s)
  end.

Definition same_idem (client key : string) (r : AccessRequestRow) : bool :=
  eqb (ar_idem_client r) client && eqb (ar_idem_key r) key.

(** [InsertedRequest]: the row and [created]. *)
Definition insert_access_request (now : DateTime) (id : Uuid) (req : NewAccessRequest)
    (seal_context : SealedContext) (d : Db)
  : result DbError ((AccessRequestRow * bool) * Db) :=
  context ← run_seal seal_context;
  let row := new_request_row id now req context in
  inserted ← insert_request_or_nothing row d;
  match inserted with
  | Some d' => Ok ((row, true), d')
  | None =>
      row ← ok_or (find_row (same_idem (n_idem_client req) (n_idem_key req))
                     (access_requests d)) RowNotFound;
      Ok ((row, false), d)
  end.

Definition count_pending_for_client (client_name : string) (d : Db) : Z :=
  count_rows (λ r, eqb (ar_client_name r) client_name && is_pending r) (access_requests d).
Definition count_pending (now : DateTime) (d : Db) : Z :=
  count_rows (λ r, is_pending r && (now <? ar_expires_at r)%Z) (access_requests d).
Definition get_request (id : Uuid) (d : Db) : option AccessRequestRow :=
  access_requests d !! id.
Definition list_pending (d : Db) : list AccessRequestRow :=
  sort_by_key (λ r, [ar_created_at r]) (select is_pending (access_requests d)).

(** ** Grants decided at approval *)
Record PassthroughPayload := mkPassthroughPayload {
  pt_ciphertext : string;
  pt_nonce : string;
  pt_wrapped_dek : string
}.

Definition PassthroughPayload_seal `{UuidText, Primitives} (kek : EphemeralKek) (draw : Draw)
    (grant_id : Uuid) (value : string) : result CryptoError PassthroughPayload :=
  sealed ← Ephemeral_seal kek draw value (GrantPassthrough grant_id);
  Ok (mkPassthroughPayload (sealed_ciphertext sealed) (sealed_nonce sealed)
        (sealed_wrapped_dek sealed)).
Definition parts (p : PassthroughPayload) : string * string * string :=
  (pt_ciphertext p, pt_nonce p, pt_wrapped_dek p).

Record GrantParams := mkGrantParams {
  gp_client_name : string;
  gp_secret_name : string;
  gp_secret_id : option Uuid;
  gp_mechanism : string;
  gp_constraints : Value;
  gp_not_after : DateTime;
  gp_max_uses : option Z;
  gp_passthrough : option PassthroughPayload
}.

(** The row an INSERT of a grant writes. *)
Definition new_grant_row (id request_id : Uuid) (now : DateTime) (grant : GrantParams)
  : GrantRow :=
  mkGrantRow id request_id (gp_client_name grant) (gp_secret_name grant)
    (gp_mechanism grant) (gp_constraints grant) (gp_not_after grant) (gp_max_uses grant)
    0 false
    (pt_ciphertext <$> gp_passthrough grant) (pt_nonce <$> gp_passthrough grant)
    (pt_wrapped_dek <$> gp_passthrough grant) (is_some (gp_passthrough grant)) now.

(** [secret_incarnation_exists] ([db/mod.rs]) and its use: the stored secret a
    payload-less grant would release is the row the decision was about. *)
Definition secret_incarnation_exists (secret_id : Uuid) (secret_name : string) (d : Db) : bool :=
  match secrets d !! secret_id with
  | Some s => eqb (sr_name s) secret_name
  | None => false
  end.
Definition same_row (grant : GrantParams) (d : Db) : bool :=
  match gp_secret_id grant with
  | Some id => secret_incarnation_exists id (gp_secret_name grant) d
  | None => false
  end.

Definition approved_event (request_id grant_id : Uuid) (grant : GrantParams)
    (actor : string) (detail : option Value) : AuditEvent :=
  mkAuditEvent kinds.REQUEST_APPROVED (Some request_id) (Some grant_id)
    (Some (gp_client_name grant)) (Some (gp_secret_name grant)) None (Some actor)
    None None None None detail.

(** [UPDATE … WHERE id = $1 AND <guard>]: the row the update hits. *)
Definition guarded_request (id : Uuid) (guard : AccessRequestRow → bool) (d : Db)
  : option AccessRequestRow :=
  match access_requests d !! id with
  | Some r => if guard r then Some r else None
  | None => None
  end.
Definition put_request (r : AccessRequestRow) (d : Db) : Db :=
  with_access_requests <[ar_id r := r]> d.

Definition live_pending (now : DateTime) (r : AccessRequestRow) : bool :=
  is_pending r && (now <? ar_expires_at r)%Z.

(** The advisory lock orders this transaction against a deletion of the secret
    and has no other effect. *)
Definition resolve_approve (now : DateTime) (grant_id request_id : Uuid)
    (resolved_by : string) (grant : GrantParams) (d : Db)
  : result DbError (option Uuid * Db) :=
  if is_none (gp_passthrough grant) && negb (same_row grant d) then Ok (None, d)
  else
    match guarded_request request_id (live_pending now) d with
    | None => Ok (None, d)
    | Some r =>
        let d1 := put_request (set_approved resolved_by now r) d in
        d2 ← insert_grant (new_grant_row grant_id request_id now grant) d1;
        Ok (Some grant_id,
            insert_audit now (approved_event request_id grant_id grant resolved_by None) d2)
    end.

Definition denied_event (request_id : Uuid) (client_name secret_name actor : string)
  : AuditEvent :=
  mkAuditEvent kinds.REQUEST_DENIED (Some request_id) None (Some client_name)
    (Some secret_name) None (Some actor) None None None None None.

Definition resolve_deny (now : DateTime) (request_id : Uuid) (resolved_by reason : string)
    (d : Db) : result DbError (bool * Db) :=
  match guarded_request request_id (live_pending now) d with
  | None => Ok (false, d)
  | Some r =>
      Ok (true, insert_audit now
                  (denied_event request_id (ar_client_name r) (ar_secret_name r) resolved_by)
                  (put_request (set_denied reason resolved_by now r) d))
  end.

Definition stale (now : DateTime) (r : AccessRequestRow) : bool :=
  is_pending r && (ar_expires_at r <? now)%Z.
Definition expired_event (r : AccessRequestRow) : AuditEvent :=
  mkAuditEvent kinds.REQUEST_EXPIRED (Some (ar_id r)) None (Some (ar_client_name r))
    (Some (ar_secret_name r)) None None None None None None None.

Definition expire_stale (now : DateTime) (d : Db) : result DbError (Z * Db) :=
  let expired := select (stale now) (access_requests d) in
  let d1 := with_access_requests (update_rows (stale now) (set_expired now)) d in
  Ok (Z.of_nat (List.length expired),
      fold_left (λ d r, insert_audit now (expired_event r) d) expired d1).

Definition context_purgeable (now : DateTime) (retention_seconds : Z)
    (r : AccessRequestRow) : bool :=
  negb (is_pending r)
  && match ar_resolved_at r with
     | Some t => (t <? now - seconds retention_seconds)%Z | None => false end
  && is_some (ar_context_ciphertext r).

Definition purge_request_context (now : DateTime) (retention_seconds : Z) (d : Db)
  : result DbError (Z * Db) :=
  let f := context_purgeable now retention_seconds in
  Ok (count_rows f (access_requests d),
      with_access_requests (update_rows f clear_context) d).

Definition mark_push_delivered (now : DateTime) (request_id : Uuid) (d : Db)
  : result DbError (unit * Db) :=
  Ok (tt, with_access_requests
            (alter (λ r, set_push (Some now) (ar_push_attempts r) r) request_id) d).

Definition increment_push_attempts (request_id : Uuid) (d : Db)
  : result DbError (unit * Db) :=
  match access_requests d !! request_id with
  | None => Ok (tt, d)
  | Some r =>
      n ← int4_succ (ar_push_attempts r);
      Ok (tt, put_request (set_push (ar_push_delivered_at r) n r) d)
  end.

Definition list_notify_only_needing_push (now : DateTime) (retry_window_seconds : Z) (d : Db)
  : list AccessRequestRow :=
  sort_by_key (λ r, [ar_created_at r])
    (select (λ r, ar_notify_only r && eqb (ar_state r) APPROVED
                  && is_none (ar_push_delivered_at r)
                  && (now - seconds retry_window_seconds <? ar_created_at r)%Z)
       (access_requests d)).

Definition list_pending_needing_push (now : DateTime) (max_attempts : Z) (d : Db)
  : list AccessRequestRow :=
  sort_by_key (λ r, [ar_created_at r])
    (select (λ r, is_pending r && is_none (ar_push_delivered_at r)
                  && (ar_push_attempts r <? max_attempts)%Z && (now <? ar_expires_at r)%Z)
       (access_requests d)).
