(* ===== verification/Grants.v ===== *)
(** [server/src/db/grants.rs]: grants, their atomic use-accounting and
    idempotent replay, revocation and the purge of passthrough payloads. *)

From S2P Require Import Prelude RustStr Json Crypto Store.
Open Scope string_scope.

Record AuditTarget := mkAuditTarget {
  t_method : string;
  t_origin : string;
  t_path : string
}.

Module GrantUse.
Inductive t :=
| NotFound
| ExpiredOrRevoked
| Exhausted
| Replay (grant : GrantRow) (secret_version_id : option Uuid) (passthrough : bool)
| FirstUse (grant : GrantRow).
End GrantUse.

(** The UPDATEs of [grants]. *)
Definition set_use_count (n : Z) (g : GrantRow) : GrantRow :=
  mkGrantRow (g_id g) (g_request_id g) (g_client_name g) (g_secret_name g) (g_mechanism g)
    (g_constraints g) (g_not_after g) (g_max_uses g) n (g_revoked g)
    (g_passthrough_ciphertext g) (g_passthrough_nonce g) (g_passthrough_wrapped_dek g)
    (g_passthrough_ephemeral g) (g_created_at g).
Definition purge_payload (g : GrantRow) : GrantRow :=
  mkGrantRow (g_id g) (g_request_id g) (g_client_name g) (g_secret_name g) (g_mechanism g)
    (g_constraints g) (g_not_after g) (g_max_uses g) (g_use_count g) (g_revoked g)
    None None None (g_passthrough_ephemeral g) (g_created_at g).
Definition set_revoked (g : GrantRow) : GrantRow :=
  mkGrantRow (g_id g) (g_request_id g) (g_client_name g) (g_secret_name g) (g_mechanism g)
    (g_constraints g) (g_not_after g) (g_max_uses g) (g_use_count g) true
    None None None (g_passthrough_ephemeral g) (g_created_at g).

(** [NOT revoked AND now() < not_after] *)
Definition live (now : DateTime) (g : GrantRow) : bool :=
  negb (g_revoked g) && (now <? g_not_after g)%Z.
(** [max_uses IS NULL OR use_count < max_uses] *)
Definition uses_left (g : GrantRow) : bool :=
  match g_max_uses g with None => true | Some m => (g_use_count g <? m)%Z end.
(** [first_read_at > now() - make_interval(secs => w)] *)
Definition in_window (now : DateTime) (replay_window_seconds : Z) (r : GrantRead) : bool :=
  (now - seconds replay_window_seconds <? gr_first_read_at r)%Z.

Definition use_event (audit_kind : string) (g : GrantRow) (secret_version_id : option Uuid)
    (target : option AuditTarget) (detail : option Value) : AuditEvent :=
  mkAuditEvent audit_kind (Some (g_request_id g)) (Some (g_id g)) (Some (g_client_name g))
    (Some (g_secret_name g)) secret_version_id None (t_method <$> target)
    (t_origin <$> target) (t_path <$> target) None detail.

Definition replay_detail : Value := obj [("replay", Bool true)].

(** The fresh-use half: the conditional increment, the replay row, the
    write-ahead audit row. *)
Definition first_use (now : DateTime) (grant : GrantRow) (idem_key : option string)
    (secret_version_id : option Uuid) (audit_kind : string) (target : option AuditTarget)
    (d : Db) : result DbError (GrantUse.t * Db) :=
  if negb (live now grant && uses_left grant) then Ok (GrantUse.Exhausted, d)
  else
    n ← int4_succ (g_use_count grant);
    let grant := set_use_count n grant in
    let d1 := with_grants <[g_id grant := grant]> d in
    d2 ← match idem_key with
         | Some key =>
             insert_grant_read (g_id grant) key
               (mkGrantRead secret_version_id (is_some (g_passthrough_ciphertext grant)) now) d1
         | None => Ok d1
         end;
    Ok (GrantUse.FirstUse grant,
        insert_audit now (use_event audit_kind grant secret_version_id target None) d2).

Definition begin_grant_use (now : DateTime) (grant_id : Uuid) (idem_key : option string)
    (secret_version_id : option Uuid) (audit_kind : string) (replay_window_seconds : Z)
    (target : option AuditTarget) (d : Db) : result DbError (GrantUse.t * Db) :=
  match grants d !! grant_id with
  | None => Ok (GrantUse.NotFound, d)
  | Some grant =>
      if negb (live now grant) then Ok (GrantUse.ExpiredOrRevoked, d)
      else
        let prior := key ← idem_key; grant_reads d !! (grant_id, key) in
        match prior with
        | Some r =>
            if in_window now replay_window_seconds r then
              Ok (GrantUse.Replay grant (gr_secret_version_id r) (gr_passthrough r),
                  insert_audit now
                    (use_event audit_kind grant (gr_secret_version_id r) target
                       (Some replay_detail)) d)
            else Ok (GrantUse.Exhausted, d)
        | None => first_use now grant idem_key secret_version_id audit_kind target d
        end
  end.

Definition get_grant (id : Uuid) (d : Db) : option GrantRow := grants d !! id.
Definition get_grant_for_request (request_id : Uuid) (d : Db) : option GrantRow :=
  find_row (λ g, eqb (g_request_id g) request_id) (grants d).
Definition list_grants (d : Db) : list GrantRow :=
  sort_by_key (λ g, [(- g_created_at g)%Z]) (rows (grants d)).

Definition revoked_event (g : GrantRow) (actor : string) (detail : option Value) : AuditEvent :=
  mkAuditEvent kinds.GRANT_REVOKED (Some (g_request_id g)) (Some (g_id g))
    (Some (g_client_name g)) (Some (g_secret_name g)) None (Some actor)
    None None None None detail.

Definition revoke_grant (now : DateTime) (grant_id : Uuid) (actor : string) (d : Db)
  : result DbError (bool * Db) :=
  match grants d !! grant_id with
  | Some g =>
      if g_revoked g then Ok (false, d)
      else Ok (true, insert_audit now (revoked_event g actor None)
                       (with_grants <[g_id g := set_revoked g]> d))
  | None => Ok (false, d)
  end.

Definition purge_passthrough (grant_id : Uuid) (d : Db) : result DbError (unit * Db) :=
  Ok (tt, with_grants (alter purge_payload grant_id) d).

(** A read of this grant is still in its replay window. *)
Definition replay_open (now : DateTime) (replay_window_seconds : Z) (d : Db) (g : GrantRow)
  : bool :=
  existsb (λ kr : (Uuid * string) * GrantRead,
             eqb kr.1.1 (g_id g) && in_window now replay_window_seconds kr.2)
    (map_to_list (grant_reads d)).

Definition sweepable (now : DateTime) (replay_window_seconds : Z) (d : Db) (g : GrantRow)
  : bool :=
  is_some (g_passthrough_ciphertext g)
  && (g_revoked g
      || (g_not_after g <? now)%Z
      || (match g_max_uses g with Some m => (m <=? g_use_count g)%Z | None => false end
          && negb (replay_open now replay_window_seconds d g))).

Definition sweep_purge_passthroughs (now : DateTime) (replay_window_seconds : Z) (d : Db)
  : result DbError (Z * Db) :=
  let f := sweepable now replay_window_seconds d in
  Ok (count_rows f (grants d), with_grants (update_rows f purge_payload) d).
