(* ===== verification/ApiExt.v ===== *)
(** [server/src/db/api_ext.rs]: the insert that creates a request together with
    the resolution policy decided for it, and the client-API lookups. *)

From S2P Require Import Prelude RustStr Json Crypto Store Requests.
Open Scope string_scope.

Module InitialResolution.
Inductive t :=
| Pending
| Denied (reason resolved_by : string)
| Approved (resolved_by : string) (grant : GrantParams) (notify_only : bool).
End InitialResolution.

Module InsertOutcome.
Inductive t :=
| Created (row : AccessRequestRow) (grant_id : option Uuid)
| Existing (row : AccessRequestRow)
| PendingCapExceeded.
End InsertOutcome.

Definition created_event (id : Uuid) (req : NewAccessRequest) : AuditEvent :=
  mkAuditEvent kinds.REQUEST_CREATED (Some id) None (Some (n_client_name req))
    (Some (n_secret_name req)) None None None None None None
    (Some (obj [("mechanism", Str (n_mechanism req))])).

Definition get_request_by_idem (idem_client idem_key : string) (d : Db)
  : option AccessRequestRow :=
  find_row (same_idem idem_client idem_key) (access_requests d).

(** Rows of this client that count against the cap. *)
Definition counts_pending (now : DateTime) (client_name : string) (r : AccessRequestRow) : bool :=
  eqb (ar_client_name r) client_name && is_pending r && (now <? ar_expires_at r)%Z.

(** The stored secret an auto-approved grant without payload would release has
    changed identity. *)
Definition identity_lost (resolution : InitialResolution.t) (d : Db) : bool :=
  match resolution with
  | InitialResolution.Approved _ grant _ =>
      is_none (gp_passthrough grant) && negb (same_row grant d)
  | _ => false
  end.

(** The decided outcome, applied in the inserting transaction. *)
Definition apply_resolution (now : DateTime) (new_grant_id : Uuid) (req : NewAccessRequest)
    (resolution : InitialResolution.t) (row : AccessRequestRow) (d : Db)
  : result DbError ((AccessRequestRow * option Uuid) * Db) :=
  match resolution with
  | InitialResolution.Pending => Ok ((row, None), d)
  | InitialResolution.Denied reason resolved_by =>
      let row := set_denied reason resolved_by now row in
      Ok ((row, None),
          insert_audit now
            (denied_event (ar_id row) (n_client_name req) (n_secret_name req) resolved_by)
            (put_request row d))
  | InitialResolution.Approved resolved_by grant notify_only =>
      if negb (now <? gp_not_after grant)%Z then
        Err (Bail "auto-approval grant deadline elapsed during insert")
      else
        let row := set_notify_only notify_only (set_approved resolved_by now row) in
        d1 ← insert_grant (new_grant_row new_grant_id (ar_id row) now grant)
               (put_request row d);
        Ok ((row, Some new_grant_id),
            insert_audit now
              (approved_event (ar_id row) new_grant_id grant resolved_by None) d1)
  end.

Definition insert_access_request_with_id (now : DateTime) (id new_grant_id : Uuid)
    (req : NewAccessRequest) (pending_cap : option Z) (resolution : InitialResolution.t)
    (seal_context : SealedContext) (d : Db) : result DbError (InsertOutcome.t * Db) :=
  fail_if identity_lost resolution d
    with Bail "the stored secret changed identity during auto-approval";
  context ← run_seal seal_context;
  let row := new_request_row id now req context in
  inserted ← insert_request_or_nothing row d;
  match inserted with
  | Some d1 =>
      let pending := count_rows (counts_pending now (n_client_name req)) (access_requests d1) in
      if match pending_cap with Some cap => (cap <? pending)%Z | None => false end
      then Ok (InsertOutcome.PendingCapExceeded, d)
      else
        let d2 := insert_audit now (created_event id req) d1 in
        '((row, grant_id), d3) ← apply_resolution now new_grant_id req resolution row d2;
        Ok (InsertOutcome.Created row grant_id, d3)
  | None =>
      row ← ok_or (get_request_by_idem (n_idem_client req) (n_idem_key req) d)
              (Bail "idempotency conflict row vanished");
      Ok (InsertOutcome.Existing row, d)
  end.

Definition get_grant_by_request (request_id : Uuid) (d : Db) : option GrantRow :=
  find_row (λ g, eqb (g_request_id g) request_id) (grants d).
Definition get_client_by_token_hash (token_sha256_hex : string) (d : Db) : option ClientRow :=
  find_row (λ c, eqb (cl_api_token_sha256 c) (Some token_sha256_hex)) (clients d).
Definition get_clients_by_sa_subject (subject : string) (d : Db) : list ClientRow :=
  select (λ c, eqb (cl_sa_subject c) (Some subject)) (clients d).
