(* ===== verification/Secrets.v ===== *)
(** [server/src/db/secrets.rs]: stored secrets, their append-only versions,
    client deposits and vetting. *)

From S2P Require Import Prelude RustStr Json Crypto Store.
Open Scope string_scope.

(** [StoreSecretParams] ([db/ui_ext.rs]); [ss_seal] is what sealing inside the
    transaction yields. *)
Record StoreSecretParams := mkStoreSecretParams {
  ss_secret_id : Uuid;
  ss_name : string;
  ss_description : string;
  ss_max_tier : Z;
  ss_injection_kind : string;
  ss_injection_header : option string;
  ss_injection_username : option string;
  ss_seal : result CryptoError Sealed
}.

(** The rows the INSERTs of a new secret and its version 1 write. *)
Definition new_secret_row (now : DateTime) (s : StoreSecretParams) (vetted : bool) : SecretRow :=
  mkSecretRow (ss_secret_id s) (ss_name s) (ss_description s) (ss_max_tier s)
    (ss_injection_kind s) (ss_injection_header s) (ss_injection_username s)
    1 true vetted false now now.
Definition version_row (id secret_id : Uuid) (version : Z) (sealed : Sealed) (now : DateTime)
    (created_by_request : option Uuid) : SecretVersionRow :=
  mkSecretVersionRow id secret_id version (sealed_ciphertext sealed) (sealed_nonce sealed)
    (sealed_wrapped_dek sealed) (sealed_kek_id sealed) now created_by_request.

(** The UPDATEs of [secrets]. *)
Definition set_version (n : Z) (vetted : bool) (now : DateTime) (s : SecretRow) : SecretRow :=
  mkSecretRow (sr_id s) (sr_name s) (sr_description s) (sr_max_tier s) (sr_injection_kind s)
    (sr_injection_header s) (sr_injection_username s) n (sr_enabled s) vetted
    (sr_managed_by_config s) (sr_created_at s) now.
Definition put_secret (s : SecretRow) (d : Db) : Db := with_secrets <[sr_id s := s]> d.

Definition create_secret (now : DateTime) (id : Uuid) (name description : string) (max_tier : Z)
    (injection_kind : string) (injection_header : option string) (d : Db)
  : result DbError (SecretRow * Db) :=
  let row := mkSecretRow id name description max_tier injection_kind injection_header None
               0 true true false now now in
  d1 ← insert_secret row d;
  Ok (row, d1).

Definition insert_secret_version (now : DateTime) (version_id secret_id : Uuid)
    (seal : Z → result CryptoError Sealed) (created_by_request : option Uuid) (d : Db)
  : result DbError (SecretVersionRow * Db) :=
  match secrets d !! secret_id with
  | None => Err (Bail "secret not found")
  | Some s =>
      version ← int4_succ (sr_current_version s);
      let d1 := put_secret (set_version version (sr_operator_vetted s) now s) d in
      sealed ← map_err Sealing (seal version);
      let row := version_row version_id secret_id version sealed now created_by_request in
      d2 ← insert_secret_version_row row d1;
      Ok (row, d2)
  end.

Module DepositOutcome.
Inductive t := Created (id : Uuid) | NameTaken | RateLimited.
End DepositOutcome.

Record DepositRate := mkDepositRate { max_per_window : Z; window_hours : Z }.

(** The deposits of a client the cap counts. *)
Definition counts_deposit (now : DateTime) (client_name : string) (window_hours : Z)
    (r : AuditRow) : bool :=
  eqb (ev_kind (au_event r)) kinds.SECRET_CREATED
  && eqb (ev_client_name (au_event r)) (Some client_name)
  && (now - seconds (3600 * window_hours) <? au_at r)%Z.
Definition recent_deposits (now : DateTime) (client_name : string) (window_hours : Z) (d : Db)
  : Z :=
  Z.of_nat (List.length (List.filter (counts_deposit now client_name window_hours) (audit_log d))).

Definition deposit_event (client_name : string) (s : StoreSecretParams) : AuditEvent :=
  mkAuditEvent kinds.SECRET_CREATED None None (Some client_name) (Some (ss_name s)) None
    (Some ("client:" +:+ client_name)) None None None None
    (Some (obj [("source", Str "client-api")])).

Definition create_secret_from_client (now : DateTime) (version_id : Uuid)
    (store : StoreSecretParams) (client_name : string) (rate : DepositRate) (d : Db)
  : result DbError (DepositOutcome.t * Db) :=
  if (max_per_window rate <=? recent_deposits now client_name (window_hours rate) d)%Z
  then Ok (DepositOutcome.RateLimited, d)
  else
    inserted ← insert_secret_or_nothing (new_secret_row now store false) d;
    match inserted with
    | None => Ok (DepositOutcome.NameTaken, d)
    | Some d1 =>
        sealed ← map_err Sealing (ss_seal store);
        d2 ← insert_secret_version_row
               (version_row version_id (ss_secret_id store) 1 sealed now None) d1;
        Ok (DepositOutcome.Created (ss_secret_id store),
            insert_audit now (deposit_event client_name store) d2)
    end.

Definition get_secret_by_name (name : string) (d : Db) : option SecretRow :=
  find_row (λ s, eqb (sr_name s) name) (secrets d).
Definition get_secret_version (secret_id : Uuid) (version : Z) (d : Db)
  : option SecretVersionRow :=
  find_row (λ v, eqb (sv_secret_id v) secret_id && Z.eqb (sv_version v) version)
    (secret_versions d).
Definition get_secret_version_by_id (id : Uuid) (d : Db) : option SecretVersionRow :=
  secret_versions d !! id.
Definition list_secrets (d : Db) : list SecretRow :=
  sort_by_key (λ s, bytes_key (sr_name s)) (rows (secrets d)).
Definition count_secrets (d : Db) : Z := Z.of_nat (size (secrets d)).

Definition set_vetted (now : DateTime) (s : SecretRow) : SecretRow :=
  set_version (sr_current_version s) true now s.
Definition vetted_event (name actor : string) (reviewed_version : Z) : AuditEvent :=
  mkAuditEvent kinds.SECRET_VETTED None None None (Some name) None (Some actor)
    None None None None (Some (obj [("version", int reviewed_version)])).

Definition mark_secret_vetted (now : DateTime) (secret_id : Uuid) (reviewed_version : Z)
    (actor : string) (d : Db) : result DbError (bool * Db) :=
  match secrets d !! secret_id with
  | Some s =>
      if negb (sr_operator_vetted s) && Z.eqb (sr_current_version s) reviewed_version then
        Ok (true, insert_audit now (vetted_event (sr_name s) actor reviewed_version)
                    (put_secret (set_vetted now s) d))
      else Ok (false, d)
  | None => Ok (false, d)
  end.

(** The oldest client deposit of that name in the log. *)
Definition client_deposit_origin (secret_name : string) (d : Db) : option (string * DateTime) :=
  r ← List.find (λ r, eqb (ev_kind (au_event r)) kinds.SECRET_CREATED
                      && eqb (ev_secret_name (au_event r)) (Some secret_name)
                      && is_some (ev_client_name (au_event r))) (audit_log d);
  c ← ev_client_name (au_event r);
  Some (c, au_at r).

Definition list_unvetted_secret_names (d : Db) : list string :=
  sort_by_key bytes_key (map sr_name (select (λ s, negb (sr_operator_vetted s)) (secrets d))).
Definition list_secret_tags (d : Db) : list string :=
  sort_by_key bytes_key (elements (set_map snd (secret_tags d) : gset string)).

Definition set_secret_tags (secret_id : Uuid) (tags : list string) (d : Db)
  : result DbError (unit * Db) :=
  d1 ← insert_tags secret_id tags (delete_tags secret_id d);
  Ok (tt, d1).

Definition get_tags_for_secret (secret_id : Uuid) (d : Db) : list string :=
  sort_by_key bytes_key
    (map snd (List.filter (λ t, eqb t.1 secret_id) (elements (secret_tags d)))).
Definition list_tag_assignments (d : Db) : list (Uuid * string) :=
  sort_by_key (λ t, bytes_key t.2) (elements (secret_tags d)).
