(* ===== verification/UiExt.v ===== *)
(** [server/src/db/ui_ext.rs]: the store half of the operator's pages: approval,
    storing, rotating, editing and deleting secrets, the active-grant listing,
    push deduplication and the replay-pin purge. *)

From S2P Require Import Prelude RustStr Json Crypto Store Requests Grants Secrets.
Open Scope string_scope.

Module ApproveOutcome.
Inductive t := Approved (grant_id : Uuid) | NotApprovable | SecretNameTaken | SecretGone.
End ApproveOutcome.

Definition secret_created_event (request_id : option Uuid) (name actor : string) : AuditEvent :=
  mkAuditEvent kinds.SECRET_CREATED request_id None None (Some name) None (Some actor)
    None None None None None.

Definition substitution_detail (requested_name : string) (grant : GrantParams) : option Value :=
  if negb (eqb requested_name (gp_secret_name grant))
  then Some (obj [("substituted_for_requested_name", Str requested_name)]) else None.

(** "Also store this secret": the optional middle part of an approval. [None]
    is a lost race for the name. *)
Definition store_with_approval (now : DateTime) (version_id request_id : Uuid)
    (resolved_by : string) (store : option StoreSecretParams) (d : Db)
  : result DbError (option Db) :=
  match store with
  | None => Ok (Some d)
  | Some s =>
      sealed ← map_err Sealing (ss_seal s);
      inserted ← insert_secret_or_nothing (new_secret_row now s true) d;
      match inserted with
      | None => Ok None
      | Some d1 =>
          d2 ← insert_secret_version_row
                 (version_row version_id (ss_secret_id s) 1 sealed now (Some request_id)) d1;
          Ok (Some (insert_audit now
                      (secret_created_event (Some request_id) (ss_name s) resolved_by) d2))
      end
  end.

Definition approve_request (now : DateTime) (version_id request_id : Uuid)
    (resolved_by : string) (grant_id : Uuid) (grant : GrantParams)
    (store : option StoreSecretParams) (d : Db) : result DbError (ApproveOutcome.t * Db) :=
  if is_none (gp_passthrough grant) && is_none store && negb (same_row grant d)
  then Ok (ApproveOutcome.SecretGone, d)
  else
    match guarded_request request_id
            (λ r, live_pending now r && (now <? gp_not_after grant)%Z) d with
    | None => Ok (ApproveOutcome.NotApprovable, d)
    | Some r =>
        let d1 := put_request (set_approved resolved_by now r) d in
        stored ← store_with_approval now version_id request_id resolved_by store d1;
        match stored with
        | None => Ok (ApproveOutcome.SecretNameTaken, d)
        | Some d2 =>
            d3 ← insert_grant (new_grant_row grant_id request_id now grant) d2;
            Ok (ApproveOutcome.Approved grant_id,
                insert_audit now
                  (approved_event request_id grant_id grant resolved_by
                     (substitution_detail (ar_secret_name r) grant)) d3)
        end
    end.

Definition create_secret_with_version (now : DateTime) (version_id : Uuid)
    (store : StoreSecretParams) (actor : string) (d : Db) : result DbError (bool * Db) :=
  sealed ← map_err Sealing (ss_seal store);
  inserted ← insert_secret_or_nothing (new_secret_row now store true) d;
  match inserted with
  | None => Ok (false, d)
  | Some d1 =>
      d2 ← insert_secret_version_row
             (version_row version_id (ss_secret_id store) 1 sealed now None) d1;
      Ok (true, insert_audit now (secret_created_event None (ss_name store) actor) d2)
  end.

Definition rotated_event (secret_name : string) (version_id : Uuid) (actor : string)
  : AuditEvent :=
  mkAuditEvent kinds.SECRET_ROTATED None None None (Some secret_name) (Some version_id)
    (Some actor) None None None None None.

Definition rotate_secret_version (now : DateTime) (version_id secret_id : Uuid)
    (secret_name actor : string) (seal : Z → result CryptoError Sealed) (d : Db)
  : result DbError (option SecretVersionRow * Db) :=
  match secrets d !! secret_id with
  | None => Ok (None, d)
  | Some s =>
      version ← int4_succ (sr_current_version s);
      let d1 := put_secret (set_version version true now s) d in
      sealed ← map_err Sealing (seal version);
      let row := version_row version_id secret_id version sealed now None in
      d2 ← insert_secret_version_row row d1;
      Ok (Some row, insert_audit now (rotated_event secret_name version_id actor) d2)
  end.

Record SecretSettings := mkSecretSettings {
  set_description : string;
  set_max_tier : Z;
  set_injection_kind : string;
  set_injection_header : option string;
  set_injection_username : option string;
  set_enabled : bool;
  set_tags : list string
}.

Module UpdateSecretOutcome.
Inductive t := Updated | NotFound | Managed.
End UpdateSecretOutcome.

Definition apply_settings (now : DateTime) (s : SecretSettings) (r : SecretRow) : SecretRow :=
  mkSecretRow (sr_id r) (sr_name r) (set_description s) (set_max_tier s)
    (set_injection_kind s) (set_injection_header s) (set_injection_username s)
    (sr_current_version r) (set_enabled s) (sr_operator_vetted r) (sr_managed_by_config r)
    (sr_created_at r) now.

Definition updated_event (prev : SecretRow) (prev_tags : list string) (s : SecretSettings)
    (actor : string) : AuditEvent :=
  let injection_changed :=
    negb (eqb (sr_injection_kind prev) (set_injection_kind s))
    || negb (eqb (sr_injection_header prev) (set_injection_header s))
    || negb (eqb (sr_injection_username prev) (set_injection_username s)) in
  mkAuditEvent kinds.SECRET_UPDATED None None None (Some (sr_name prev)) None (Some actor)
    None None None None
    (Some (obj [("max_tier", int (set_max_tier s));
                ("previous_max_tier", int (sr_max_tier prev));
                ("enabled", Bool (set_enabled s));
                ("previous_enabled", Bool (sr_enabled prev));
                ("injection_kind", Str (set_injection_kind s));
                ("injection_changed", Bool injection_changed);
                ("tags", strs (set_tags s));
                ("previous_tags", strs prev_tags)])).

Definition update_secret_settings_audited (now : DateTime) (secret_id : Uuid)
    (s : SecretSettings) (actor : string) (d : Db)
  : result DbError (UpdateSecretOutcome.t * Db) :=
  match secrets d !! secret_id with
  | None => Ok (UpdateSecretOutcome.NotFound, d)
  | Some prev =>
      if sr_managed_by_config prev then Ok (UpdateSecretOutcome.Managed, d)
      else
        let prev_tags := get_tags_for_secret secret_id d in
        fail_if negb (valid_injection_kind (set_injection_kind s)) with CheckViolation;
        let d1 := delete_tags secret_id (put_secret (apply_settings now s prev) d) in
        d2 ← insert_tags secret_id (set_tags s) d1;
        Ok (UpdateSecretOutcome.Updated,
            insert_audit now (updated_event prev prev_tags s actor) d2)
  end.

Module DeleteSecretOutcome.
Inductive t := Deleted (grants_revoked : Z) | Stale.
End DeleteSecretOutcome.

(** [DELETE FROM secrets] with its cascades. *)
Definition delete_secret_row (secret_id : Uuid) (d : Db) : Db :=
  with_secrets (delete secret_id)
    (with_secret_versions (delete_rows (λ v, eqb (sv_secret_id v) secret_id))
       (delete_tags secret_id d)).

(** The live grants backed by the stored bytes of that name. *)
Definition stored_backed_live (now : DateTime) (name : string) (g : GrantRow) : bool :=
  eqb (g_secret_name g) name && live now g && negb (g_passthrough_ephemeral g).

Definition deleted_detail : Value := obj [("reason", Str "secret-deleted")].
Definition deleted_event (name actor : string) (expected_version versions revoked : Z)
  : AuditEvent :=
  mkAuditEvent kinds.SECRET_DELETED None None None (Some name) None (Some actor)
    None None None None
    (Some (obj [("current_version", int expected_version);
                ("versions_deleted", int versions);
                ("grants_revoked", int revoked)])).

Definition delete_secret_audited (now : DateTime) (secret_id : Uuid) (expected_version : Z)
    (actor : string) (d : Db) : result DbError (DeleteSecretOutcome.t * Db) :=
  match secrets d !! secret_id with
  | None => Ok (DeleteSecretOutcome.Stale, d)
  | Some s =>
      let name := sr_name s in
      let versions := count_rows (λ v, eqb (sv_secret_id v) secret_id) (secret_versions d) in
      if negb (Z.eqb (sr_current_version s) expected_version)
      then Ok (DeleteSecretOutcome.Stale, d)
      else
        let d1 := delete_secret_row secret_id d in
        let revoked := select (stored_backed_live now name) (grants d1) in
        let d2 := with_grants (update_rows (stored_backed_live now name) set_revoked) d1 in
        let d3 := fold_left (λ d g, insert_audit now
                               (revoked_event g actor (Some deleted_detail)) d) revoked d2 in
        let n := Z.of_nat (List.length revoked) in
        Ok (DeleteSecretOutcome.Deleted n,
            insert_audit now (deleted_event name actor expected_version versions n) d3)
  end.

(** [ACTIVE_GRANTS_PREDICATE] *)
Definition active_grant (now : DateTime) (replay_window_seconds : Z) (d : Db) (g : GrantRow)
  : bool :=
  live now g && (uses_left g || replay_open now replay_window_seconds d g).
Definition list_active_grants (now : DateTime) (replay_window_seconds : Z) (d : Db)
  : list GrantRow :=
  sort_by_key (λ g, [(- g_created_at g)%Z])
    (select (active_grant now replay_window_seconds d) (grants d)).
Definition count_active_grants (now : DateTime) (replay_window_seconds : Z) (d : Db) : Z :=
  count_rows (active_grant now replay_window_seconds d) (grants d).

Definition recent_duplicate_push (row : AccessRequestRow) (since : DateTime) (d : Db) : bool :=
  exists_row (λ r,
    negb (eqb (ar_id r) (ar_id row)) && eqb (ar_client_name r) (ar_client_name row)
    && eqb (ar_secret_name r) (ar_secret_name row) && eqb (ar_mechanism r) (ar_mechanism row)
    && eqb (ar_constraints r) (ar_constraints row) && is_pending r
    && match ar_push_delivered_at r with Some t => (since <? t)%Z | None => false end
    && (0 <? ar_push_attempts r)%Z) (access_requests d).

Definition unpin (r : GrantRead) : GrantRead :=
  mkGrantRead None (gr_passthrough r) (gr_first_read_at r).
Definition unpinnable (now : DateTime) (replay_window_seconds : Z) (r : GrantRead) : bool :=
  (gr_first_read_at r <? now - seconds replay_window_seconds)%Z
  && is_some (gr_secret_version_id r).
Definition unpin_stale_grant_reads (now : DateTime) (replay_window_seconds : Z) (d : Db)
  : result DbError (Z * Db) :=
  let f := unpinnable now replay_window_seconds in
  Ok (count_rows f (grant_reads d), with_grant_reads (update_rows f unpin) d).
