(* ===== verification/Policies.v ===== *)
(** [server/src/db/policies.rs] and [server/src/ui/policy_store.rs]: the policy
    rows and their audited mutations. *)

From S2P Require Import Prelude RustStr Json Crypto Store.
Open Scope string_scope.

Record NewPolicy := mkNewPolicy {
  np_client_name : option string;
  np_secret_name : option string;
  np_secret_tag : option string;
  np_mechanism : string;
  np_outcome : string;
  np_priority : Z;
  np_origins : Value;
  np_methods : list string;
  np_path_prefixes : list string;
  np_max_ttl_seconds : option Z;
  np_max_uses : option Z;
  np_not_after : option DateTime;
  np_created_by : string
}.

Definition list_policies (d : Db) : list PolicyRow :=
  sort_by_key (λ p, [po_created_at p]) (rows (policies d)).
Definition count_policies (d : Db) : Z := Z.of_nat (size (policies d)).

(** The row an INSERT of a policy writes. *)
Definition policy_row (id : Uuid) (now : DateTime) (p : NewPolicy) (created_by : string)
    (managed : bool) : PolicyRow :=
  mkPolicyRow id (np_client_name p) (np_secret_name p) (np_secret_tag p) (np_mechanism p)
    (np_outcome p) (np_priority p) (np_origins p) (np_methods p) (np_path_prefixes p)
    (np_max_ttl_seconds p) (np_max_uses p) (np_not_after p) created_by now managed.

Definition insert_policy (now : DateTime) (id : Uuid) (p : NewPolicy) (d : Db)
  : result DbError (PolicyRow * Db) :=
  let row := policy_row id now p (np_created_by p) false in
  d1 ← insert_policy_row row d;
  Ok (row, d1).

Definition delete_policy (id : Uuid) (d : Db) : result DbError (bool * Db) :=
  Ok (is_some (policies d !! id), with_policies (delete id) d).

Definition policy_event `{UuidText} (kind : string) (client_name secret_name : option string)
    (actor : string) (id : Uuid) (rest : list (string * Value)) : AuditEvent :=
  mkAuditEvent kind None None client_name secret_name None (Some actor)
    None None None None (Some (obj (("policy_id", Str (uuid_display id)) :: rest))).

Definition insert_policy_audited `{UuidText} (now : DateTime) (id : Uuid) (p : NewPolicy)
    (actor : string) (d : Db) : result DbError (Uuid * Db) :=
  d1 ← insert_policy_row (policy_row id now p (np_created_by p) false) d;
  Ok (id, insert_audit now
            (policy_event kinds.POLICY_CREATED (np_client_name p) (np_secret_name p) actor id
               [("mechanism", Str (np_mechanism p)); ("outcome", Str (np_outcome p))]) d1).

Definition delete_policy_audited `{UuidText} (now : DateTime) (id : Uuid) (actor : string)
    (d : Db) : result DbError (bool * Db) :=
  match policies d !! id with
  | None => Ok (false, d)
  | Some p =>
      Ok (true, insert_audit now
                  (policy_event kinds.POLICY_DELETED (po_client_name p) (po_secret_name p)
                     actor id [])
                  (with_policies (delete id) d))
  end.

Module UpdatePolicyOutcome.
Inductive t := Updated | NotFound | Managed.
End UpdatePolicyOutcome.

(** [created_by], [created_at] and the ownership flag stay. *)
Definition update_policy_row (p : NewPolicy) (r : PolicyRow) : PolicyRow :=
  mkPolicyRow (po_id r) (np_client_name p) (np_secret_name p) (np_secret_tag p)
    (np_mechanism p) (np_outcome p) (np_priority p) (np_origins p) (np_methods p)
    (np_path_prefixes p) (np_max_ttl_seconds p) (np_max_uses p) (np_not_after p)
    (po_created_by r) (po_created_at r) (po_managed_by_config r).

Definition update_policy_audited `{UuidText} (now : DateTime) (id : Uuid) (p : NewPolicy)
    (actor : string) (d : Db) : result DbError (UpdatePolicyOutcome.t * Db) :=
  match policies d !! id with
  | None => Ok (UpdatePolicyOutcome.NotFound, d)
  | Some r =>
      if po_managed_by_config r then Ok (UpdatePolicyOutcome.Managed, d)
      else
        fail_if negb (valid_outcome (np_outcome p)) with CheckViolation;
        fail_if is_some (np_secret_name p) && is_some (np_secret_tag p) with CheckViolation;
        Ok (UpdatePolicyOutcome.Updated,
            insert_audit now
              (policy_event kinds.POLICY_UPDATED (np_client_name p) (np_secret_name p) actor id
                 [("mechanism", Str (np_mechanism p)); ("outcome", Str (np_outcome p));
                  ("previous_outcome", Str (po_outcome r))])
              (with_policies <[id := update_policy_row p r]> d))
  end.
