(* ===== verification/Clients.v ===== *)
(** [server/src/db/clients.rs]: the client rows, reconciled from config at
    startup. *)

From S2P Require Import Prelude RustStr Types Json Crypto Store.
Open Scope string_scope.

(** [ClientConfig], [ClientAuthConfig], [ServiceAccountAuth] ([config.rs]). *)
Record ServiceAccountAuth := mkServiceAccountAuth { sa_audience : string; sa_subject : string }.
Record ClientAuthConfig := mkClientAuthConfig {
  auth_api_token_sha256 : option string;
  auth_service_account : option ServiceAccountAuth
}.
Record ClientConfig := mkClientConfig {
  cc_name : string;
  cc_max_tier : Tier.t;
  cc_mechanisms : list Mechanism.t;
  cc_auth : ClientAuthConfig;
  cc_may_store_secrets : bool
}.

(** The credential columns of a row, released. *)
Definition release_binding (c : ClientRow) : ClientRow :=
  mkClientRow (cl_id c) (cl_name c) (cl_max_tier c) (cl_mechanisms c) (cl_auth_kind c)
    None None None (cl_enabled c) (cl_may_store_secrets c).
Definition retire (c : ClientRow) : ClientRow :=
  mkClientRow (cl_id c) (cl_name c) (cl_max_tier c) (cl_mechanisms c) (cl_auth_kind c)
    None None None false false.

(** The row the upsert writes for a configured client. *)
Definition configured_row (id : Uuid) (c : ClientConfig) : ClientRow :=
  mkClientRow id (cc_name c) (Tier.as_int (cc_max_tier c))
    (map Mechanism.as_str (cc_mechanisms c))
    (if is_some (auth_api_token_sha256 (cc_auth c)) then "api-token" else "service-account")
    ((λ h, to_ascii_lowercase (trim h)) <$> auth_api_token_sha256 (cc_auth c))
    (sa_audience <$> auth_service_account (cc_auth c))
    (sa_subject <$> auth_service_account (cc_auth c))
    true (cc_may_store_secrets c).

(** The unique indexes on credentials: both rows hold the same one. *)
Definition same_credential (a b : ClientRow) : bool :=
  (is_some (cl_api_token_sha256 a) && eqb (cl_api_token_sha256 a) (cl_api_token_sha256 b))
  || (is_some (cl_sa_audience a) && is_some (cl_sa_subject a)
      && eqb (cl_sa_audience a) (cl_sa_audience b) && eqb (cl_sa_subject a) (cl_sa_subject b)).

(** [INSERT … ON CONFLICT (name) DO UPDATE] *)
Definition upsert_client (new_id : Uuid) (c : ClientConfig) (d : Db) : result DbError Db :=
  let id := match find_row (λ r, eqb (cl_name r) (cc_name c)) (clients d) with
            | Some r => cl_id r | None => new_id end in
  let row := configured_row id c in
  fail_if is_none (find_row (λ r, eqb (cl_name r) (cc_name c)) (clients d))
          && is_some (clients d !! new_id) with UniqueViolation;
  fail_if exists_row (λ r, negb (eqb (cl_id r) id) && same_credential row r) (clients d)
    with UniqueViolation;
  Ok (with_clients <[id := row]> d).

(** The upsert loop; [ids] are the ids new rows would get. *)
Fixpoint upsert_clients (ids : nat → Uuid) (cs : list ClientConfig) (d : Db)
  : result DbError Db :=
  match cs with
  | [] => Ok d
  | c :: cs => d1 ← upsert_client (ids 0%nat) c d; upsert_clients (λ n, ids (S n)) cs d1
  end.

Definition reconcile_clients (ids : nat → Uuid) (cs : list ClientConfig) (d : Db)
  : result DbError (unit * Db) :=
  let names := map cc_name cs in
  let d1 := with_clients (update_rows (λ r, negb (contains names (cl_name r))) retire) d in
  let d2 := with_clients (update_rows (λ r, contains names (cl_name r)) release_binding) d1 in
  d3 ← upsert_clients ids cs d2;
  Ok (tt, d3).

Definition get_client_by_name (name : string) (d : Db) : option ClientRow :=
  find_row (λ c, eqb (cl_name c) name) (clients d).
Definition list_clients (d : Db) : list ClientRow :=
  sort_by_key (λ c, bytes_key (cl_name c)) (rows (clients d)).
