(* ===== verification/Provision.v ===== *)
(** [server/src/db/provision.rs]: secrets and policy rows reconciled from the
    config at startup. *)

From S2P Require Import Prelude RustStr Json Crypto Store Secrets UiExt Policies.
Open Scope string_scope.

Definition CONFIG_ACTOR : string := "config".

Record DesiredSecret := mkDesiredSecret {
  ds_name : string;
  ds_description : string;
  ds_max_tier : Z;
  ds_injection_kind : string;
  ds_injection_header : option string;
  ds_injection_username : option string;
  ds_tags : list string;
  ds_value : string
}.

Module SecretChange.
Inductive t := Created | Updated (metadata rotated : bool) | Unchanged.
End SecretChange.

(** [Vec::dedup]: drop consecutive repeats. *)
Fixpoint dedup (l : list string) : list string :=
  match l with
  | [] => []
  | x :: l => match dedup l with
              | y :: k => if eqb x y then y :: k else x :: y :: k
              | [] => [x]
              end
  end.

(** What reconciling one secret draws: ids for a new row and version, and the
    randomness of sealing. *)
Record SecretDraw := mkSecretDraw {
  sd_secret_id : Uuid;
  sd_version_id : Uuid;
  sd_draw : Draw
}.

Section Provision.
Context `{UuidText, Primitives}.

Definition insert_version (now : DateTime) (keyset : Keyset) (r : SecretDraw)
    (secret_id : Uuid) (version : Z) (value : string) (d : Db) : result DbError Db :=
  sealed ← map_err Sealing (Keyset_seal keyset (sd_draw r) value (SecretVersion secret_id version));
  insert_secret_version_row (version_row (sd_version_id r) secret_id version sealed now None) d.

Definition replace_tags (secret_id : Uuid) (tags : list string) (d : Db) : result DbError Db :=
  insert_tags secret_id tags (delete_tags secret_id d).

Definition provisioned_row (now : DateTime) (id : Uuid) (w : DesiredSecret) : SecretRow :=
  mkSecretRow id (ds_name w) (ds_description w) (ds_max_tier w) (ds_injection_kind w)
    (ds_injection_header w) (ds_injection_username w) 1 true true true now now.
Definition adopt (now : DateTime) (w : DesiredSecret) (s : SecretRow) : SecretRow :=
  mkSecretRow (sr_id s) (sr_name s) (ds_description w) (ds_max_tier w) (ds_injection_kind w)
    (ds_injection_header w) (ds_injection_username w) (sr_current_version s) true true true
    (sr_created_at s) now.

Definition config_event (kind name : string) (version_id : option Uuid) (detail : option Value)
  : AuditEvent :=
  mkAuditEvent kind None None None (Some name) version_id (Some CONFIG_ACTOR)
    None None None None detail.

Definition metadata_differs (row : SecretRow) (w : DesiredSecret)
    (current_tags wanted_tags : list string) : bool :=
  negb (eqb (sr_description row) (ds_description w))
  || negb (Z.eqb (sr_max_tier row) (ds_max_tier w))
  || negb (eqb (sr_injection_kind row) (ds_injection_kind w))
  || negb (eqb (sr_injection_header row) (ds_injection_header w))
  || negb (eqb (sr_injection_username row) (ds_injection_username w))
  || negb (sr_enabled row) || negb (sr_operator_vetted row)
  || negb (sr_managed_by_config row) || negb (eqb current_tags wanted_tags).

Definition sync_metadata (now : DateTime) (row : SecretRow) (w : DesiredSecret)
    (wanted_tags : list string) (d : Db) : result DbError Db :=
  fail_if negb (valid_injection_kind (ds_injection_kind w)) with CheckViolation;
  d1 ← replace_tags (sr_id row) wanted_tags (put_secret (adopt now w row) d);
  Ok (insert_audit now
        (config_event kinds.SECRET_UPDATED (ds_name w) None
           (Some (obj [("max_tier", int (ds_max_tier w));
                       ("injection_kind", Str (ds_injection_kind w));
                       ("adopted", Bool (negb (sr_managed_by_config row)))]))) d1).

Definition same_bytes (keyset : Keyset) (row : SecretRow) (value : string) (d : Db)
  : result DbError bool :=
  match get_secret_version (sr_id row) (sr_current_version row) d with
  | Some v =>
      plaintext ← map_err Sealing
        (Keyset_open keyset (sv_ciphertext v) (sv_nonce v) (sv_wrapped_dek v) (sv_kek_id v)
           (SecretVersion (sv_secret_id v) (sv_version v)));
      Ok (ct_eq plaintext value)
  | None => Ok false
  end.

(** [UPDATE … current_version + 1] on the row as it is now. *)
Definition rotate_in (now : DateTime) (keyset : Keyset) (r : SecretDraw) (row : SecretRow)
    (w : DesiredSecret) (d : Db) : result DbError Db :=
  s ← ok_or (secrets d !! sr_id row) RowNotFound;
  version ← int4_succ (sr_current_version s);
  d1 ← insert_version now keyset r (sr_id row) version (ds_value w)
         (put_secret (set_version version (sr_operator_vetted s) now s) d);
  Ok (insert_audit now
        (config_event kinds.SECRET_ROTATED (ds_name w) (Some (sd_version_id r)) None) d1).

Definition reconcile_one_secret (now : DateTime) (keyset : Keyset) (r : SecretDraw)
    (w : DesiredSecret) (d : Db) : result DbError (SecretChange.t * Db) :=
  match get_secret_by_name (ds_name w) d with
  | None =>
      d1 ← insert_secret (provisioned_row now (sd_secret_id r) w) d;
      d2 ← insert_version now keyset r (sd_secret_id r) 1 (ds_value w) d1;
      d3 ← replace_tags (sd_secret_id r) (ds_tags w) d2;
      Ok (SecretChange.Created,
          insert_audit now
            (config_event kinds.SECRET_CREATED (ds_name w) (Some (sd_version_id r)) None) d3)
  | Some row =>
      let current_tags := get_tags_for_secret (sr_id row) d in
      let wanted_tags := dedup (sort_by_key bytes_key (ds_tags w)) in
      let metadata := metadata_differs row w current_tags wanted_tags in
      d1 ← (if metadata then sync_metadata now row w wanted_tags d else Ok d);
      same ← same_bytes keyset row (ds_value w) d1;
      let rotated := negb same in
      d2 ← (if rotated then rotate_in now keyset r row w d1 else Ok d1);
      Ok (if metadata || rotated then SecretChange.Updated metadata rotated
          else SecretChange.Unchanged, d2)
  end.

(** Each desired secret in its own transaction; the stale ones deleted after. *)
Fixpoint reconcile_each (now : DateTime) (keyset : Keyset) (draws : nat → SecretDraw)
    (ws : list DesiredSecret) (d : Db)
  : result DbError (list (string * SecretChange.t) * Db) :=
  match ws with
  | [] => Ok ([], d)
  | w :: ws =>
      '(change, d1) ← reconcile_one_secret now keyset (draws 0%nat) w d;
      '(changes, d2) ← reconcile_each now keyset (λ n, draws (S n)) ws d1;
      Ok ((ds_name w, change) :: changes, d2)
  end.
Fixpoint delete_each (now : DateTime) (stale : list SecretRow) (d : Db) : result DbError Db :=
  match stale with
  | [] => Ok d
  | s :: stale =>
      '(_, d1) ← delete_secret_audited now (sr_id s) (sr_current_version s) CONFIG_ACTOR d;
      delete_each now stale d1
  end.

Definition reconcile_secrets (now : DateTime) (keyset : Keyset) (draws : nat → SecretDraw)
    (desired : list DesiredSecret) (d : Db)
  : result DbError (list (string * SecretChange.t) * Db) :=
  '(changes, d1) ← reconcile_each now keyset draws desired d;
  let names := map ds_name desired in
  let stale := select (λ s, sr_managed_by_config s && negb (contains names (sr_name s)))
                 (secrets d1) in
  d2 ← delete_each now stale d1;
  Ok (changes, d2).

(** ** Policy rows *)
Definition opt_value {A} (enc : A → Value) (o : option A) : Value :=
  match o with Some a => enc a | None => Null end.

Definition policy_key (p : NewPolicy) : Value :=
  Array [opt_value Str (np_client_name p); opt_value Str (np_secret_name p);
         opt_value Str (np_secret_tag p); Str (np_mechanism p); Str (np_outcome p);
         int (np_priority p); np_origins p; strs (np_methods p); strs (np_path_prefixes p);
         opt_value int (np_max_ttl_seconds p); opt_value int (np_max_uses p);
         opt_value (λ t, int (t / 1000)) (np_not_after p)].

Definition row_policy (r : PolicyRow) : NewPolicy :=
  mkNewPolicy (po_client_name r) (po_secret_name r) (po_secret_tag r) (po_mechanism r)
    (po_outcome r) (po_priority r) (po_origins r) (po_methods r) (po_path_prefixes r)
    (po_max_ttl_seconds r) (po_max_uses r) (po_not_after r) (po_created_by r).

Record PolicyChanges := mkPolicyChanges { created : Z; deleted : Z }.

Fixpoint position {A} (f : A → bool) (l : list A) : option nat :=
  match l with
  | [] => None
  | x :: l => if f x then Some 0%nat else S <$> position f l
  end.
(** [Vec::swap_remove]: the last element takes the hole. *)
Definition swap_remove {A} (i : nat) (l : list A) : list A :=
  match last l with
  | None => []
  | Some x => if Nat.eqb (S i) (List.length l) then removelast l
              else removelast (<[i := x]> l)
  end.

(** The two loops, over what is still wanted. *)
Fixpoint drop_unwanted (now : DateTime) (existing : list PolicyRow)
    (wanted : list (Value * NewPolicy)) (d : Db) (n : Z)
  : list (Value * NewPolicy) * Db * Z :=
  match existing with
  | [] => (wanted, d, n)
  | row :: existing =>
      match position (λ w, eqb w.1 (policy_key (row_policy row))) wanted with
      | Some i => drop_unwanted now existing (swap_remove i wanted) d n
      | None =>
          let d1 := insert_audit now
            (policy_event kinds.POLICY_DELETED (po_client_name row) (po_secret_name row)
               CONFIG_ACTOR (po_id row) [])
            (with_policies (delete (po_id row)) d) in
          drop_unwanted now existing wanted d1 (n + 1)
      end
  end.
Fixpoint insert_wanted (now : DateTime) (ids : nat → Uuid) (wanted : list (Value * NewPolicy))
    (d : Db) : result DbError Db :=
  match wanted with
  | [] => Ok d
  | (_, p) :: wanted =>
      d1 ← insert_policy_row (policy_row (ids 0%nat) now p CONFIG_ACTOR true) d;
      insert_wanted now (λ n, ids (S n)) wanted
        (insert_audit now
           (policy_event kinds.POLICY_CREATED (np_client_name p) (np_secret_name p)
              CONFIG_ACTOR (ids 0%nat)
              [("mechanism", Str (np_mechanism p)); ("outcome", Str (np_outcome p))]) d1)
  end.

Definition reconcile_policies (now : DateTime) (ids : nat → Uuid) (desired : list NewPolicy)
    (d : Db) : result DbError (PolicyChanges * Db) :=
  let existing := select po_managed_by_config (policies d) in
  let wanted := map (λ p, (policy_key p, p)) desired in
  let '(wanted, d1, n) := drop_unwanted now existing wanted d 0 in
  d2 ← insert_wanted now ids wanted d1;
  Ok (mkPolicyChanges (Z.of_nat (List.length wanted)) n, d2).
End Provision.
