(* ===== verification/Notify.v ===== *)
(** [server/src/notify/mod.rs]: the push claims on the request outbox, the
    texts of the pushes, and the order of a sweep. *)

From S2P Require Import Prelude RustStr Types Json Crypto Store Requests Grants Secrets UiExt.
Open Scope string_scope.

(** [UPDATE … SET push_attempts = push_attempts + 1 WHERE id = $1 AND guard] *)
Definition bump_guarded (guard : AccessRequestRow → bool) (request_id : Uuid) (d : Db)
  : result DbError (bool * Db) :=
  match guarded_request request_id guard d with
  | None => Ok (false, d)
  | Some r =>
      n ← int4_succ (ar_push_attempts r);
      Ok (true, put_request (set_push (ar_push_delivered_at r) n r) d)
  end.

Definition pushable (now : DateTime) (r : AccessRequestRow) : bool :=
  is_pending r && is_none (ar_push_delivered_at r) && (now <? ar_expires_at r)%Z.
Definition claim_for_push (now : DateTime) (request_id : Uuid) (d : Db)
  : result DbError (bool * Db) :=
  bump_guarded (pushable now) request_id d.

Definition fyi_pushable (r : AccessRequestRow) : bool :=
  ar_notify_only r && is_none (ar_push_delivered_at r).
Definition claim_for_fyi_push (request_id : Uuid) (d : Db) : result DbError (bool * Db) :=
  bump_guarded fyi_pushable request_id d.
