(* ===== verification/Lifecycle.v ===== *)
(** The abstract lifecycle the store layer implements: a step relation on the
    tables whose steps say what may happen to requests, grants, reads, secrets
    and the log, whoever does it; and the invariants of every state it reaches.
    [Refinement.v] shows that each store operation is a sequence of its steps. *)

From S2P Require Import Prelude RustStr Json Crypto Store Requests Grants Secrets UiExt.
Open Scope string_scope.

(** A write-ahead row of a fresh use; replays carry a detail. *)
Definition is_first_use (ev : AuditEvent) : bool :=
  (eqb (ev_kind ev) kinds.RELEASE_ATTEMPT || eqb (ev_kind ev) kinds.PROXY_ATTEMPT)
  && is_none (ev_detail ev).

(** The fresh uses of a grant the log holds. *)
Definition logs_use (gid : Uuid) (r : AuditRow) : bool :=
  is_first_use (au_event r) && eqb (ev_grant_id (au_event r)) (Some gid).
Definition uses_logged (gid : Uuid) (log : list AuditRow) : Z :=
  Z.of_nat (List.length (List.filter (logs_use gid) log)).

(** The columns of a request that never change, and those a resolution sets. *)
Definition request_identity (r : AccessRequestRow) :=
  (ar_id r, ar_client_name r, ar_secret_name r, ar_mechanism r, ar_constraints r,
   ar_policy_not_after r, ar_created_at r, ar_expires_at r,
   (ar_idem_client r, ar_idem_key r, ar_idem_mac r)).
Definition request_resolution (r : AccessRequestRow) :=
  (ar_state r, ar_deny_reason r, ar_resolved_by r, ar_resolved_at r).

(** [r'] is a later state of [r]: a resolution is final, context only goes. *)
Record request_le (r r' : AccessRequestRow) : Prop := mk_request_le {
  rle_identity : request_identity r = request_identity r';
  rle_final : ar_state r ≠ PENDING → request_resolution r = request_resolution r';
  rle_context : ar_context_ciphertext r' = ar_context_ciphertext r
                ∨ ar_context_ciphertext r' = None
}.

(** A change of one request that mints no grant. *)
Definition request_step (now : DateTime) (r r' : AccessRequestRow) : Prop :=
  request_le r r'
  ∧ (request_resolution r = request_resolution r'
     ∨ (ar_state r = PENDING ∧ ar_state r' ∈ [DENIED; EXPIRED] ∧ ar_resolved_at r' = Some now)).

Definition request_approved (now : DateTime) (r r' : AccessRequestRow) : Prop :=
  request_le r r' ∧ ar_state r = PENDING ∧ ar_state r' = APPROVED
  ∧ ar_resolved_at r' = Some now.

(** The columns of a grant that never change. *)
Definition grant_identity (g : GrantRow) :=
  (g_id g, g_request_id g, g_client_name g, g_secret_name g, g_mechanism g,
   g_constraints g, g_not_after g, g_max_uses g, g_passthrough_ephemeral g, g_created_at g).

(** [g'] is a later state of [g]: a capability only weakens. *)
Record grant_le (g g' : GrantRow) : Prop := mk_grant_le {
  gle_identity : grant_identity g = grant_identity g';
  gle_count : (g_use_count g ≤ g_use_count g')%Z;
  gle_revoked : g_revoked g = true → g_revoked g' = true;
  gle_payload : g_passthrough_ciphertext g' = g_passthrough_ciphertext g
                ∨ g_passthrough_ciphertext g' = None
}.

(** A replay row keeps its window and loses at most its pin. *)
Definition read_le (r r' : GrantRead) : Prop :=
  gr_first_read_at r = gr_first_read_at r' ∧ gr_passthrough r = gr_passthrough r'
  ∧ (gr_secret_version_id r' = gr_secret_version_id r ∨ gr_secret_version_id r' = None).

(** What a grant looks like when it is minted. *)
Record grant_fresh (g : GrantRow) : Prop := mk_grant_fresh {
  gf_count : g_use_count g = 0%Z;
  gf_revoked : g_revoked g = false;
  gf_max : ∀ m, g_max_uses g = Some m → (0 ≤ m)%Z;
  gf_payload : g_passthrough_ephemeral g = is_some (g_passthrough_ciphertext g)
}.

(** The stored secret a name refers to. *)
Definition names_secret (d : Db) (name : string) : Prop :=
  ∃ sid s, secrets d !! sid = Some s ∧ sr_name s = name.

(** The three ways a grant row is weakened in place. *)
Definition weakened (g g' : GrantRow) : Prop :=
  g' = g ∨ g' = purge_payload g ∨ g' = set_revoked g.

Definition map_requests f (d : Db) : Db :=
  with_access_requests (map_imap (λ k r, Some (f k r))) d.
Definition map_grants f (d : Db) : Db := with_grants (map_imap (λ k g, Some (f k g))) d.
Definition map_reads f (d : Db) : Db := with_grant_reads (map_imap (λ k r, Some (f k r))) d.

Definition put_grant (g : GrantRow) (d : Db) : Db := with_grants <[g_id g := g]> d.
Definition put_version (v : SecretVersionRow) (d : Db) : Db :=
  with_secret_versions <[sv_id v := v]> d.
Definition put_read (k : Uuid * string) (r : GrantRead) (d : Db) : Db :=
  with_grant_reads <[k := r]> d.

Definition version_slot_free (v : SecretVersionRow) (d : Db) : Prop :=
  secret_versions d !! sv_id v = None
  ∧ ∀ k v', secret_versions d !! k = Some v' →
      sv_secret_id v' = sv_secret_id v → sv_version v' ≠ sv_version v.
Definition secret_slot_free (s : SecretRow) (d : Db) : Prop :=
  secrets d !! sr_id s = None ∧ ¬ names_secret d (sr_name s)
  ∧ valid_injection_kind (sr_injection_kind s) = true.
(** An edit meets the CHECK when the row did. *)
Definition kind_checked (s s' : SecretRow) : Prop :=
  valid_injection_kind (sr_injection_kind s) = true →
  valid_injection_kind (sr_injection_kind s') = true.
(** The CHECKs on a policy row. *)
Definition policy_checked (p : PolicyRow) : Prop :=
  valid_outcome (po_outcome p) = true
  ∧ is_some (po_secret_name p) && is_some (po_secret_tag p) = false.

(** ** The steps *)
Inductive action (now : DateTime) (d : Db) : Db → Prop :=
| act_log ev :
    is_first_use ev = false → action now d (insert_audit now ev d)
| act_create r :
    access_requests d !! ar_id r = None →
    (∀ k x, access_requests d !! k = Some x →
       ar_idem_client x = ar_idem_client r → ar_idem_key x ≠ ar_idem_key r) →
    ar_state r = PENDING → ar_resolved_at r = None →
    action now d (put_request r d)
| act_requests f :
    (∀ k r, access_requests d !! k = Some r → request_step now r (f k r)) →
    action now d (map_requests f d)
| act_approve r r' g :
    access_requests d !! ar_id r = Some r →
    request_approved now r r' →
    grants d !! g_id g = None → g_request_id g = ar_id r → grant_fresh g →
    (g_passthrough_ephemeral g = false → names_secret d (g_secret_name g)) →
    action now d (put_grant g (put_request r' d))
| act_use g key ver ev :
    grants d !! g_id g = Some g → live now g = true → uses_left g = true →
    is_first_use ev = true → ev_grant_id ev = Some (g_id g) →
    (∀ k, key = Some k → grant_reads d !! (g_id g, k) = None) →
    action now d
      (insert_audit now ev
        (match key with
         | Some k => put_read (g_id g, k)
             (mkGrantRead ver (is_some (g_passthrough_ciphertext g)) now)
         | None => id
         end (put_grant (set_use_count (g_use_count g + 1) g) d)))
| act_weaken f :
    (∀ k g, grants d !! k = Some g → weakened g (f k g)) →
    action now d (map_grants f d)
| act_unpin f :
    (∀ k r, grant_reads d !! k = Some r → read_le r (f k r)) →
    action now d (map_reads f d)
| act_secret_empty s :
    secret_slot_free s d → sr_current_version s = 0%Z →
    action now d (put_secret s d)
| act_secret_new s v :
    secret_slot_free s d → sr_current_version s = 1%Z →
    version_slot_free v d → sv_secret_id v = sr_id s → sv_version v = 1%Z →
    action now d (put_version v (put_secret s d))
| act_secret_edit s s' :
    secrets d !! sr_id s = Some s →
    sr_id s' = sr_id s → sr_name s' = sr_name s →
    sr_current_version s' = sr_current_version s → kind_checked s s' →
    action now d (put_secret s' d)
| act_secret_version s s' v :
    secrets d !! sr_id s = Some s →
    sr_id s' = sr_id s → sr_name s' = sr_name s →
    sr_current_version s' = (sr_current_version s + 1)%Z → kind_checked s s' →
    version_slot_free v d → sv_secret_id v = sr_id s → sv_version v = sr_current_version s' →
    action now d (put_version v (put_secret s' d))
| act_tags t :
    (∀ x, x ∈ t → is_Some (secrets d !! x.1)) →
    action now d (with_secret_tags (λ _, t) d)
| act_secret_delete s :
    secrets d !! sr_id s = Some s →
    action now d
      (with_grants (update_rows (stored_backed_live now (sr_name s)) set_revoked)
         (delete_secret_row (sr_id s) d))
| act_policies m :
    (∀ k p, m !! k = Some p → po_id p = k) →
    (∀ k p, m !! k = Some p → policies d !! k = Some p ∨ policy_checked p) →
    action now d (with_policies (λ _, m) d)
| act_clients m :
    action now d (with_clients (λ _, m) d).

(** ** Invariants *)
Record inv (now : DateTime) (d : Db) : Prop := mk_inv {
  inv_wf : db_wf d;
  (** A request is approved exactly when a grant was minted for it. *)
  inv_grant : ∀ k r, access_requests d !! k = Some r →
    ar_state r = APPROVED ↔ ∃ gid g, grants d !! gid = Some g ∧ g_request_id g = k;
  (** Resolution columns. *)
  inv_resolved : ∀ k r, access_requests d !! k = Some r →
    ar_state r = PENDING ↔ ar_resolved_at r = None;
  (** Every use of a grant is in the log, and none beyond the cap. *)
  inv_logged : ∀ gid g, grants d !! gid = Some g →
    g_use_count g = uses_logged gid (audit_log d);
  inv_unlogged : ∀ gid, grants d !! gid = None → uses_logged gid (audit_log d) = 0%Z;
  inv_cap : ∀ gid g m, grants d !! gid = Some g → g_max_uses g = Some m →
    (0 ≤ g_use_count g ≤ m)%Z;
  (** Payloads are ephemeral, and gone once revoked. *)
  inv_payload : ∀ gid g, grants d !! gid = Some g →
    g_passthrough_ciphertext g ≠ None →
    g_passthrough_ephemeral g = true ∧ g_revoked g = false;
  (** A live grant without payload has its stored secret. *)
  inv_backed : ∀ gid g, grants d !! gid = Some g → live now g = true →
    g_passthrough_ephemeral g = false → names_secret d (g_secret_name g);
  (** The versions of a secret are exactly 1 .. [current_version]. *)
  inv_versions : ∀ sid s n, secrets d !! sid = Some s →
    (1 ≤ n ≤ sr_current_version s)%Z ↔
    ∃ k v, secret_versions d !! k = Some v ∧ sv_secret_id v = sid ∧ sv_version v = n;
  inv_version_nonneg : ∀ sid s, secrets d !! sid = Some s → (0 ≤ sr_current_version s)%Z
}.

(** ** Preservation *)
Section ImapFacts.
Context {K V : Type} `{Countable K}.
Lemma lookup_imap_total (f : K → V → V) (m : gmap K V) k :
  map_imap (λ k v, Some (f k v)) m !! k = f k <$> m !! k.
Proof. rewrite map_lookup_imap. by destruct (m !! k). Qed.
Lemma lookup_imap_Some (f : K → V → V) (m : gmap K V) k v :
  map_imap (λ k v, Some (f k v)) m !! k = Some v ↔ ∃ v0, m !! k = Some v0 ∧ v = f k v0.
Proof. rewrite lookup_imap_total, fmap_Some. done. Qed.
End ImapFacts.

(** The two ways a lookup in an updated table can go. *)
Ltac look :=
  repeat match goal with
  | H : <[_:=_]> _ !! _ = Some _ |- _ => apply lookup_insert_Some in H as [[? ?]|[? ?]]
  | H : map_imap (λ k v, Some (?f k v)) _ !! _ = Some _ |- _ =>
      apply lookup_imap_Some in H as (? & ? & ?)
  | H : update_rows _ _ _ !! _ = Some _ |- _ =>
      rewrite lookup_update_rows in H; apply fmap_Some in H as (? & ? & ?)
  | H : delete _ _ !! _ = Some _ |- _ => apply lookup_delete_Some in H as [? ?]
  | H : delete_rows _ _ !! _ = Some _ |- _ => apply lookup_delete_rows in H as [? ?]
  end; subst.

Lemma request_identity_eq r r' :
  request_identity r = request_identity r' →
  ar_id r = ar_id r' ∧ ar_idem_client r = ar_idem_client r' ∧ ar_idem_key r = ar_idem_key r'.
Proof. unfold request_identity. by intros [=]. Qed.

Lemma request_step_id now r r' : request_step now r r' → ar_id r' = ar_id r.
Proof. intros [[H _ _] _]. by apply request_identity_eq in H as [-> _]. Qed.

Lemma request_step_state now r r' :
  request_step now r r' →
  (ar_state r' = ar_state r ∧ ar_resolved_at r' = ar_resolved_at r)
  ∨ (ar_state r = PENDING ∧ ar_state r' ∈ [DENIED; EXPIRED] ∧ ar_resolved_at r' = Some now).
Proof.
  intros [_ [H|H]]; [left|by right]. unfold request_resolution in H. by injection H.
Qed.

Lemma weakened_le g g' : weakened g g' → grant_le g g' ∧ g_use_count g' = g_use_count g.
Proof. intros [-> | [-> | ->]]; (split; [constructor|]); cbn; try done; by auto. Qed.

Lemma stored_backed_weakened now name g :
  weakened g (if stored_backed_live now name g then set_revoked g else g).
Proof. destruct (stored_backed_live now name g); unfold weakened; auto. Qed.

Lemma grant_le_identity g g' :
  grant_le g g' → g_id g' = g_id g ∧ g_request_id g' = g_request_id g
    ∧ g_secret_name g' = g_secret_name g ∧ g_max_uses g' = g_max_uses g
    ∧ g_not_after g' = g_not_after g
    ∧ g_passthrough_ephemeral g' = g_passthrough_ephemeral g.
Proof. intros [H _ _ _]. unfold grant_identity in H. by injection H. Qed.

(** A database whose tables are updated pointwise keeps its keys. *)
Lemma wf_requests_imap d f :
  db_wf d →
  (∀ k r, access_requests d !! k = Some r →
     request_identity r = request_identity (f k r)
     ∧ ar_state (f k r) ∈ ["pending"; "approved"; "denied"; "expired"]) →
  db_wf (map_requests f d).
Proof.
  intros Hwf Hf. constructor; try apply Hwf; cbn.
  - intros k r (r0 & Hr & ->)%lookup_imap_Some.
    destruct (Hf _ _ Hr) as [Hi _]. apply request_identity_eq in Hi as (<- & _).
    by eapply wf_request_pk.
  - intros k r (r0 & Hr & ->)%lookup_imap_Some. by destruct (Hf _ _ Hr).
  - intros k k' r r' (r0 & Hr & ->)%lookup_imap_Some (r0' & Hr' & ->)%lookup_imap_Some.
    destruct (Hf _ _ Hr) as [Hi _], (Hf _ _ Hr') as [Hj _].
    apply request_identity_eq in Hi as (_ & <- & <-), Hj as (_ & <- & <-).
    by eapply wf_request_idem.
  - intros k g Hg. destruct (wf_grant_fk _ Hwf _ _ Hg) as [r Hr].
    rewrite lookup_imap_total, Hr. by eexists.
Qed.

Lemma wf_grants_imap d f :
  db_wf d → (∀ k g, grants d !! k = Some g → grant_le g (f k g)) → db_wf (map_grants f d).
Proof.
  intros Hwf Hf.
  assert (Hid : ∀ k g, grants d !! k = Some g →
    g_id (f k g) = g_id g ∧ g_request_id (f k g) = g_request_id g)
    by (intros k g Hg; by destruct (grant_le_identity _ _ (Hf k g Hg)) as (? & ? & _)).
  constructor; try apply Hwf; cbn.
  - intros k g (g0 & Hg & ->)%lookup_imap_Some. destruct (Hid _ _ Hg) as [-> _].
    by eapply wf_grant_pk.
  - intros k k' g g' (g0 & Hg & ->)%lookup_imap_Some (g0' & Hg' & ->)%lookup_imap_Some.
    destruct (Hid _ _ Hg) as [_ ->], (Hid _ _ Hg') as [_ ->].
    by eapply wf_grant_request.
  - intros k g (g0 & Hg & ->)%lookup_imap_Some. destruct (Hid _ _ Hg) as [_ ->].
    by eapply wf_grant_fk.
  - intros k r Hr. destruct (wf_read_fk _ Hwf _ _ Hr) as [g Hg].
    rewrite lookup_imap_total, Hg. by eexists.
Qed.

Lemma insert_as_imap {K V} `{Countable K} (m : gmap K V) k v0 v :
  m !! k = Some v0 → <[k := v]> m = map_imap (λ k' x, Some (if decide (k' = k) then v else x)) m.
Proof.
  intros Hk. apply map_eq. intros i. rewrite lookup_imap_total.
  destruct (decide (i = k)) as [->|Hne].
  - by rewrite lookup_insert_eq, Hk.
  - rewrite lookup_insert_ne by done. by destruct (m !! i).
Qed.

Lemma put_request_as_map r r' d :
  access_requests d !! ar_id r' = Some r →
  put_request r' d = map_requests (λ k x, if decide (k = ar_id r') then r' else x) d.
Proof.
  intros Hr. unfold put_request, map_requests, with_access_requests.
  by rewrite (insert_as_imap _ _ _ _ Hr).
Qed.
Lemma put_grant_as_map g g' d :
  grants d !! g_id g' = Some g →
  put_grant g' d = map_grants (λ k x, if decide (k = g_id g') then g' else x) d.
Proof.
  intros Hg. unfold put_grant, map_grants, with_grants.
  by rewrite (insert_as_imap _ _ _ _ Hg).
Qed.

Lemma request_le_refl r : request_le r r.
Proof. constructor; auto. Qed.
Lemma grant_le_refl g : grant_le g g.
Proof. constructor; auto. lia. Qed.

(** Elementary updates keep the tables well-formed. *)
Section WfUpdates.
Context (d : Db) (Hwf : db_wf d).

Lemma wf_put_new_request r :
  access_requests d !! ar_id r = None →
  (∀ k x, access_requests d !! k = Some x →
     ar_idem_client x = ar_idem_client r → ar_idem_key x ≠ ar_idem_key r) →
  ar_state r = PENDING → db_wf (put_request r d).
Proof.
  intros Hf Hi Hs. constructor; try apply Hwf; cbn.
  - intros k x Hx. look; [done|]. by eapply wf_request_pk.
  - intros k x Hx. look; [rewrite Hs; by left|]. by eapply wf_request_state.
  - intros k k' x x' Hx Hx'. look; intros E1 E2; try done.
    + exfalso. naive_solver.
    + exfalso. naive_solver.
    + by eapply wf_request_idem.
  - intros k g Hg. destruct (wf_grant_fk _ Hwf _ _ Hg) as [x Hx].
    destruct (decide (ar_id r = g_request_id g)) as [<-|Hne].
    + rewrite lookup_insert_eq. by eexists.
    + rewrite lookup_insert_ne by done. by eexists.
Qed.

Lemma wf_put_new_grant g :
  grants d !! g_id g = None → is_Some (access_requests d !! g_request_id g) →
  (∀ k x, grants d !! k = Some x → g_request_id x ≠ g_request_id g) →
  db_wf (put_grant g d).
Proof.
  intros Hf Hr Hu. constructor; try apply Hwf; cbn.
  - intros k x Hx. look; [done|]. by eapply wf_grant_pk.
  - intros k k' x x' Hx Hx'. look; intros E; try done.
    + exfalso. naive_solver.
    + exfalso. naive_solver.
    + by eapply wf_grant_request.
  - intros k x Hx. look; [done|]. by eapply wf_grant_fk.
  - intros k x Hx. destruct (wf_read_fk _ Hwf _ _ Hx) as [y Hy].
    destruct (decide (g_id g = k.1)) as [<-|Hne].
    + rewrite lookup_insert_eq. by eexists.
    + rewrite lookup_insert_ne by done. by eexists.
Qed.

Lemma wf_put_secret s :
  (∀ k x, secrets d !! k = Some x → sr_name x = sr_name s → k = sr_id s) →
  db_wf (put_secret s d).
Proof.
  intros Hn. constructor; try apply Hwf; cbn.
  - intros k x Hx. look; [done|]. by eapply wf_secret_pk.
  - intros k k' x x' Hx Hx'. look; intros E; try done.
    + naive_solver.
    + naive_solver.
    + by eapply wf_secret_name.
  - intros k v Hv. destruct (wf_version_fk _ Hwf _ _ Hv) as [x Hx].
    destruct (decide (sr_id s = sv_secret_id v)) as [<-|Hne];
      [rewrite lookup_insert_eq|rewrite lookup_insert_ne by done]; by eexists.
  - intros t Ht. destruct (wf_tag_fk _ Hwf _ Ht) as [x Hx].
    destruct (decide (sr_id s = t.1)) as [<-|Hne];
      [rewrite lookup_insert_eq|rewrite lookup_insert_ne by done]; by eexists.
Qed.

Lemma wf_put_version v :
  version_slot_free v d → is_Some (secrets d !! sv_secret_id v) → db_wf (put_version v d).
Proof.
  intros [Hf Hn] Hs. constructor; try apply Hwf; cbn.
  - intros k x Hx. look; [done|]. by eapply wf_version_pk.
  - intros k x Hx. look; [done|]. by eapply wf_version_fk.
  - intros k k' x x' Hx Hx'. look; intros E1 E2; try done.
    + exfalso. naive_solver.
    + exfalso. naive_solver.
    + by eapply wf_version_number.
Qed.

Lemma wf_put_read k r : is_Some (grants d !! k.1) → db_wf (put_read k r d).
Proof.
  intros Hg. constructor; try apply Hwf; cbn.
  intros k' x Hx. look; [done|]. by eapply wf_read_fk.
Qed.

Lemma wf_map_reads f : db_wf (map_reads f d).
Proof.
  constructor; try apply Hwf; cbn. intros k x Hx. look. by eapply wf_read_fk.
Qed.

Lemma wf_audit now ev : db_wf (insert_audit now ev d).
Proof. constructor; apply Hwf. Qed.

Lemma wf_delete_secret s : secrets d !! sr_id s = Some s → db_wf (delete_secret_row (sr_id s) d).
Proof.
  intros Hs. constructor; try apply Hwf; cbn.
  - intros k x Hx. look. by eapply wf_secret_pk.
  - intros k k' x x' Hx Hx' E. look. by eapply wf_secret_name.
  - intros k x Hx. look. by eapply wf_version_pk.
  - intros k x Hx. look. kbool. rewrite lookup_delete_ne by congruence.
    by eapply wf_version_fk.
  - intros k k' x x' Hx Hx' E1 E2. look. by eapply wf_version_number.
  - intros t Ht. apply elem_of_filter in Ht as [Hne Ht].
    rewrite lookup_delete_ne by done. by eapply wf_tag_fk.
Qed.
End WfUpdates.

Lemma live_antitone now now' g : (now ≤ now')%Z → live now' g = true → live now g = true.
Proof.
  unfold live. rewrite !andb_true_iff, !Z.ltb_lt. intros Hle [? ?]. split; [done|lia].
Qed.

Lemma uses_logged_snoc gid log r :
  uses_logged gid (log ++ [r]) = (uses_logged gid log + if logs_use gid r then 1 else 0)%Z.
Proof.
  unfold uses_logged. rewrite List.filter_app, length_app. cbn.
  destruct (logs_use gid r); cbn; lia.
Qed.
Lemma uses_logged_other gid log now ev :
  is_first_use ev = false → uses_logged gid (log ++ [mkAuditRow now ev]) = uses_logged gid log.
Proof. intros Hev. rewrite uses_logged_snoc. unfold logs_use. cbn. rewrite Hev. cbn. lia. Qed.

Lemma inv_later now now' d : inv now d → (now ≤ now')%Z → inv now' d.
Proof.
  intros Hi Hle. constructor; try apply Hi.
  intros gid g Hg Hl. eapply inv_backed; [done..|]. by eapply live_antitone.
Qed.

Section Preservation.
Context (now : DateTime) (d : Db) (Hi : inv now d).

Lemma wf : db_wf d.
Proof. apply Hi. Qed.

Lemma inv_log ev : is_first_use ev = false → inv now (insert_audit now ev d).
Proof.
  intros Hev. constructor; try apply Hi; cbn.
  - apply wf_audit, Hi.
  - intros gid g Hg. rewrite uses_logged_other by done. by eapply inv_logged.
  - intros gid Hg. rewrite uses_logged_other by done. by eapply inv_unlogged.
Qed.

Lemma inv_create r :
  access_requests d !! ar_id r = None →
  (∀ k x, access_requests d !! k = Some x →
     ar_idem_client x = ar_idem_client r → ar_idem_key x ≠ ar_idem_key r) →
  ar_state r = PENDING → ar_resolved_at r = None →
  inv now (put_request r d).
Proof.
  intros Hf Hidem Hs Hr. constructor; try apply Hi; cbn.
  - by apply wf_put_new_request; try apply wf.
  - intros k x Hx. look; [|by eapply inv_grant].
    rewrite Hs. split; [done|]. intros (gid & g & Hg & Hgr).
    destruct (wf_grant_fk _ wf _ _ Hg) as [y Hy]. congruence.
  - intros k x Hx. look; [done|]. by eapply inv_resolved.
Qed.

Lemma inv_requests f :
  (∀ k r, access_requests d !! k = Some r → request_step now r (f k r)) →
  inv now (map_requests f d).
Proof.
  intros Hf. constructor; try apply Hi; cbn.
  - apply wf_requests_imap; [apply wf|]. intros k r Hr. specialize (Hf _ _ Hr).
    split; [by destruct Hf as [[? _ _] _]|].
    apply request_step_state in Hf as [[-> _]|(_ & Hs & _)].
    + by eapply wf_request_state; [apply wf|].
    + set_solver.
  - intros k r Hr. look. rewrite <-(inv_grant _ _ Hi k) by done.
    destruct (request_step_state _ _ _ (Hf _ _ H)) as [[-> _]|(Hp & Hs & _)]; [done|].
    rewrite Hp. split; [|done]. intros E. rewrite E in Hs. set_solver.
  - intros k r Hr. look.
    destruct (request_step_state _ _ _ (Hf _ _ H)) as [[-> ->]|(Hp & Hs & ->)].
    + by eapply inv_resolved.
    + split; [|done]. intros E. rewrite E in Hs. set_solver.
Qed.

Lemma weakened_payload g g' :
  weakened g g' → g_passthrough_ciphertext g' ≠ None →
  g_passthrough_ciphertext g ≠ None ∧ g_revoked g' = g_revoked g.
Proof. by intros [-> | [-> | ->]]. Qed.

Lemma weakened_live g g' : weakened g g' → live now g' = true → live now g = true.
Proof. by intros [-> | [-> | ->]]. Qed.

Lemma inv_weaken f :
  (∀ k g, grants d !! k = Some g → weakened g (f k g)) → inv now (map_grants f d).
Proof.
  intros Hf.
  assert (Hle : ∀ k g, grants d !! k = Some g → grant_le g (f k g))
    by (intros k g Hg; by destruct (weakened_le _ _ (Hf k g Hg))).
  assert (Hid : ∀ k g, grants d !! k = Some g →
    g_request_id (f k g) = g_request_id g ∧ g_secret_name (f k g) = g_secret_name g
    ∧ g_max_uses (f k g) = g_max_uses g
    ∧ g_passthrough_ephemeral (f k g) = g_passthrough_ephemeral g
    ∧ g_use_count (f k g) = g_use_count g).
  { intros k g Hg. destruct (grant_le_identity _ _ (Hle _ _ Hg)) as (_ & ? & ? & ? & _ & ?).
    by destruct (weakened_le _ _ (Hf k g Hg)). }
  constructor; try apply Hi; cbn.
  - by apply wf_grants_imap; [apply wf|].
  - intros k r Hr. rewrite (inv_grant _ _ Hi k r Hr). split.
    + intros (gid & g & Hg & E). exists gid, (f gid g). rewrite lookup_imap_total, Hg.
      by destruct (Hid _ _ Hg) as (-> & _).
    + intros (gid & g & Hg & E). look. exists gid, x. split; [done|].
      by destruct (Hid _ _ H) as (-> & _).
  - intros gid g Hg. look. destruct (Hid _ _ H) as (_ & _ & _ & _ & ->). by eapply inv_logged.
  - intros gid Hg. eapply inv_unlogged; [done|]. rewrite lookup_imap_total in Hg.
    by destruct (grants d !! gid).
  - intros gid g m Hg. look. destruct (Hid _ _ H) as (_ & _ & -> & _ & ->).
    by eapply inv_cap.
  - intros gid g Hg Hp. look. destruct (Hid _ _ H) as (_ & _ & _ & -> & _).
    destruct (weakened_payload _ _ (Hf _ _ H) Hp) as [Hp' ->]. by eapply inv_payload.
  - intros gid g Hg Hl. look. destruct (Hid _ _ H) as (_ & -> & _ & -> & _).
    eapply (inv_backed _ _ Hi); [done|]. by eapply weakened_live; [apply Hf|].
Qed.

Lemma inv_unpin f : inv now (map_reads f d).
Proof. constructor; try apply Hi. apply wf_map_reads, wf. Qed.

Lemma inv_approve r r' g :
  access_requests d !! ar_id r = Some r → request_approved now r r' →
  grants d !! g_id g = None → g_request_id g = ar_id r → grant_fresh g →
  (g_passthrough_ephemeral g = false → names_secret d (g_secret_name g)) →
  inv now (put_grant g (put_request r' d)).
Proof.
  intros Hr (Hle & Hp & Ha & Hat) Hg Hgr Hfresh Hback.
  destruct (request_identity_eq _ _ (rle_identity _ _ Hle)) as (Hid & _).
  assert (Hnone : ∀ k x, grants d !! k = Some x → g_request_id x ≠ ar_id r).
  { intros k x Hx E. assert (ar_state r = APPROVED) as Hs by (apply (inv_grant _ _ Hi _ _ Hr); eauto).
    by rewrite Hs in Hp. }
  constructor; try apply Hi; cbn.
  - apply wf_put_new_grant; [|done| |].
    + rewrite (put_request_as_map r) by by rewrite <-Hid. apply wf_requests_imap; [apply wf|].
      intros k x Hx. destruct (decide (k = ar_id r')) as [->|Hne].
      * rewrite <-Hid, Hr in Hx. injection Hx as <-. rewrite Ha.
        split; [apply Hle|]. set_solver.
      * split; [done|]. by eapply wf_request_state; [apply wf|].
    + cbn. rewrite Hgr, Hid, lookup_insert_eq. by eexists.
    + rewrite Hgr. apply Hnone.
  - intros k x Hx. rewrite <-Hid in Hx. look.
    + rewrite Ha. split; [intros _|done]. exists (g_id g), g. by rewrite lookup_insert_eq.
    + rewrite (inv_grant _ _ Hi k x) by done. split.
      * intros (gid & g' & Hg' & E). exists gid, g'. rewrite lookup_insert_ne by congruence. done.
      * intros (gid & g' & Hg' & E). look; [congruence|]. eauto.
  - intros k x Hx. rewrite <-Hid in Hx. look; [by rewrite Ha, Hat|]. by eapply inv_resolved.
  - intros gid x Hx. look; [|by eapply inv_logged].
    rewrite (inv_unlogged _ _ Hi) by done. apply Hfresh.
  - intros gid Hx. apply lookup_insert_None in Hx as [Hx _]. by eapply inv_unlogged.
  - intros gid x m Hx Hm. look; [|by eapply inv_cap].
    rewrite (gf_count _ Hfresh). split; [lia|]. by eapply gf_max.
  - intros gid x Hx Hpl. look; [|by eapply inv_payload].
    split; [|apply Hfresh]. rewrite (gf_payload _ Hfresh).
    by destruct (g_passthrough_ciphertext x).
  - intros gid x Hx Hl He. look; [exact (Hback He)|]. exact (inv_backed _ _ Hi _ _ H0 Hl He).
Qed.

(** The grant half of a use. *)
Lemma use_le g : grant_le g (set_use_count (g_use_count g + 1) g).
Proof. constructor; cbn; auto. lia. Qed.

Definition used (g : GrantRow) (key : option string) (ver : option Uuid) : Db :=
  match key with
  | Some k => put_read (g_id g, k) (mkGrantRead ver (is_some (g_passthrough_ciphertext g)) now)
  | None => id
  end (put_grant (set_use_count (g_use_count g + 1) g) d).

Lemma used_tables g key ver :
  secrets (used g key ver) = secrets d
  ∧ secret_versions (used g key ver) = secret_versions d
  ∧ access_requests (used g key ver) = access_requests d
  ∧ audit_log (used g key ver) = audit_log d
  ∧ grants (used g key ver) = <[g_id g := set_use_count (g_use_count g + 1) g]> (grants d).
Proof. by destruct key. Qed.

Lemma wf_used g key ver :
  grants d !! g_id g = Some g → db_wf (used g key ver).
Proof.
  intros Hg.
  assert (Hw : db_wf (put_grant (set_use_count (g_use_count g + 1) g) d)).
  { rewrite (put_grant_as_map g) by done. apply wf_grants_imap; [apply wf|].
    intros k x Hx. destruct (decide _) as [->|]; [|apply grant_le_refl].
    cbn in Hx. rewrite Hg in Hx. injection Hx as <-. apply use_le. }
  destruct key as [k|]; [|done]. cbn. apply wf_put_read; [done|]. cbn.
  rewrite lookup_insert_eq. by eexists.
Qed.

Lemma inv_use g key ver ev :
  grants d !! g_id g = Some g → live now g = true → uses_left g = true →
  is_first_use ev = true → ev_grant_id ev = Some (g_id g) →
  inv now (insert_audit now ev (used g key ver)).
Proof.
  intros Hg Hl Hu Hev Hgid.
  destruct (used_tables g key ver) as (Es & Ev & Er & Ea & Eg).
  assert (Hlog : ∀ gid, uses_logged gid (audit_log (used g key ver) ++ [mkAuditRow now ev])
                        = (uses_logged gid (audit_log d) + if decide (gid = g_id g) then 1 else 0)%Z).
  { intros gid. rewrite uses_logged_snoc, Ea. unfold logs_use. cbn. rewrite Hev, Hgid. cbn.
    unfold eqb. f_equal. destruct (decide (gid = g_id g)) as [->|Hne].
    - by rewrite bool_decide_eq_true_2.
    - rewrite bool_decide_eq_false_2 by congruence. done. }
  constructor; cbn.
  - apply wf_audit. by apply wf_used.
  - rewrite Er, Eg. intros k r Hr. rewrite (inv_grant _ _ Hi k r) by done. split.
    + intros (gid & x & Hx & E). destruct (decide (g_id g = gid)) as [<-|Hne].
      * exists (g_id g), (set_use_count (g_use_count g + 1) g). rewrite lookup_insert_eq.
        split; [done|]. cbn. congruence.
      * exists gid, x. by rewrite lookup_insert_ne.
    + intros (gid & x & Hx & E). look; eauto.
  - rewrite Er. apply Hi.
  - rewrite Eg. intros gid x Hx. rewrite Hlog. look.
    + rewrite decide_True by done. cbn. rewrite (inv_logged _ _ Hi _ _ Hg). done.
    + rewrite decide_False by congruence. rewrite (inv_logged _ _ Hi _ _ H0). lia.
  - rewrite Eg. intros gid Hx. apply lookup_insert_None in Hx as [Hx Hne].
    rewrite Hlog, decide_False by congruence. rewrite (inv_unlogged _ _ Hi) by done. done.
  - rewrite Eg. intros gid x m Hx Hm. look; [|by eapply inv_cap].
    cbn in *. pose proof (inv_cap _ _ Hi _ _ _ Hg Hm). unfold uses_left in Hu.
    rewrite Hm in Hu. apply Z.ltb_lt in Hu. lia.
  - rewrite Eg. intros gid x Hx Hp. look; [|by eapply inv_payload].
    cbn in *. by eapply inv_payload.
  - unfold names_secret. cbn. rewrite Eg, Es. intros gid x Hx Hlx He. look.
    + exact (inv_backed _ _ Hi _ _ Hg Hl He).
    + exact (inv_backed _ _ Hi _ _ H0 Hlx He).
  - rewrite Es, Ev. apply Hi.
  - rewrite Es. apply Hi.
Qed.

(** Secrets: a name stays while its row does. *)
Lemma names_secret_put s name :
  (∀ x, secrets d !! sr_id s = Some x → sr_name s = sr_name x) →
  names_secret d name → names_secret (put_secret s d) name.
Proof.
  intros Hn (sid & x & Hx & <-). unfold names_secret. cbn.
  destruct (decide (sr_id s = sid)) as [<-|Hne].
  - exists (sr_id s), s. rewrite lookup_insert_eq. auto.
  - exists sid, x. by rewrite lookup_insert_ne.
Qed.

(** A new or edited row: the secret side of every secret step. *)
Lemma inv_put_secret s :
  (∀ x, secrets d !! sr_id s = Some x →
     sr_name s = sr_name x ∧ sr_current_version s = sr_current_version x) →
  (secrets d !! sr_id s = None →
     ¬ names_secret d (sr_name s) ∧ sr_current_version s = 0%Z) →
  inv now (put_secret s d).
Proof.
  intros Hold Hnew.
  assert (Hname : ∀ k x, secrets d !! k = Some x → sr_name x = sr_name s → k = sr_id s).
  { intros k x Hx E. destruct (secrets d !! sr_id s) as [y|] eqn:Hy.
    - destruct (Hold _ eq_refl) as [En _]. eapply wf_secret_name; [apply wf|done..|]. congruence.
    - destruct (Hnew eq_refl) as [Hno _]. destruct Hno. by exists k, x. }
  constructor; try apply Hi; cbn.
  - by apply wf_put_secret; [apply wf|].
  - intros gid g Hg Hl He. apply names_secret_put; [|by eapply inv_backed].
    intros x Hx. by destruct (Hold _ Hx).
  - intros sid x n Hx. look; [|by eapply inv_versions].
    destruct (secrets d !! sr_id x) as [y|] eqn:Hy.
    + destruct (Hold _ eq_refl) as [_ ->]. by eapply inv_versions.
    + destruct (Hnew eq_refl) as [_ ->]. split; [lia|].
      intros (k & v & Hv & E & _). destruct (wf_version_fk _ wf _ _ Hv) as [z Hz]. congruence.
  - intros sid x Hx. look; [|by eapply inv_version_nonneg].
    destruct (secrets d !! sr_id x) as [y|] eqn:Hy.
    + destruct (Hold _ eq_refl) as [_ ->]. by eapply inv_version_nonneg.
    + destruct (Hnew eq_refl) as [_ ->]. done.
Qed.

(** Bumping the version together with the row that carries it. *)
Lemma inv_put_version s v n :
  sr_current_version s = (n + 1)%Z → (0 ≤ n)%Z →
  (∀ x, secrets d !! sr_id s = Some x → sr_name s = sr_name x ∧ sr_current_version x = n) →
  (secrets d !! sr_id s = None → ¬ names_secret d (sr_name s) ∧ n = 0%Z) →
  version_slot_free v d → sv_secret_id v = sr_id s → sv_version v = sr_current_version s →
  inv now (put_version v (put_secret s d)).
Proof.
  intros Hcur Hn0 Hold Hnew [Hfk Hfv] Hsid Hver.
  assert (Hname : ∀ k x, secrets d !! k = Some x → sr_name x = sr_name s → k = sr_id s).
  { intros k x Hx E. destruct (secrets d !! sr_id s) as [y|] eqn:Hy.
    - destruct (Hold _ eq_refl) as [En _]. eapply wf_secret_name; [apply wf|done..|]. congruence.
    - destruct (Hnew eq_refl) as [Hno _]. destruct Hno. by exists k, x. }
  assert (Hvers : ∀ m, (1 ≤ m ≤ n)%Z ↔ ∃ k w, secret_versions d !! k = Some w
                       ∧ sv_secret_id w = sr_id s ∧ sv_version w = m).
  { intros m. destruct (secrets d !! sr_id s) as [y|] eqn:Hy.
    - destruct (Hold _ eq_refl) as [_ <-]. by eapply inv_versions.
    - destruct (Hnew eq_refl) as [_ ->]. split; [lia|].
      intros (k & w & Hw & E & _). destruct (wf_version_fk _ wf _ _ Hw) as [z Hz]. congruence. }
  constructor; try apply Hi; cbn.
  - apply wf_put_version; [by apply wf_put_secret; [apply wf|]|done|].
    cbn. rewrite Hsid, lookup_insert_eq. by eexists.
  - intros gid g Hg Hl He. refine (names_secret_put s _ _ _).
    + intros x Hx. by destruct (Hold _ Hx).
    + by eapply inv_backed.
  - intros sid x m Hx. look.
    + rewrite Hcur. split.
      * intros Hm. destruct (decide (m = n + 1)%Z) as [->|Hne].
        -- exists (sv_id v), v. rewrite lookup_insert_eq. split; [done|]. split; [done|congruence].
        -- destruct (proj1 (Hvers m) ltac:(lia)) as (k & w & Hw & E1 & E2).
           exists k, w. rewrite lookup_insert_ne by congruence. done.
      * intros (k & w & Hw & E1 & E2). look; [lia|].
        assert (1 ≤ sv_version w ≤ n)%Z by (apply Hvers; eauto). lia.
    + rewrite (inv_versions _ _ Hi sid x m) by done. split.
      * intros (k & w & Hw & E1 & E2). exists k, w. rewrite lookup_insert_ne by congruence. done.
      * intros (k & w & Hw & E1 & E2). look; [congruence|]. eauto.
  - intros sid x Hx. look; [lia|]. by eapply inv_version_nonneg.
Qed.

Lemma inv_tags t :
  (∀ x, x ∈ t → is_Some (secrets d !! x.1)) → inv now (with_secret_tags (λ _, t) d).
Proof. intros Ht. constructor; try apply Hi. constructor; try apply wf. done. Qed.

Lemma inv_delete s :
  secrets d !! sr_id s = Some s →
  inv now (with_grants (update_rows (stored_backed_live now (sr_name s)) set_revoked)
             (delete_secret_row (sr_id s) d)).
Proof.
  intros Hs. set (f := λ (_ : Uuid) g, if stored_backed_live now (sr_name s) g
                                       then set_revoked g else g).
  assert (Ef : ∀ m : gmap Uuid GrantRow,
    update_rows (stored_backed_live now (sr_name s)) set_revoked m
    = map_imap (λ k g, Some (f k g)) m).
  { intros m. apply map_eq. intros k. rewrite lookup_update_rows, lookup_imap_total. done. }
  assert (Hw : inv now (map_grants f d))
    by (apply inv_weaken; intros k g _; apply stored_backed_weakened).
  unfold with_grants. rewrite Ef.
  constructor; try apply Hw; cbn.
  - apply (wf_delete_secret (map_grants f d) (inv_wf _ _ Hw) s Hs).
  - intros gid g Hg Hl He.
    destruct (inv_backed _ _ Hw gid g Hg Hl He) as (sid & x & Hx & E).
    exists sid, x. cbn in *. split; [|done]. rewrite lookup_delete_ne; [done|].
    intros <-. rewrite Hs in Hx. injection Hx as <-. look. unfold f in *.
    destruct (stored_backed_live now (sr_name s) x) eqn:Esb.
    + by apply live_antitone with (now := now) in Hl.
    + unfold stored_backed_live in Esb. rewrite Hl, He, E, eqb_refl in Esb. done.
  - intros sid x n Hx. look. rewrite (inv_versions _ _ Hi sid x n) by done. split.
    + intros (k & v & Hv & E1 & E2). exists k, v. split; [|done]. apply lookup_delete_rows.
      split; [done|]. unfold eqb. apply bool_decide_eq_false. congruence.
    + intros (k & v & Hv & E1 & E2). look. eauto.
  - intros sid x Hx. look. by eapply inv_version_nonneg.
Qed.

Lemma inv_policies m :
  (∀ k p, m !! k = Some p → po_id p = k) → inv now (with_policies (λ _, m) d).
Proof. intros Hm. constructor; try apply Hi. constructor; try apply wf. done. Qed.
Lemma inv_clients m : inv now (with_clients (λ _, m) d).
Proof. constructor; try apply Hi. constructor; try apply wf. Qed.
End Preservation.

Lemma action_inv now d d' : inv now d → action now d d' → inv now d'.
Proof.
  intros Hi Ha. destruct Ha as [ev Hev|r H1 H2 H3 H4|f Hf|r r' g Hr Hap Hg E Hfr Hb
    |g key ver ev Hg Hl Hu Hev Hgid Hk|f Hf|f Hf|s (H1 & H2 & _) H3|s v (H1 & H2 & _) H3 H4 H5 H6
    |s s' H1 H2 H3 H4 _|s s' v H1 H2 H3 H4 _ H5 H6 H7|t Ht|s Hs|m Hm _|m].
  - by apply inv_log.
  - by apply inv_create.
  - by apply inv_requests.
  - by apply (inv_approve now d Hi r).
  - exact (inv_use now d Hi g key ver ev Hg Hl Hu Hev Hgid).
  - by apply inv_weaken.
  - by apply inv_unpin.
  - apply inv_put_secret; [done| |done]. intros x Hx. congruence.
  - apply (inv_put_version now d Hi s v 0); try done; try lia; congruence.
  - apply inv_put_secret; [done| |].
    + intros x Hx. rewrite H2, H1 in Hx. injection Hx as <-. done.
    + rewrite H2, H1. done.
  - apply (inv_put_version now d Hi s' v (sr_current_version s)); try done.
    + by eapply inv_version_nonneg.
    + intros x Hx. rewrite H2, H1 in Hx. injection Hx as <-. done.
    + rewrite H2, H1. done.
    + by rewrite H2.
  - by apply inv_tags.
  - by apply inv_delete.
  - by apply inv_policies.
  - by apply inv_clients.
Qed.

Lemma inv_empty now : inv now empty_db.
Proof.
  constructor; [apply empty_db_wf|..]; cbn; intros; try done; by simplify_map_eq.
Qed.

(** ** History: what a later state keeps of an earlier one *)
Record evolves (d d' : Db) : Prop := mk_evolves {
  ev_requests : ∀ k r, access_requests d !! k = Some r →
    ∃ r', access_requests d' !! k = Some r' ∧ request_le r r';
  ev_grants : ∀ k g, grants d !! k = Some g → ∃ g', grants d' !! k = Some g' ∧ grant_le g g';
  ev_reads : ∀ k r, grant_reads d !! k = Some r →
    ∃ r', grant_reads d' !! k = Some r' ∧ read_le r r';
  ev_audit : audit_log d `prefix_of` audit_log d'
}.

Lemma request_le_trans r1 r2 r3 : request_le r1 r2 → request_le r2 r3 → request_le r1 r3.
Proof.
  intros [H1 H2 H3] [H4 H5 H6]. constructor.
  - congruence.
  - intros Hp. rewrite (H2 Hp). apply H5. specialize (H2 Hp).
    unfold request_resolution in H2. by injection H2 as <-.
  - destruct H6 as [-> | ->]; auto.
Qed.
Lemma grant_le_trans g1 g2 g3 : grant_le g1 g2 → grant_le g2 g3 → grant_le g1 g3.
Proof.
  intros [H1 H2 H3 H4] [H5 H6 H7 H8]. constructor; [congruence|lia|auto|].
  destruct H8 as [-> | ->]; auto.
Qed.
Lemma read_le_trans r1 r2 r3 : read_le r1 r2 → read_le r2 r3 → read_le r1 r3.
Proof.
  intros (E1 & E2 & H1) (E3 & E4 & H2). repeat split; [congruence..|].
  destruct H2 as [-> | ->]; auto.
Qed.
Lemma read_le_refl r : read_le r r.
Proof. repeat split. by left. Qed.

#[export] Instance evolves_preorder : PreOrder evolves.
Proof.
  split.
  - intros d. constructor; eauto using request_le_refl, grant_le_refl, read_le_refl.
  - intros d1 d2 d3 [A1 A2 A3 A4] [B1 B2 B3 B4]. constructor.
    + intros k r Hr. destruct (A1 _ _ Hr) as (r2 & H2 & L2).
      destruct (B1 _ _ H2) as (r3 & H3 & L3). eauto using request_le_trans.
    + intros k g Hg. destruct (A2 _ _ Hg) as (g2 & H2 & L2).
      destruct (B2 _ _ H2) as (g3 & H3 & L3). eauto using grant_le_trans.
    + intros k r Hr. destruct (A3 _ _ Hr) as (r2 & H2 & L2).
      destruct (B3 _ _ H2) as (r3 & H3 & L3). eauto using read_le_trans.
    + by etrans.
Qed.

(** Evolution of one table, the others as they were. *)
Lemma evolves_requests d m :
  (∀ k r, access_requests d !! k = Some r → ∃ r', m !! k = Some r' ∧ request_le r r') →
  evolves d (with_access_requests (λ _, m) d).
Proof. intros Hm. constructor; cbn; eauto using grant_le_refl, read_le_refl. Qed.
Lemma evolves_grants d m :
  (∀ k g, grants d !! k = Some g → ∃ g', m !! k = Some g' ∧ grant_le g g') →
  evolves d (with_grants (λ _, m) d).
Proof. intros Hm. constructor; cbn; eauto using request_le_refl, read_le_refl. Qed.
Lemma evolves_reads d m :
  (∀ k r, grant_reads d !! k = Some r → ∃ r', m !! k = Some r' ∧ read_le r r') →
  evolves d (with_grant_reads (λ _, m) d).
Proof. intros Hm. constructor; cbn; eauto using request_le_refl, grant_le_refl. Qed.
Lemma evolves_audit d now ev : evolves d (insert_audit now ev d).
Proof.
  constructor; cbn; eauto using request_le_refl, grant_le_refl, read_le_refl. by eexists.
Qed.

(** Tables outside the history change freely. *)
Lemma evolves_same d d' :
  access_requests d' = access_requests d → grants d' = grants d →
  grant_reads d' = grant_reads d → audit_log d' = audit_log d → evolves d d'.
Proof.
  intros E1 E2 E3 E4. constructor; rewrite ?E1, ?E2, ?E3, ?E4;
    eauto using request_le_refl, grant_le_refl, read_le_refl.
Qed.

Lemma insert_evolves {K V} `{Countable K} (R : V → V → Prop) (m : gmap K V) k v :
  (∀ x, R x x) → (∀ x, m !! k = Some x → R x v) →
  ∀ k' x, m !! k' = Some x → ∃ x', <[k:=v]> m !! k' = Some x' ∧ R x x'.
Proof.
  intros Hr Hk k' x Hx. destruct (decide (k = k')) as [<-|Hne].
  - exists v. rewrite lookup_insert_eq. auto.
  - exists x. by rewrite lookup_insert_ne.
Qed.
Lemma imap_evolves {K V} `{Countable K} (R : V → V → Prop) (m : gmap K V) f :
  (∀ k x, m !! k = Some x → R x (f k x)) →
  ∀ k x, m !! k = Some x → ∃ x', map_imap (λ k v, Some (f k v)) m !! k = Some x' ∧ R x x'.
Proof. intros Hf k x Hx. exists (f k x). rewrite lookup_imap_total, Hx. auto. Qed.

Lemma put_grant_evolves d g :
  (∀ x, grants d !! g_id g = Some x → grant_le x g) → evolves d (put_grant g d).
Proof.
  intros Hg. apply (evolves_grants d (<[g_id g := g]> (grants d))).
  apply insert_evolves; [apply grant_le_refl|done].
Qed.
Lemma put_request_evolves d r :
  (∀ x, access_requests d !! ar_id r = Some x → request_le x r) → evolves d (put_request r d).
Proof.
  intros Hr. apply (evolves_requests d (<[ar_id r := r]> (access_requests d))).
  apply insert_evolves; [apply request_le_refl|done].
Qed.

Lemma action_evolves now d d' : action now d d' → evolves d d'.
Proof.
  intros Ha. destruct Ha as [ev Hev|r H1 H2 H3 H4|f Hf|r r' g Hr Hap Hg E Hfr Hb
    |g key ver ev Hg Hl Hu Hev Hgid Hk|f Hf|f Hf|s H1 H3|s v H1 H3 H4 H5 H6
    |s s' H1 H2 H3 H4 _|s s' v H1 H2 H3 H4 _ H5 H6 H7|t Ht|s Hs|m Hm _|m];
    try by apply evolves_same.
  - apply evolves_audit.
  - apply put_request_evolves. congruence.
  - apply (evolves_requests d (map_imap (λ k r, Some (f k r)) (access_requests d))).
    apply imap_evolves. intros k x Hx. apply (Hf k x Hx).
  - destruct Hap as (Hle & _). pose proof (rle_identity _ _ Hle) as Hid.
    apply request_identity_eq in Hid as (Hid & _).
    trans (put_request r' d).
    + apply put_request_evolves. rewrite <-Hid. congruence.
    + apply put_grant_evolves. cbn. congruence.
  - trans (put_grant (set_use_count (g_use_count g + 1) g) d).
    + apply put_grant_evolves. cbn. intros x Hx. rewrite Hg in Hx. injection Hx as <-.
      apply use_le.
    + etrans; [|apply evolves_audit]. destruct key as [k|]; [|done].
      eapply (evolves_reads _ (<[(g_id g, k) := _]> (grant_reads d))).
      apply insert_evolves; [apply read_le_refl|]. rewrite Hk by done. done.
  - apply (evolves_grants d (map_imap (λ k g, Some (f k g)) (grants d))).
    apply imap_evolves. intros k x Hx. by apply weakened_le, Hf.
  - apply (evolves_reads d (map_imap (λ k g, Some (f k g)) (grant_reads d))).
    by apply imap_evolves.
  - trans (delete_secret_row (sr_id s) d); [by apply evolves_same|].
    eapply (evolves_grants _ (update_rows _ _ (grants d))).
    intros k g Hg. cbn in Hg. eexists. rewrite lookup_update_rows, Hg. split; [done|].
    by apply weakened_le, stored_backed_weakened.
Qed.
