(* ===== verification/Refinement.v ===== *)
(** The store layer implements the lifecycle: every operation of
    [server/src/db/] (and the audited writes around it), run on any reachable
    database, commits a sequence of the steps of [Lifecycle.action].  The
    invariants and the history order then hold of every reachable database. *)

From S2P Require Import Prelude RustStr Types Json Crypto Store Requests Grants ApiExt Secrets.
From S2P Require Import UiExt Policies Clients Provision Notify Lifecycle.
Open Scope string_scope.

(** ** The operations that write *)
Inductive op :=
| OpInsertRequest (id : Uuid) (req : NewAccessRequest) (seal : SealedContext)
| OpInsertRequestWithId (id gid : Uuid) (req : NewAccessRequest) (cap : option Z)
    (res : InitialResolution.t) (seal : SealedContext)
| OpResolveApprove (gid rid : Uuid) (actor : string) (g : GrantParams)
| OpApproveRequest (vid rid : Uuid) (actor : string) (gid : Uuid) (g : GrantParams)
    (store : option StoreSecretParams)
| OpResolveDeny (rid : Uuid) (actor reason : string)
| OpExpireStale
| OpPurgeRequestContext (retention : Z)
| OpMarkPushDelivered (rid : Uuid)
| OpIncrementPushAttempts (rid : Uuid)
| OpClaimForPush (rid : Uuid)
| OpClaimForFyiPush (rid : Uuid)
| OpBeginGrantUse (gid : Uuid) (key : option string) (ver : option Uuid) (kind : string)
    (window : Z) (target : option AuditTarget)
| OpRevokeGrant (gid : Uuid) (actor : string)
| OpPurgePassthrough (gid : Uuid)
| OpSweepPassthroughs (window : Z)
| OpUnpinReads (window : Z)
| OpCreateSecret (id : Uuid) (name description : string) (tier : Z) (kind : string)
    (header : option string)
| OpInsertSecretVersion (vid sid : Uuid) (seal : Z → result CryptoError Sealed)
    (by_request : option Uuid)
| OpDeposit (vid : Uuid) (s : StoreSecretParams) (client : string) (rate : DepositRate)
| OpCreateSecretWithVersion (vid : Uuid) (s : StoreSecretParams) (actor : string)
| OpRotate (vid sid : Uuid) (name actor : string) (seal : Z → result CryptoError Sealed)
| OpMarkVetted (sid : Uuid) (version : Z) (actor : string)
| OpSetTags (sid : Uuid) (tags : list string)
| OpUpdateSettings (sid : Uuid) (s : SecretSettings) (actor : string)
| OpDeleteSecret (sid : Uuid) (version : Z) (actor : string)
| OpInsertPolicy (id : Uuid) (p : NewPolicy)
| OpDeletePolicy (id : Uuid)
| OpInsertPolicyAudited (id : Uuid) (p : NewPolicy) (actor : string)
| OpDeletePolicyAudited (id : Uuid) (actor : string)
| OpUpdatePolicyAudited (id : Uuid) (p : NewPolicy) (actor : string)
| OpReconcilePolicies (ids : nat → Uuid) (desired : list NewPolicy)
| OpReconcileClients (ids : nat → Uuid) (cs : list ClientConfig)
| OpReconcileSecret (keyset : Keyset) (r : SecretDraw) (w : DesiredSecret)
| OpRecord (ev : AuditEvent).

(** The committed tables of an operation. *)
Definition committed {A} (r : result DbError (A * Db)) : result DbError Db := snd <$> r.

Section Exec.
Context `{UuidText, Primitives}.

Definition exec (now : DateTime) (o : op) (d : Db) : result DbError Db :=
  match o with
  | OpInsertRequest id req seal => committed (insert_access_request now id req seal d)
  | OpInsertRequestWithId id gid req cap res seal =>
      committed (insert_access_request_with_id now id gid req cap res seal d)
  | OpResolveApprove gid rid actor g => committed (resolve_approve now gid rid actor g d)
  | OpApproveRequest vid rid actor gid g store =>
      committed (approve_request now vid rid actor gid g store d)
  | OpResolveDeny rid actor reason => committed (resolve_deny now rid actor reason d)
  | OpExpireStale => committed (expire_stale now d)
  | OpPurgeRequestContext n => committed (purge_request_context now n d)
  | OpMarkPushDelivered rid => committed (mark_push_delivered now rid d)
  | OpIncrementPushAttempts rid => committed (increment_push_attempts rid d)
  | OpClaimForPush rid => committed (claim_for_push now rid d)
  | OpClaimForFyiPush rid => committed (claim_for_fyi_push rid d)
  | OpBeginGrantUse gid key ver kind w target =>
      committed (begin_grant_use now gid key ver kind w target d)
  | OpRevokeGrant gid actor => committed (revoke_grant now gid actor d)
  | OpPurgePassthrough gid => committed (purge_passthrough gid d)
  | OpSweepPassthroughs w => committed (sweep_purge_passthroughs now w d)
  | OpUnpinReads w => committed (unpin_stale_grant_reads now w d)
  | OpCreateSecret id name desc tier kind header =>
      committed (create_secret now id name desc tier kind header d)
  | OpInsertSecretVersion vid sid seal by_request =>
      committed (insert_secret_version now vid sid seal by_request d)
  | OpDeposit vid s client rate => committed (create_secret_from_client now vid s client rate d)
  | OpCreateSecretWithVersion vid s actor =>
      committed (create_secret_with_version now vid s actor d)
  | OpRotate vid sid name actor seal =>
      committed (rotate_secret_version now vid sid name actor seal d)
  | OpMarkVetted sid version actor => committed (mark_secret_vetted now sid version actor d)
  | OpSetTags sid tags => committed (set_secret_tags sid tags d)
  | OpUpdateSettings sid s actor => committed (update_secret_settings_audited now sid s actor d)
  | OpDeleteSecret sid version actor => committed (delete_secret_audited now sid version actor d)
  | OpInsertPolicy id p => committed (insert_policy now id p d)
  | OpDeletePolicy id => committed (delete_policy id d)
  | OpInsertPolicyAudited id p actor => committed (insert_policy_audited now id p actor d)
  | OpDeletePolicyAudited id actor => committed (delete_policy_audited now id actor d)
  | OpUpdatePolicyAudited id p actor => committed (update_policy_audited now id p actor d)
  | OpReconcilePolicies ids desired => committed (reconcile_policies now ids desired d)
  | OpReconcileClients ids cs => committed (reconcile_clients ids cs d)
  | OpReconcileSecret keyset r w => committed (reconcile_one_secret now keyset r w d)
  | OpRecord ev => Ok (insert_audit now ev d)
  end.
End Exec.

(** What the callers guarantee of the arguments. *)
Definition grant_ok (g : GrantParams) : Prop :=
  ∀ m, gp_max_uses g = Some m → (0 ≤ m)%Z.
Definition op_ok (o : op) : Prop :=
  match o with
  | OpInsertRequestWithId _ _ _ _ (InitialResolution.Approved _ g _) _ => grant_ok g
  | OpResolveApprove _ _ _ g => grant_ok g
  | OpApproveRequest _ _ _ _ g store =>
      grant_ok g ∧ ∀ s, store = Some s → gp_passthrough g = None →
        ss_name s = gp_secret_name g
  | OpBeginGrantUse _ _ _ kind _ _ => kind = kinds.RELEASE_ATTEMPT ∨ kind = kinds.PROXY_ATTEMPT
  | OpRecord ev =>
      ev_kind ev ∈ [kinds.RELEASE_COMPLETED; kinds.PROXY_COMPLETED; kinds.SECRET_REVEALED]
  | _ => True
  end.

(** ** What a successful INSERT has checked *)
Lemma insert_secret_Ok s d d' :
  insert_secret s d = Ok d' → d' = put_secret s d ∧ secret_slot_free s d.
Proof.
  unfold insert_secret. destruct (negb _) eqn:Ek; [done|]. apply negb_false_iff in Ek.
  destruct (secrets d !! sr_id s) eqn:E; [done|]. cbn [is_some].
  destruct (exists_row _ _) eqn:En; [done|]. intros [= <-]. split; [done|]. split; [done|].
  split; [|done]. intros (k & x & Hx & Hn). rewrite exists_row_false in En. specialize (En _ _ Hx). by kbool.
Qed.

Lemma insert_secret_or_nothing_Ok s d d' :
  insert_secret_or_nothing s d = Ok (Some d') → d' = put_secret s d ∧ secret_slot_free s d.
Proof.
  unfold insert_secret_or_nothing. destruct (negb _) eqn:Ek; [done|]. apply negb_false_iff in Ek.
  destruct (exists_row _ _) eqn:En; [done|].
  destruct (secrets d !! sr_id s) eqn:E; [done|]. cbn [is_some].
  intros [= <-]. split; [done|]. split; [done|]. split; [|done].
  intros (k & x & Hx & Hn). rewrite exists_row_false in En. specialize (En _ _ Hx). by kbool.
Qed.

Lemma insert_version_row_Ok v d d' :
  insert_secret_version_row v d = Ok d' →
  d' = put_version v d ∧ version_slot_free v d ∧ is_Some (secrets d !! sv_secret_id v).
Proof.
  unfold insert_secret_version_row.
  destruct (secret_versions d !! sv_id v) eqn:E; [done|]. cbn [is_some].
  destruct (exists_row _ _) eqn:En; [done|].
  destruct (secrets d !! sv_secret_id v) eqn:Es; [|done]. intros [= <-].
  split; [done|]. split; [|by eexists]. split; [done|].
  intros k x Hx E1 E2. rewrite exists_row_false in En. specialize (En _ _ Hx). cbn in En.
  rewrite E1, E2, eqb_refl, Z.eqb_refl in En. done.
Qed.

Lemma insert_request_Ok r d d' :
  insert_request_or_nothing r d = Ok (Some d') →
  d' = put_request r d ∧ access_requests d !! ar_id r = None ∧
  ∀ k x, access_requests d !! k = Some x →
    ar_idem_client x = ar_idem_client r → ar_idem_key x ≠ ar_idem_key r.
Proof.
  unfold insert_request_or_nothing. destruct (exists_row _ _) eqn:En; [done|].
  destruct (access_requests d !! ar_id r) eqn:E; [done|]. intros [= <-].
  split; [done|]. split; [done|].
  intros k x Hx E1 E2. rewrite exists_row_false in En. specialize (En _ _ Hx). cbn in En.
  by rewrite E1, E2, !eqb_refl in En.
Qed.

Lemma insert_grant_Ok g d d' :
  insert_grant g d = Ok d' → d' = put_grant g d ∧ grants d !! g_id g = None.
Proof.
  unfold insert_grant. destruct (grants d !! g_id g) eqn:E; [done|]. cbn [is_some].
  destruct (exists_row _ _) eqn:En; [done|]. destruct (is_none _); [done|].
  by intros [= <-].
Qed.

Lemma insert_grant_read_Ok gid key r d d' :
  insert_grant_read gid key r d = Ok d' →
  d' = put_read (gid, key) r d ∧ grant_reads d !! (gid, key) = None.
Proof.
  unfold insert_grant_read. destruct (grant_reads d !! (gid, key)) eqn:E; [done|].
  cbn [is_some]. destruct (is_none _); [done|]. by intros [= <-].
Qed.

Lemma insert_tags_Ok sid tags d d' :
  insert_tags sid tags d = Ok d' →
  d' = with_secret_tags (λ s, list_to_set (map (pair sid) tags) ∪ s) d
  ∧ (tags ≠ [] → is_Some (secrets d !! sid)).
Proof.
  unfold insert_tags. destruct tags as [|t tags]; cbn [is_empty negb andb].
  - by intros [= <-].
  - destruct (secrets d !! sid) eqn:E; [|done]. intros [= <-]. by eauto.
Qed.

Lemma insert_policy_Ok p d d' :
  insert_policy_row p d = Ok d' → d' = with_policies <[po_id p := p]> d ∧ policy_checked p.
Proof.
  unfold insert_policy_row, policy_checked. destruct (negb _) eqn:Eo; [done|].
  apply negb_false_iff in Eo. destruct (_ && _); [done|].
  destruct (is_some _); [done|]. by intros [= <-].
Qed.

Lemma guarded_request_Some id guard d r :
  guarded_request id guard d = Some r → access_requests d !! id = Some r ∧ guard r = true.
Proof.
  unfold guarded_request. destruct (access_requests d !! id) as [x|]; [|done].
  destruct (guard x) eqn:E; [|done]. by intros [= <-].
Qed.

(** ** Step sequences *)
Definition steps (now : DateTime) : relation Db := rtc (action now).
#[export] Instance steps_preorder now : PreOrder (steps now) := _.

Section Steps.
Context (now : DateTime).
Implicit Types (d : Db).

Lemma steps_log d ev : is_first_use ev = false → steps now d (insert_audit now ev d).
Proof. intros Hev. by apply rtc_once, act_log. Qed.

(** Log a list of rows. *)
Lemma steps_log_each {A} (f : A → AuditEvent) l d :
  (∀ x, is_first_use (f x) = false) →
  steps now d (fold_left (λ d x, insert_audit now (f x) d) l d).
Proof.
  intros Hf. revert d. induction l as [|x l IH]; intros d; cbn; [done|].
  etrans; [by apply steps_log|apply IH].
Qed.

Lemma request_step_refl r : request_step now r r.
Proof. split; [apply request_le_refl|by left]. Qed.

Lemma steps_put_request d r r' :
  access_requests d !! ar_id r' = Some r → request_step now r r' →
  steps now d (put_request r' d).
Proof.
  intros Hr Hs. rewrite (put_request_as_map r) by done. apply rtc_once, act_requests.
  intros k x Hx. destruct (decide _) as [->|]; [|apply request_step_refl].
  rewrite Hr in Hx. by injection Hx as <-.
Qed.

Lemma steps_update_requests d (f : AccessRequestRow → bool) g :
  (∀ r, f r = true → request_step now r (g r)) →
  steps now d (with_access_requests (update_rows f g) d).
Proof.
  intros Hg.
  replace (with_access_requests (update_rows f g) d)
    with (map_requests (λ _ r, if f r then g r else r) d).
  - apply rtc_once, act_requests. intros k r Hr.
    destruct (f r) eqn:E; [by apply Hg|apply request_step_refl].
  - unfold map_requests, with_access_requests. f_equal. apply map_eq. intros k.
    by rewrite lookup_imap_total, lookup_update_rows.
Qed.

Lemma steps_alter_request d id g :
  (∀ r, request_step now r (g r)) →
  steps now d (with_access_requests (alter g id) d).
Proof.
  intros Hg.
  replace (with_access_requests (alter g id) d)
    with (map_requests (λ k r, if decide (k = id) then g r else r) d).
  - apply rtc_once, act_requests. intros k r Hr.
    destruct (decide _); [by apply Hg|apply request_step_refl].
  - unfold map_requests, with_access_requests. f_equal. apply map_eq. intros k.
    rewrite lookup_imap_total. destruct (decide (k = id)) as [->|Hne].
    + by rewrite lookup_alter_eq.
    + rewrite lookup_alter_ne by done. by destruct (_ !! k).
Qed.

Lemma weakened_refl g : weakened g g.
Proof. by left. Qed.

Lemma steps_update_grants d (f : GrantRow → bool) h :
  (∀ g, weakened g (h g)) → steps now d (with_grants (update_rows f h) d).
Proof.
  intros Hh.
  replace (with_grants (update_rows f h) d) with (map_grants (λ _ g, if f g then h g else g) d).
  - apply rtc_once, act_weaken. intros k g Hg. destruct (f g); [apply Hh|apply weakened_refl].
  - unfold map_grants, with_grants. f_equal. apply map_eq. intros k.
    by rewrite lookup_imap_total, lookup_update_rows.
Qed.

Lemma steps_put_grant d g g' :
  grants d !! g_id g' = Some g → weakened g g' → steps now d (put_grant g' d).
Proof.
  intros Hg Hw. rewrite (put_grant_as_map g) by done. apply rtc_once, act_weaken.
  intros k x Hx. destruct (decide _) as [->|]; [|apply weakened_refl].
  rewrite Hg in Hx. by injection Hx as <-.
Qed.

Lemma steps_alter_grant d id h :
  (∀ g, weakened g (h g)) → steps now d (with_grants (alter h id) d).
Proof.
  intros Hh.
  replace (with_grants (alter h id) d)
    with (map_grants (λ k g, if decide (k = id) then h g else g) d).
  - apply rtc_once, act_weaken. intros k g Hg.
    destruct (decide _); [apply Hh|apply weakened_refl].
  - unfold map_grants, with_grants. f_equal. apply map_eq. intros k.
    rewrite lookup_imap_total. destruct (decide (k = id)) as [->|Hne].
    + by rewrite lookup_alter_eq.
    + rewrite lookup_alter_ne by done. by destruct (_ !! k).
Qed.

(** Replacing the tags of one secret. *)
Lemma steps_tags d sid tags d' :
  db_wf d → insert_tags sid tags (delete_tags sid d) = Ok d' → steps now d d'.
Proof.
  intros Hwf Hi. apply insert_tags_Ok in Hi as [-> Hs]. apply rtc_once.
  apply (act_tags now d). intros t Ht. apply elem_of_union in Ht as [Ht|Ht].
  - rewrite elem_of_list_to_set, list_elem_of_In, in_map_iff in Ht. destruct Ht as (x & <- & Hx).
    apply Hs. by intros ->.
  - apply elem_of_filter in Ht as [_ Ht]. by eapply wf_tag_fk.
Qed.

(** The row a statement finds is under its own id. *)
Lemma request_at d k r : db_wf d → access_requests d !! k = Some r → ar_id r = k.
Proof. intros Hwf. apply (wf_request_pk d Hwf). Qed.
Lemma grant_at d k g : db_wf d → grants d !! k = Some g → g_id g = k.
Proof. intros Hwf. apply (wf_grant_pk d Hwf). Qed.
Lemma secret_at d k s : db_wf d → secrets d !! k = Some s → sr_id s = k.
Proof. intros Hwf. apply (wf_secret_pk d Hwf). Qed.
End Steps.

(** ** Requests *)
Section RequestSteps.
Context (now : DateTime) (d : Db) (Hwf : db_wf d).

Lemma live_pending_state r : live_pending now r = true → ar_state r = PENDING.
Proof. unfold live_pending, is_pending. intros H. by kbool. Qed.

Lemma approved_step by_ r :
  ar_state r = PENDING → request_approved now r (set_approved by_ now r).
Proof. intros Hp. repeat split; try done; cbn; auto. Qed.
Lemma denied_step reason by_ r :
  ar_state r = PENDING → request_step now r (set_denied reason by_ now r).
Proof.
  intros Hp. split; [split; try done; cbn; auto|]. right. split; [done|]. cbn.
  split; [by left|done].
Qed.
Lemma expired_step r : ar_state r = PENDING → request_step now r (set_expired now r).
Proof.
  intros Hp. split; [split; try done; cbn; auto|]. right. split; [done|]. cbn.
  split; [by right; left|done].
Qed.
Lemma push_step r del n : request_step now r (set_push del n r).
Proof. split; [split; try done; cbn; auto|by left]. Qed.
Lemma clear_step r : request_step now r (clear_context r).
Proof. split; [split; try done; cbn; auto|by left]. Qed.

Lemma same_row_names g : same_row g d = true → names_secret d (gp_secret_name g).
Proof.
  unfold same_row, secret_incarnation_exists. destruct (gp_secret_id g) as [id|]; [|done].
  destruct (secrets d !! id) as [s|] eqn:E; [|done]. intros Hn. kbool. by exists id, s.
Qed.

Lemma new_grant_fresh id rid g : grant_ok g → grant_fresh (new_grant_row id rid now g).
Proof.
  intros Hok. constructor; try done.
  cbn. by destruct (gp_passthrough g).
Qed.

(** The approving half: resolve the row and mint the grant. *)
Lemma approve_steps gid rid g r r' ev d' :
  access_requests d !! rid = Some r → request_approved now r r' →
  insert_grant (new_grant_row gid rid now g) (put_request r' d) = Ok d' →
  grant_ok g →
  (gp_passthrough g = None → names_secret d (gp_secret_name g)) →
  ev_kind ev = kinds.REQUEST_APPROVED →
  steps now d (insert_audit now ev d').
Proof.
  intros Hr Ha Hi Hok Hn Hev. apply insert_grant_Ok in Hi as [-> Hg].
  assert (Hid : ar_id r = rid) by by eapply request_at.
  eapply rtc_l.
  - apply (act_approve now d r r'); try done.
    + by rewrite Hid.
    + by apply new_grant_fresh.
    + cbn. intros He. apply Hn. by destruct (gp_passthrough g).
  - apply steps_log. unfold is_first_use. by rewrite Hev.
Qed.

Lemma resolve_approve_steps gid rid by_ g x d' :
  grant_ok g → resolve_approve now gid rid by_ g d = Ok (x, d') → steps now d d'.
Proof.
  unfold resolve_approve. intros Hok. destruct (_ && _) eqn:Hs; [by intros [= <- <-]|].
  destruct (guarded_request _ _ _) as [r|] eqn:Hr; [|by intros [= <- <-]].
  apply guarded_request_Some in Hr as [Hr Hp].
  intros (d2 & Hi & [= <- <-])%bind_Ok.
  eapply approve_steps; [done|by apply approved_step, live_pending_state|done..| |done].
  intros Hpt. rewrite Hpt in Hs. cbn in Hs. kbool. by apply same_row_names.
Qed.

Lemma resolve_deny_steps rid by_ reason x d' :
  resolve_deny now rid by_ reason d = Ok (x, d') → steps now d d'.
Proof.
  unfold resolve_deny. destruct (guarded_request _ _ _) as [r|] eqn:Hr; [|by intros [= <- <-]].
  apply guarded_request_Some in Hr as [Hr Hp]. intros [= <- <-].
  etrans; [|by apply steps_log].
  eapply steps_put_request; [cbn; erewrite request_at by done; exact Hr|].
  by apply denied_step, live_pending_state.
Qed.

Lemma expire_stale_steps x d' : expire_stale now d = Ok (x, d') → steps now d d'.
Proof.
  unfold expire_stale. intros [= <- <-].
  etrans; [|by apply (steps_log_each now expired_event)].
  apply steps_update_requests. unfold stale, is_pending. intros r Hr. kbool.
  by apply expired_step.
Qed.

Lemma new_request_facts id req seal r d1 :
  insert_request_or_nothing (new_request_row id now req seal) d = Ok (Some d1) →
  r = new_request_row id now req seal →
  steps now d d1 ∧ d1 = put_request r d.
Proof.
  intros Hi ->. apply insert_request_Ok in Hi as (-> & Hf & Hidem). split; [|done].
  by apply rtc_once, act_create.
Qed.

Lemma insert_access_request_steps id req seal x d' :
  insert_access_request now id req seal d = Ok (x, d') → steps now d d'.
Proof.
  unfold insert_access_request. intros (ctx & _ & H)%bind_Ok.
  apply bind_Ok in H as ([d1|] & Hi & H).
  - injection H as <- <-. by eapply new_request_facts.
  - by apply bind_Ok in H as (r & _ & [= <- <-]).
Qed.

Lemma bump_steps guard rid x d' :
  bump_guarded guard rid d = Ok (x, d') → steps now d d'.
Proof.
  unfold bump_guarded. destruct (guarded_request _ _ _) as [r|] eqn:Hr; [|by intros [= <- <-]].
  apply guarded_request_Some in Hr as [Hr _]. intros (n & _ & [= <- <-])%bind_Ok.
  eapply steps_put_request; [cbn; erewrite request_at by done; exact Hr|]. apply push_step.
Qed.

Lemma increment_steps rid x d' :
  increment_push_attempts rid d = Ok (x, d') → steps now d d'.
Proof.
  unfold increment_push_attempts. destruct (access_requests d !! rid) as [r|] eqn:Hr;
    [|by intros [= <- <-]].
  intros (n & _ & [= <- <-])%bind_Ok.
  eapply steps_put_request; [cbn; erewrite request_at by done; exact Hr|]. apply push_step.
Qed.
End RequestSteps.

(** The create-and-resolve transaction. *)
Section InsertSteps.
Context (now : DateTime).

Lemma apply_resolution_steps d gid req res row x d' :
  db_wf d → access_requests d !! ar_id row = Some row → ar_state row = PENDING →
  match res with InitialResolution.Approved _ g _ => grant_ok g | _ => True end →
  identity_lost res d = false →
  apply_resolution now gid req res row d = Ok (x, d') → steps now d d'.
Proof.
  intros Hwf Hr Hp Hok Hid. unfold apply_resolution. destruct res as [|reason by_|by_ g fyi].
  - by intros [= <- <-].
  - intros [= <- <-]. etrans; [|by apply steps_log].
    eapply steps_put_request; [exact Hr|]. by apply denied_step.
  - destruct (negb _); [done|]. intros (d1 & Hi & [= <- <-])%bind_Ok.
    eapply (approve_steps now d Hwf gid (ar_id row) g row); [done| |exact Hi|done| |done].
    + repeat split; try done; cbn; auto.
    + intros Hpt. cbn in Hid. rewrite Hpt in Hid. cbn in Hid. kbool. by apply same_row_names.
Qed.

Lemma insert_with_id_steps d id gid req cap res seal x d' :
  inv now d →
  match res with InitialResolution.Approved _ g _ => grant_ok g | _ => True end →
  insert_access_request_with_id now id gid req cap res seal d = Ok (x, d') → steps now d d'.
Proof.
  intros Hi Hok. unfold insert_access_request_with_id.
  destruct (identity_lost res d) eqn:Hid; [done|].
  intros (ctx & _ & H)%bind_Ok. apply bind_Ok in H as ([d1|] & Hins & H).
  - destruct (match cap with Some c => _ | None => _ end); [by injection H as <- <-|].
    apply bind_Ok in H as ([[row g'] d3] & Ha & [= <- <-]).
    destruct (new_request_facts now d id req ctx _ d1 Hins eq_refl) as [H1 ->].
    assert (Hst : steps now d (insert_audit now (created_event id req)
              (put_request (new_request_row id now req ctx) d)))
      by (etrans; [exact H1|by apply steps_log]).
    etrans; [exact Hst|]. eapply apply_resolution_steps; [| | |exact Hok| |exact Ha].
    + apply inv_wf with now. revert Hst. clear -Hi. intros Hst.
      induction Hst; eauto using action_inv.
    + cbn. by rewrite lookup_insert_eq.
    + done.
    + done.
  - by apply bind_Ok in H as (r & _ & [= <- <-]).
Qed.
End InsertSteps.

(** ** Grants *)
Section GrantSteps.
Context (now : DateTime) (d : Db) (Hwf : db_wf d).

Lemma int4_succ_Ok z n : int4_succ z = Ok n → n = (z + 1)%Z.
Proof. unfold int4_succ. destruct (_ <? _)%Z; [|done]. by intros [= <-]. Qed.

Lemma attempt_kind kind g ver target :
  kind = kinds.RELEASE_ATTEMPT ∨ kind = kinds.PROXY_ATTEMPT →
  is_first_use (use_event kind g ver target None) = true.
Proof. by intros [-> | ->]. Qed.

Lemma first_use_steps gid g key ver kind target x d' :
  kind = kinds.RELEASE_ATTEMPT ∨ kind = kinds.PROXY_ATTEMPT →
  grants d !! gid = Some g → live now g = true →
  (∀ k, key = Some k → grant_reads d !! (gid, k) = None) →
  first_use now g key ver kind target d = Ok (x, d') → steps now d d'.
Proof.
  intros Hkind Hg Hl Hk. pose proof (grant_at _ _ _ Hwf Hg) as Hid.
  unfold first_use. rewrite Hl. destruct (uses_left g) eqn:Hu; cbn [andb negb];
    [|by intros [= <- <-]].
  intros (n & Hn%int4_succ_Ok & H)%bind_Ok. subst n.
  apply bind_Ok in H as (d2 & H2 & [= <- <-]).
  eapply rtc_r; [reflexivity|].
  assert (Hd2 : d2 = match key with
         | Some k => put_read (g_id g, k)
             (mkGrantRead ver (is_some (g_passthrough_ciphertext g)) now)
         | None => id
         end (put_grant (set_use_count (g_use_count g + 1) g) d)).
  { destruct key as [k|]; [|by injection H2 as <-].
    by apply insert_grant_read_Ok in H2 as [-> _]. }
  rewrite Hd2. apply act_use; try done.
  - by rewrite Hid.
  - by apply attempt_kind.
  - by rewrite Hid.
Qed.

Lemma begin_grant_use_steps gid key ver kind w target x d' :
  kind = kinds.RELEASE_ATTEMPT ∨ kind = kinds.PROXY_ATTEMPT →
  begin_grant_use now gid key ver kind w target d = Ok (x, d') → steps now d d'.
Proof.
  intros Hkind. unfold begin_grant_use.
  destruct (grants d !! gid) as [g|] eqn:Hg; [|by intros [= <- <-]].
  destruct (live now g) eqn:Hl; cbn [negb]; [|by intros [= <- <-]].
  destruct key as [k|]; cbn [mbind option_bind].
  - destruct (grant_reads d !! (gid, k)) as [r|] eqn:Hr.
    + destruct (in_window now w r); [|by intros [= <- <-]]. intros [= <- <-].
      apply steps_log. unfold is_first_use. cbn. apply andb_false_r.
    + apply first_use_steps with gid; try done. by intros k' [= <-].
  - by apply first_use_steps with gid.
Qed.

Lemma revoke_grant_steps gid actor x d' :
  revoke_grant now gid actor d = Ok (x, d') → steps now d d'.
Proof.
  unfold revoke_grant. destruct (grants d !! gid) as [g|] eqn:Hg; [|by intros [= <- <-]].
  destruct (g_revoked g); [by intros [= <- <-]|]. intros [= <- <-].
  etrans; [|by apply steps_log].
  apply (steps_put_grant now d g (set_revoked g)); [|by right; right].
  cbn. by rewrite (grant_at _ _ _ Hwf Hg).
Qed.

Lemma sweep_steps w x d' : sweep_purge_passthroughs now w d = Ok (x, d') → steps now d d'.
Proof. intros [= <- <-]. apply steps_update_grants. intros g. by right; left. Qed.

Lemma unpin_steps w x d' : unpin_stale_grant_reads now w d = Ok (x, d') → steps now d d'.
Proof.
  intros [= <- <-].
  replace (with_grant_reads (update_rows (unpinnable now w) unpin) d)
    with (map_reads (λ _ r, if unpinnable now w r then unpin r else r) d).
  - apply rtc_once, act_unpin. intros k r _. destruct (unpinnable now w r).
    + repeat split. by right.
    + apply read_le_refl.
  - unfold map_reads, with_grant_reads. f_equal. apply map_eq. intros k.
    by rewrite lookup_imap_total, lookup_update_rows.
Qed.
End GrantSteps.

(** ** Secrets *)
Section SecretSteps.
Context (now : DateTime) (d : Db) (Hwf : db_wf d).

(** A new secret with its first version, in the order the code inserts them. *)
Lemma new_secret_steps s v d1 :
  secret_slot_free s d → sr_current_version s = 1%Z → sv_version v = 1%Z →
  sv_secret_id v = sr_id s →
  insert_secret_version_row v (put_secret s d) = Ok d1 → steps now d d1.
Proof.
  intros Hs Hc Hv Hid Hi. apply insert_version_row_Ok in Hi as (-> & [Hf1 Hf2] & _).
  by apply rtc_once, act_secret_new.
Qed.

Lemma bump_version_steps s s' v d1 :
  secrets d !! sr_id s = Some s → sr_id s' = sr_id s → sr_name s' = sr_name s →
  sr_current_version s' = (sr_current_version s + 1)%Z → kind_checked s s' →
  sv_version v = sr_current_version s' → sv_secret_id v = sr_id s →
  insert_secret_version_row v (put_secret s' d) = Ok d1 → steps now d d1.
Proof.
  intros Hs Hid Hn Hc Hk Hv Hsid Hi. apply insert_version_row_Ok in Hi as (-> & [Hf1 Hf2] & _).
  by apply rtc_once, (act_secret_version now d s).
Qed.

Lemma edit_steps s s' :
  secrets d !! sr_id s = Some s → sr_id s' = sr_id s → sr_name s' = sr_name s →
  sr_current_version s' = sr_current_version s → kind_checked s s' → steps now d (put_secret s' d).
Proof. intros. by apply rtc_once, (act_secret_edit now d s). Qed.

Lemma create_secret_steps id name desc tier kind header x d' :
  create_secret now id name desc tier kind header d = Ok (x, d') → steps now d d'.
Proof.
  unfold create_secret. intros (d1 & Hi & [= <- <-])%bind_Ok.
  apply insert_secret_Ok in Hi as [-> Hs]. by apply rtc_once, act_secret_empty.
Qed.

Lemma insert_secret_version_steps vid sid seal req x d' :
  insert_secret_version now vid sid seal req d = Ok (x, d') → steps now d d'.
Proof.
  unfold insert_secret_version. destruct (secrets d !! sid) as [s|] eqn:Hs; [|done].
  pose proof (secret_at _ _ _ Hwf Hs) as Hid.
  intros (n & Hn%int4_succ_Ok & H)%bind_Ok. apply bind_Ok in H as (sealed & _ & H).
  apply bind_Ok in H as (d2 & Hi & [= <- <-]).
  eapply (bump_version_steps s); [by rewrite Hid| | | | | | |exact Hi]; by try intros ?.
Qed.

Lemma deposit_steps vid s client rate x d' :
  create_secret_from_client now vid s client rate d = Ok (x, d') → steps now d d'.
Proof.
  unfold create_secret_from_client. destruct (_ <=? _)%Z; [by intros [= <- <-]|].
  intros ([d1|] & Hi & H)%bind_Ok; [|by injection H as <- <-].
  apply insert_secret_or_nothing_Ok in Hi as [-> Hs].
  apply bind_Ok in H as (sealed & _ & (d2 & Hv & [= <- <-])%bind_Ok).
  etrans; [|by apply steps_log].
  by eapply new_secret_steps; [exact Hs| | | |exact Hv].
Qed.

Lemma create_with_version_steps vid s actor x d' :
  create_secret_with_version now vid s actor d = Ok (x, d') → steps now d d'.
Proof.
  unfold create_secret_with_version. intros (sealed & _ & H)%bind_Ok.
  apply bind_Ok in H as ([d1|] & Hi & H); [|by injection H as <- <-].
  apply insert_secret_or_nothing_Ok in Hi as [-> Hs].
  apply bind_Ok in H as (d2 & Hv & [= <- <-]).
  etrans; [|by apply steps_log].
  by eapply new_secret_steps; [exact Hs| | | |exact Hv].
Qed.

Lemma rotate_steps vid sid name actor seal x d' :
  rotate_secret_version now vid sid name actor seal d = Ok (x, d') → steps now d d'.
Proof.
  unfold rotate_secret_version. destruct (secrets d !! sid) as [s|] eqn:Hs;
    [|by intros [= <- <-]].
  pose proof (secret_at _ _ _ Hwf Hs) as Hid.
  intros (n & Hn%int4_succ_Ok & H)%bind_Ok. apply bind_Ok in H as (sealed & _ & H).
  apply bind_Ok in H as (d2 & Hi & [= <- <-]).
  etrans; [|by apply steps_log].
  eapply (bump_version_steps s); [by rewrite Hid| | | | | | |exact Hi]; by try intros ?.
Qed.

Lemma vetted_steps sid version actor x d' :
  mark_secret_vetted now sid version actor d = Ok (x, d') → steps now d d'.
Proof.
  unfold mark_secret_vetted. destruct (secrets d !! sid) as [s|] eqn:Hs; [|by intros [= <- <-]].
  destruct (_ && _); [|by intros [= <- <-]]. intros [= <- <-].
  etrans; [|by apply steps_log].
  apply (edit_steps s); [|done|done|done|by intros ?]. by rewrite (secret_at _ _ _ Hwf Hs).
Qed.

Lemma set_tags_steps sid tags x d' :
  set_secret_tags sid tags d = Ok (x, d') → steps now d d'.
Proof. intros (d1 & Hi & [= <- <-])%bind_Ok. by eapply steps_tags. Qed.

Lemma db_wf_edit s s' :
  secrets d !! sr_id s = Some s → sr_id s' = sr_id s → sr_name s' = sr_name s →
  db_wf (put_secret s' d).
Proof.
  intros Hs Hid Hn. apply wf_put_secret; [done|]. intros k x Hx E.
  rewrite Hid. eapply wf_secret_name; [done..|]. congruence.
Qed.

Lemma update_settings_steps sid s actor x d' :
  update_secret_settings_audited now sid s actor d = Ok (x, d') → steps now d d'.
Proof.
  unfold update_secret_settings_audited.
  destruct (secrets d !! sid) as [prev|] eqn:Hs; [|by intros [= <- <-]].
  pose proof (secret_at _ _ _ Hwf Hs) as Hid.
  destruct (sr_managed_by_config prev); [by intros [= <- <-]|].
  destruct (negb (valid_injection_kind _)) eqn:Ek; [done|]. apply negb_false_iff in Ek.
  intros (d2 & Hi & [= <- <-])%bind_Ok.
  assert (Hs' : secrets d !! sr_id prev = Some prev) by by rewrite Hid.
  etrans; [|by apply steps_log].
  etrans; [by apply (edit_steps prev (apply_settings now s prev)); try intros _|].
  eapply steps_tags; [|exact Hi]. by eapply db_wf_edit.
Qed.

Lemma delete_secret_steps sid version actor x d' :
  delete_secret_audited now sid version actor d = Ok (x, d') → steps now d d'.
Proof.
  unfold delete_secret_audited. destruct (secrets d !! sid) as [s|] eqn:Hs;
    [|by intros [= <- <-]].
  destruct (negb _); [by intros [= <- <-]|]. intros [= <- <-].
  etrans; [|by apply steps_log].
  etrans; [|by apply (steps_log_each now (λ g, revoked_event g actor (Some deleted_detail)))].
  rewrite <-(secret_at _ _ _ Hwf Hs). apply rtc_once, act_secret_delete.
  by rewrite (secret_at _ _ _ Hwf Hs).
Qed.

(** ** The operator's approval, with or without storing a secret *)
Lemma approve_request_steps vid rid by_ gid g store x d' :
  grant_ok g →
  (∀ s, store = Some s → gp_passthrough g = None → ss_name s = gp_secret_name g) →
  approve_request now vid rid by_ gid g store d = Ok (x, d') → steps now d d'.
Proof.
  intros Hok Hname. unfold approve_request. destruct (_ && _) eqn:Hsame; [by intros [= <- <-]|].
  destruct (guarded_request _ _ _) as [r|] eqn:Hr; [|by intros [= <- <-]].
  apply guarded_request_Some in Hr as [Hr Hp]. kbool. apply live_pending_state in H.
  intros ([d2|] & Hst & H2)%bind_Ok; [|by injection H2 as <- <-].
  apply bind_Ok in H2 as (d3 & Hi & [= <- <-]).
  unfold store_with_approval in Hst. destruct store as [s|].
  - apply bind_Ok in Hst as (sealed & _ & ([d1|] & Hs & Hst)%bind_Ok); [|done].
    apply insert_secret_or_nothing_Ok in Hs as [-> Hs].
    apply bind_Ok in Hst as (d1 & Hv & [= <-]).
    set (v := version_row vid (ss_secret_id s) 1 sealed now (Some rid)) in *.
    apply insert_version_row_Ok in Hv as (-> & Hvf & _).
    set (srow := new_secret_row now s true) in *.
    set (da := insert_audit now (secret_created_event (Some rid) (ss_name s) by_)
                 (put_version v (put_secret srow d))).
    assert (Hda : steps now d da).
    { etrans; [|by apply steps_log]. apply rtc_once.
      by apply (act_secret_new now d srow v Hs eq_refl Hvf). }
    etrans; [exact Hda|].
    eapply (approve_steps now da); [|exact Hr|by apply approved_step|exact Hi|done| |done].
    + apply wf_audit, wf_put_version; [|exact Hvf|].
      * apply wf_put_secret; [done|]. intros k y Hy E. destruct Hs as (_ & Hs & _).
        destruct Hs. by exists k, y.
      * cbn. rewrite lookup_insert_eq. by eexists.
    + intros Hpt. exists (ss_secret_id s), srow. cbn. rewrite lookup_insert_eq.
      split; [done|]. by apply Hname.
  - injection Hst as <-.
    eapply approve_steps; [done|exact Hr|by apply approved_step|exact Hi|done| |done].
    intros Hpt. rewrite Hpt in Hsame. cbn in Hsame. kbool. by apply same_row_names.
Qed.
End SecretSteps.

(** The invariant along a sequence of steps. *)
Lemma steps_inv now d d' : inv now d → steps now d d' → inv now d'.
Proof. intros Hi Hs. induction Hs; eauto using action_inv. Qed.
Lemma steps_evolves now d d' : steps now d d' → evolves d d'.
Proof. induction 1 as [|x y z Hxy _ IH]; [done|]. etrans; [by eapply action_evolves|done]. Qed.

(** ** Policies and clients *)
Section ConfigSteps.
Context `{UuidText, Primitives} (now : DateTime).

Lemma policy_event_other kind c s actor id rest :
  kind ∈ [kinds.POLICY_CREATED; kinds.POLICY_DELETED; kinds.POLICY_UPDATED] →
  is_first_use (policy_event kind c s actor id rest) = false.
Proof.
  intros Hk. unfold is_first_use, policy_event. cbn.
  repeat (apply elem_of_cons in Hk as [-> |Hk]; [done|]). by apply elem_of_nil in Hk.
Qed.

Lemma insert_policy_steps d p d1 :
  db_wf d → insert_policy_row p d = Ok d1 → steps now d d1.
Proof.
  intros Hwf Hi. apply insert_policy_Ok in Hi as [-> Hc].
  apply rtc_once, (act_policies now d (<[po_id p := p]> (policies d))); intros k q Hq; look.
  - done.
  - by eapply wf_policy_pk.
  - by right.
  - by left.
Qed.
Lemma delete_policy_steps d id : db_wf d → steps now d (with_policies (delete id) d).
Proof.
  intros Hwf. apply rtc_once, (act_policies now d (delete id (policies d))); intros k q Hq; look.
  - by eapply wf_policy_pk.
  - by left.
Qed.

Lemma update_policy_steps d id p actor x d' :
  db_wf d → update_policy_audited now id p actor d = Ok (x, d') → steps now d d'.
Proof.
  intros Hwf. unfold update_policy_audited.
  destruct (policies d !! id) as [r|] eqn:Hr; [|by intros [= <- <-]].
  destruct (po_managed_by_config r); [by intros [= <- <-]|].
  destruct (negb _) eqn:Eo; [done|]. destruct (_ && _) eqn:Et; [done|]. intros [= <- <-].
  etrans; [|apply steps_log, policy_event_other; by right; right; left].
  apply negb_false_iff in Eo.
  apply rtc_once, (act_policies now d (<[id := update_policy_row p r]> (policies d)));
    intros k q Hq; look; cbn.
  - by eapply wf_policy_pk.
  - by eapply wf_policy_pk.
  - by right.
  - by left.
Qed.

Lemma drop_unwanted_steps existing wanted d n wanted' d' n' :
  inv now d → drop_unwanted now existing wanted d n = (wanted', d', n') → steps now d d'.
Proof.
  revert wanted d n. induction existing as [|r l IH]; intros wanted d n Hi; cbn.
  - by intros [= _ <- _].
  - destruct (position _ _) as [i|]; [by apply IH|].
    set (d1 := insert_audit now _ _). intros Hd.
    assert (H1 : steps now d d1).
    { etrans; [|apply steps_log, policy_event_other; by right; left].
      apply delete_policy_steps, Hi. }
    etrans; [exact H1|]. eapply IH; [|exact Hd]. by eapply steps_inv.
Qed.

Lemma insert_wanted_steps ids wanted d d' :
  inv now d → insert_wanted now ids wanted d = Ok d' → steps now d d'.
Proof.
  revert ids d. induction wanted as [|[k p] l IH]; intros ids d Hi; cbn.
  - by intros [= <-].
  - intros (d1 & Hp & Hd)%bind_Ok.
    match type of Hd with insert_wanted _ _ _ ?d2 = _ => assert (H1 : steps now d d2) end.
    { etrans; [|apply steps_log, policy_event_other; by left].
      eapply insert_policy_steps; [apply Hi|exact Hp]. }
    etrans; [exact H1|]. eapply IH; [|exact Hd]. by eapply steps_inv.
Qed.

Lemma reconcile_policies_steps ids desired d x d' :
  inv now d → reconcile_policies now ids desired d = Ok (x, d') → steps now d d'.
Proof.
  intros Hi. unfold reconcile_policies. destruct (drop_unwanted _ _ _ _ _) as [[w d1] n] eqn:Hd.
  intros (d2 & Hw & [= <- <-])%bind_Ok.
  pose proof (drop_unwanted_steps _ _ _ _ _ _ _ Hi Hd) as H1.
  etrans; [exact H1|]. eapply insert_wanted_steps; [|exact Hw]. by eapply steps_inv.
Qed.

Lemma clients_steps d f : steps now d (with_clients f d).
Proof. by apply rtc_once, (act_clients now d (f (clients d))). Qed.

Lemma upsert_clients_steps ids cs d d' :
  upsert_clients ids cs d = Ok d' → steps now d d'.
Proof.
  revert ids d. induction cs as [|c cs IH]; intros ids d; cbn; [by intros [= <-]|].
  intros (d1 & Hu & Hd)%bind_Ok. etrans; [|by eapply IH].
  unfold upsert_client in Hu. destruct (_ && _); [done|]. destruct (exists_row _ _); [done|].
  injection Hu as <-. apply clients_steps.
Qed.

Lemma reconcile_clients_steps ids cs d x d' :
  reconcile_clients ids cs d = Ok (x, d') → steps now d d'.
Proof.
  unfold reconcile_clients. intros (d3 & Hu & [= <- <-])%bind_Ok.
  etrans; [|by eapply upsert_clients_steps].
  etrans; [apply clients_steps|apply clients_steps].
Qed.

(** ** Provisioned secrets *)
Lemma insert_version_Ok keyset r sid n value d d' :
  insert_version now keyset r sid n value d = Ok d' →
  ∃ v, insert_secret_version_row v d = Ok d' ∧ sv_secret_id v = sid ∧ sv_version v = n.
Proof.
  unfold insert_version. intros (sealed & _ & Hi)%bind_Ok. by eexists.
Qed.

Lemma sync_metadata_steps row w tags d d' :
  db_wf d → secrets d !! sr_id row = Some row → ds_name w = sr_name row →
  sync_metadata now row w tags d = Ok d' → steps now d d'.
Proof.
  intros Hwf Hr Hn. unfold sync_metadata. destruct (negb _) eqn:Ek; [done|]. apply negb_false_iff in Ek.
  intros (d1 & Ht & [= <-])%bind_Ok.
  etrans; [|by apply steps_log].
  etrans; [by apply (edit_steps now d row (adopt now w row)); try intros _|].
  eapply steps_tags; [|exact Ht]. by eapply db_wf_edit.
Qed.

Lemma rotate_in_steps keyset r row w d d' :
  db_wf d → rotate_in now keyset r row w d = Ok d' → steps now d d'.
Proof.
  intros Hwf. unfold rotate_in. intros (s & Hs%ok_or_Ok & H1)%bind_Ok.
  pose proof (secret_at _ _ _ Hwf Hs) as Hid.
  apply bind_Ok in H1 as (n & Hn%int4_succ_Ok & H1).
  apply bind_Ok in H1 as (d1 & Hv & [= <-]).
  apply insert_version_Ok in Hv as (v & Hv & E1 & E2).
  etrans; [|by apply steps_log].
  eapply (bump_version_steps now d s); [by rewrite Hid| | | | | | |exact Hv]; try (cbn; congruence); by intros ?.
Qed.

Lemma get_secret_by_name_Some name d row :
  db_wf d → get_secret_by_name name d = Some row →
  secrets d !! sr_id row = Some row ∧ sr_name row = name.
Proof.
  intros Hwf Hf. apply find_row_Some in Hf as [[k Hk] Hn]. kbool.
  by rewrite (secret_at _ _ _ Hwf Hk).
Qed.

Lemma reconcile_one_secret_steps keyset r w d x d' :
  inv now d → reconcile_one_secret now keyset r w d = Ok (x, d') → steps now d d'.
Proof.
  intros Hi. unfold reconcile_one_secret.
  destruct (get_secret_by_name (ds_name w) d) as [row|] eqn:Hrow.
  - apply get_secret_by_name_Some in Hrow as [Hr Hn]; [|apply Hi].
    intros (d1 & Hm & H1)%bind_Ok. apply bind_Ok in H1 as (same & _ & H1).
    apply bind_Ok in H1 as (d2 & Hrot & [= <- <-]).
    assert (Hs : steps now d d1).
    { destruct (metadata_differs _ _ _ _); [|by injection Hm as <-].
      eapply sync_metadata_steps; [apply Hi|done|done|exact Hm]. }
    etrans; [exact Hs|]. destruct (negb same); [|by injection Hrot as <-].
    eapply rotate_in_steps; [|exact Hrot]. eapply inv_wf, steps_inv; [exact Hi|exact Hs].
  - intros (d1 & Hs & H1)%bind_Ok. apply bind_Ok in H1 as (d2 & Hv & H1).
    apply bind_Ok in H1 as (d3 & Ht & [= <- <-]).
    apply insert_secret_Ok in Hs as [-> Hs].
    apply insert_version_Ok in Hv as (v & Hv & E1 & E2).
    assert (H2 : steps now d d2).
    { eapply (new_secret_steps now d); [exact Hs| | | |exact Hv]; done. }
    etrans; [exact H2|]. etrans; [|by apply steps_log].
    eapply steps_tags; [|exact Ht]. eapply inv_wf, steps_inv; [exact Hi|exact H2].
Qed.
End ConfigSteps.

(** ** Every operation refines the lifecycle *)
Section Refine.
Context `{UuidText, Primitives}.

Lemma committed_Ok {A} (r : result DbError (A * Db)) d' :
  committed r = Ok d' → ∃ x, r = Ok (x, d').
Proof. destruct r as [[x d'']|]; cbn; [|done]. intros [= <-]. by exists x. Qed.

Lemma record_other ev :
  ev_kind ev ∈ [kinds.RELEASE_COMPLETED; kinds.PROXY_COMPLETED; kinds.SECRET_REVEALED] →
  is_first_use ev = false.
Proof.
  intros Hk. unfold is_first_use.
  repeat (apply elem_of_cons in Hk as [-> |Hk]; [done|]). by apply elem_of_nil in Hk.
Qed.

Lemma exec_steps now o d d' :
  inv now d → op_ok o → exec now o d = Ok d' → steps now d d'.
Proof.
  intros Hi Hok Hex. pose proof (inv_wf _ _ Hi) as Hwf.
  destruct o; cbn [exec op_ok] in *;
    try (apply committed_Ok in Hex as [x Hex]).
  - by eapply insert_access_request_steps.
  - by eapply insert_with_id_steps.
  - by eapply resolve_approve_steps.
  - destruct Hok. by eapply approve_request_steps.
  - by eapply resolve_deny_steps.
  - by eapply expire_stale_steps.
  - injection Hex as <- <-. apply steps_update_requests. intros r _. apply clear_step.
  - injection Hex as <- <-. apply steps_alter_request. intros r. apply push_step.
  - by eapply increment_steps.
  - by eapply bump_steps.
  - by eapply bump_steps.
  - by eapply begin_grant_use_steps.
  - by eapply revoke_grant_steps.
  - injection Hex as <- <-. apply steps_alter_grant. intros g. by right; left.
  - by eapply sweep_steps.
  - by eapply unpin_steps.
  - by eapply create_secret_steps.
  - by eapply insert_secret_version_steps.
  - by eapply deposit_steps.
  - by eapply create_with_version_steps.
  - by eapply rotate_steps.
  - by eapply vetted_steps.
  - by eapply set_tags_steps.
  - by eapply update_settings_steps.
  - by eapply delete_secret_steps.
  - apply bind_Ok in Hex as (d1 & Hp & [= <- <-]). by eapply insert_policy_steps.
  - injection Hex as <- <-. by apply delete_policy_steps.
  - apply bind_Ok in Hex as (d1 & Hp & [= <- <-]).
    etrans; [|apply steps_log, policy_event_other; by left]. by eapply insert_policy_steps.
  - unfold delete_policy_audited in Hex. destruct (policies d !! id); [|by injection Hex as <- <-].
    injection Hex as <- <-. etrans; [|apply steps_log, policy_event_other; by right; left].
    by apply delete_policy_steps.
  - by eapply update_policy_steps.
  - by eapply reconcile_policies_steps.
  - by eapply reconcile_clients_steps.
  - by eapply reconcile_one_secret_steps.
  - injection Hex as <-. by apply steps_log, record_other.
Qed.
End Refine.
