(* ===== verification/Safety.v ===== *)
(** What the store guarantees over its whole life: the states a server can
    bring a database into from the empty one, on a clock that does not run
    backwards, and the properties of all of them and of their histories. *)

From S2P Require Import Prelude RustStr Types Json Crypto Examples Store Requests Grants ApiExt.
From S2P Require Import Secrets UiExt Policies Clients Provision Notify Lifecycle Refinement.
Open Scope string_scope.

(** ** Worlds *)
Section Worlds.
Context `{UuidText, Primitives}.

(** The database and its clock; an operation that errs changes nothing. *)
Definition World : Type := DateTime * Db.
Definition world_step (w w' : World) : Prop :=
  (w.1 ≤ w'.1)%Z ∧ ∃ o, op_ok o ∧ exec w'.1 o w.2 = Ok w'.2.
Definition later : relation World := rtc world_step.
Definition world_init (w : World) : Prop := w.2 = empty_db.
Definition world_reachable (w : World) : Prop := reachable world_init world_step w.

Lemma world_step_inv w w' : inv w.1 w.2 → world_step w w' → inv w'.1 w'.2.
Proof.
  destruct w as [t d], w' as [t' d']. cbn. intros Hi (Hle & o & Hok & Hex).
  pose proof (inv_later _ _ _ Hi Hle) as Hi'.
  eapply steps_inv; [exact Hi'|]. by eapply exec_steps.
Qed.

Lemma world_inv w : world_reachable w → inv w.1 w.2.
Proof.
  apply (reachable_invariant world_init world_step (λ w, inv w.1 w.2)).
  - intros [t d]. unfold world_init. cbn. intros ->. apply inv_empty.
  - intros x y. apply world_step_inv.
Qed.

Lemma later_inv w w' : inv w.1 w.2 → later w w' → inv w'.1 w'.2.
Proof. intros Hi Hl. induction Hl; eauto using world_step_inv. Qed.

Lemma later_evolves w w' : inv w.1 w.2 → later w w' → evolves w.2 w'.2.
Proof.
  intros Hi Hl. induction Hl as [|x y z Hxy _ IH]; [done|].
  etrans; [|apply IH; by eapply world_step_inv].
  destruct x as [t d], y as [t' d']. destruct Hxy as (Hle & o & Hok & Hex). cbn in *.
  eapply steps_evolves, exec_steps; [|done|exact Hex]. by eapply inv_later.
Qed.

Lemma later_clock w w' : later w w' → (w.1 ≤ w'.1)%Z.
Proof. induction 1 as [|x y z (Hle & _) _ IH]; lia. Qed.

(** One operation, run on a reachable world. *)
Lemma exec_inv w o d' : inv w.1 w.2 → op_ok o → exec w.1 o w.2 = Ok d' → inv w.1 d'.
Proof. intros Hi Hok Hex. eapply steps_inv; [exact Hi|]. by eapply exec_steps. Qed.
Lemma committed_eq {A} (r : result DbError (A * Db)) x d' :
  r = Ok (x, d') → committed r = Ok d'.
Proof. by intros ->. Qed.
Lemma exec_later t d t' o d' :
  (t ≤ t')%Z → op_ok o → exec t' o d = Ok d' → later (t, d) (t', d').
Proof. intros Hle Hok Hex. apply rtc_once. split; [done|]. by exists o. Qed.

Lemma reachable_later w w' : world_reachable w → later w w' → world_reachable w'.
Proof. intros (w0 & Hw0 & Hr) Hl. exists w0. split; [done|]. by etrans. Qed.
End Worlds.

(** ** The branches of a grant use *)
Section GrantUseSpec.
Context (now : DateTime) (gid : Uuid) (key : option string) (ver : option Uuid)
  (kind : string) (window : Z) (target : option AuditTarget) (d : Db).

(** The replay row of this key, if it was seen. *)
Definition prior_read : option GrantRead := k ← key; grant_reads d !! (gid, k).

(** A use in words: which outcome, and what is committed with it. *)
Inductive use_outcome : GrantUse.t → Db → Prop :=
| use_not_found : grants d !! gid = None → use_outcome GrantUse.NotFound d
| use_dead g :
    grants d !! gid = Some g → g_revoked g = true ∨ (g_not_after g ≤ now)%Z →
    use_outcome GrantUse.ExpiredOrRevoked d
| use_burned g r :
    grants d !! gid = Some g → g_revoked g = false → (now < g_not_after g)%Z →
    prior_read = Some r → (gr_first_read_at r ≤ now - seconds window)%Z →
    use_outcome GrantUse.Exhausted d
| use_replay g r :
    grants d !! gid = Some g → g_revoked g = false → (now < g_not_after g)%Z →
    prior_read = Some r → (now - seconds window < gr_first_read_at r)%Z →
    use_outcome (GrantUse.Replay g (gr_secret_version_id r) (gr_passthrough r))
      (insert_audit now (use_event kind g (gr_secret_version_id r) target (Some replay_detail)) d)
| use_exhausted g m :
    grants d !! gid = Some g → g_revoked g = false → (now < g_not_after g)%Z →
    prior_read = None → g_max_uses g = Some m → (m ≤ g_use_count g)%Z →
    use_outcome GrantUse.Exhausted d
| use_first g d1 d2 :
    grants d !! gid = Some g → g_revoked g = false → (now < g_not_after g)%Z →
    prior_read = None → (∀ m, g_max_uses g = Some m → (g_use_count g < m)%Z) →
    d1 = with_grants <[gid := set_use_count (g_use_count g + 1) g]> d →
    d2 = match key with
         | Some k => with_grant_reads
             <[(gid, k) := mkGrantRead ver (is_some (g_passthrough_ciphertext g)) now]> d1
         | None => d1
         end →
    use_outcome (GrantUse.FirstUse (set_use_count (g_use_count g + 1) g))
      (insert_audit now (use_event kind g ver target None) d2).

Lemma live_true g : live now g = true ↔ g_revoked g = false ∧ (now < g_not_after g)%Z.
Proof. unfold live. rewrite andb_true_iff, negb_true_iff, Z.ltb_lt. done. Qed.
Lemma live_false g : live now g = false → g_revoked g = true ∨ (g_not_after g ≤ now)%Z.
Proof.
  unfold live. rewrite andb_false_iff, negb_false_iff, Z.ltb_ge. done.
Qed.
Lemma uses_left_false g :
  uses_left g = false → ∃ m, g_max_uses g = Some m ∧ (m ≤ g_use_count g)%Z.
Proof.
  unfold uses_left. destruct (g_max_uses g) as [m|]; [|done]. rewrite Z.ltb_ge. eauto.
Qed.
Lemma uses_left_true g :
  uses_left g = true → ∀ m, g_max_uses g = Some m → (g_use_count g < m)%Z.
Proof. unfold uses_left. intros Hu m Hm. rewrite Hm in Hu. by apply Z.ltb_lt. Qed.

Lemma begin_grant_use_outcome u d' :
  db_wf d → begin_grant_use now gid key ver kind window target d = Ok (u, d') →
  use_outcome u d'.
Proof.
  intros Hwf. unfold begin_grant_use.
  destruct (grants d !! gid) as [g|] eqn:Hg; [|intros [= <- <-]; by constructor].
  pose proof (grant_at _ _ _ Hwf Hg) as Hid.
  destruct (live now g) eqn:Hl; cbn [negb];
    [|intros [= <- <-]; by eapply use_dead, live_false].
  apply live_true in Hl as Hlive. destruct Hlive as [Hr Ht].
  fold prior_read. destruct prior_read as [r|] eqn:Hp.
  - unfold in_window. destruct (_ <? _)%Z eqn:Hw; intros [= <- <-].
    + apply (use_replay g r); try done. by apply Z.ltb_lt.
    + apply (use_burned g r); try done. by apply Z.ltb_ge.
  - unfold first_use. rewrite Hl. destruct (uses_left g) eqn:Hu; cbn [andb negb].
    2:{ intros [= <- <-]. apply uses_left_false in Hu as (m & Hm & Hc).
        by eapply use_exhausted. }
    intros (n & Hn%int4_succ_Ok & H)%bind_Ok. subst n.
    apply bind_Ok in H as (d2 & H2 & [= <- <-]).
    change (use_event kind (set_use_count (g_use_count g + 1) g) ver target None)
      with (use_event kind g ver target None).
    eapply use_first; [exact Hg|done|done|done|by apply uses_left_true|reflexivity|].
    cbn [g_id set_use_count] in H2. rewrite Hid in H2.
    destruct key as [k|]; [|by injection H2 as <-].
    by apply insert_grant_read_Ok in H2 as [-> _].
Qed.

(** It only errs when the counter of an uncapped grant is at the int4 limit. *)
Lemma begin_grant_use_total :
  db_wf d →
  (∀ g, grants d !! gid = Some g → (g_use_count g < i32_MAX)%Z) →
  ∃ u d', begin_grant_use now gid key ver kind window target d = Ok (u, d').
Proof.
  intros Hwf Hn. unfold begin_grant_use.
  destruct (grants d !! gid) as [g|] eqn:Hg; [|by eexists _, _].
  pose proof (grant_at _ _ _ Hwf Hg) as Hid.
  destruct (negb (live now g)); [by eexists _, _|].
  fold prior_read. destruct prior_read as [r|] eqn:Hp;
    [destruct (in_window now window r); by eexists _, _|].
  unfold first_use. destruct (negb _); [by eexists _, _|].
  unfold int4_succ. rewrite (proj2 (Z.ltb_lt _ _)) by by apply Hn.
  cbn [mbind result_bind]. unfold prior_read in Hp.
  destruct key as [k|]; [|by eexists _, _].
  unfold insert_grant_read. cbn [g_id set_use_count]. rewrite Hid.
  cbn [grant_reads with_grants]. cbn in Hp. rewrite Hp. cbn [is_some].
  cbn [grants with_grants]. rewrite lookup_insert_eq. by eexists _, _.
Qed.
End GrantUseSpec.

(** ** Lemmas the properties share *)
Section Shared.
Context `{UuidText, Primitives}.

(** A revoked or expired grant is refused ever after. *)
Lemma dead_stays_dead w w' gid g key ver kind window target u d' :
  inv w.1 w.2 → grants w.2 !! gid = Some g →
  g_revoked g = true ∨ (g_not_after g ≤ w.1)%Z → later w w' →
  begin_grant_use w'.1 gid key ver kind window target w'.2 = Ok (u, d') →
  u = GrantUse.ExpiredOrRevoked ∧ d' = w'.2.
Proof.
  intros Hi Hg Hdead Hl Hb. destruct (later_evolves _ _ Hi Hl) as [_ Eg _ _].
  destruct (Eg _ _ Hg) as (g' & Hg' & [Hid _ Hrv _]).
  pose proof (later_clock _ _ Hl) as Hclock.
  assert (Hdead' : g_revoked g' = true ∨ (g_not_after g' ≤ w'.1)%Z).
  { destruct Hdead as [Hx|Hx]; [left; by apply Hrv|right].
    assert (g_not_after g = g_not_after g') as <-
      by (unfold grant_identity in Hid; congruence). lia. }
  apply begin_grant_use_outcome in Hb; [|apply (later_inv _ _ Hi Hl)].
  inversion Hb; subst; try congruence; try done;
    destruct Hdead'; try congruence; rewrite Hg' in *; simplify_eq; lia.
Qed.

Lemma fold_log_tables {A} (f : A → AuditEvent) now l d :
  let d' := fold_left (λ d x, insert_audit now (f x) d) l d in
  secrets d' = secrets d ∧ secret_versions d' = secret_versions d
  ∧ secret_tags d' = secret_tags d ∧ grants d' = grants d.
Proof.
  revert d. induction l as [|x l IH]; intros d; cbn; [done|].
  by destruct (IH (insert_audit now (f x) d)) as (-> & -> & -> & ->).
Qed.

(** The tables a confirmed deletion commits. *)
Lemma delete_secret_tables now sid s version actor n d d1 :
  secrets d !! sid = Some s →
  delete_secret_audited now sid version actor d = Ok (DeleteSecretOutcome.Deleted n, d1) →
  secrets d1 = delete sid (secrets d)
  ∧ secret_versions d1 = delete_rows (λ v, eqb (sv_secret_id v) sid) (secret_versions d)
  ∧ secret_tags d1 = filter (λ t, t.1 ≠ sid) (secret_tags d)
  ∧ grants d1 = update_rows (stored_backed_live now (sr_name s)) set_revoked (grants d).
Proof.
  intros Hs. unfold delete_secret_audited. rewrite Hs. destruct (negb _); [done|].
  intros [= _ <-].
  match goal with |- context [fold_left (λ d g, insert_audit _ (@?f g) d) ?l ?d2] =>
    exact (fold_log_tables f now l d2) end.
Qed.
End Shared.

(** ** Properties of every reachable database *)

(** C19: the store implements the lifecycle.  On every reachable database, an
    operation of the store layer that succeeds commits a sequence of lifecycle
    steps, and the lifecycle's invariants hold of what it commits. *)
Theorem store_refines_lifecycle `{UuidText, Primitives} w o d' :
  world_reachable w → op_ok o → exec w.1 o w.2 = Ok d' →
  rtc (action w.1) w.2 d' ∧ inv w.1 d'.
Proof.
  intros Hr%world_inv Hok Hex. pose proof (exec_steps _ _ _ _ Hr Hok Hex) as Hs.
  split; [exact Hs|]. by eapply steps_inv.
Qed.

(** C21: use accounting is exact.  In every reachable database the counter of a
    grant is the number of its write-ahead rows of fresh uses in the audit log
    (releases and proxied calls, replays apart), and it never exceeds the cap. *)
Theorem uses_accounted `{UuidText, Primitives} w gid g :
  world_reachable w → grants w.2 !! gid = Some g →
  g_use_count g = uses_logged gid (audit_log w.2)
  ∧ ∀ m, g_max_uses g = Some m → (0 ≤ g_use_count g ≤ m)%Z.
Proof.
  intros Hi%world_inv Hg. split; [by eapply inv_logged|]. intros m. by eapply inv_cap.
Qed.

(** A request is approved exactly when one grant was minted for it: in every
    reachable database each request is in one of its four states, is unresolved
    exactly while pending, has a grant exactly when approved, and at most one. *)
Theorem approved_iff_granted `{UuidText, Primitives} w k r :
  world_reachable w → access_requests w.2 !! k = Some r →
  ar_state r ∈ [PENDING; APPROVED; DENIED; EXPIRED]
  ∧ (ar_state r = PENDING ↔ ar_resolved_at r = None)
  ∧ (ar_state r = APPROVED ↔ ∃ gid g, grants w.2 !! gid = Some g ∧ g_request_id g = k)
  ∧ ∀ gid gid' g g', grants w.2 !! gid = Some g → grants w.2 !! gid' = Some g' →
      g_request_id g = k → g_request_id g' = k → gid = gid'.
Proof.
  intros Hi%world_inv Hr. split; [by eapply wf_request_state; [apply Hi|]|].
  split; [by eapply inv_resolved|]. split; [by eapply inv_grant|].
  intros. eapply wf_grant_request; [apply Hi|done..|]. congruence.
Qed.

(** Nothing live dangles.  In every reachable database a live grant without
    its own payload names a secret that is stored, and a grant that still holds
    an approval-time payload is marked ephemeral and is not revoked. *)
Theorem live_grants_backed `{UuidText, Primitives} w gid g :
  world_reachable w → grants w.2 !! gid = Some g →
  (live w.1 g = true → g_passthrough_ephemeral g = false →
     ∃ sid s, secrets w.2 !! sid = Some s ∧ sr_name s = g_secret_name g)
  ∧ (g_passthrough_ciphertext g ≠ None →
     g_passthrough_ephemeral g = true ∧ g_revoked g = false).
Proof.
  intros Hi%world_inv Hg. split; [by eapply inv_backed|by eapply inv_payload].
Qed.

(** Versions are dense.  In every reachable database the versions of a
    stored secret are exactly 1 up to [current_version], one row each, so the
    current version of a secret that has one can always be fetched. *)
Theorem secret_versions_dense `{UuidText, Primitives} w sid s :
  world_reachable w → secrets w.2 !! sid = Some s →
  (∀ n, (1 ≤ n ≤ sr_current_version s)%Z ↔
     ∃ k v, secret_versions w.2 !! k = Some v ∧ sv_secret_id v = sid ∧ sv_version v = n)
  ∧ ((1 ≤ sr_current_version s)%Z →
     ∃ v, get_secret_version sid (sr_current_version s) w.2 = Some v).
Proof.
  intros Hi%world_inv Hs. split; [intros n; by eapply inv_versions|].
  intros H1. destruct (get_secret_version _ _ _) as [v|] eqn:E; [by exists v|].
  unfold get_secret_version in E. rewrite find_row_None in E.
  destruct (proj1 (inv_versions _ _ Hi sid s (sr_current_version s) Hs) ltac:(lia))
    as (k & v & Hv & E1 & E2).
  specialize (E _ _ Hv). cbn in E. by rewrite E1, E2, eqb_refl, Z.eqb_refl in E.
Qed.

(** History is kept.  Whatever operations follow, no request, grant or
    replay row disappears; a resolution, once made, never changes; a request's
    and a grant's terms never change; a use counter never falls; a revoked grant
    stays revoked; a purged payload or pin never returns; and the audit log only
    grows at its end. *)
Theorem history_kept `{UuidText, Primitives} w w' :
  world_reachable w → later w w' →
  (∀ k r, access_requests w.2 !! k = Some r →
     ∃ r', access_requests w'.2 !! k = Some r' ∧ request_le r r')
  ∧ (∀ k g, grants w.2 !! k = Some g →
     ∃ g', grants w'.2 !! k = Some g' ∧ grant_le g g')
  ∧ (∀ k r, grant_reads w.2 !! k = Some r →
     ∃ r', grant_reads w'.2 !! k = Some r' ∧ read_le r r')
  ∧ audit_log w.2 `prefix_of` audit_log w'.2.
Proof.
  intros Hi%world_inv Hl. destruct (later_evolves _ _ Hi Hl). auto.
Qed.

(** C22: [begin_grant_use] is its specification, on every branch: not found,
    dead, burned key, replay of the pinned payload without counting, exhausted,
    and a first use that counts one, records the key and writes the write-ahead
    row.  Below the int4 limit of the counter it always returns. *)
Theorem begin_grant_use_correct `{UuidText, Primitives} w gid key ver kind window target :
  world_reachable w →
  (∀ u d', begin_grant_use w.1 gid key ver kind window target w.2 = Ok (u, d') →
     use_outcome w.1 gid key ver kind window target w.2 u d')
  ∧ ((∀ g, grants w.2 !! gid = Some g → (g_use_count g < i32_MAX)%Z) →
     ∃ u d', begin_grant_use w.1 gid key ver kind window target w.2 = Ok (u, d')).
Proof.
  intros Hi%world_inv. split.
  - intros u d'. apply begin_grant_use_outcome, Hi.
  - apply begin_grant_use_total, Hi.
Qed.

(** C23: an idempotency key buys one use.  After a first use under a key,
    whatever happens in between, another use of the grant under that key is
    never a first use again: it replays the version pinned by the first use (or
    none, once unpinned) inside its window, and is refused after it. *)
Theorem idempotency_key_used_once `{UuidText, Primitives}
    w gid k ver kind window target g d1 w' ver' kind' window' target' u d' :
  world_reachable w →
  kind = kinds.RELEASE_ATTEMPT ∨ kind = kinds.PROXY_ATTEMPT →
  begin_grant_use w.1 gid (Some k) ver kind window target w.2 = Ok (GrantUse.FirstUse g, d1) →
  later (w.1, d1) w' →
  begin_grant_use w'.1 gid (Some k) ver' kind' window' target' w'.2 = Ok (u, d') →
  grants d' = grants w'.2
  ∧ match u with
    | GrantUse.Replay _ v p =>
        (v = ver ∨ v = None) ∧ p = is_some (g_passthrough_ciphertext g)
        ∧ (w'.1 - seconds window' < w.1)%Z
    | GrantUse.ExpiredOrRevoked | GrantUse.Exhausted => True
    | GrantUse.NotFound | GrantUse.FirstUse _ => False
    end.
Proof.
  intros Hr Hk Hb Hl Hb'. pose proof (world_inv _ Hr) as Hi.
  assert (Hi1 : inv w.1 d1).
  { apply (exec_inv w (OpBeginGrantUse gid (Some k) ver kind window target) d1 Hi); [done|]. by eapply committed_eq. }
  apply begin_grant_use_outcome in Hb; [|apply Hi].
  inversion Hb as [| | | | |g0 d2 d3 Hg Hrev Hlive Hp Hcap Hd2 Hd3]; subst.
  pose proof (later_evolves (_, _) _ Hi1 Hl) as [_ Eg Er _].
  destruct (Er (gid, k) _ (lookup_insert_eq _ _ _)) as (r' & Hr' & Ht & Hpt & Hv).
  destruct (Eg gid _ (lookup_insert_eq _ _ _)) as (g' & Hg' & _).
  apply begin_grant_use_outcome in Hb'; [|apply (later_inv (_, _) _ Hi1 Hl)].
  assert (Hprior : prior_read gid (Some k) w'.2 = Some r') by exact Hr'.
  inversion Hb'; subst; try congruence; (split; [done|]); try done.
  rewrite Hprior in *. match goal with E : Some _ = Some _ |- _ => injection E as <- end.
  cbn in *. rewrite Ht. by rewrite <-Hpt.
Qed.

(** Revocation is final.  Once a grant has been revoked, every later attempt
    to use it is refused and changes nothing, and its payload stays purged. *)
Theorem revocation_final `{UuidText, Primitives}
    w gid actor d1 w' key ver kind window target u d' :
  world_reachable w → revoke_grant w.1 gid actor w.2 = Ok (true, d1) → later (w.1, d1) w' →
  begin_grant_use w'.1 gid key ver kind window target w'.2 = Ok (u, d') →
  u = GrantUse.ExpiredOrRevoked ∧ d' = w'.2
  ∧ ∃ g, grants w'.2 !! gid = Some g ∧ g_revoked g = true ∧ g_passthrough_ciphertext g = None.
Proof.
  intros Hr Hrev Hl Hb. pose proof (world_inv _ Hr) as Hi.
  assert (Hi1 : inv w.1 d1).
  { apply (exec_inv w (OpRevokeGrant gid actor) d1 Hi); [done|]. by eapply committed_eq. }
  unfold revoke_grant in Hrev. destruct (grants w.2 !! gid) as [g|] eqn:Hg; [|done].
  destruct (g_revoked g); [done|]. injection Hrev as <-.
  rewrite (grant_at _ _ _ (inv_wf _ _ Hi) Hg) in *.
  destruct (ev_grants _ _ (later_evolves (_, _) _ Hi1 Hl) gid _ (lookup_insert_eq _ _ _))
    as (g' & Hg' & [_ _ Hr' Hp']). cbn in *.
  destruct (dead_stays_dead (_, _) w' gid _ key ver kind window target u d' Hi1
    (lookup_insert_eq _ _ _)) as [-> ->]; [by left|done|done|].
  split; [done|]. split; [done|]. exists g'. split; [done|].
  split; [by apply Hr'|by destruct Hp'].
Qed.

(** C24: the first resolution wins.  Once a request is resolved (approved, denied
    or expired), whatever happens later its resolution is as it was, and every
    further attempt to approve or deny it reports failure and writes nothing. *)
Theorem first_resolution_wins `{UuidText, Primitives}
    w rid r w' vid by_ gid g store reason x d' b d'' :
  world_reachable w → access_requests w.2 !! rid = Some r → ar_state r ≠ PENDING →
  later w w' →
  approve_request w'.1 vid rid by_ gid g store w'.2 = Ok (x, d') →
  resolve_deny w'.1 rid by_ reason w'.2 = Ok (b, d'') →
  (x = ApproveOutcome.NotApprovable ∨ x = ApproveOutcome.SecretGone)
  ∧ b = false ∧ d' = w'.2 ∧ d'' = w'.2
  ∧ ∃ r', access_requests w'.2 !! rid = Some r'
      ∧ request_resolution r' = request_resolution r.
Proof.
  intros Hr Hreq Hs Hl Ha Hd. pose proof (world_inv _ Hr) as Hi.
  destruct (later_evolves _ _ Hi Hl) as [Er _ _ _].
  destruct (Er _ _ Hreq) as (r' & Hr' & [_ Hf _]). specialize (Hf Hs).
  assert (Hnp : live_pending w'.1 r' = false).
  { unfold live_pending, is_pending. apply andb_false_iff. left.
    unfold request_resolution in Hf. injection Hf as <- _ _ _.
    unfold eqb. by apply bool_decide_eq_false. }
  unfold resolve_deny, guarded_request in Hd. rewrite Hr', Hnp in Hd. injection Hd as <- <-.
  unfold approve_request, guarded_request in Ha. rewrite Hr', Hnp in Ha.
  assert (Hend : ∃ r', access_requests w'.2 !! rid = Some r'
            ∧ request_resolution r' = request_resolution r) by by exists r'.
  destruct (_ && negb (same_row g w'.2)); injection Ha as <- <-; auto.
Qed.

(** C25: deleting a secret leaves nothing of it.  After a confirmed deletion the
    secret, its versions and its tags are gone, other secrets and versions are
    untouched, and of the grants exactly the live ones backed by its bytes are
    revoked; from then on, whatever happens, no stored-backed grant of that name
    that existed releases anything again. *)
Theorem delete_secret_complete `{UuidText, Primitives} w sid s version actor n d1 :
  world_reachable w → secrets w.2 !! sid = Some s →
  delete_secret_audited w.1 sid version actor w.2 = Ok (DeleteSecretOutcome.Deleted n, d1) →
  (∀ k, secrets d1 !! k = if decide (k = sid) then None else secrets w.2 !! k)
  ∧ (∀ k v, secret_versions d1 !! k = Some v ↔
       secret_versions w.2 !! k = Some v ∧ sv_secret_id v ≠ sid)
  ∧ (∀ t, t ∈ secret_tags d1 ↔ t ∈ secret_tags w.2 ∧ t.1 ≠ sid)
  ∧ (∀ k, grants d1 !! k =
       (λ g, if stored_backed_live w.1 (sr_name s) g then set_revoked g else g)
         <$> grants w.2 !! k)
  ∧ ∀ k g w' key ver kind window target u d',
      grants w.2 !! k = Some g → g_secret_name g = sr_name s →
      g_passthrough_ephemeral g = false → later (w.1, d1) w' →
      begin_grant_use w'.1 k key ver kind window target w'.2 = Ok (u, d') →
      u = GrantUse.ExpiredOrRevoked.
Proof.
  intros Hr Hs Hdel. pose proof (world_inv _ Hr) as Hi.
  assert (Hi1 : inv w.1 d1).
  { apply (exec_inv w (OpDeleteSecret sid version actor) d1 Hi); [done|].
    by eapply committed_eq. }
  destruct (delete_secret_tables _ _ _ _ _ _ _ _ Hs Hdel) as (G1 & G2 & G3 & G4).
  assert (HG : ∀ k, grants d1 !! k =
       (λ g, if stored_backed_live w.1 (sr_name s) g then set_revoked g else g)
         <$> grants w.2 !! k) by (intros k; by rewrite G4, lookup_update_rows).
  split; [|split; [|split; [|split; [exact HG|]]]].
  - intros k. rewrite G1. destruct (decide (k = sid)) as [->|Hne];
      [apply lookup_delete_eq|by apply lookup_delete_ne].
  - intros k v. rewrite G2, lookup_delete_rows. unfold eqb. by rewrite bool_decide_eq_false.
  - intros t. rewrite G3, elem_of_filter. tauto.
  - intros k g w' key ver kind window target u d' Hg Hn He Hl Hb.
    specialize (HG k). rewrite Hg in HG. cbn in HG.
    eapply (dead_stays_dead (w.1, d1)) in Hb as [? _]; [done|done|exact HG| |done].
    destruct (stored_backed_live w.1 (sr_name s) g) eqn:Esb; [by left|].
    unfold stored_backed_live in Esb. rewrite Hn, He, eqb_refl, andb_true_r in Esb.
    by apply live_false in Esb.
Qed.

(** ** Witnesses: one secret, one approved request, one use *)
Module Scenario.
#[export] Existing Instance CryptoExample.primitives.
#[export] Existing Instance uuid_text_example.

(** Run a list of operations at the given times. *)
Fixpoint run (ops : list (DateTime * op)) (w : World) : option World :=
  match ops with
  | [] => Some w
  | (t, o) :: ops =>
      if (w.1 <=? t)%Z then
        match exec t o w.2 with Ok d => run ops (t, d) | Err _ => None end
      else None
  end.

Lemma run_later ops w w' : Forall op_ok ops.*2 → run ops w = Some w' → later w w'.
Proof.
  revert w. induction ops as [|[t o] ops IH]; intros w; cbn; [by intros _ [= <-]|].
  intros Hok. apply Forall_cons in Hok as [Ho Hok]. destruct (Z.leb_spec w.1 t) as [Hle|]; [|done].
  destruct (exec t o w.2) as [d|] eqn:E; [|done]. intros Hr.
  eapply rtc_l; [|by apply (IH (t, d))]. split; [done|]. by exists o.
Qed.
Lemma run_reachable ops w :
  Forall op_ok ops.*2 → run ops (0%Z, empty_db) = Some w → world_reachable w.
Proof. intros Hok Hr. exists (0%Z, empty_db). split; [done|]. by eapply run_later. Qed.

Definition sealed : Sealed := mkSealed "ct" "nonce" "dek" "k1".
Definition secret : StoreSecretParams :=
  mkStoreSecretParams 1 "example-api-token" "" 3 "bearer" None None (Ok sealed).
Definition request : NewAccessRequest :=
  mkNewAccessRequest "agent" "example-api-token" "cli-read" Null (seconds 900) None
    "agent" "create-1" "mac".
Definition params : GrantParams :=
  mkGrantParams "agent" "example-api-token" (Some 1%N) "cli-read" Null (seconds 3600) (Some 2%Z)
    None.

Definition start : list (DateTime * op) :=
  [(seconds 10, OpCreateSecretWithVersion 101 secret "alice");
   (seconds 20, OpInsertRequestWithId 10 99 request (Some 3%Z) InitialResolution.Pending None);
   (seconds 30, OpApproveRequest 0 10 "alice" 20 params None)].
Definition first_read : DateTime * op :=
  (seconds 40, OpBeginGrantUse 20 (Some "read-1") (Some 101%N) kinds.RELEASE_ATTEMPT 60 None).

Definition db_after (ops : list (DateTime * op)) : Db :=
  from_option snd empty_db (run ops (0%Z, empty_db)).
Definition approved : World := (seconds 30, db_after start).
Definition used : World := (seconds 40, db_after (start ++ [first_read])).

Lemma start_ok : Forall op_ok start.*2.
Proof.
  cbn. repeat (apply Forall_cons; split); [done|done| |by apply Forall_nil].
  split; [|done]. intros m [= <-]. lia.
Qed.
Lemma reachable_start : world_reachable approved.
Proof. apply (run_reachable start); [apply start_ok|]. vm_compute. reflexivity. Qed.
Lemma reachable_used : world_reachable used.
Proof.
  apply (run_reachable (start ++ [first_read])); [|vm_compute; reflexivity].
  rewrite fmap_app. apply Forall_app. split; [apply start_ok|].
  apply Forall_singleton. by left.
Qed.

Definition grant_of (w : World) (gid : Uuid) : GrantRow :=
  default (new_grant_row 0 0 0 params) (grants w.2 !! gid).
Definition request_of (w : World) (rid : Uuid) : AccessRequestRow :=
  default (new_request_row 0 0 request None) (access_requests w.2 !! rid).
Definition secret_of (w : World) (sid : Uuid) : SecretRow :=
  default (new_secret_row 0 secret true) (secrets w.2 !! sid).

(** What an operation on a world returns and commits. *)
Definition outcome_of {A} (dflt : A) (r : result DbError (A * Db)) : A :=
  match r with Ok (x, _) => x | Err _ => dflt end.
Definition db_of {A} (r : result DbError (A * Db)) : Db :=
  match r with Ok (_, d) => d | Err _ => empty_db end.
End Scenario.
Import Scenario.

Lemma store_refines_lifecycle_witness :
  rtc (action approved.1) approved.2 (db_of (revoke_grant approved.1 20 "bob" approved.2)).
Proof.
  apply (store_refines_lifecycle approved (OpRevokeGrant 20 "bob")).
  - apply reachable_start.
  - exact I.
  - vm_compute. reflexivity.
Defined.

Lemma uses_accounted_witness :
  g_use_count (grant_of used 20) = uses_logged 20 (audit_log used.2)
  ∧ g_use_count (grant_of used 20) = 1%Z.
Proof.
  split.
  - apply (uses_accounted used 20 (grant_of used 20)); [apply reachable_used|].
    vm_compute. reflexivity.
  - vm_compute. reflexivity.
Defined.

Lemma approved_iff_granted_witness :
  ar_state (request_of used 10) = APPROVED ↔
  ∃ gid g, grants used.2 !! gid = Some g ∧ g_request_id g = 10%N.
Proof.
  apply (approved_iff_granted used 10 (request_of used 10)); [apply reachable_used|].
  vm_compute. reflexivity.
Defined.

Lemma live_grants_backed_witness :
  ∃ sid s, secrets used.2 !! sid = Some s ∧ sr_name s = "example-api-token".
Proof.
  apply (live_grants_backed used 20 (grant_of used 20)); [apply reachable_used|..];
    vm_compute; reflexivity.
Defined.

Lemma secret_versions_dense_witness : ∃ v, get_secret_version 1 1 used.2 = Some v.
Proof.
  apply (secret_versions_dense used 1 (secret_of used 1)); [apply reachable_used|..];
    vm_compute; done.
Defined.

Lemma history_kept_witness : audit_log approved.2 `prefix_of` audit_log used.2.
Proof.
  apply (history_kept approved used); [apply reachable_start|].
  apply (run_later [first_read]); [apply Forall_singleton; by left|]. vm_compute. reflexivity.
Defined.

Lemma begin_grant_use_correct_witness :
  use_outcome used.1 20 (Some "read-1") None kinds.RELEASE_ATTEMPT 60 None used.2
    (GrantUse.Replay (grant_of used 20) (Some 101%N) false)
    (db_of (begin_grant_use used.1 20 (Some "read-1") None kinds.RELEASE_ATTEMPT 60 None used.2)).
Proof.
  apply (begin_grant_use_correct used 20 (Some "read-1") None kinds.RELEASE_ATTEMPT 60 None).
  - apply reachable_used.
  - vm_compute. reflexivity.
Defined.

Lemma idempotency_key_used_once_witness :
  let again := begin_grant_use used.1 20 (Some "read-1") None kinds.RELEASE_ATTEMPT 60 None
                 used.2 in
  grants (db_of again) = grants used.2.
Proof.
  intros again.
  refine (proj1 (idempotency_key_used_once (seconds 40, approved.2) 20 "read-1" (Some 101%N)
    kinds.RELEASE_ATTEMPT 60 None (grant_of used 20) used.2 used None
    kinds.RELEASE_ATTEMPT 60 None (outcome_of GrantUse.NotFound again) (db_of again)
    _ _ _ _ _)).
  - apply (reachable_later approved); [apply reachable_start|].
    apply (run_later [(seconds 40, OpPurgePassthrough 77)]); [by apply Forall_singleton|].
    vm_compute. reflexivity.
  - by left.
  - vm_compute. reflexivity.
  - apply rtc_refl.
  - vm_compute. reflexivity.
Defined.

Lemma revocation_final_witness :
  let d1 := db_of (revoke_grant used.1 20 "bob" used.2) in
  outcome_of GrantUse.NotFound
    (begin_grant_use used.1 20 (Some "read-1") None kinds.RELEASE_ATTEMPT 60 None d1)
  = GrantUse.ExpiredOrRevoked.
Proof.
  intros d1.
  apply (revocation_final used 20 "bob" d1 (used.1, d1) (Some "read-1") None
    kinds.RELEASE_ATTEMPT 60 None _
    (db_of (begin_grant_use used.1 20 (Some "read-1") None kinds.RELEASE_ATTEMPT 60 None d1))).
  - apply reachable_used.
  - vm_compute. reflexivity.
  - apply rtc_refl.
  - vm_compute. reflexivity.
Defined.

Lemma first_resolution_wins_witness :
  outcome_of true (resolve_deny used.1 10 "bob" "no" used.2) = false.
Proof.
  apply (first_resolution_wins used 10 (request_of used 10) used 0 "bob" 21 params None "no"
    (outcome_of ApproveOutcome.SecretNameTaken
       (approve_request used.1 0 10 "bob" 21 params None used.2))
    (db_of (approve_request used.1 0 10 "bob" 21 params None used.2)) _
    (db_of (resolve_deny used.1 10 "bob" "no" used.2))).
  - apply reachable_used.
  - vm_compute. reflexivity.
  - vm_compute. discriminate.
  - apply rtc_refl.
  - vm_compute. reflexivity.
  - vm_compute. reflexivity.
Defined.

Lemma delete_secret_complete_witness :
  let d1 := db_of (delete_secret_audited used.1 1 1 "alice" used.2) in
  secrets d1 !! 1%N = None.
Proof.
  intros d1.
  apply (delete_secret_complete used 1 (secret_of used 1) 1 "alice" 1 d1).
  - apply reachable_used.
  - vm_compute. reflexivity.
  - vm_compute. reflexivity.
Defined.
