(* ===== verification/StoreProps.v ===== *)
(** Properties of single store operations and of their combinations: creating
    requests under the pending cap and idempotently, client deposits, and the
    sweepers that purge payloads and pins. *)

From S2P Require Import Prelude RustStr Types Json Crypto Examples Store Requests Grants ApiExt.
From S2P Require Import Secrets UiExt Policies Clients Provision Notify Lifecycle Refinement Safety.
Open Scope string_scope.

(** ** Creating requests *)
Section Create.
Context (now : DateTime).

(** The live pending requests of a client. *)
Definition pending_of (client : string) (d : Db) : Z :=
  count_rows (counts_pending now client) (access_requests d).

(** The row a creation commits for the outcome that was decided. *)
Definition resolved_row (res : InitialResolution.t) (row : AccessRequestRow) : AccessRequestRow :=
  match res with
  | InitialResolution.Pending => row
  | InitialResolution.Denied reason by_ => set_denied reason by_ now row
  | InitialResolution.Approved by_ _ fyi => set_notify_only fyi (set_approved by_ now row)
  end.

(** The grants it commits, and the grant it reports. *)
Definition resolved_grants (res : InitialResolution.t) (id gid : Uuid) (m : gmap Uuid GrantRow)
  : gmap Uuid GrantRow * option Uuid :=
  match res with
  | InitialResolution.Approved _ g _ => (<[gid := new_grant_row gid id now g]> m, Some gid)
  | _ => (m, None)
  end.

Definition resolution_event (res : InitialResolution.t) (id gid : Uuid) (req : NewAccessRequest)
  : list AuditEvent :=
  match res with
  | InitialResolution.Pending => []
  | InitialResolution.Denied _ by_ => [denied_event id (n_client_name req) (n_secret_name req) by_]
  | InitialResolution.Approved by_ g _ => [approved_event id gid g by_ None]
  end.

Definition logged (evs : list AuditEvent) (log : list AuditRow) : list AuditRow :=
  (log ++ map (mkAuditRow now) evs)%list.

Lemma apply_resolution_Ok gid req res row d x d' :
  access_requests d !! ar_id row = Some row →
  apply_resolution now gid req res row d = Ok (x, d') →
  x = (resolved_row res row, snd (resolved_grants res (ar_id row) gid (grants d)))
  ∧ access_requests d' = <[ar_id row := resolved_row res row]> (access_requests d)
  ∧ grants d' = fst (resolved_grants res (ar_id row) gid (grants d))
  ∧ audit_log d' = logged (resolution_event res (ar_id row) gid req) (audit_log d)
  ∧ match res with
    | InitialResolution.Approved _ g _ => (now < gp_not_after g)%Z
    | _ => True
    end.
Proof.
  intros Hrow. unfold apply_resolution, logged. destruct res as [|reason by_|by_ g fyi].
  - intros [= <- <-]. cbn. rewrite app_nil_r. by rewrite insert_id.
  - by intros [= <- <-].
  - destruct (Z.ltb_spec now (gp_not_after g)); cbn [negb]; [|done].
    intros (d1 & Hi & [= <- <-])%bind_Ok. by apply insert_grant_Ok in Hi as [-> _].
Qed.

Lemma pending_after client id row d :
  access_requests d !! id = None →
  count_rows (counts_pending now client) (<[id := row]> (access_requests d))
  = (pending_of client d + if counts_pending now client row then 1 else 0)%Z.
Proof. apply count_rows_insert. Qed.

Lemma get_request_by_idem_free req d :
  (∀ k x, access_requests d !! k = Some x →
     ar_idem_client x = n_idem_client req → ar_idem_key x ≠ n_idem_key req) →
  get_request_by_idem (n_idem_client req) (n_idem_key req) d = None.
Proof.
  intros Hf. apply find_row_None. intros k x Hx. unfold same_idem, eqb.
  destruct (bool_decide_reflect (ar_idem_client x = n_idem_client req)) as [E|]; [|done].
  apply bool_decide_eq_false. by apply (Hf k).
Qed.

(** What creation promises: its outcome, and what is committed with it. *)
Inductive creation (id gid : Uuid) (req : NewAccessRequest) (cap : Z)
    (res : InitialResolution.t) (d : Db) : InsertOutcome.t → Db → Prop :=
| creation_existing row :
    get_request_by_idem (n_idem_client req) (n_idem_key req) d = Some row →
    creation id gid req cap res d (InsertOutcome.Existing row) d
| creation_capped :
    get_request_by_idem (n_idem_client req) (n_idem_key req) d = None →
    (cap ≤ pending_of (n_client_name req) d)%Z →
    creation id gid req cap res d InsertOutcome.PendingCapExceeded d
| creation_created ctx d' :
    get_request_by_idem (n_idem_client req) (n_idem_key req) d = None →
    access_requests d !! id = None → identity_lost res d = false →
    (pending_of (n_client_name req) d < cap)%Z →
    let row := resolved_row res (new_request_row id now req ctx) in
    access_requests d' = <[id := row]> (access_requests d) →
    grants d' = fst (resolved_grants res id gid (grants d)) →
    audit_log d' = logged (created_event id req :: resolution_event res id gid req) (audit_log d) →
    (pending_of (n_client_name req) d' ≤ cap)%Z →
    creation id gid req cap res d
      (InsertOutcome.Created row (snd (resolved_grants res id gid (grants d)))) d'.

(** The cap is checked on the row as inserted; resolving it only lowers the count. *)
Lemma pending_resolved client id row res d :
  access_requests d !! id = None →
  (count_rows (counts_pending now client) (<[id := resolved_row res row]> (access_requests d))
   ≤ count_rows (counts_pending now client) (<[id := row]> (access_requests d)))%Z.
Proof.
  intros Hid. rewrite !pending_after by done.
  assert (counts_pending now client (resolved_row res row) = true →
          counts_pending now client row = true).
  { destruct res; cbn; [done|..]; unfold counts_pending, is_pending; cbn;
      by rewrite andb_false_r. }
  destruct (counts_pending now client (resolved_row res row)); [|destruct counts_pending; lia].
  by rewrite H.
Qed.
End Create.

(** [insert_access_request_with_id] is its specification.  A request whose
    idempotency key is known is returned and nothing is written; a new one is
    refused, writing nothing, exactly when its client's live pending requests
    are at the cap; otherwise one row is committed, resolved as policy decided,
    with the one grant and the events of that decision, and the client's live
    pending requests stay within the cap. *)
Theorem create_request_correct now id gid req cap res seal d x d' :
  (now < n_expires_at req)%Z →
  insert_access_request_with_id now id gid req (Some cap) res seal d = Ok (x, d') →
  creation now id gid req cap res d x d'.
Proof.
  intros Hlive. unfold insert_access_request_with_id.
  destruct (identity_lost res d) eqn:Hid; [done|].
  intros (ctx & _ & H)%bind_Ok. apply bind_Ok in H as ([d1|] & Hi & H).
  2:{ apply bind_Ok in H as (row & Hrow%ok_or_Ok & [= <- <-]). by constructor. }
  apply insert_request_Ok in Hi as (-> & Hnew & Hfree%get_request_by_idem_free).
  set (row := new_request_row id now req ctx) in *.
  change (access_requests (put_request row d)) with (<[id := row]> (access_requests d)) in H.
  assert (Hone : counts_pending now (n_client_name req) row = true).
  { unfold counts_pending. cbn. by rewrite eqb_refl, (proj2 (Z.ltb_lt _ _) Hlive). }
  pose proof (pending_after now (n_client_name req) id row d Hnew) as Hcount.
  rewrite Hone in Hcount. destruct (Z.ltb_spec cap
    (count_rows (counts_pending now (n_client_name req)) (<[id := row]> (access_requests d))))
    as [Hcap|Hcap].
  - injection H as <- <-. constructor; [done|lia].
  - apply bind_Ok in H as ([[row' g'] d3] & Ha & [= <- <-]).
    apply apply_resolution_Ok in Ha as ([= -> ->] & Hr & Hg & Hlog & _);
      [|by cbn; rewrite lookup_insert_eq].
    cbn [ar_id row new_request_row] in *.
    cbn [access_requests insert_audit with_audit_log put_request with_access_requests] in Hr.
    cbn [ar_id row new_request_row] in Hr. rewrite insert_insert_eq in Hr.
    eapply (creation_created now id gid req cap res d ctx); try done; [lia| |].
    + rewrite Hlog. unfold logged. cbn. by rewrite <-app_assoc.
    + unfold pending_of. rewrite Hr. etrans; [by apply pending_resolved|exact Hcap].
Qed.

(** ** Retries *)
(** What a successful creation committed. *)
Lemma insert_created now id gid req cap res seal d row g d1 :
  insert_access_request_with_id now id gid req cap res seal d
    = Ok (InsertOutcome.Created row g, d1) →
  ∃ ctx, row = resolved_row now res (new_request_row id now req ctx)
    ∧ access_requests d !! id = None ∧ identity_lost res d = false
    ∧ access_requests d1 = <[id := row]> (access_requests d)
    ∧ (grants d1, g) = resolved_grants now res id gid (grants d)
    ∧ audit_log d1
      = logged now (created_event id req :: resolution_event res id gid req) (audit_log d)
    ∧ match res with InitialResolution.Approved _ g _ => (now < gp_not_after g)%Z | _ => True end
    ∧ ∀ c, cap = Some c → (count_rows (counts_pending now (n_client_name req))
                             (<[id := new_request_row id now req ctx]> (access_requests d)) ≤ c)%Z.
Proof.
  unfold insert_access_request_with_id. destruct (identity_lost res d); [done|].
  intros (ctx & _ & H)%bind_Ok. apply bind_Ok in H as ([d2|] & Hi & H);
    [|by apply bind_Ok in H as (? & _ & [=])].
  apply insert_request_Ok in Hi as (-> & Hnew & _).
  destruct (match cap with Some c => _ | None => _ end) eqn:Ecap; [done|].
  apply bind_Ok in H as ([[row' g'] d3] & Ha & [= <- <- <-]).
  apply apply_resolution_Ok in Ha as ([= -> ->] & Hr & Hg & Hlog & Hdead);
    [|by cbn; rewrite lookup_insert_eq].
  exists ctx. cbn in Hr, Hg, Hlog. rewrite insert_insert_eq in Hr.
  split_and!; try done.
  - rewrite Hg. by destruct res.
  - rewrite Hlog. unfold logged. cbn. by rewrite <-app_assoc.
  - intros c ->. by apply Z.ltb_ge in Ecap.
Qed.

Lemma created_row_stored now id gid req cap res seal d row g d1 :
  insert_access_request_with_id now id gid req cap res seal d
    = Ok (InsertOutcome.Created row g, d1) →
  access_requests d1 !! id = Some row
  ∧ ar_idem_client row = n_idem_client req ∧ ar_idem_key row = n_idem_key req.
Proof.
  intros (ctx & -> & _ & _ & -> & _)%insert_created. rewrite lookup_insert_eq. by destruct res.
Qed.

Lemma get_request_by_idem_at d id row client key :
  db_wf d → access_requests d !! id = Some row →
  ar_idem_client row = client → ar_idem_key row = key →
  get_request_by_idem client key d = Some row.
Proof.
  intros Hwf Hr <- <-. apply find_row_unique with id; [done|by unfold same_idem; rewrite !eqb_refl|].
  intros k' r' Hr' Hs. unfold same_idem in Hs. kbool.
  assert (k' = id) as -> by by eapply (wf_request_idem _ Hwf). congruence.
Qed.

Lemma insert_known_key now id gid req cap res seal d row x d' :
  get_request_by_idem (n_idem_client req) (n_idem_key req) d = Some row →
  insert_access_request_with_id now id gid req cap res seal d = Ok (x, d') →
  x = InsertOutcome.Existing row ∧ d' = d.
Proof.
  intros Hf. unfold insert_access_request_with_id. destruct (identity_lost res d); [done|].
  intros (ctx & _ & H)%bind_Ok. apply bind_Ok in H as ([d2|] & Hi & H).
  - apply insert_request_Ok in Hi as (_ & _ & Hn). apply get_request_by_idem_free in Hn.
    congruence.
  - apply bind_Ok in H as (r & Hr%ok_or_Ok & [= <- <-]). by rewrite Hf in Hr; injection Hr as <-.
Qed.

(** Creation is idempotent.  After a request was created, whatever happens
    later, creating again under the same client and key (whatever else the retry
    asks for, and whatever policy would decide now) returns the request that was
    created, in its present state, and writes nothing: no second grant is ever
    minted for one key. *)
Theorem create_request_idempotent `{UuidText, Primitives}
    w id gid req cap res seal row g d1 w' id' gid' req' cap' res' seal' x d' :
  world_reachable w →
  match res with InitialResolution.Approved _ g _ => grant_ok g | _ => True end →
  insert_access_request_with_id w.1 id gid req cap res seal w.2
    = Ok (InsertOutcome.Created row g, d1) →
  later (w.1, d1) w' →
  n_idem_client req' = n_idem_client req → n_idem_key req' = n_idem_key req →
  insert_access_request_with_id w'.1 id' gid' req' cap' res' seal' w'.2 = Ok (x, d') →
  d' = w'.2 ∧ ∃ row', x = InsertOutcome.Existing row' ∧ request_le row row'.
Proof.
  intros Hr Hres Hc Hl Ek Ei Hx. pose proof (world_inv _ Hr) as Hi.
  assert (Hi1 : inv w.1 d1).
  { apply (exec_inv w (OpInsertRequestWithId id gid req cap res seal) d1 Hi);
      [by destruct res|by eapply committed_eq]. }
  destruct (created_row_stored _ _ _ _ _ _ _ _ _ _ _ Hc) as (Hrow & E1 & E2).
  destruct (later_evolves (_, _) _ Hi1 Hl) as [Er _ _ _].
  destruct (Er _ _ Hrow) as (row' & Hrow' & Hle). cbn in Hrow'.
  pose proof (later_inv (_, _) _ Hi1 Hl) as Hi'.
  assert (Hfind : get_request_by_idem (n_idem_client req') (n_idem_key req') w'.2 = Some row').
  { destruct (request_identity_eq _ _ (rle_identity _ _ Hle)) as (? & ? & ?).
    apply get_request_by_idem_at with id; [apply Hi'|done|congruence|congruence]. }
  destruct (insert_known_key _ _ _ _ _ _ _ _ _ _ _ Hfind Hx) as [-> ->].
  split; [done|]. by exists row'.
Qed.

(** ** Deposits *)
Lemma name_free name d :
  (∃ s, get_secret_by_name name d = Some s) ∨
  (get_secret_by_name name d = None ∧ exists_row (λ r, eqb (sr_name r) name) (secrets d) = false).
Proof.
  destruct (get_secret_by_name name d) as [s|] eqn:E; [left; by exists s|right; split; [done|]].
  by apply exists_row_false, find_row_None.
Qed.

Lemma insert_secret_name_taken s d :
  valid_injection_kind (sr_injection_kind s) = true →
  insert_secret_or_nothing s d = Ok None ↔ ∃ s', get_secret_by_name (sr_name s) d = Some s'.
Proof.
  intros Hk. unfold insert_secret_or_nothing. rewrite Hk. cbn [negb].
  destruct (name_free (sr_name s) d) as [[s' Hs]|[Hn ->]].
  - rewrite (proj2 (exists_row_true _ _)); [by rewrite Hs; split; eauto|].
    apply find_row_Some in Hs as [[k Hk'] He]. by exists k, s'.
  - rewrite Hn. split; [by destruct (is_some _)|by intros [? [=]]].
Qed.

Lemma recent_deposits_after now client s hours d d' :
  audit_log d' = (audit_log d ++ [mkAuditRow now (deposit_event client s)])%list →
  (0 < hours)%Z →
  recent_deposits now client hours d' = (recent_deposits now client hours d + 1)%Z.
Proof.
  intros Hl Hh. unfold recent_deposits. rewrite Hl, List.filter_app, length_app.
  assert (Hone : counts_deposit now client hours (mkAuditRow now (deposit_event client s)) = true).
  { unfold counts_deposit. rewrite !andb_true_iff, Z.ltb_lt.
    split; [by split; apply eqb_refl|]. cbn [au_at]. unfold seconds, second. lia. }
  cbn [List.filter]. rewrite Hone. cbn [List.length]. lia.
Qed.

(** A client can deposit secrets but never touch one.  A deposit over the
    client's rate is refused, a taken name is refused, and both write nothing;
    an accepted one had a free name and adds exactly one secret, enabled but
    unvetted and not managed, its version 1 and its audit row, leaving every
    other row as it was, and the client stays within its rate. *)
Theorem deposit_correct now vid store client rate d x d' :
  db_wf d → valid_injection_kind (ss_injection_kind store) = true → (0 < window_hours rate)%Z →
  create_secret_from_client now vid store client rate d = Ok (x, d') →
  match x with
  | DepositOutcome.RateLimited =>
      d' = d ∧ (max_per_window rate ≤ recent_deposits now client (window_hours rate) d)%Z
  | DepositOutcome.NameTaken => d' = d ∧ ∃ s, get_secret_by_name (ss_name store) d = Some s
  | DepositOutcome.Created id =>
      id = ss_secret_id store ∧ get_secret_by_name (ss_name store) d = None
      ∧ (∃ sealed, ss_seal store = Ok sealed
          ∧ secret_versions d !! vid = None
          ∧ d' = insert_audit now (deposit_event client store)
                   (put_version (version_row vid id 1 sealed now None)
                      (put_secret (new_secret_row now store false) d)))
      ∧ (∀ k s, secrets d !! k = Some s → secrets d' !! k = Some s)
      ∧ (recent_deposits now client (window_hours rate) d' ≤ max_per_window rate)%Z
  end.
Proof.
  intros Hwf Hkind Hh. unfold create_secret_from_client.
  destruct (Z.leb_spec (max_per_window rate) (recent_deposits now client (window_hours rate) d))
    as [Hmax|Hmax]; [by intros [= <- <-]|].
  intros ([d1|] & Hi & H)%bind_Ok.
  2:{ injection H as <- <-. split; [done|]. by apply insert_secret_name_taken in Hi. }
  pose proof Hi as [Hd1 [Hid Hname]]%insert_secret_or_nothing_Ok.
  apply bind_Ok in H as (sealed & Hs%map_err_Ok & (d2 & Hv & [= <- <-])%bind_Ok).
  apply insert_version_row_Ok in Hv as (-> & [Hvid _] & _). rewrite Hd1 in *.
  split; [done|]. split.
  { destruct (name_free (ss_name store) d) as [[s' Hs']|[? _]]; [|done].
    assert (Hx : insert_secret_or_nothing (new_secret_row now store false) d = Ok None)
      by (apply insert_secret_name_taken; [done|by exists s']). congruence. }
  split; [by exists sealed|]. split.
  - intros k s Hk.
    change (<[ss_secret_id store := new_secret_row now store false]> (secrets d) !! k = Some s).
    rewrite lookup_insert_ne; [done|]. intros <-. cbn in Hid. congruence.
  - rewrite (recent_deposits_after now client store _ d) by done. lia.
Qed.

(** ** The bytes behind a stored version *)
Section Commits.
Context `{UuidText, Primitives}.

(** The bytes a stored version opens to. *)
Definition opens (ks : Keyset) (ver : SecretVersionRow) (value : string) : Prop :=
  Keyset_open ks (sv_ciphertext ver) (sv_nonce ver) (sv_wrapped_dek ver) (sv_kek_id ver)
    (SecretVersion (sv_secret_id ver) (sv_version ver)) = Ok value.

(** The current version of [s], stored under [vid], opens to [value]. *)
Definition holds_value (ks : Keyset) (vid : Uuid) (s : SecretRow) (value : string) (d : Db) : Prop :=
  secrets d !! sr_id s = Some s
  ∧ ∃ ver, secret_versions d !! vid = Some ver ∧ sv_secret_id ver = sr_id s
      ∧ sv_version ver = sr_current_version s ∧ opens ks ver value.

Lemma rotate_commits now vid sid name actor ks draw value d row d' :
  db_wf d → draw_ok draw →
  rotate_secret_version now vid sid name actor
    (λ version, Keyset_seal ks draw value (SecretVersion sid version)) d = Ok (Some row, d') →
  ∃ s, secrets d !! sid = Some s
    ∧ holds_value ks vid (set_version (sr_current_version s + 1) true now s) value d'.
Proof.
  intros Hwf Hd. unfold rotate_secret_version. destruct (secrets d !! sid) as [s|] eqn:Es; [|done].
  intros (n & Hn & HH)%bind_Ok. apply bind_Ok in HH as (sealed & Hseal%map_err_Ok & HH).
  apply bind_Ok in HH as (d2 & Hi & [= <- <-]). apply int4_succ_Ok in Hn as ->.
  apply insert_version_row_Ok in Hi as (-> & _). pose proof (secret_at _ _ _ Hwf Es) as Hid.
  exists s. split; [done|]. split; cbn.
  - by rewrite lookup_insert_eq.
  - eexists. rewrite lookup_insert_eq. split; [done|]. cbn. split; [done|]. split; [done|].
    unfold opens. cbn. by apply (keyset_sealed_opens _ draw).
Qed.

Lemma create_commits now vid st actor ks draw value d d' :
  draw_ok draw →
  ss_seal st = Keyset_seal ks draw value (SecretVersion (ss_secret_id st) 1) →
  create_secret_with_version now vid st actor d = Ok (true, d') →
  secrets d !! ss_secret_id st = None
  ∧ holds_value ks vid (new_secret_row now st true) value d'.
Proof.
  intros Hd Hseal. unfold create_secret_with_version.
  intros (sealed & Hs%map_err_Ok & HH)%bind_Ok.
  apply bind_Ok in HH as ([d1|] & Hi & HH); [|done].
  apply insert_secret_or_nothing_Ok in Hi as [-> [Hfree _]].
  apply bind_Ok in HH as (d2 & Hv & [= <-]). apply insert_version_row_Ok in Hv as (-> & _).
  split; [done|]. split; cbn.
  - by rewrite lookup_insert_eq.
  - eexists. rewrite lookup_insert_eq. split; [done|]. cbn. split; [done|]. split; [done|].
    unfold opens. cbn. apply (keyset_sealed_opens _ draw); [done|]. congruence.
Qed.
End Commits.

(** ** Sweepers *)
Lemma sweepable_not_released t t' window d g :
  (t ≤ t')%Z → live t' g = true →
  uses_left g = true ∨ replay_open t' window d g = true → sweepable t window d g = false.
Proof.
  intros Ht Hl Hu. apply live_true in Hl as [Hr Hn]. unfold sweepable.
  destruct (is_some _); [|done]. rewrite Hr. cbn [andb orb].
  rewrite (proj2 (Z.ltb_ge _ _)) by lia. cbn [orb].
  apply andb_false_iff. destruct Hu as [Hu|Ho].
  - left. unfold uses_left in Hu. destruct (g_max_uses g) as [m|]; [|done]. lia.
  - right. apply negb_false_iff. unfold replay_open in *. rewrite existsb_elem in *.
    destruct Ho as (kr & Hin & Ho). exists kr. split; [done|].
    apply andb_true_iff in Ho as [-> Ho]. unfold in_window in *. lia.
Qed.

Lemma replay_open_at t window d gid k g r :
  g_id g = gid → grant_reads d !! (gid, k) = Some r → in_window t window r = true →
  replay_open t window d g = true.
Proof.
  intros <- Hr Hw. unfold replay_open. apply existsb_elem. exists ((g_id g, k), r).
  split; [by apply elem_of_map_to_list|]. cbn. by rewrite eqb_refl.
Qed.

(** The tables after both sweepers have run. *)
Definition swept (t window : DateTime) (d : Db) : Db :=
  with_grant_reads (update_rows (unpinnable t window) unpin)
    (with_grants (update_rows (sweepable t window d) purge_payload) d).

Lemma swept_ops t window d n1 d1 n2 d2 :
  sweep_purge_passthroughs t window d = Ok (n1, d1) →
  unpin_stale_grant_reads t window d1 = Ok (n2, d2) → d2 = swept t window d.
Proof. by intros [= _ <-] [= _ <-]. Qed.

Lemma lookup_swept_grant t window d gid g :
  grants (swept t window d) !! gid = Some g ↔
  ∃ g0, grants d !! gid = Some g0
    ∧ g = if sweepable t window d g0 then purge_payload g0 else g0.
Proof.
  cbn. rewrite lookup_update_rows, fmap_Some. split; intros (g0 & ? & ?); by exists g0.
Qed.

Lemma lookup_swept_read t window d k :
  grant_reads (swept t window d) !! k =
  (λ r, if unpinnable t window r then unpin r else r) <$> grant_reads d !! k.
Proof. apply lookup_update_rows. Qed.

Lemma in_window_kept t t' window r :
  (t ≤ t')%Z → in_window t' window r = true → unpinnable t window r = false.
Proof.
  unfold in_window, unpinnable. intros Ht Hw. apply andb_false_iff. left. lia.
Qed.
Lemma in_window_unpin t window r : in_window t window (unpin r) = in_window t window r.
Proof. done. Qed.

Lemma first_use_transfer now g key ver kind target d e u d' :
  (∀ k, key = Some k → grant_reads e !! (g_id g, k) = grant_reads d !! (g_id g, k)) →
  first_use now g key ver kind target d = Ok (u, d') →
  ∃ e', first_use now g key ver kind target e = Ok (u, e').
Proof.
  intros Hr. unfold first_use. destruct (negb _); [intros [= <- _]; by eexists|].
  intros (n & -> & H)%bind_Ok. apply bind_Ok in H as (d2 & H2 & [= <- _]).
  cbn [mbind result_bind]. destruct key as [k|]; [|by eexists].
  unfold insert_grant_read in *. cbn [grant_reads with_grants g_id set_use_count] in *.
  rewrite (Hr k) by done. destruct (is_some _); [done|]. cbn [grants with_grants].
  rewrite lookup_insert_eq. by eexists.
Qed.

(** The swept state of a live grant that may still release. *)
Lemma swept_use t t' window d gid key ver kind target u d' :
  db_wf d → (t ≤ t')%Z →
  begin_grant_use t' gid key ver kind window target d = Ok (u, d') →
  ∃ d'', begin_grant_use t' gid key ver kind window target (swept t window d) = Ok (u, d'').
Proof.
  intros Hwf Ht. unfold begin_grant_use.
  replace (grants (swept t window d) !! gid)
    with ((λ g, if sweepable t window d g then purge_payload g else g) <$> grants d !! gid)
    by (symmetry; apply lookup_update_rows).
  destruct (grants d !! gid) as [g|] eqn:Hg; [|intros [= <- _]; by eexists]. cbn [fmap option_fmap option_map].
  pose proof (grant_at _ _ _ Hwf Hg) as Hid.
  assert (Hl : live t' (if sweepable t window d g then purge_payload g else g) = live t' g)
    by by destruct (sweepable _ _ _ _).
  rewrite Hl. destruct (live t' g) eqn:El; cbn [negb]; [|intros [= <- _]; by eexists].
  pose proof (sweepable_not_released t t' window d g Ht El) as Hkeep.
  destruct key as [k|]; cbn [mbind option_bind].
  - rewrite lookup_swept_read. destruct (grant_reads d !! (gid, k)) as [r|] eqn:Hr; cbn.
    + assert (Hw : in_window t' window (if unpinnable t window r then unpin r else r)
                   = in_window t' window r) by by destruct (unpinnable _ _ _).
      rewrite Hw. destruct (in_window t' window r) eqn:Ew; [|intros [= <- _]; by eexists].
      rewrite (in_window_kept _ _ _ _ Ht Ew).
      rewrite Hkeep by (right; by eapply replay_open_at).
      intros [= <- _]. by eexists.
    + intros Hu. destruct (uses_left g) eqn:Eu; [rewrite Hkeep by by left|].
      * eapply first_use_transfer, Hu. intros k' [= <-].
        by rewrite Hid, lookup_swept_read, Hr.
      * unfold first_use in *. rewrite Hl. rewrite El, Eu in Hu. injection Hu as <- _.
        replace (uses_left _) with false by (by destruct (sweepable _ _ _ _)). by eexists.
  - intros Hu. destruct (uses_left g) eqn:Eu; [rewrite Hkeep by by left|].
    + by eapply first_use_transfer, Hu.
    + unfold first_use in *. rewrite Hl. rewrite El, Eu in Hu. injection Hu as <- _.
      replace (uses_left _) with false by (by destruct (sweepable _ _ _ _)). by eexists.
Qed.

(** Sweeping is invisible.  Purging payloads and unpinning replay rows at
    any time changes the outcome of no grant use then or later: what a grant
    would have released, under any idempotency key, it still releases, from the
    same row and the same pinned version; and every payload of a revoked or
    expired grant is gone. *)
Theorem sweepers_invisible t t' window d n1 d1 n2 d2 :
  db_wf d → (t ≤ t')%Z →
  sweep_purge_passthroughs t window d = Ok (n1, d1) →
  unpin_stale_grant_reads t window d1 = Ok (n2, d2) →
  (∀ gid key ver kind target u d',
     begin_grant_use t' gid key ver kind window target d = Ok (u, d') →
     ∃ d'', begin_grant_use t' gid key ver kind window target d2 = Ok (u, d''))
  ∧ (∀ gid g, grants d2 !! gid = Some g → g_revoked g = true ∨ (g_not_after g < t)%Z →
     g_passthrough_ciphertext g = None).
Proof.
  intros Hwf Ht H1 H2. rewrite (swept_ops _ _ _ _ _ _ _ H1 H2). split.
  - intros gid key ver kind target u d' Hu.
    by eapply swept_use.
  - intros gid g (g0 & Hg0 & ->)%lookup_swept_grant Hdead.
    destruct (sweepable t window d g0) eqn:Es; [done|].
    unfold sweepable in Es. destruct (g_passthrough_ciphertext g0); [|done]. cbn in Es.
    apply orb_false_iff in Es as [[Er En]%orb_false_iff _]. destruct Hdead; [congruence|lia].
Qed.

(** ** Witnesses, on the scenario of [Safety.v] *)
Import Scenario.
Definition retry : NewAccessRequest :=
  mkNewAccessRequest "agent" "other" "cli-read" Null (seconds 900) None
    "agent" "create-1" "other-mac".
Definition second_request : NewAccessRequest :=
  mkNewAccessRequest "agent" "example-api-token" "cli-read" Null (seconds 900) None
    "agent" "create-2" "mac".
Definition deposited : StoreSecretParams :=
  mkStoreSecretParams 2 "new-token" "" 2 "header" (Some "X-Key") None (Ok sealed).

Lemma create_request_correct_witness :
  let r := insert_access_request_with_id used.1 11 98 second_request (Some 1%Z)
             (InitialResolution.Denied "no" "policy") None used.2 in
  creation used.1 11 98 second_request 1 (InitialResolution.Denied "no" "policy") used.2
    (outcome_of InsertOutcome.PendingCapExceeded r) (db_of r)
  ∧ outcome_of InsertOutcome.PendingCapExceeded r ≠ InsertOutcome.PendingCapExceeded.
Proof.
  intros r. split; [|vm_compute; discriminate].
  apply (create_request_correct used.1 11 98 second_request 1 _ None used.2).
  - reflexivity.
  - vm_compute. reflexivity.
Defined.

Definition before_request : World := (seconds 20, db_after (take 1 start)).
Definition after_request : Db := db_after (take 2 start).
Lemma create_request_idempotent_witness :
  let r := insert_access_request_with_id used.1 12 97 retry None InitialResolution.Pending None
             used.2 in
  db_of r = used.2.
Proof.
  intros r.
  refine (proj1 (create_request_idempotent before_request 10 99 Scenario.request (Some 3%Z)
    InitialResolution.Pending None (new_request_row 10 (seconds 20) Scenario.request None) None
    after_request used 12 97 retry None InitialResolution.Pending None
    (outcome_of InsertOutcome.PendingCapExceeded r) (db_of r) _ _ _ _ _ _ _)).
  - apply (run_reachable (take 1 start ++ [(seconds 20, OpPurgePassthrough 0)])).
    + cbn. repeat (apply Forall_cons; split); done.
    + vm_compute. reflexivity.
  - exact I.
  - vm_compute. reflexivity.
  - apply (run_later [(seconds 30, OpApproveRequest 0 10 "alice" 20 params None); first_read]).
    + apply Forall_cons; split; [split; [|done]; intros m [= <-]; lia|].
      apply Forall_singleton. by left.
    + vm_compute. reflexivity.
  - reflexivity.
  - reflexivity.
  - vm_compute. reflexivity.
Defined.

Lemma deposit_correct_witness :
  let r := create_secret_from_client used.1 102 deposited "agent" (mkDepositRate 1 24) used.2 in
  outcome_of DepositOutcome.NameTaken r = DepositOutcome.Created 2
  ∧ (recent_deposits used.1 "agent" 24 (db_of r) ≤ 1)%Z.
Proof.
  intros r. split; [vm_compute; reflexivity|].
  refine (proj2 (proj2 (proj2 (proj2 (deposit_correct used.1 102 deposited "agent"
    (mkDepositRate 1 24) used.2 (DepositOutcome.Created 2) (db_of r) _ _ _ _))))).
  - apply (inv_wf used.1), world_inv, reachable_used.
  - reflexivity.
  - reflexivity.
  - vm_compute. reflexivity.
Defined.

Lemma sweepers_invisible_witness :
  ∃ d'', begin_grant_use (seconds 50) 20 (Some "read-1") None kinds.RELEASE_ATTEMPT 60 None
           (swept (seconds 45) 60 used.2)
         = Ok (GrantUse.Replay (grant_of used 20) (Some 101%N) false, d'').
Proof.
  destruct (sweepers_invisible (seconds 45) (seconds 50) 60 used.2
    0 (db_of (sweep_purge_passthroughs (seconds 45) 60 used.2))
    0 (swept (seconds 45) 60 used.2)) as [Hsame _].
  - apply (inv_wf used.1), world_inv, reachable_used.
  - vm_compute. discriminate.
  - vm_compute. reflexivity.
  - vm_compute. reflexivity.
  - eapply (Hsame 20%N (Some "read-1") None kinds.RELEASE_ATTEMPT None).
    vm_compute. reflexivity.
Defined.
