(* ===== verification/Reconcile.v ===== *)
(** Startup reconciliation: what the config says is what the tables hold
    afterwards, for clients, secrets and policy rows, and a second run finds
    nothing to do. *)

From S2P Require Import Prelude RustStr Types Json Crypto Examples Store Requests Grants.
From S2P Require Import ApiExt Secrets UiExt Policies Clients Provision Notify Lifecycle Refinement.
Open Scope string_scope.

Lemma NoDup_map_inj {A B} (f : A → B) (l : list A) :
  NoDup (map f l) → ∀ x y, x ∈ l → y ∈ l → f x = f y → x = y.
Proof.
  induction l as [|z l IH]; cbn; [by intros _ x y ?%elem_of_nil|].
  intros [Hz Hnd]%NoDup_cons x y [->|Hx]%elem_of_cons [->|Hy]%elem_of_cons E; [done| | |by apply IH].
  - destruct Hz. rewrite E. by apply list_elem_of_fmap_2.
  - destruct Hz. rewrite <-E. by apply list_elem_of_fmap_2.
Qed.

(** ** Clients *)
Section Clients.
Context (all : list ClientConfig).
Implicit Types (d : Db) (r : ClientRow) (c : ClientConfig).

(** The unique keys of the clients table. *)
Record clients_wf d : Prop := mk_clients_wf {
  cw_pk : ∀ k r, clients d !! k = Some r → cl_id r = k;
  cw_name : ∀ k k' r r', clients d !! k = Some r → clients d !! k' = Some r' →
    cl_name r = cl_name r' → k = k'
}.

Definition no_credentials r : Prop :=
  cl_api_token_sha256 r = None ∧ cl_sa_audience r = None ∧ cl_sa_subject r = None.

(** A row whose client is not (or not yet) applied holds no credential, and
    is retired when its client is not configured. *)
Definition detached (todo : list ClientConfig) r : Prop :=
  no_credentials r
  ∧ (cl_name r ∈ map cc_name todo ∨ (cl_name r ∉ map cc_name all ∧ retire r = r)).

(** Nothing but the clients table differs. *)
Definition only_clients d d' : Prop := d' = with_clients (λ _, clients d') d.
Lemma only_clients_eq d f : only_clients d (with_clients f d).
Proof. done. Qed.

(** The state of the upsert loop: [todo] is still to be applied. *)
Record applied (todo : list ClientConfig) (ids : nat → Uuid) d : Prop := mk_applied {
  ap_wf : clients_wf d;
  ap_fresh : ∀ i, clients d !! ids i = None;
  ap_rows : ∀ k r, clients d !! k = Some r →
    (∃ c, c ∈ all ∧ cc_name c ∉ map cc_name todo ∧ r = configured_row k c) ∨ detached todo r;
  ap_done : ∀ c, c ∈ all → cc_name c ∉ map cc_name todo →
    ∃ k, clients d !! k = Some (configured_row k c)
}.

Lemma same_credential_detached r r' : no_credentials r' → same_credential r r' = false.
Proof.
  intros (E1 & E2 & E3). unfold same_credential. rewrite E1, E2, E3.
  destruct (cl_api_token_sha256 r), (cl_sa_audience r), (cl_sa_subject r); done.
Qed.

(** Distinct clients are configured with distinct credentials. *)
Definition credentials_distinct : Prop := ∀ c c',
  c ∈ all → c' ∈ all → cc_name c ≠ cc_name c' →
  same_credential (configured_row 0 c) (configured_row 0 c') = false.

(** The row an upsert writes to: the one of that name, or a new one. *)
Lemma upsert_target d c new :
  clients_wf d → clients d !! new = None →
  ∃ id, (id = new ∨ is_Some (clients d !! id))
    ∧ (∀ k r, clients d !! k = Some r → cl_name r = cc_name c → k = id)
    ∧ (∀ r, clients d !! id = Some r → cl_name r = cc_name c)
    ∧ upsert_client new c d =
        (if exists_row (λ r, negb (eqb (cl_id r) id) && same_credential (configured_row id c) r)
              (clients d)
         then Err UniqueViolation
         else Ok (with_clients <[id := configured_row id c]> d)).
Proof.
  intros [Hpk Hn] Hnew. unfold upsert_client.
  destruct (find_row _ (clients d)) as [r|] eqn:Hf.
  - apply find_row_Some in Hf as [[k Hk] He]. kbool. exists (cl_id r).
    rewrite (Hpk _ _ Hk). split; [right; by exists r|].
    split; [|split; [intros r' Hr'; congruence|by destruct (exists_row _ _)]].
    intros k' r' Hk' He'. eapply Hn; [done|done|congruence].
  - rewrite find_row_None in Hf. exists new. split; [by left|]. rewrite Hnew.
    split; [|split; [done|by destruct (exists_row _ _)]].
    intros k r Hk He. specialize (Hf _ _ Hk). by rewrite He, eqb_refl in Hf.
Qed.

Hypothesis Hnames : ∀ c c', c ∈ all → c' ∈ all → cc_name c = cc_name c' → c = c'.

Lemma upsert_applied c todo ids d :
  credentials_distinct → c ∈ all → NoDup (map cc_name (c :: todo)) →
  (∀ i j, ids i = ids j → i = j) → applied (c :: todo) ids d →
  ∃ d', upsert_client (ids 0%nat) c d = Ok d' ∧ applied todo (λ n, ids (S n)) d'
    ∧ only_clients d d' ∧ (∀ k r, clients d !! k = Some r → ∃ r', clients d' !! k = Some r' ∧ cl_name r' = cl_name r).
Proof.
  intros Hcred Hc Hnd Hinj [Hwf Hfr Hrows Hdone]. cbn in Hnd. apply NoDup_cons in Hnd as [Hnot Hnd].
  destruct (upsert_target d c (ids 0%nat) Hwf (Hfr 0%nat)) as (id & Hid & Huniq & Hname & ->).
  rewrite (proj2 (exists_row_false _ _)).
  2:{ intros k r Hr. destruct (eqb (cl_id r) id) eqn:E; [done|]. cbn [negb andb].
      destruct (Hrows _ _ Hr) as [(c' & Hc' & Hn' & ->)|[Hno _]];
        [|by apply same_credential_detached].
      apply (Hcred c c' Hc Hc'). intros Heq. apply Hn'. rewrite <-Heq. by left. }
  eexists. split; [done|]. split; [constructor|split; [by rewrite only_clients_eq|]].
  - split; cbn; [|intros k k' r r'].
    + intros k r [[<- <-]|[_ Hk]]%lookup_insert_Some; [done|by apply Hwf].
    + intros [[<- <-]|[Hne Hk]]%lookup_insert_Some [[<- <-]|[Hne' Hk']]%lookup_insert_Some E;
        [done| | |by eapply Hwf].
      * destruct Hne'. symmetry. by eapply Huniq.
      * destruct Hne. symmetry. by eapply Huniq.
  - intros i. cbn. rewrite lookup_insert_ne; [done|]. intros ->. destruct Hid as [E|[r Hr]].
    + by apply Hinj in E.
    + by rewrite Hfr in Hr.
  - cbn. intros k r [[<- <-]|[Hne Hk]]%lookup_insert_Some; [left; by exists c|].
    destruct (Hrows _ _ Hk) as [(c' & Hc' & Hn' & ->)|[Hno Hn]].
    + left. exists c'. split; [done|]. split; [|done]. intros ?. apply Hn'. by right.
    + right. split; [done|]. destruct Hn as [Hn|Hn]; [left|by right].
      cbn in Hn. apply elem_of_cons in Hn as [E|Hn]; [|done]. destruct Hne. symmetry. by eapply Huniq.
  - cbn. intros c' Hc' Hn'. destruct (decide (cc_name c' = cc_name c)) as [E|E].
    + rewrite (Hnames c' c Hc' Hc E). exists id. apply lookup_insert_eq.
    + destruct (Hdone c' Hc') as [k Hk]; [cbn; by rewrite not_elem_of_cons|].
      exists k. rewrite lookup_insert_ne; [done|]. intros ->. by apply Hname in Hk.
  - cbn. intros k r Hk. destruct (decide (k = id)) as [->|Hne].
    + rewrite lookup_insert_eq. eexists. split; [done|]. cbn. symmetry. by apply Hname.
    + rewrite lookup_insert_ne by done. by exists r.
Qed.

Lemma upsert_all todo ids d :
  credentials_distinct → (∀ c, c ∈ todo → c ∈ all) → NoDup (map cc_name todo) →
  (∀ i j, ids i = ids j → i = j) → applied todo ids d →
  ∃ d' ids', upsert_clients ids todo d = Ok d' ∧ applied [] ids' d'
    ∧ only_clients d d' ∧ (∀ k r, clients d !! k = Some r → ∃ r', clients d' !! k = Some r' ∧ cl_name r' = cl_name r).
Proof.
  intros Hcred. revert ids d. induction todo as [|c todo IH]; intros ids d Hsub Hnd Hinj Ha.
  { exists d, ids. cbn. split; [done|]. split; [done|]. split; [by destruct d|]. eauto. }
  destruct (upsert_applied c todo ids d) as (d1 & Hd1 & Ha1 & Ho1 & Hkeep1);
    [done|apply Hsub; by left|done|done|done|].
  destruct (IH (λ n, ids (S n)) d1) as (d' & ids' & Hd' & Ha' & Ho & Hkeep).
  { intros c' Hc'. apply Hsub. by right. }
  { by apply NoDup_cons in Hnd as [_ ?]. }
  { intros i j E%Hinj. congruence. }
  { done. }
  exists d', ids'. cbn. rewrite Hd1. split; [exact Hd'|]. split; [done|].
  split; [unfold only_clients in *; rewrite Ho, Ho1; by destruct d|].
  intros k r Hk. destruct (Hkeep1 _ _ Hk) as (r1 & Hr1 & <-). by apply Hkeep.
Qed.

(** The two UPDATEs before the loop. *)
Definition released d : Db :=
  let names := map cc_name all in
  with_clients (update_rows (λ r, contains names (cl_name r)) release_binding)
    (with_clients (update_rows (λ r, negb (contains names (cl_name r))) retire) d).

Lemma lookup_released d k :
  clients (released d) !! k =
  (λ r, if contains (map cc_name all) (cl_name r) then release_binding r else retire r)
    <$> clients d !! k.
Proof.
  unfold released, with_clients. cbn [clients]. rewrite !lookup_update_rows.
  destruct (clients d !! k) as [r|]; cbn [fmap option_fmap option_map]; [|done].
  destruct (contains _ (cl_name r)) eqn:E; cbn [negb cl_name retire]; by rewrite E.
Qed.

Lemma released_applied ids d :
  clients_wf d → (∀ i, clients d !! ids i = None) → applied all ids (released d).
Proof.
  intros [Hpk Hn] Hf.
  assert (Hr : ∀ k r, clients (released d) !! k = Some r → ∃ r0, clients d !! k = Some r0
    ∧ cl_id r = cl_id r0 ∧ cl_name r = cl_name r0 ∧ detached all r).
  { intros k r. rewrite lookup_released. intros (r0 & E & Hr0)%fmap_Some. exists r0.
    destruct (contains _ (cl_name r0)) eqn:Ec; subst r; (split; [done|]);
      split; [done|split; [done|]|done|split; [done|]]; (split; [done|]).
    - left. by kbool.
    - right. split; [|done]. cbn. by kbool. }
  constructor.
  - constructor.
    + intros k r (r0 & Hk & -> & _)%Hr. by apply Hpk.
    + intros k k' r r' (r0 & Hk & _ & -> & _)%Hr (r0' & Hk' & _ & -> & _)%Hr. by eapply Hn.
  - intros i. by rewrite lookup_released, Hf.
  - intros k r (r0 & _ & _ & _ & Hd)%Hr. by right.
  - intros c Hc []. by apply list_elem_of_fmap_2.
Qed.
End Clients.

(** The config decides the clients.  With distinct names and credentials,
    applying the client config succeeds, also when a credential moves from one
    client to another; afterwards each configured client has exactly its row,
    every other client is disabled and holds no credential, the ids of existing
    rows stay, and no other table is touched. *)
Theorem reconcile_clients_correct all ids d :
  clients_wf d → (∀ i, clients d !! ids i = None) → (∀ i j, ids i = ids j → i = j) →
  NoDup (map cc_name all) → credentials_distinct all →
  ∃ d', reconcile_clients ids all d = Ok (tt, d') ∧ clients_wf d' ∧ only_clients d d'
    ∧ (∀ c, c ∈ all → ∃ k, get_client_by_name (cc_name c) d' = Some (configured_row k c))
    ∧ (∀ k r, clients d' !! k = Some r → cl_name r ∉ map cc_name all →
         cl_enabled r = false ∧ no_credentials r)
    ∧ (∀ k r, clients d !! k = Some r →
         ∃ r', clients d' !! k = Some r' ∧ cl_name r' = cl_name r).
Proof.
  intros Hwf Hfresh Hinj Hnd Hcred.
  assert (Hnames : ∀ c c', c ∈ all → c' ∈ all → cc_name c = cc_name c' → c = c')
    by by apply NoDup_map_inj.
  destruct (upsert_all all Hnames all ids (released all d)) as (d' & ids' & Hd' & Ha & Ho & Hkeep);
    try done; [by apply released_applied|].
  exists d'. unfold reconcile_clients. fold (released all d). rewrite Hd'.
  split; [done|]. split; [apply Ha|]. split; [unfold only_clients in *; by rewrite Ho|].
  split; [|split].
  - intros c Hc. destruct (ap_done _ _ _ _ Ha c Hc) as [k Hk]; [by intros ?%elem_of_nil|].
    exists k. apply find_row_unique with k; [done|by rewrite eqb_refl|].
    intros k' r Hr He. kbool. assert (k' = k) as -> by by eapply (cw_name _ (ap_wf _ _ _ _ Ha)).
    congruence.
  - intros k r Hr Hn. destruct (ap_rows _ _ _ _ Ha k r Hr) as [(c & Hc & _ & ->)|[Hno Hd]].
    + destruct Hn. by apply (list_elem_of_fmap_2 cc_name).
    + split; [|done]. by destruct Hd as [?%elem_of_nil|[_ <-]].
  - intros k r Hr. destruct (Hkeep k (if contains (map cc_name all) (cl_name r)
                                      then release_binding r else retire r))
      as (r' & Hr' & Hn); [by rewrite lookup_released, Hr|].
    exists r'. split; [done|]. rewrite Hn. by destruct (contains _ _).
Qed.

(** ** Tags *)
Notation tag_sort := (sort_by_key bytes_key).

Lemma dedup_elem l x : x ∈ dedup l ↔ x ∈ l.
Proof.
  induction l as [|y l IH]; cbn; [done|]. rewrite elem_of_cons, <-IH.
  destruct (dedup l) as [|z k]; [by rewrite elem_of_cons|].
  destruct (eqb y z) eqn:E; rewrite !elem_of_cons; [|done]. kbool. naive_solver.
Qed.

Lemma dedup_sorted l :
  StronglySorted (key_le bytes_key) l →
  StronglySorted (key_le bytes_key) (dedup l) ∧ NoDup (dedup l).
Proof.
  induction 1 as [|x l _ [IHs IHn] Hx]; cbn; [by split; constructor|].
  assert (Hle : ∀ y, y ∈ dedup l → key_le bytes_key x y).
  { intros y. rewrite dedup_elem. by apply Forall_forall. }
  destruct (dedup l) as [|y k]; [split; [repeat constructor|apply NoDup_singleton]|].
  destruct (eqb x y) eqn:E; [done|]. split.
  - constructor; [done|]. by apply Forall_forall.
  - constructor; [|done]. intros [->|Hk]%elem_of_cons; [by rewrite eqb_refl in E|].
    apply StronglySorted_inv in IHs as [_ Hy]. rewrite Forall_forall in Hy.
    assert (x = y) as ->; [|by rewrite eqb_refl in E].
    apply bytes_key_inj, key_compare_eq. specialize (Hy _ Hk). specialize (Hle y ltac:(by left)).
    unfold key_le in *. rewrite key_compare_antisym in Hy. by destruct (key_compare _ _).
Qed.

Lemma sort_sorted l : StronglySorted (key_le bytes_key) l → tag_sort l = l.
Proof.
  induction 1 as [|x l _ IH Hx]; cbn; [done|]. rewrite IH. destruct l as [|y l]; [done|].
  cbn. apply Forall_inv in Hx. unfold key_le in Hx. by destruct (key_compare _ _).
Qed.

Lemma dedup_idemp l : NoDup l → dedup l = l.
Proof.
  induction 1 as [|x l Hx _ IH]; [done|]. cbn. rewrite IH. destruct l as [|y l]; [done|].
  destruct (eqb x y) eqn:E; [|done]. kbool. subst. by destruct Hx; left.
Qed.
Lemma sorted_tags_fixed l : dedup (tag_sort (dedup (tag_sort l))) = dedup (tag_sort l).
Proof.
  destruct (dedup_sorted (tag_sort l) (sort_by_key_sorted _ _)) as [Hs Hn].
  by rewrite sort_sorted, dedup_idemp.
Qed.

(** Reading the tags of a secret back gives them sorted, without repeats. *)
Lemma get_tags_spec d sid tags :
  (∀ t, (sid, t) ∈ secret_tags d ↔ t ∈ tags) →
  get_tags_for_secret sid d = dedup (tag_sort tags).
Proof.
  intros Ht. unfold get_tags_for_secret.
  destruct (dedup_sorted (tag_sort tags)) as [Hs Hn]; [apply sort_by_key_sorted|].
  rewrite <-(sort_sorted _ Hs). apply sort_by_key_unique; [intros x y _ _; apply bytes_key_inj|].
  apply NoDup_Permutation; [|done|].
  - apply NoDup_fmap_2_strong; [|apply NoDup_ListNoDup, List.NoDup_filter, NoDup_ListNoDup, NoDup_elements].
    intros [a x] [b y] Hx Hy E. rewrite list_elem_of_In, filter_In in Hx, Hy.
    destruct Hx as [_ Hx], Hy as [_ Hy]. cbn in *. kbool. congruence.
  - intros t. rewrite dedup_elem, (sort_by_key_perm bytes_key), <-Ht.
    rewrite list_elem_of_fmap. split.
    + intros ([a x] & -> & Hin). rewrite list_elem_of_In, filter_In, <-list_elem_of_In, elem_of_elements in Hin.
      destruct Hin as [Hin E]. cbn in *. kbool. by subst.
    + intros Hin. exists (sid, t). split; [done|].
      rewrite list_elem_of_In, filter_In, <-list_elem_of_In, elem_of_elements.
      split; [done|apply eqb_refl].
Qed.

(** ** Secrets *)
Section Secrets.
Context `{UuidText, Primitives}.
Implicit Types (d : Db) (w : DesiredSecret).

(** The row is what the config wants. *)
Definition matches w (s : SecretRow) : Prop :=
  sr_name s = ds_name w ∧ sr_description s = ds_description w ∧ sr_max_tier s = ds_max_tier w
  ∧ sr_injection_kind s = ds_injection_kind w ∧ sr_injection_header s = ds_injection_header w
  ∧ sr_injection_username s = ds_injection_username w
  ∧ sr_enabled s = true ∧ sr_operator_vetted s = true ∧ sr_managed_by_config s = true.

(** The stored version decrypts to these bytes. *)
Definition opens_to (keyset : Keyset) (v : SecretVersionRow) (value : string) : Prop :=
  Keyset_open keyset (sv_ciphertext v) (sv_nonce v) (sv_wrapped_dek v) (sv_kek_id v)
    (SecretVersion (sv_secret_id v) (sv_version v)) = Ok value.

(** A secret is provisioned: row, tags and current bytes. *)
Definition provisioned (keyset : Keyset) w d : Prop :=
  ∃ s v, get_secret_by_name (ds_name w) d = Some s ∧ matches w s
    ∧ get_tags_for_secret (sr_id s) d = dedup (tag_sort (ds_tags w))
    ∧ get_secret_version (sr_id s) (sr_current_version s) d = Some v
    ∧ opens_to keyset v (ds_value w).

Lemma metadata_same w s tags :
  sr_name s = ds_name w → metadata_differs s w tags tags = false ↔ matches w s.
Proof.
  intros Hn. unfold metadata_differs, matches. rewrite !orb_false_iff, !negb_false_iff, eqb_refl.
  unfold eqb. rewrite !bool_decide_eq_true, Z.eqb_eq. tauto.
Qed.

Lemma provisioned_unchanged now keyset r w d :
  provisioned keyset w d →
  reconcile_one_secret now keyset r w d = Ok (SecretChange.Unchanged, d).
Proof.
  intros (s & v & Hs & Hm & Ht & Hv & Ho). unfold reconcile_one_secret. rewrite Hs, Ht.
  rewrite (proj2 (metadata_same w s _ (proj1 Hm)) Hm). cbn [mbind result_bind].
  unfold same_bytes. rewrite Hv, Ho. cbn [map_err mbind result_bind].
  unfold ct_eq. by rewrite eqb_refl.
Qed.

Lemma get_secret_by_name_at d s name :
  db_wf d → secrets d !! sr_id s = Some s → sr_name s = name →
  get_secret_by_name name d = Some s.
Proof.
  intros Hwf Hs <-. apply find_row_unique with (sr_id s); [done|apply eqb_refl|].
  intros k' s' Hs' He. kbool. assert (k' = sr_id s) as ->; [|congruence].
  by eapply (wf_secret_name _ Hwf).
Qed.

Lemma get_secret_version_at d k v sid n :
  db_wf d → secret_versions d !! k = Some v → sv_secret_id v = sid → sv_version v = n →
  get_secret_version sid n d = Some v.
Proof.
  intros Hwf Hv <- <-. apply find_row_unique with k; [done|by rewrite eqb_refl, Z.eqb_refl|].
  intros k' v' Hv' He. kbool. assert (k' = k) as ->; [|congruence].
  apply (wf_version_number _ Hwf _ _ v' v); [done|done|congruence|lia].
Qed.

Lemma Keyset_open_sealed keyset draw pt a sealed :
  draw_ok draw → Keyset_seal keyset draw pt a = Ok sealed →
  Keyset_open keyset (sealed_ciphertext sealed) (sealed_nonce sealed) (sealed_wrapped_dek sealed)
    (sealed_kek_id sealed) a = Ok pt.
Proof.
  intros Hd (kek & Hkek & Hs)%bind_Ok.
  assert (Hid : sealed_kek_id sealed = active keyset).
  { apply bind_Ok in Hs as (? & _ & (? & _ & [= <-])%bind_Ok). done. }
  unfold Keyset_open. rewrite Hid, Hkek. cbn. by apply (open_sealed draw kek (active keyset) pt a).
Qed.

Lemma insert_version_opens now keyset r sid n value d d' :
  draw_ok (sd_draw r) → insert_version now keyset r sid n value d = Ok d' →
  ∃ v, d' = put_version v d ∧ sv_secret_id v = sid ∧ sv_version v = n ∧ opens_to keyset v value.
Proof.
  intros Hd (sealed & Hs%map_err_Ok & Hi)%bind_Ok.
  apply insert_version_row_Ok in Hi as (-> & _). eexists. split; [done|].
  split; [done|]. split; [done|]. by apply (Keyset_open_sealed keyset (sd_draw r)).
Qed.

Lemma replace_tags_Ok sid tags d d' :
  replace_tags sid tags d = Ok d' →
  d' = with_secret_tags (λ _, secret_tags d') d
  ∧ get_tags_for_secret sid d' = dedup (tag_sort tags).
Proof.
  unfold replace_tags, insert_tags. destruct (_ && _); [done|]. intros [= <-].
  split; [done|]. apply get_tags_spec. intros t. cbn.
  rewrite elem_of_union, elem_of_list_to_set, elem_of_filter, list_elem_of_fmap. cbn. split.
  - intros [(u & [= ->] & ?)|[? _]]; done.
  - intros Hin. left. by exists t.
Qed.

Lemma tag_sort_wanted tags : dedup (tag_sort (dedup (tag_sort tags))) = dedup (tag_sort tags).
Proof.
  destruct (dedup_sorted (tag_sort tags)) as [Hs Hn]; [apply sort_by_key_sorted|].
  rewrite (sort_sorted _ Hs). clear Hs. induction (dedup (tag_sort tags)) as [|x l IH]; [done|].
  apply NoDup_cons in Hn as [Hx Hn]. cbn. rewrite IH by done. destruct l as [|y l]; [done|].
  destruct (eqb x y) eqn:E; [|done]. kbool. subst. destruct Hx. by left.
Qed.

(** The row after the metadata step. *)
Lemma metadata_step now row w d d1 :
  secrets d !! sr_id row = Some row → sr_name row = ds_name w →
  (let wanted := dedup (tag_sort (ds_tags w)) in
   if metadata_differs row w (get_tags_for_secret (sr_id row) d) wanted
   then sync_metadata now row w wanted d else Ok d) = Ok d1 →
  ∃ s1, secrets d1 !! sr_id row = Some s1 ∧ sr_id s1 = sr_id row ∧ matches w s1
    ∧ sr_current_version s1 = sr_current_version row
    ∧ get_tags_for_secret (sr_id row) d1 = dedup (tag_sort (ds_tags w)).
Proof.
  intros Hr Hn. cbn zeta. destruct (metadata_differs _ _ _ _) eqn:Em.
  - unfold sync_metadata. destruct (negb _); [done|].
    intros (d2 & [Hd2 Ht]%replace_tags_Ok & [= <-])%bind_Ok. exists (adopt now w row).
    split; [rewrite Hd2; apply lookup_insert_eq|]. split; [done|]. split; [by repeat split|].
    split; [done|]. rewrite tag_sort_wanted in Ht. exact Ht.
  - intros [= <-]. exists row. split; [done|]. split; [done|].
    assert (Ht : get_tags_for_secret (sr_id row) d = dedup (tag_sort (ds_tags w))).
    { unfold metadata_differs in Em. rewrite !orb_false_iff in Em. destruct Em as [_ Em]. by kbool. }
    rewrite Ht in Em. apply metadata_same in Em; [|done]. done.
Qed.
End Secrets.

(** The config decides its secrets.  After reconciling one configured secret
    its row carries the configured metadata, enabled, vetted and managed, its
    tags are the configured ones, and its current version decrypts to the
    configured bytes; and reconciling it again, at any time and with any
    randomness, changes nothing. *)
Theorem reconcile_secret_settles `{UuidText, Primitives} now keyset r w d change d' :
  inv now d → draw_ok (sd_draw r) →
  reconcile_one_secret now keyset r w d = Ok (change, d') →
  provisioned keyset w d'
  ∧ ∀ now' r', reconcile_one_secret now' keyset r' w d' = Ok (SecretChange.Unchanged, d').
Proof.
  intros Hi Hdraw Hrec. assert (Hp : provisioned keyset w d').
  2:{ split; [done|]. intros now' r'. by apply provisioned_unchanged. }
  pose proof (inv_wf _ _ (steps_inv _ _ _ Hi (reconcile_one_secret_steps now keyset r w d _ _ Hi Hrec)))
    as Hwf'.
  unfold reconcile_one_secret in Hrec.
  destruct (get_secret_by_name (ds_name w) d) as [row|] eqn:Hrow.
  - apply get_secret_by_name_Some in Hrow as [Hr Hn]; [|apply Hi].
    apply bind_Ok in Hrec as (d1 & Hm & Hrec).
    apply (metadata_step now row w d d1 Hr Hn) in Hm as (s1 & Hs1 & Hid & Hmat & Hcur & Htag).
    apply bind_Ok in Hrec as (same & Hsame & Hrec). apply bind_Ok in Hrec as (d2 & Hrot & Hrec).
    injection Hrec as _ <-. unfold same_bytes in Hsame. destruct same; cbn [negb] in Hrot.
    + injection Hrot as <-.
      destruct (get_secret_version (sr_id row) (sr_current_version row) d1) as [v|] eqn:Hv; [|done].
      apply bind_Ok in Hsame as (pt & Ho%map_err_Ok & [= He]). unfold ct_eq in He. kbool. subst pt.
      exists s1, v. rewrite Hid, Hcur.
      split; [apply get_secret_by_name_at; [done|by rewrite Hid|apply Hmat]|done].
    + unfold rotate_in in Hrot. rewrite Hs1 in Hrot. cbn [ok_or mbind result_bind] in Hrot.
      apply bind_Ok in Hrot as (n & _ & Hrot). apply bind_Ok in Hrot as (d3 & Hv & [= <-]).
      apply insert_version_opens in Hv as (v & -> & E1 & E2 & Ho); [|done].
      set (s2 := set_version n (sr_operator_vetted s1) now s1) in *.
      exists s2, v.
      split; [apply get_secret_by_name_at; [done|apply lookup_insert_eq|apply Hmat]|].
      split; [done|]. split; [change (sr_id s2) with (sr_id s1); by rewrite Hid|].
      split; [|done]. apply (get_secret_version_at _ (sv_id v)); [done|apply lookup_insert_eq| |done].
      by rewrite E1.
  - apply bind_Ok in Hrec as (d1 & Hs & Hrec). apply bind_Ok in Hrec as (d2 & Hv & Hrec).
    apply bind_Ok in Hrec as (d3 & Ht & [= _ <-]).
    apply insert_secret_Ok in Hs as [-> _]. apply insert_version_opens in Hv as (v & -> & E1 & E2 & Ho); [|done].
    apply replace_tags_Ok in Ht as [Hd3 Ht]. set (s := provisioned_row now (sd_secret_id r) w) in *.
    exists s, v.
    split; [apply get_secret_by_name_at; [done|rewrite Hd3; apply lookup_insert_eq|done]|].
    split; [done|]. split; [done|]. split; [|done].
    apply (get_secret_version_at _ (sv_id v)); [done|rewrite Hd3; apply lookup_insert_eq|done|done].
Qed.

(** ** Policy rows *)
Lemma position_Some {A} (f : A → bool) l i :
  position f l = Some i → ∃ x, l !! i = Some x ∧ f x = true.
Proof.
  revert i. induction l as [|x l IH]; intros i; cbn; [done|].
  destruct (f x) eqn:E; [intros [= <-]; by exists x|].
  intros (j & Hj & ->)%fmap_Some. by apply IH.
Qed.
Lemma position_None {A} (f : A → bool) l : position f l = None → ∀ x, x ∈ l → f x = false.
Proof.
  induction l as [|y l IH]; cbn; [by intros _ x ?%elem_of_nil|].
  destruct (f y) eqn:E; [done|]. intros Hn%fmap_None x [->|Hx]%elem_of_cons; [done|by apply IH].
Qed.

Lemma swap_remove_perm {A} (l : list A) i x : l !! i = Some x → l ≡ₚ x :: swap_remove i l.
Proof.
  intros Hi. unfold swap_remove. destruct (last l) as [y|] eqn:Hl;
    [|by apply last_None in Hl as ->]. apply last_Some in Hl as [l' ->].
  rewrite length_app. cbn [List.length]. destruct (Nat.eqb_spec (S i) (List.length l' + 1)) as [E|E].
  - rewrite removelast_last. rewrite lookup_app_r in Hi by lia.
    replace (i - List.length l') with 0 in Hi by lia. injection Hi as ->.
    by rewrite Permutation_app_comm.
  - apply lookup_lt_Some in Hi as Hlt. rewrite length_app in Hlt. cbn in Hlt.
    rewrite lookup_app_l in Hi by lia. rewrite insert_app_l by lia. rewrite removelast_last.
    rewrite insert_take_drop by lia. rewrite <-(take_drop_middle l' i x Hi) at 1.
    rewrite <-!app_assoc, <-app_comm_cons, <-Permutation_middle. f_equiv.
    rewrite <-Permutation_cons_append. by rewrite <-!Permutation_middle.
Qed.

Lemma rows_delete {K V} `{Countable K} (m : gmap K V) k v :
  m !! k = Some v → rows m ≡ₚ v :: rows (delete k m).
Proof.
  intros Hk. rewrite <-(insert_delete_id m k v Hk) at 1. apply rows_insert, lookup_delete_eq.
Qed.

(** The rows the config owns, and what makes one of them a rule. *)
Definition managed_rows (d : Db) : list PolicyRow := select po_managed_by_config (policies d).
Definition row_key (r : PolicyRow) : Value := policy_key (row_policy r).
Definition policies_pk (d : Db) : Prop := ∀ k p, policies d !! k = Some p → po_id p = k.

(** Everything but the managed policy rows and the log. *)
Definition outside (d d' : Db) : Prop :=
  (∀ k p, po_managed_by_config p = false → policies d' !! k = Some p ↔ policies d !! k = Some p)
  ∧ with_audit_log (λ _, []) (with_policies (λ _, ∅) d')
    = with_audit_log (λ _, []) (with_policies (λ _, ∅) d).
#[local] Instance outside_preorder : PreOrder outside.
Proof.
  split; [by intros d; split|]. intros d1 d2 d3 [H1 E1] [H2 E2].
  split; [|congruence]. intros k p Hp. by rewrite H2, H1.
Qed.

Lemma insert_policy_fresh p d d' :
  insert_policy_row p d = Ok d' →
  d' = with_policies <[po_id p := p]> d ∧ policies d !! po_id p = None.
Proof.
  intros Hi. split; [by apply insert_policy_Ok in Hi as [? _]|]. revert Hi. unfold insert_policy_row.
  destruct (negb _); [done|]. destruct (_ && _); [done|]. by destruct (policies d !! po_id p).
Qed.

Section PolicyRows.
Context `{UuidText} (now : DateTime).

Lemma drop_unwanted_spec existing rest wanted d n wanted' d' n' :
  policies_pk d → managed_rows d ≡ₚ existing ++ rest →
  drop_unwanted now existing wanted d n = (wanted', d', n') →
  policies_pk d' ∧ outside d d' ∧ ∃ kept,
    managed_rows d' ≡ₚ kept ++ rest ∧ map fst wanted ≡ₚ map row_key kept ++ map fst wanted'
    ∧ (∀ w, w ∈ wanted' → w ∈ wanted).
Proof.
  revert rest wanted d n. induction existing as [|row existing IH]; intros rest wanted d n Hpk Hm; cbn.
  { intros [= <- <- <-]. split; [done|]. split; [done|]. by exists []. }
  destruct (position _ wanted) as [i|] eqn:Ep.
  - apply position_Some in Ep as (w & Hw & He). kbool. intros Hd.
    apply (IH (row :: rest)) in Hd as (Hpk' & Ho & kept & Hk & Hp & Hsub); [|done|].
    2:{ rewrite Hm. by rewrite <-Permutation_middle. }
    split; [done|]. split; [done|]. exists (row :: kept).
    split; [by rewrite Hk, <-Permutation_middle|]. split.
    + cbn. rewrite <-Hp. change (row_key row) with (policy_key (row_policy row)). rewrite <-He.
      by rewrite (swap_remove_perm _ _ _ Hw) at 1.
    + intros w' Hw'%Hsub. rewrite (swap_remove_perm _ _ _ Hw). by right.
  - assert (Hrow : row ∈ managed_rows d) by (rewrite Hm; by left).
    apply elem_select in Hrow as [[k Hk] Hman]. pose proof (Hpk _ _ Hk) as Hid. subst k.
    intros Hd. eapply (IH rest) in Hd as (Hpk' & Ho & kept & Hkept & Hp & Hsub).
    + split; [done|]. split; [|by exists kept]. etrans; [|exact Ho]. split; [|done].
      intros k p Hp'. cbn. rewrite lookup_delete_Some. split; [by intros [_ ?]|].
      intros Hkp. split; [|done]. intros <-. congruence.
    + intros k p. cbn. rewrite lookup_delete_Some. intros [_ ?]. by apply Hpk.
    + cbn. apply (Permutation_cons_inv (a := row)). rewrite app_comm_cons, <-Hm.
      unfold managed_rows, select. rewrite (List_filter_perm _ _ _ (rows_delete _ _ _ Hk)).
      cbn. by rewrite Hman.
Qed.

Lemma insert_wanted_spec ids wanted d d' :
  policies_pk d → (∀ w, w ∈ wanted → w.1 = policy_key w.2) →
  insert_wanted now ids wanted d = Ok d' →
  policies_pk d' ∧ outside d d' ∧
  map row_key (managed_rows d') ≡ₚ map fst wanted ++ map row_key (managed_rows d).
Proof.
  revert ids d. induction wanted as [|[key p] wanted IH]; intros ids d Hpk Hkey; cbn.
  { by intros [= <-]. }
  intros (d1 & Hi & Hw)%bind_Ok. apply insert_policy_fresh in Hi as [-> Hfree].
  apply IH in Hw as (Hpk' & Ho & Hperm).
  - split; [done|]. split.
    + etrans; [|exact Ho]. split; [|done]. intros k p' Hp'. cbn. rewrite lookup_insert_Some.
      split; [intros [[_ <-]|[_ ?]]; done|]. intros Hk. right. split; [|done].
      intros <-. cbn in Hfree. congruence.
    + rewrite Hperm, Permutation_middle. f_equiv. unfold managed_rows, select. cbn [policies insert_audit with_audit_log with_policies].
      rewrite (List_filter_perm _ _ _ (rows_insert _ _ _ Hfree)). cbn.
      f_equiv. symmetry. apply (Hkey (key, p)). by left.
  - intros k p'. cbn. intros [[<- <-]|[_ ?]]%lookup_insert_Some; [done|by apply Hpk].
  - intros w Hin. apply Hkey. by right.
Qed.

Lemma nothing_unwanted existing wanted d n :
  map row_key existing ≡ₚ map fst wanted → drop_unwanted now existing wanted d n = ([], d, n).
Proof.
  revert wanted. induction existing as [|row existing IH]; intros wanted Hp; cbn in *.
  { apply Permutation_nil in Hp. by destruct wanted. }
  destruct (position _ wanted) as [i|] eqn:Ep.
  - apply position_Some in Ep as (w & Hw & He). kbool. apply IH.
    apply (Permutation_cons_inv (a := row_key row)). rewrite Hp.
    rewrite (swap_remove_perm _ _ _ Hw) at 1. cbn. by rewrite He.
  - assert (Hin : row_key row ∈ map fst wanted) by (rewrite <-Hp; by left).
    apply list_elem_of_fmap in Hin as (w & E & Hin). pose proof (position_None _ _ Ep w Hin) as Hw.
    cbn in Hw. kbool. exfalso. apply Hw. symmetry. exact E.
Qed.
End PolicyRows.

(** The config decides its policy rows.  After reconciling, the rows the
    config owns are, as rules, exactly the configured ones, each as often as it
    is configured; rows operators made, and every other table, are as they were;
    and reconciling again creates and deletes nothing. *)
Theorem reconcile_policies_settles `{UuidText} now ids desired d changes d' :
  policies_pk d → reconcile_policies now ids desired d = Ok (changes, d') →
  map row_key (managed_rows d') ≡ₚ map policy_key desired
  ∧ outside d d'
  ∧ ∀ now' ids', reconcile_policies now' ids' desired d' = Ok (mkPolicyChanges 0 0, d').
Proof.
  intros Hpk. unfold reconcile_policies at 1. fold (managed_rows d).
  set (wanted := map (λ p, (policy_key p, p)) desired).
  assert (Hkeys : map fst wanted = map policy_key desired) by (unfold wanted; by rewrite map_map).
  destruct (drop_unwanted now (managed_rows d) wanted d 0) as [[wanted' d1] n] eqn:Hd.
  apply (drop_unwanted_spec now _ []) in Hd as (Hpk1 & Ho1 & kept & Hkept & Hp & Hsub);
    [|done|by rewrite app_nil_r].
  intros (d2 & Hi & [= <- <-])%bind_Ok.
  apply insert_wanted_spec in Hi as (_ & Ho2 & Hperm); [|done|].
  2:{ intros w (p & -> & _)%Hsub%list_elem_of_fmap. done. }
  assert (Hall : map row_key (managed_rows d2) ≡ₚ map policy_key desired).
  { rewrite Hperm, Hkept, app_nil_r, Permutation_app_comm, <-Hp. by rewrite Hkeys. }
  split; [done|]. split; [by etrans|]. intros now' ids'. unfold reconcile_policies.
  fold (managed_rows d2). fold wanted.
  rewrite nothing_unwanted; [done|]. by rewrite Hall, Hkeys.
Qed.

(** ** Witnesses *)
Module ReconcileExample.
#[export] Existing Instance CryptoExample.primitives.
#[export] Existing Instance uuid_text_example.

Definition token (name hash : string) : ClientConfig :=
  mkClientConfig name Tier.Brokered [Mechanism.Brokered]
    (mkClientAuthConfig (Some hash) None) false.
(** A token moves from one client to the other. *)
Definition before : list ClientConfig := [token "a" "t1"; token "b" "t2"].
Definition after : list ClientConfig := [token "a" "t2"; token "c" "t1"].
Definition ids (n : nat) : Uuid := (100 + N.of_nat n)%N.
Definition later_ids (n : nat) : Uuid := (200 + N.of_nat n)%N.
Definition clients_before : Db :=
  match reconcile_clients ids before empty_db with Ok (_, d) => d | Err _ => empty_db end.

Definition desired : DesiredSecret :=
  mkDesiredSecret "example-api-token" "" 3 "bearer" None None ["prod"; "api"; "prod"] "hunter2".
Definition sdraw : SecretDraw := mkSecretDraw 1 2 CryptoExample.draw.
Definition provisioned_db : Db :=
  match reconcile_one_secret 5 CryptoExample.new_set sdraw desired empty_db with
  | Ok (_, d) => d | Err _ => empty_db end.

Definition allow (secret : string) : NewPolicy :=
  mkNewPolicy None (Some secret) None "proxy" "auto-approve" 0 (Array []) [] [] None None None
    "config".
Definition policies_before : Db :=
  match reconcile_policies 5 ids [allow "x"; allow "y"] empty_db with
  | Ok (_, d) => d | Err _ => empty_db end.
Definition policies_after : Db :=
  match reconcile_policies 6 later_ids [allow "y"; allow "z"; allow "z"] policies_before with
  | Ok (_, d) => d | Err _ => empty_db end.
End ReconcileExample.
Import ReconcileExample.

Lemma reconcile_clients_correct_witness :
  ∃ d', reconcile_clients later_ids after clients_before = Ok (tt, d')
    ∧ get_client_by_name "a" d' = Some (configured_row 100 (token "a" "t2")).
Proof.
  destruct (reconcile_clients_correct after later_ids clients_before) as (d' & Hd' & _).
  - constructor.
    + intros k r Hr. apply elem_of_map_to_list in Hr. vm_compute in Hr.
      repeat (apply elem_of_cons in Hr as [[= -> ->]|Hr]; [reflexivity|]). by apply elem_of_nil in Hr.
    + intros k k' r r' Hr Hr' E. apply elem_of_map_to_list in Hr, Hr'. vm_compute in Hr, Hr'.
      repeat (apply elem_of_cons in Hr as [[= -> ->]|Hr];
        [repeat (apply elem_of_cons in Hr' as [[= -> ->]|Hr']; [done|]); by apply elem_of_nil in Hr'|]).
      by apply elem_of_nil in Hr.
  - intros i. apply eq_None_not_Some. intros [r Hr]. apply elem_of_map_to_list in Hr.
    vm_compute map_to_list in Hr.
    repeat (apply elem_of_cons in Hr as [Hr|Hr];
      [injection Hr as Hr _; unfold later_ids in Hr; lia|]). by apply elem_of_nil in Hr.
  - intros i j. unfold later_ids. lia.
  - apply (bool_decide_unpack _). vm_compute. exact I.
  - intros c c' Hc Hc' Hn. unfold after in *.
    apply elem_of_cons in Hc as [-> |[-> |[]%elem_of_nil]%elem_of_cons];
      apply elem_of_cons in Hc' as [-> |[-> |[]%elem_of_nil]%elem_of_cons]; done.
  - exists d'. split; [exact Hd'|]. vm_compute in Hd'. injection Hd' as <-. vm_compute. reflexivity.
Defined.

Lemma reconcile_secret_settles_witness :
  provisioned CryptoExample.new_set desired provisioned_db.
Proof.
  apply (reconcile_secret_settles 5 CryptoExample.new_set sdraw desired empty_db
    SecretChange.Created provisioned_db).
  - apply inv_empty.
  - repeat split; reflexivity.
  - vm_compute. reflexivity.
Defined.

Lemma reconcile_policies_settles_witness :
  map row_key (managed_rows policies_after) ≡ₚ map policy_key [allow "y"; allow "z"; allow "z"].
Proof.
  apply (reconcile_policies_settles 6 later_ids [allow "y"; allow "z"; allow "z"] policies_before
    (mkPolicyChanges 2 1) policies_after).
  - intros k p Hp. apply elem_of_map_to_list in Hp. vm_compute in Hp.
    repeat (apply elem_of_cons in Hp as [[= -> ->]|Hp]; [reflexivity|]). by apply elem_of_nil in Hp.
  - vm_compute. reflexivity.
Defined.
