(* ===== verification/Settle.v ===== *)
(** Startup as a whole leaves the tables at a fixed point: applying the same
    configuration again finds nothing to do, for the client rows, the secrets
    and the policy rows together ([server/src/db/clients.rs], [provision.rs]). *)

From S2P Require Import Prelude RustStr Types Json Crypto Examples Store Requests Grants.
From S2P Require Import ApiExt Secrets UiExt Policies Clients Provision Notify Lifecycle Refinement.
From S2P Require Import Safety Reconcile.
Open Scope string_scope.

(** ** Clients, again *)
Section ClientsAgain.
Context (all : list ClientConfig).
Implicit Types (d : Db) (r : ClientRow) (c : ClientConfig).

(** Every configured client has its row, and the others are retired. *)
Record clients_settled d : Prop := mk_clients_settled {
  cs_wf : clients_wf d;
  cs_rows : ∀ c, c ∈ all → ∃ k, clients d !! k = Some (configured_row k c);
  cs_others : ∀ k r, clients d !! k = Some r → cl_name r ∉ map cc_name all → retire r = r
}.

Lemma reconcile_clients_settled ids d d' :
  clients_wf d → (∀ i, clients d !! ids i = None) → (∀ i j, ids i = ids j → i = j) →
  NoDup (map cc_name all) → credentials_distinct all →
  reconcile_clients ids all d = Ok (tt, d') → clients_settled d' ∧ only_clients d d'.
Proof.
  intros Hwf Hfresh Hinj Hnd Hcred Hrec.
  assert (Hnames : ∀ c c', c ∈ all → c' ∈ all → cc_name c = cc_name c' → c = c')
    by by apply NoDup_map_inj.
  destruct (upsert_all all Hnames all ids (released all d)) as (d2 & ids' & Hd2 & Ha & Ho & _);
    try done; [by apply released_applied|].
  unfold reconcile_clients in Hrec. fold (released all d) in Hrec. rewrite Hd2 in Hrec.
  injection Hrec as <-. split; [|unfold only_clients in *; by rewrite Ho].
  constructor; [apply Ha| |].
  - intros c Hc. apply (ap_done _ _ _ _ Ha c Hc). by intros ?%elem_of_nil.
  - intros k r Hr Hn. destruct (ap_rows _ _ _ _ Ha k r Hr) as [(c & Hc & _ & ->)|[_ Hd]].
    + destruct Hn. by apply (list_elem_of_fmap_2 cc_name).
    + by destruct Hd as [?%elem_of_nil|[_ ?]].
Qed.

(** The loop's state when [todo] is left and everything was settled before. *)
Definition partial (todo : list ClientConfig) d : Db :=
  with_clients (update_rows (λ r, contains (map cc_name todo) (cl_name r)) release_binding) d.
Lemma lookup_partial todo d k :
  clients (partial todo d) !! k
  = (λ r, if contains (map cc_name todo) (cl_name r) then release_binding r else r) <$> clients d !! k.
Proof. apply lookup_update_rows. Qed.
Lemma db_clients_eq d m : m = clients d → with_clients (λ _, m) d = d.
Proof. intros ->. by destruct d. Qed.
Lemma partial_nil d : partial [] d = d.
Proof.
  apply db_clients_eq, map_eq. intros k. rewrite lookup_update_rows. by destruct (clients d !! k).
Qed.
Lemma retired_no_credentials r : retire r = r → no_credentials r.
Proof. by intros <-. Qed.

Lemma upsert_again c todo d new :
  clients_settled d → credentials_distinct all → (∀ x, x ∈ c :: todo → x ∈ all) →
  NoDup (map cc_name (c :: todo)) →
  upsert_client new c (partial (c :: todo) d) = Ok (partial todo d).
Proof.
  intros [[Hpk Hn] Hrows Hothers] Hcred Hsub [Hnot _]%NoDup_cons.
  destruct (Hrows c) as [k Hk]; [apply Hsub; by left|].
  assert (Hrow : clients (partial (c :: todo) d) !! k = Some (release_binding (configured_row k c))).
  { rewrite lookup_partial, Hk. cbn -[contains]. unfold contains. by rewrite bool_decide_eq_true_2 by by left. }
  assert (Hfind : find_row (λ r, eqb (cl_name r) (cc_name c)) (clients (partial (c :: todo) d))
                  = Some (release_binding (configured_row k c))).
  { apply (find_row_unique _ _ k); [done|by rewrite eqb_refl|]. intros k' r' Hr' E. kbool.
    rewrite lookup_partial in Hr'. apply fmap_Some in Hr' as (r0 & Hr0 & ->).
    assert (k' = k) as ->.
    { apply (Hn k' k r0 (configured_row k c) Hr0 Hk). by destruct (contains _ _). }
    rewrite Hk in Hr0. injection Hr0 as <-.
    cbn -[contains]. unfold contains. by rewrite bool_decide_eq_true_2 by by left. }
  unfold upsert_client. rewrite Hfind. cbn [is_none andb cl_id release_binding configured_row].
  rewrite (proj2 (exists_row_false _ _)).
  - f_equal. unfold partial, with_clients. cbn. f_equal. apply map_eq. intros i.
    rewrite lookup_insert, !lookup_update_rows. destruct (decide (k = i)) as [<-|Hne].
    + rewrite Hk. cbn -[contains]. unfold contains. by rewrite bool_decide_eq_false_2.
    + destruct (clients d !! i) as [r0|] eqn:Hi; [|done]. cbn [fmap option_fmap option_map]. f_equal.
      unfold contains. cbn [map]. destruct (decide (cl_name r0 = cc_name c)) as [E|E].
      * destruct Hne. symmetry. by apply (Hn i k r0 (configured_row k c)).
      * rewrite (bool_decide_ext _ (cl_name r0 ∈ map cc_name todo)); [done|]. rewrite elem_of_cons. naive_solver.
  - intros k' r' Hr'. rewrite lookup_partial in Hr'. apply fmap_Some in Hr' as (r0 & Hr0 & ->).
    destruct (contains _ (cl_name r0)) eqn:Ec.
    { rewrite same_credential_detached by done. apply andb_false_r. }
    destruct (decide (cl_name r0 ∈ map cc_name all)) as [Hin|Hout].
    + apply list_elem_of_fmap in Hin as (c' & En & Hc'). destruct (Hrows c' Hc') as [k2 Hk2].
      assert (k' = k2) as -> by (by apply (Hn _ _ r0 (configured_row k2 c'))).
      rewrite Hr0 in Hk2. injection Hk2 as ->.
      assert (Hne : cc_name c ≠ cc_name c').
      { intros E. apply bool_decide_eq_false in Ec. apply Ec. cbn. rewrite <-E. by left. }
      pose proof (Hcred c c' (Hsub c ltac:(by left)) Hc' Hne) as Hs.
      apply andb_false_iff. right. exact Hs.
    + rewrite same_credential_detached by (apply retired_no_credentials; by eapply Hothers).
      apply andb_false_r.
Qed.
Lemma upsert_all_again todo ids d :
  clients_settled d → credentials_distinct all → (∀ x, x ∈ todo → x ∈ all) →
  NoDup (map cc_name todo) → upsert_clients ids todo (partial todo d) = Ok d.
Proof.
  intros Hs Hcred. revert ids. induction todo as [|c todo IH]; intros ids Hsub Hnd; cbn [upsert_clients].
  { by rewrite partial_nil. }
  rewrite (upsert_again c todo d _ Hs Hcred Hsub Hnd). apply IH.
  - intros x Hx. apply Hsub. by right.
  - by apply NoDup_cons in Hnd as [_ ?].
Qed.
Lemma reconcile_clients_again ids d :
  clients_settled d → credentials_distinct all → NoDup (map cc_name all) →
  reconcile_clients ids all d = Ok (tt, d).
Proof.
  intros Hs Hcred Hnd. unfold reconcile_clients. fold (released all d).
  assert (E : released all d = partial all d).
  { change (released all d) with (with_clients (λ _, clients (released all d)) d).
    change (partial all d) with (with_clients (λ _, clients (partial all d)) d).
    unfold with_clients. f_equal. apply map_eq. intros k. rewrite lookup_released, lookup_partial.
    destruct (clients d !! k) as [r|] eqn:Hk; [|done]. cbn [fmap option_fmap option_map]. f_equal.
    destruct (contains (map cc_name all) (cl_name r)) eqn:Ec; [done|].
    apply (cs_others _ Hs k r Hk). by apply bool_decide_eq_false in Ec. }
  by rewrite E, upsert_all_again.
Qed.
End ClientsAgain.

(** ** Secrets, one after another *)
Section SecretsAgain.
Context `{UuidText, Primitives}.
Implicit Types (d : Db) (w : DesiredSecret).

(** A secret an operation leaves alone: its row, versions and tags. *)
Definition untouched (sid : Uuid) d d' : Prop :=
  secrets d' !! sid = secrets d !! sid
  ∧ (∀ k v, sv_secret_id v = sid → secret_versions d !! k = Some v → secret_versions d' !! k = Some v)
  ∧ (∀ t, (sid, t) ∈ secret_tags d' ↔ (sid, t) ∈ secret_tags d).
#[local] Instance untouched_preorder sid : PreOrder (untouched sid).
Proof.
  split; [by intros d|]. intros d1 d2 d3 (S1 & V1 & T1) (S2 & V2 & T2). split; [by rewrite S2|].
  split; [eauto|]. intros t. by rewrite T2.
Qed.

Lemma elem_get_tags sid t d : t ∈ get_tags_for_secret sid d ↔ (sid, t) ∈ secret_tags d.
Proof.
  unfold get_tags_for_secret. rewrite (sort_by_key_perm bytes_key), list_elem_of_fmap. split.
  - intros ([a x] & -> & Hin). rewrite list_elem_of_In, filter_In, <-list_elem_of_In, elem_of_elements in Hin.
    destruct Hin as [Hin E]. cbn in *. kbool. by subst.
  - intros Hin. exists (sid, t). split; [done|].
    rewrite list_elem_of_In, filter_In, <-list_elem_of_In, elem_of_elements.
    split; [done|apply eqb_refl].
Qed.

Lemma provisioned_untouched keyset w d d' s :
  db_wf d → db_wf d' → provisioned keyset w d →
  get_secret_by_name (ds_name w) d = Some s → untouched (sr_id s) d d' → provisioned keyset w d'.
Proof.
  intros Hwf Hwf' (s' & v & Hs & Hm & Ht & Hv & Ho) Hs0 (HS & HV & HT).
  rewrite Hs in Hs0. injection Hs0 as ->. pose proof (get_secret_by_name_Some _ _ _ Hwf Hs) as [Hrow Hn].
  exists s, v. split; [apply get_secret_by_name_at; [done|by rewrite HS|done]|]. split; [done|].
  split; [|split; [|done]].
  - rewrite (get_tags_spec d' (sr_id s) (ds_tags w)); [done|]. intros t.
    by rewrite HT, <-elem_get_tags, Ht, dedup_elem, (sort_by_key_perm bytes_key).
  - apply find_row_Some in Hv as [[k Hk] [E1 E2%Z.eqb_eq]%andb_true_iff]. kbool.
    by apply (get_secret_version_at _ k); [|apply HV| |].
Qed.

Lemma untouched_tags sid sid' tags d d' :
  sid ≠ sid' → replace_tags sid' tags d = Ok d' → untouched sid d d'.
Proof.
  intros Hne Ht. unfold replace_tags, insert_tags in Ht. destruct (_ && _); [done|].
  injection Ht as <-. split; [done|]. split; [done|]. intros t. cbn.
  rewrite elem_of_union, elem_of_list_to_set, elem_of_filter, list_elem_of_fmap. cbn.
  naive_solver.
Qed.
Lemma untouched_put_secret sid s d : sid ≠ sr_id s → untouched sid d (put_secret s d).
Proof. intros Hne. split; [cbn; by rewrite lookup_insert_ne|done]. Qed.
Lemma untouched_version sid v d d' : insert_secret_version_row v d = Ok d' → untouched sid d d'.
Proof.
  intros (-> & [Hf _] & _)%insert_version_row_Ok. split; [done|]. split; [|done].
  intros k v' _ Hk. cbn. rewrite lookup_insert_ne; [done|]. intros <-. congruence.
Qed.
Lemma untouched_insert_version now keyset r sid sid' n value d d' :
  insert_version now keyset r sid' n value d = Ok d' → untouched sid d d'.
Proof. intros (v & Hv & _)%insert_version_Ok. by eapply untouched_version. Qed.

Lemma reconcile_one_untouched now keyset r w d c d' sid s :
  db_wf d → secrets d !! sid = Some s → sr_name s ≠ ds_name w →
  reconcile_one_secret now keyset r w d = Ok (c, d') → untouched sid d d'.
Proof.
  intros Hwf Hs Hne. unfold reconcile_one_secret. destruct (get_secret_by_name _ d) as [row|] eqn:Hrow.
  - apply get_secret_by_name_Some in Hrow as [Hr Hn]; [|done].
    assert (Hid : sid ≠ sr_id row) by (intros ->; rewrite Hr in Hs; injection Hs as ->; congruence).
    intros (d1 & Hm & HH)%bind_Ok. apply bind_Ok in HH as (same & _ & HH).
    apply bind_Ok in HH as (d2 & Hrot & [= _ <-]).
    pose proof (metadata_step now row w d d1 Hr Hn Hm) as (s1 & Hs1 & Hid1 & _). trans d1.
    + destruct (metadata_differs _ _ _ _); [|by injection Hm as <-]. unfold sync_metadata in Hm.
      destruct (negb _); [done|]. apply bind_Ok in Hm as (d0 & Ht & [= <-]).
      trans (put_secret (adopt now w row) d); [by apply untouched_put_secret|].
      exact (untouched_tags _ _ _ _ _ Hid Ht).
    + destruct (negb same); [|by injection Hrot as <-]. unfold rotate_in in Hrot.
      rewrite Hs1 in Hrot. cbn [ok_or mbind result_bind] in Hrot. apply bind_Ok in Hrot as (n & _ & Hrot).
      apply bind_Ok in Hrot as (d3 & Hv & [= <-]). rewrite <-Hid1 in Hid.
      trans (put_secret (set_version n (sr_operator_vetted s1) now s1) d1);
        [by apply untouched_put_secret|].
      exact (untouched_insert_version _ _ _ _ _ _ _ _ _ Hv).
  - intros (d1 & Hi & HH)%bind_Ok. apply bind_Ok in HH as (d2 & Hv & HH).
    apply bind_Ok in HH as (d3 & Ht & [= _ <-]). apply insert_secret_Ok in Hi as [-> [Hfree _]].
    assert (Hid : sid ≠ sd_secret_id r) by (intros ->; cbn in Hfree; congruence).
    trans (put_secret (provisioned_row now (sd_secret_id r) w) d); [by apply untouched_put_secret|].
    trans d2; [by eapply untouched_insert_version|]. exact (untouched_tags _ _ _ _ _ Hid Ht).
Qed.

(** The tables secrets do not live in. *)
Definition same_rules d d' : Prop := clients d' = clients d ∧ policies d' = policies d.
#[local] Instance same_rules_preorder : PreOrder same_rules.
Proof. split; [by split|]. intros d1 d2 d3 [C1 P1] [C2 P2]. split; congruence. Qed.

Lemma same_rules_tags sid tags d d' : replace_tags sid tags d = Ok d' → same_rules d d'.
Proof. unfold replace_tags, insert_tags. destruct (_ && _); [done|]. by intros [= <-]. Qed.
Lemma same_rules_version now keyset r sid n value d d' :
  insert_version now keyset r sid n value d = Ok d' → same_rules d d'.
Proof. by intros (v & (-> & _)%insert_version_row_Ok & _)%insert_version_Ok. Qed.
Lemma same_rules_put s d : same_rules d (put_secret s d).
Proof. done. Qed.

Lemma reconcile_one_rules now keyset r w d c d' :
  reconcile_one_secret now keyset r w d = Ok (c, d') → same_rules d d'.
Proof.
  unfold reconcile_one_secret. destruct (get_secret_by_name _ d) as [row|].
  - intros (d1 & Hm & HH)%bind_Ok. apply bind_Ok in HH as (same & _ & HH).
    apply bind_Ok in HH as (d2 & Hrot & [= _ <-]). trans d1.
    + destruct (metadata_differs _ _ _ _); [|by injection Hm as <-]. unfold sync_metadata in Hm.
      destruct (negb _); [done|]. apply bind_Ok in Hm as (d0 & Ht & [= <-]).
      exact (same_rules_tags _ _ _ _ Ht).
    + destruct (negb same); [|by injection Hrot as <-]. unfold rotate_in in Hrot.
      apply bind_Ok in Hrot as (s1 & _ & Hrot). apply bind_Ok in Hrot as (n & _ & Hrot).
      apply bind_Ok in Hrot as (d3 & Hv & [= <-]). exact (same_rules_version _ _ _ _ _ _ _ _ Hv).
  - intros (d1 & Hi & HH)%bind_Ok. apply bind_Ok in HH as (d2 & Hv & HH).
    apply bind_Ok in HH as (d3 & Ht & [= _ <-]). apply insert_secret_Ok in Hi as [-> _].
    trans d2; [exact (same_rules_version _ _ _ _ _ _ _ _ Hv)|exact (same_rules_tags _ _ _ _ Ht)].
Qed.

(** Every secret of another name is left alone. *)
Definition untouched_outside (names : list string) d d' : Prop := ∀ sid s,
  secrets d !! sid = Some s → sr_name s ∉ names → untouched sid d d'.

Lemma reconcile_each_settles now keyset draws ws before d changes d' :
  inv now d → (∀ i, draw_ok (sd_draw (draws i))) → NoDup (map ds_name ws) →
  (∀ w, w ∈ before → provisioned keyset w d ∧ ds_name w ∉ map ds_name ws) →
  reconcile_each now keyset draws ws d = Ok (changes, d') →
  inv now d' ∧ same_rules d d' ∧ untouched_outside (map ds_name ws) d d'
  ∧ ∀ w, w ∈ (before ++ ws)%list → provisioned keyset w d'.
Proof.
  revert draws before d changes. induction ws as [|w ws IH]; intros draws before d changes Hi Hdraw Hnd Hb; cbn [reconcile_each].
  { intros [= <- <-]. split; [done|]. split; [done|]. split; [by intros ???|]. intros w.
    rewrite app_nil_r. intros Hw. by apply Hb. }
  cbn [map] in *. apply NoDup_cons in Hnd as [Hnot Hnd].
  intros ([c d1] & H1 & HH)%bind_Ok. apply bind_Ok in HH as ([cs d2] & H2 & [= _ <-]).
  pose proof (steps_inv _ _ _ Hi (reconcile_one_secret_steps now keyset _ w d _ _ Hi H1)) as Hi1.
  pose proof (reconcile_one_rules _ _ _ _ _ _ _ H1) as Hr1.
  eapply (IH _ (before ++ [w])%list) in H2 as (Hi2 & Hr2 & Hu2 & Hp); [|exact Hi1|exact (λ i, Hdraw (S i))|exact Hnd|].
  - split; [done|]. split; [by trans d1|]. split.
    + intros sid s Hs [Hne Hn]%not_elem_of_cons.
      assert (Hu1 : untouched sid d d1) by (by eapply (reconcile_one_untouched now keyset _ w); [apply Hi|..]).
      trans d1; [done|]. apply (Hu2 sid s); [|done]. by rewrite (proj1 Hu1).
    + intros w'. rewrite (app_assoc before [w] ws : (before ++ w :: ws)%list = _). apply Hp.
  - intros w' [Hw'| ->%list_elem_of_singleton]%elem_of_app.
    + destruct (Hb w' Hw') as [Hprov Hn]. apply not_elem_of_cons in Hn as [Hne Hn]. split; [|done].
      destruct Hprov as (s & v & Hs & Hm & Hrest).
      pose proof (get_secret_by_name_Some _ _ _ (inv_wf _ _ Hi) Hs) as [Hrow Hname].
      apply (provisioned_untouched keyset w' d d1 s); [apply Hi|apply Hi1|by exists s, v|done|].
      eapply (reconcile_one_untouched now keyset _ w); [apply Hi|exact Hrow|by rewrite Hname|exact H1].
    + split; [|done]. destruct (reconcile_secret_settles now keyset _ w d c d1 Hi (Hdraw 0%nat) H1) as [Hw _]. exact Hw.
Qed.

Lemma reconcile_each_again now keyset draws ws d :
  (∀ w, w ∈ ws → provisioned keyset w d) →
  reconcile_each now keyset draws ws d = Ok (map (λ w, (ds_name w, SecretChange.Unchanged)) ws, d).
Proof.
  revert draws. induction ws as [|w ws IH]; intros draws Hp; [done|]. cbn [reconcile_each].
  rewrite (provisioned_unchanged now keyset) by (apply Hp; by left). cbn [mbind result_bind].
  by rewrite IH by (intros w' Hw'; apply Hp; by right).
Qed.

(** Deleting rows found stale: a row that went meanwhile counts as done. *)
Lemma fold_log_rules {A} (f : A → AuditEvent) now l d :
  same_rules d (fold_left (λ d x, insert_audit now (f x) d) l d).
Proof. revert d. induction l as [|x l IH]; intros d; [done|]. cbn. etrans; [|apply IH]. done. Qed.

Lemma delete_one now s d x d' :
  inv now d → secrets d !! sr_id s = Some s →
  delete_secret_audited now (sr_id s) (sr_current_version s) CONFIG_ACTOR d = Ok (x, d') →
  inv now d' ∧ same_rules d d' ∧ secrets d' = delete (sr_id s) (secrets d)
  ∧ ∀ sid, sid ≠ sr_id s → untouched sid d d'.
Proof.
  intros Hi Hs Hd. pose proof (delete_secret_steps now d (inv_wf _ _ Hi) _ _ _ _ _ Hd) as Hst.
  pose proof (steps_inv _ _ _ Hi Hst) as Hi'.
  assert (Hrules : same_rules d d' ∧ ∃ n, x = DeleteSecretOutcome.Deleted n).
  { clear Hst Hi'. unfold delete_secret_audited in Hd. rewrite Hs, Z.eqb_refl in Hd. injection Hd as <- <-.
    split; [|by eexists]. exact (fold_log_rules _ now _ _). }
  destruct Hrules as [Hrules [n ->]]. 
  destruct (delete_secret_tables now _ _ _ _ _ _ _ Hs Hd) as (S1 & V1 & T1 & _).
  split; [done|]. split; [done|]. split; [done|].
  intros sid Hne. split; [by rewrite S1, lookup_delete_ne|]. split.
  - intros k v <- Hv. rewrite V1, lookup_delete_rows. split; [done|].
    unfold eqb. by apply bool_decide_eq_false.
  - intros t. rewrite T1, elem_of_filter. cbn. naive_solver.
Qed.

Lemma delete_each_spec now stale d d' :
  inv now d →
  (∀ s, s ∈ stale → secrets d !! sr_id s = Some s ∨ secrets d !! sr_id s = None) →
  delete_each now stale d = Ok d' →
  inv now d' ∧ same_rules d d'
  ∧ (∀ k, k ∈ map sr_id stale → secrets d' !! k = None)
  ∧ (∀ k, k ∉ map sr_id stale → untouched k d d').
Proof.
  revert d. induction stale as [|s stale IH]; intros d Hi Hst; cbn [delete_each map].
  { intros [= <-]. split; [done|]. split; [done|]. split; [by intros k ?%elem_of_nil|done]. }
  intros ([x d1] & H1 & H2)%bind_Ok.
  assert (Hstep : inv now d1 ∧ same_rules d d1 ∧ secrets d1 = delete (sr_id s) (secrets d)
                  ∧ ∀ sid, sid ≠ sr_id s → untouched sid d d1).
  { destruct (Hst s) as [Hs|Hs]; [by left|by eapply delete_one|].
    unfold delete_secret_audited in H1. rewrite Hs in H1. injection H1 as _ <-.
    by rewrite delete_id. }
  destruct Hstep as (Hi1 & Hr1 & Hs1 & Hu1).
  apply IH in H2 as (Hi' & Hr' & Hgone & Hu'); [|done|].
  - split; [done|]. split; [by trans d1|]. split.
    + intros k [->|Hk]%elem_of_cons; [|by apply Hgone].
      destruct (decide (sr_id s ∈ map sr_id stale)) as [Hin|Hout]; [by apply Hgone|].
      rewrite (proj1 (Hu' _ Hout)), Hs1. apply lookup_delete_eq.
    + intros k [Hne Hk]%not_elem_of_cons. trans d1; [by apply Hu1|by apply Hu'].
  - intros s' Hs'. rewrite Hs1. destruct (decide (sr_id s' = sr_id s)) as [E|E].
    + right. rewrite E. apply lookup_delete_eq.
    + rewrite lookup_delete_ne by done. apply Hst. by right.
Qed.

(** The secrets the config decides about, after all of them were reconciled. *)
Definition secrets_settled keyset (ws : list DesiredSecret) d : Prop :=
  (∀ w, w ∈ ws → provisioned keyset w d)
  ∧ (∀ k s, secrets d !! k = Some s → sr_managed_by_config s = true → sr_name s ∈ map ds_name ws).
(** A secret an operator made, and the config does not name, is left alone. *)
Definition operators_kept ws d d' : Prop := ∀ sid s,
  secrets d !! sid = Some s → sr_managed_by_config s = false → sr_name s ∉ map ds_name ws →
  untouched sid d d'.

Lemma reconcile_secrets_settles now keyset draws ws d changes d' :
  inv now d → (∀ i, draw_ok (sd_draw (draws i))) → NoDup (map ds_name ws) →
  reconcile_secrets now keyset draws ws d = Ok (changes, d') →
  inv now d' ∧ same_rules d d' ∧ secrets_settled keyset ws d' ∧ operators_kept ws d d'.
Proof.
  intros Hi Hdraw Hnd ([cs d1] & H1 & (d2 & H2 & [= _ <-])%bind_Ok)%bind_Ok.
  apply (reconcile_each_settles _ _ _ _ []) in H1 as (Hi1 & Hr1 & Hu1 & Hp1);
    [|done|done|done|by intros w ?%elem_of_nil].
  set (stale := select _ (secrets d1)) in H2.
  assert (Hstale : ∀ k s, secrets d1 !! k = Some s →
            k ∈ map sr_id stale ↔ sr_managed_by_config s = true ∧ sr_name s ∉ map ds_name ws).
  { intros k s Hs. pose proof (wf_secret_pk _ (inv_wf _ _ Hi1)) as Hpk. split.
    - intros (s' & -> & [[k' Hs'] E]%elem_select)%list_elem_of_fmap.
      rewrite (Hpk _ _ Hs') in Hs. rewrite Hs' in Hs. injection Hs as <-.
      apply andb_true_iff in E as [Em En]. split; [done|]. by apply negb_true_iff, bool_decide_eq_false in En.
    - intros [Em En]. rewrite <-(Hpk _ _ Hs). apply list_elem_of_fmap_2, elem_select.
      split; [by exists k|]. rewrite Em. cbn [andb]. apply negb_true_iff. by apply bool_decide_eq_false. }
  apply delete_each_spec in H2 as (Hi2 & Hr2 & Hgone & Hkeep); [|done|].
  2:{ intros s [[k Hk] _]%elem_select. left. by rewrite (wf_secret_pk _ (inv_wf _ _ Hi1) _ _ Hk). }
  split; [done|]. split; [by trans d1|]. split; [split|].
  - intros w Hw. pose proof (Hp1 w Hw) as Hp. pose proof Hp as (s & v & Hs & _).
    pose proof (get_secret_by_name_Some _ _ _ (inv_wf _ _ Hi1) Hs) as [Hrow Hname].
    apply (provisioned_untouched keyset w d1 d2 s); [apply Hi1|apply Hi2|done|done|].
    apply Hkeep. rewrite (Hstale _ _ Hrow), Hname. intros [_ Hn]. apply Hn.
    by apply list_elem_of_fmap_2.
  - intros k s Hs Hm. destruct (decide (k ∈ map sr_id stale)) as [Hin|Hout].
    { by rewrite (Hgone k Hin) in Hs. }
    rewrite (proj1 (Hkeep k Hout)) in Hs. rewrite (Hstale k s Hs) in Hout.
    destruct (decide (sr_name s ∈ map ds_name ws)); [done|]. by destruct Hout.
  - intros sid s Hs Hm Hn. pose proof (Hu1 sid s Hs Hn) as Hu. trans d1; [done|]. apply Hkeep.
    rewrite (Hstale sid s); [intros [? _]; congruence|]. by rewrite (proj1 Hu).
Qed.

(** Settled secrets, reconciled again. *)
Lemma reconcile_secrets_again now keyset draws ws d :
  secrets_settled keyset ws d →
  reconcile_secrets now keyset draws ws d
  = Ok (map (λ w, (ds_name w, SecretChange.Unchanged)) ws, d).
Proof.
  intros [Hp Hm]. unfold reconcile_secrets. rewrite (reconcile_each_again now keyset) by done.
  cbn [mbind result_bind]. match goal with |- context [delete_each _ ?l _] => assert (E : l = []) end.
  { apply elem_of_nil_inv. intros s [[k Hk] [E1 E2]%andb_true_iff]%elem_select.
    apply negb_true_iff, bool_decide_eq_false in E2. apply E2. by eapply Hm. }
  by rewrite E.
Qed.

(** Operations that leave the secrets' tables alone. *)
Definition same_secrets d d' : Prop :=
  secrets d' = secrets d ∧ secret_versions d' = secret_versions d ∧ secret_tags d' = secret_tags d.
Lemma secrets_settled_same keyset ws d d' :
  same_secrets d d' → secrets_settled keyset ws d → secrets_settled keyset ws d'.
Proof.
  intros (E1 & E2 & E3) [Hp Hm]. split; [|by rewrite E1]. intros w Hw. specialize (Hp w Hw).
  unfold provisioned, get_secret_by_name, get_tags_for_secret, get_secret_version in *.
  by rewrite E1, E2, E3.
Qed.
Lemma outside_secrets d d' : outside d d' → same_secrets d d' ∧ clients d' = clients d.
Proof.
  intros [_ E]. split; [split; [|split]|].
  - exact (f_equal secrets E).
  - exact (f_equal secret_versions E).
  - exact (f_equal secret_tags E).
  - exact (f_equal clients E).
Qed.
End SecretsAgain.
