(* ===== verification/Api.v ===== *)
(** What the API handlers share: the error type ([api/error.rs]), handlers as
    sequences of database calls among other clients' calls, client
    authentication ([authn/client.rs]), ownership and revalidation
    ([api/mod.rs]) and the concurrency slots ([state.rs]). *)

From S2P Require Import Prelude RustStr Types Json Crypto Examples SigV4 Http Store Requests Grants ApiExt.
From S2P Require Import Secrets UiExt Policies Clients Provision Notify Lifecycle Refinement Safety.
Open Scope string_scope.

(** ** Errors *)
Inductive ApiFailure :=
| Unauthenticated | NotFound | InvalidRequest (m : string) | MethodNotAllowed
| RequestTooLarge (m : string) | InvalidPath (m : string) | WrongMechanism
| IdempotencyKeyReuse | SecretExists | PolicyDenied (reason : string) | RevalidationFailed
| TooManyPending | TooManyWaits | TooManyStreams | TooManyDeposits
| GrantExhausted | GrantExpired | PayloadLost | BodyTooLarge | BadCredentialEncoding
| UpstreamUnreachable | UpstreamTimeout | Internal (what : string).

Definition status_code_message (e : ApiFailure) : Z * string * string :=
  match e with
  | Unauthenticated => (401, "unauthenticated", "authentication required")
  | NotFound => (404, "not-found", "not found")
  | InvalidRequest m => (400, "invalid-request", m)
  | MethodNotAllowed => (405, "method-not-allowed", "method not allowed on this route")
  | RequestTooLarge m => (400, "request-too-large", m)
  | InvalidPath m => (400, "invalid-path", m)
  | WrongMechanism =>
      (400, "wrong-mechanism", "grant mechanism does not support this endpoint")
  | IdempotencyKeyReuse =>
      (409, "idempotency-key-reuse", "idempotency key was already used with a different payload")
  | SecretExists =>
      (409, "secret-exists", "a secret with this name already exists; rotation is operator-only")
  | PolicyDenied reason => (403, "policy-denied", reason)
  | RevalidationFailed => (403, "revalidation-failed", "grant is no longer usable")
  | TooManyPending => (429, "too-many-pending", "per-client pending request cap reached")
  | TooManyWaits => (429, "too-many-waits", "per-client concurrent wait cap reached")
  | TooManyStreams => (429, "too-many-streams", "per-client concurrent proxy stream cap reached")
  | TooManyDeposits => (429, "too-many-deposits", "per-client secret deposit rate cap reached")
  | GrantExhausted => (410, "grant-exhausted", "grant has no uses remaining")
  | GrantExpired => (410, "grant-expired", "grant is revoked or expired")
  | PayloadLost =>
      (410, "payload-lost",
        "the grant payload is no longer available; submit a new access request")
  | BodyTooLarge => (413, "body-too-large", "request body exceeds the proxy limit")
  | BadCredentialEncoding =>
      (502, "bad-credential-encoding", "credential cannot be encoded for header injection")
  | UpstreamUnreachable => (502, "upstream-unreachable", "upstream request failed")
  | UpstreamTimeout => (504, "upstream-timeout", "proxy stream deadline elapsed")
  | Internal _ => (500, "internal", "internal error")
  end%Z.

(** ** Handlers

    A handler is a sequence of database calls; between two of them other
    handlers run.  [Env n w] is the world the handler's [n]-th call finds when
    the call before left [w], or [None] when the call fails. *)
Definition Env : Type := nat → World → option World.
Definition St : Type := nat * World.
Definition Handler (E A : Type) : Type := Env → St → result E A * St.
Notation Api := (Handler ApiFailure).

(** What a handler of either surface (the API, the operator's pages) answers
    when the database fails. *)
Class DbFailure (E : Type) := database_failure : E.
#[export] Instance ApiFailure_db : DbFailure ApiFailure := Internal "database".

#[export] Instance Handler_ret E : MRet (Handler E) := λ A a env s, (Ok a, s).
#[export] Instance Handler_bind E : MBind (Handler E) := λ A B f m env s,
  match m env s with
  | (Ok a, s') => f a env s'
  | (Err e, s') => (Err e, s')
  end.
Definition throw {E A} (e : E) : Handler E A := λ env s, (Err e, s).
Definition lift {E A} (r : result E A) : Handler E A := λ env s, (r, s).

(** A [SELECT]. *)
Definition query `{DbFailure E} {A} (f : DateTime → Db → A) : Handler E A := λ env '(n, w),
  match env n w with
  | Some w' => (Ok (f w'.1 w'.2), (S n, w'))
  | None => (Err database_failure, (S n, w))
  end.
(** A transaction. *)
Definition transact `{DbFailure E} {A} (f : DateTime → Db → result DbError (A * Db))
  : Handler E A := λ env '(n, w),
  match env n w with
  | Some w' =>
      match f w'.1 w'.2 with
      | Ok (a, d) => (Ok a, (S n, (w'.1, d)))
      | Err _ => (Err database_failure, (S n, w'))
      end
  | None => (Err database_failure, (S n, w))
  end.

(** What other handlers do between two calls is what the store allows. *)
Definition env_ok `{UuidText, Primitives} (env : Env) : Prop :=
  ∀ n w w', env n w = Some w' → later w w'.

(** The environment in which no other handler runs, and handlers that write
    nothing. *)
Definition alone : Env := λ _ w, Some w.
Definition quiet {E A} (m : Handler E A) : Prop := ∀ n w r n' w',
  m alone (n, w) = (r, (n', w')) → w' = w.
Lemma alone_ok `{UuidText, Primitives} : env_ok alone.
Proof. intros n w w' [= <-]. apply rtc_refl. Qed.

Lemma quiet_bind {E A B} (m : Handler E A) (f : A → Handler E B) :
  quiet m → (∀ a, quiet (f a)) → quiet (m ≫= f).
Proof.
  intros Hm Hf n w r n' w'. unfold mbind, Handler_bind.
  destruct (m alone (n, w)) as [[a|e] [n1 w1]] eqn:Em; apply Hm in Em as ->.
  - apply Hf.
  - by intros [= _ _ <-].
Qed.
Lemma quiet_lift {E A} (r : result E A) : quiet (lift r).
Proof. by intros n w r' n' w' [= _ _ <-]. Qed.
Lemma quiet_throw {E A} (e : E) : quiet (throw e : Handler E A).
Proof. by intros n w r' n' w' [= _ _ <-]. Qed.
Lemma quiet_ret {E A} (a : A) : quiet (mret a : Handler E A).
Proof. by intros n w r' n' w' [= _ _ <-]. Qed.
Lemma quiet_query `{DbFailure E} {A} (f : DateTime → Db → A) : quiet (query f : Handler E A).
Proof. by intros n w r' n' w' [= _ _ <-]. Qed.
#[export] Hint Resolve quiet_lift quiet_throw quiet_ret quiet_query : keychute.

Lemma Api_bind_Ok {E A B} (m : Handler E A) (f : A → Handler E B) env s b s' :
  (m ≫= f) env s = (Ok b, s') ↔ ∃ a s1, m env s = (Ok a, s1) ∧ f a env s1 = (Ok b, s').
Proof.
  unfold mbind, Handler_bind. destruct (m env s) as [[a|e] s1]; [|naive_solver]. naive_solver.
Qed.
Lemma lift_Ok {E A} (r : result E A) env s a s' :
  lift r env s = (Ok a, s') ↔ r = Ok a ∧ s' = s.
Proof. unfold lift. naive_solver. Qed.
Lemma throw_Ok {E A} (e : E) env s (a : A) s' : throw e env s = (Ok a, s') ↔ False.
Proof. unfold throw. naive_solver. Qed.
Lemma ret_Ok {E A} (a : A) env s b s' :
  (mret a : Handler E A) env s = (Ok b, s') ↔ b = a ∧ s' = s.
Proof. unfold mret, Handler_ret. naive_solver. Qed.
Lemma query_Ok `{DbFailure E} {A} (f : DateTime → Db → A) env n w a s' :
  (query f : Handler E A) env (n, w) = (Ok a, s') ↔
  ∃ w', env n w = Some w' ∧ a = f w'.1 w'.2 ∧ s' = (S n, w').
Proof.
  unfold query. destruct (env n w) as [w'|]; [|split; [done|by intros (? & ? & _)]].
  split; [intros [= <- <-]; by exists w'|]. by intros (? & [= <-] & -> & ->).
Qed.
Lemma transact_Ok `{DbFailure E} {A} (f : DateTime → Db → result DbError (A * Db)) env n w a s' :
  (transact f : Handler E A) env (n, w) = (Ok a, s') ↔
  ∃ w' d, env n w = Some w' ∧ f w'.1 w'.2 = Ok (a, d) ∧ s' = (S n, (w'.1, d)).
Proof.
  unfold transact. destruct (env n w) as [w'|]; [|split; [done|by intros (? & ? & ? & _)]].
  destruct (f w'.1 w'.2) as [[a' d]|] eqn:Ef; split.
  - intros [= <- <-]. by exists w', d.
  - intros (? & ? & [= <-] & Ef' & ->). rewrite Ef in Ef'. by injection Ef' as <- <-.
  - done.
  - intros (? & ? & [= <-] & Ef' & _). congruence.
Qed.

(** Running a handler forwards: a step that succeeds, and the calls of a handler
    that runs alone. *)
Lemma bind_run {E A B} (m : Handler E A) (f : A → Handler E B) env s a s' :
  m env s = (Ok a, s') → (m ≫= f) env s = f a env s'.
Proof. intros Em. unfold mbind, Handler_bind. by rewrite Em. Qed.
Lemma lift_run {E A B} (r : result E A) (f : A → Handler E B) env s a :
  r = Ok a → (lift r ≫= f) env s = f a env s.
Proof. by intros ->. Qed.
Lemma query_alone `{DbFailure E} {A} (f : DateTime → Db → A) n w :
  (query f : Handler E A) alone (n, w) = (Ok (f w.1 w.2), (S n, w)).
Proof. by destruct w. Qed.
Lemma transact_alone `{DbFailure E} {A} (f : DateTime → Db → result DbError (A * Db)) n w :
  (transact f : Handler E A) alone (n, w)
  = match f w.1 w.2 with
    | Ok (a, d) => (Ok a, (S n, (w.1, d)))
    | Err _ => (Err database_failure, (S n, w))
    end.
Proof. by destruct w. Qed.
Lemma query_run `{DbFailure E} {A B} (f : DateTime → Db → A) (k : A → Handler E B) n w :
  (query f ≫= k) alone (n, w) = k (f w.1 w.2) alone (S n, w).
Proof. apply bind_run, query_alone. Qed.
Lemma transact_run `{DbFailure E} {A B} (f : DateTime → Db → result DbError (A * Db))
    (k : A → Handler E B) n w a d :
  f w.1 w.2 = Ok (a, d) → (transact f ≫= k) alone (n, w) = k a alone (S n, (w.1, d)).
Proof. intros Hf. apply bind_run. by rewrite transact_alone, Hf. Qed.

(** The next step of a successful handler: a pure check. *)
Ltac api_lift H x Hx :=
  apply Api_bind_Ok in H as (x & ? & Hx & H); apply lift_Ok in Hx as [Hx ->].
(** What comes before a bind writes nothing. *)
Ltac quiet := repeat (apply quiet_bind; [|intros ?]); auto with keychute.

(** ** Configuration the handlers read *)
Record Limits := mkLimits {
  max_pending_per_client : Z;
  max_waits_per_client : Z;
  wait_max_seconds : Z;
  request_expiry_seconds : Z;
  proxy_max_body_bytes : Z;
  replay_window_seconds : Z;
  max_proxy_streams_per_client : Z;
  max_deposits_per_hour_per_client : Z
}.
Record Config := mkConfig {
  limits : Limits;
  cfg_clients : list ClientConfig;
  tokenreview_url : option string;
  external_url : string
}.

(** [TokenReviewResponse], as far as it is read. *)
Record TokenReview := mkTokenReview {
  tr_authenticated : bool;
  tr_audiences : list string;
  tr_username : string
}.

(** The [hex] and [base64] crates and the Kubernetes API server. *)
Class WireLib := {
  hex_decode : string → option string;
  base64_encode : string → string;
  (** The review of a token for these audiences; [None] for an HTTP status that
      is not a success or a body that does not parse, an error when the call fails. *)
  token_review : list string → string → result ApiFailure (option TokenReview)
}.

(** ** Client authentication *)
Section Authn.
Context `{HttpLib, SigText, WireLib}.

Definition bearer_token (headers : HeaderMap) : option string :=
  value ← headers_get "authorization" headers ≫= to_str;
  '(scheme, token) ← split_once " " value;
  if negb (eq_ignore_ascii_case scheme "bearer") then None
  else let token := trim token in if eqb token "" then None else Some token.

(** The stored and the presented hash, compared as bytes. *)
Definition hash_matches (row : ClientRow) (presented_hash : string) : bool :=
  let stored := default "" (cl_api_token_sha256 row) in
  ct_eq (default "" (hex_decode (to_ascii_lowercase stored)))
    (default "" (hex_decode presented_hash)).

Definition review_audiences (config : Config) : list string :=
  dedup (sort_by_key bytes_key
    (map sa_audience (omap (λ c, auth_service_account (cc_auth c)) (cfg_clients config)))).
Definition review_accepts (review : TokenReview) (c : ClientRow) : bool :=
  cl_enabled c
  && match cl_sa_audience c with
     | Some aud => contains (tr_audiences review) aud | None => false end.

Definition tokenreview_authenticate (config : Config) (token : string) : Api ClientRow :=
  let audiences := review_audiences config in
  if is_empty audiences then throw Unauthenticated
  else
    answer ← lift (token_review audiences token);
    match answer with
    | None => throw Unauthenticated
    | Some review =>
        if negb (tr_authenticated review) || eqb (tr_username review) ""
        then throw Unauthenticated
        else
          rows ← query (λ _ d, get_clients_by_sa_subject (tr_username review) d);
          match List.filter (review_accepts review) rows with
          | [c] => mret c
          | _ => throw Unauthenticated
          end
    end.

Definition authenticate_client (config : Config) (headers : HeaderMap) : Api ClientRow :=
  token ← lift (ok_or (bearer_token headers) Unauthenticated);
  let presented_hash := sha256_hex token in
  row ← query (λ _ d, get_client_by_token_hash presented_hash d);
  match row with
  | Some row =>
      if hash_matches row presented_hash && cl_enabled row then mret row
      else throw Unauthenticated
  | None =>
      match tokenreview_url config with
      | Some _ => tokenreview_authenticate config token
      | None => throw Unauthenticated
      end
  end.
End Authn.

(** ** Ownership and revalidation *)
Definition path_id `{UuidText} (raw : string) : result ApiFailure Uuid :=
  ok_or (uuid_parse raw) NotFound.

Definition owned_grant (client : ClientRow) (id : Uuid) : Api GrantRow :=
  grant ← query (λ _ d, get_grant id d);
  match grant with
  | Some g => if eqb (g_client_name g) (cl_name client) then mret g else throw NotFound
  | None => throw NotFound
  end.

Definition revalidate_client (grant : GrantRow) (client : option ClientRow)
  : result ApiFailure Tier.t :=
  client ← ok_or client RevalidationFailed;
  fail_if negb (cl_enabled client) with RevalidationFailed;
  mechanism ← ok_or (Mechanism.from_str_opt (g_mechanism grant)) RevalidationFailed;
  fail_if negb (contains (cl_mechanisms client) (g_mechanism grant)) with RevalidationFailed;
  client_max ← ok_or (Tier.from_int (cl_max_tier client)) RevalidationFailed;
  fail_if Tier.gt (Mechanism.tier mechanism) client_max with RevalidationFailed;
  Ok (Mechanism.tier mechanism).
Definition revalidate_secret (tier : Tier.t) (secret : option SecretRow) : result ApiFailure unit :=
  match secret with
  | None => Ok tt
  | Some s =>
      fail_if negb (sr_enabled s) with RevalidationFailed;
      secret_max ← ok_or (Tier.from_int (sr_max_tier s)) RevalidationFailed;
      fail_if Tier.gt tier secret_max with RevalidationFailed;
      Ok tt
  end.
Definition revalidate_grant (grant : GrantRow) : Api (option SecretRow) :=
  client ← query (λ _ d, get_client_by_name (g_client_name grant) d);
  tier ← lift (revalidate_client grant client);
  secret ← query (λ _ d, get_secret_by_name (g_secret_name grant) d);
  _ ← lift (revalidate_secret tier secret);
  mret secret.

Definition status_from_row (row : AccessRequestRow) : Api AccessRequestStatus :=
  request_state ← lift (ok_or (RequestState.from_str_opt (ar_state row))
                         (Internal "unknown request state"));
  grant ← match request_state with
          | RequestState.Approved => query (λ _ d, get_grant_by_request (ar_id row) d)
          | _ => mret None
          end;
  mret (mkStatus (ar_id row) request_state (g_id <$> grant) (ar_deny_reason row)
          (ar_expires_at row) (g_secret_name <$> grant)
          (bool_decide (request_state = RequestState.Approved)
           && eqb (ar_resolved_by row) (Some RESOLVED_BY_POLICY_AUTO))).

(** ** What a successful call says *)
Section ApiFacts.
Context `{UuidText, Primitives, HttpLib, SigText, WireLib}.
Context (env : Env) (Henv : env_ok env).

Lemma query_later `{DbFailure E} {A} (f : DateTime → Db → A) n w a n' w' :
  (query f : Handler E A) env (n, w) = (Ok a, (n', w')) → later w w' ∧ a = f w'.1 w'.2.
Proof. intros (w1 & Hw & -> & [= _ ->])%query_Ok. split; [by eapply Henv|done]. Qed.

Lemma transact_later `{DbFailure E} {A} (f : DateTime → Db → result DbError (A * Db)) n w a n' w' :
  (transact f : Handler E A) env (n, w) = (Ok a, (n', w')) →
  ∃ wu d, later w wu ∧ f wu.1 wu.2 = Ok (a, d) ∧ w' = (wu.1, d).
Proof. intros (wu & d & Hw & Hf & [= _ ->])%transact_Ok. exists wu, d. split; [by eapply Henv|done]. Qed.

(** Whoever is authenticated is an enabled client, found by its token's hash
    or by its reviewed service account. *)
Lemma authenticate_client_Ok config headers n w c n' w' :
  authenticate_client config headers env (n, w) = (Ok c, (n', w')) →
  later w w' ∧ cl_enabled c = true
  ∧ ∃ token, bearer_token headers = Some token
    ∧ (hash_matches c (sha256_hex token) = true
       ∨ ∃ review, token_review (review_audiences config) token = Ok (Some review)
           ∧ tr_authenticated review = true ∧ review_accepts review c = true).
Proof.
  unfold authenticate_client. intros (token & s1 & Ht & HH)%Api_bind_Ok.
  apply lift_Ok in Ht as [Ht%ok_or_Ok ->].
  apply Api_bind_Ok in HH as (row & [n1 w1] & Hq & HH).
  apply query_later in Hq as [Hl _]. destruct row as [row|].
  - destruct (hash_matches row _ && cl_enabled row) eqn:E; [|done].
    apply ret_Ok in HH as [-> [= -> ->]]. apply andb_true_iff in E as [Eh Ee].
    split; [done|]. split; [done|]. exists token. auto.
  - destruct (tokenreview_url config); [|done]. unfold tokenreview_authenticate in HH.
    destruct (is_empty _); [done|]. apply Api_bind_Ok in HH as (answer & s2 & Ha & HH).
    apply lift_Ok in Ha as [Ha ->]. destruct answer as [review|]; [|done].
    destruct (negb _ || _) eqn:Er; [done|]. apply orb_false_iff in Er as [Er _].
    apply Api_bind_Ok in HH as (rows & [n2 w2] & Hq & HH). apply query_later in Hq as [Hl' _].
    destruct (List.filter (review_accepts review) rows) as [|c0 [|]] eqn:Ef; [done| |done].
    apply ret_Ok in HH as [-> [= -> ->]].
    assert (Hin : In c0 (List.filter (review_accepts review) rows)) by (rewrite Ef; by left).
    apply filter_In in Hin as [_ Hacc]. split; [by etrans|]. split.
    + unfold review_accepts in Hacc. by apply andb_true_iff in Hacc as [? _].
    + exists token. split; [done|]. right. exists review. by apply negb_false_iff in Er.
Qed.

Lemma owned_grant_Ok client id n w g n' w' :
  owned_grant client id env (n, w) = (Ok g, (n', w')) →
  later w w' ∧ grants w'.2 !! id = Some g ∧ g_client_name g = cl_name client.
Proof.
  unfold owned_grant. intros (o & [n1 w1] & Hq & HH)%Api_bind_Ok.
  apply query_later in Hq as [Hl Ho]. destruct o as [g'|]; [|done].
  destruct (eqb _ _) eqn:E; [|done]. apply ret_Ok in HH as [-> [= -> ->]]. kbool. done.
Qed.

Lemma revalidate_grant_Ok g n w secret n' w' :
  revalidate_grant g env (n, w) = (Ok secret, (n', w')) →
  ∃ wc tier, later w wc ∧ later wc w'
    ∧ revalidate_client g (get_client_by_name (g_client_name g) wc.2) = Ok tier
    ∧ secret = get_secret_by_name (g_secret_name g) w'.2
    ∧ revalidate_secret tier secret = Ok tt.
Proof.
  unfold revalidate_grant. intros (c & [n1 w1] & Hq & HH)%Api_bind_Ok.
  apply query_later in Hq as [Hl ->]. apply Api_bind_Ok in HH as (tier & s2 & Ht & HH).
  apply lift_Ok in Ht as [Ht ->]. apply Api_bind_Ok in HH as (s & [n2 w2] & Hq & HH).
  apply query_later in Hq as [Hl2 ->]. apply Api_bind_Ok in HH as ([] & s3 & Hs & HH).
  apply lift_Ok in Hs as [Hs ->]. apply ret_Ok in HH as [-> [= -> ->]].
  exists w1, tier. auto.
Qed.

(** What revalidation establishes of the client and the secret. *)
Lemma revalidate_client_Ok g c tier :
  revalidate_client g c = Ok tier →
  ∃ row m cap, c = Some row ∧ cl_enabled row = true
    ∧ Mechanism.from_str_opt (g_mechanism g) = Some m ∧ tier = Mechanism.tier m
    ∧ g_mechanism g ∈ cl_mechanisms row
    ∧ Tier.from_int (cl_max_tier row) = Some cap ∧ (Tier.as_int tier ≤ Tier.as_int cap)%Z.
Proof.
  unfold revalidate_client. intros (row & ->%ok_or_Ok & HH)%bind_Ok.
  destruct (cl_enabled row) eqn:Ee; [|done]. cbn [negb] in HH.
  apply bind_Ok in HH as (m & Hm%ok_or_Ok & HH).
  destruct (contains _ _) eqn:Ec; [|done]. cbn [negb] in HH.
  apply bind_Ok in HH as (cap & Hcap%ok_or_Ok & HH).
  destruct (Tier.gt _ _) eqn:Eg; [done|]. injection HH as <-. kbool.
  exists row, m, cap. repeat split; try done. unfold Tier.gt in Eg. by apply Z.ltb_ge.
Qed.

Lemma revalidate_secret_Ok tier s :
  revalidate_secret tier (Some s) = Ok tt →
  sr_enabled s = true
  ∧ ∃ cap, Tier.from_int (sr_max_tier s) = Some cap ∧ (Tier.as_int tier ≤ Tier.as_int cap)%Z.
Proof.
  unfold revalidate_secret. destruct (sr_enabled s) eqn:Ee; [|done]. cbn [negb].
  intros (cap & Hcap%ok_or_Ok & HH)%bind_Ok. destruct (Tier.gt _ _) eqn:Eg; [done|].
  split; [done|]. exists cap. split; [done|]. unfold Tier.gt in Eg. by apply Z.ltb_ge.
Qed.
End ApiFacts.

(** The next step of a successful handler: a read, of a world after the last
    one; a check; and the world a pure tail ends in. *)
Ltac api_query H Henv x w Hl :=
  let n := fresh "n" in let Hq := fresh "Hq" in
  apply Api_bind_Ok in H as (x & [n w] & Hq & H);
  eapply query_later in Hq as [Hl ->]; [|exact Henv].
Ltac api_check H Hx :=
  let s := fresh "s" in
  apply Api_bind_Ok in H as ([] & s & Hx & H); apply lift_Ok in Hx as [Hx ->].

(** ** A scenario: a configured client, a stored secret, an approved request *)
Module ApiExample.
#[export] Existing Instance CryptoExample.primitives.
#[export] Existing Instance uuid_text_example.
#[export] Existing Instance SigExample.text.
#[export] Existing Instance HttpExample.http.
#[export] Existing Instance HttpExample.url.
Definition wire : WireLib := {|
  hex_decode := Some;
  base64_encode := λ s, s;
  token_review := λ _ _, Ok None
|}.
#[export] Existing Instance wire.

Definition keyset : Keyset := CryptoExample.new_set.
Definition ephemeral : EphemeralKek := CryptoExample.key "e".
Definition cfg : Config := mkConfig (mkLimits 3 5 300 900 1024 60 8 20) [] None "https://kc".
Definition agent : ClientConfig :=
  mkClientConfig "agent" Tier.Direct [Mechanism.CliRead; Mechanism.Brokered]
    (mkClientAuthConfig (Some "746f6b656e") None) false.
Definition headers : HeaderMap := [("authorization", "Bearer token"); ("accept", "*/*")].

Definition stored : StoreSecretParams :=
  mkStoreSecretParams 1 "example-api-token" "" 3 "bearer" None None
    (Keyset_seal keyset CryptoExample.draw "hunter2" (SecretVersion 1 1)).
Definition asked (mechanism : string) (constraints : Value) : NewAccessRequest :=
  mkNewAccessRequest "agent" "example-api-token" mechanism constraints (seconds 900) None
    "agent" "create-1" "mac".
Definition granted (mechanism : string) (constraints : Value) : GrantParams :=
  mkGrantParams "agent" "example-api-token" (Some 1%N) mechanism constraints (seconds 3600)
    (Some 2%Z) None.
Definition history (mechanism : string) (constraints : Value) : list (DateTime * op) :=
  [(seconds 5, OpReconcileClients (λ n, (500 + N.of_nat n)%N) [agent]);
   (seconds 10, OpCreateSecretWithVersion 101 stored "alice");
   (seconds 20, OpInsertRequestWithId 10 99 (asked mechanism constraints) (Some 3%Z)
                  InitialResolution.Pending None);
   (seconds 30, OpApproveRequest 0 10 "alice" 20 (granted mechanism constraints) None)].
Definition world_after (mechanism : string) (constraints : Value) : World :=
  (seconds 30, Scenario.db_after (history mechanism constraints)).

Lemma reachable_after mechanism constraints :
  Scenario.run (history mechanism constraints) (0%Z, empty_db)
    = Some (world_after mechanism constraints) →
  world_reachable (world_after mechanism constraints).
Proof.
  intros Hr. apply (Scenario.run_reachable (history mechanism constraints)); [|exact Hr].
  cbn. repeat (apply Forall_cons; split); [done|done|done| |by apply Forall_nil].
  split; [|done]. intros m [= <-]. lia.
Qed.

End ApiExample.
