(* ===== verification/Columns.v ===== *)
(** What the text columns of a stored row may hold: in every reachable database
    the ones with a closed vocabulary decode, so the branches for text nobody
    writes are never taken. *)

From S2P Require Import Prelude RustStr Types Json Crypto Examples SigV4 Http Store Requests Grants.
From S2P Require Import ApiExt Secrets UiExt Policies Clients Provision Notify Lifecycle Refinement.
From S2P Require Import Safety Api.
From S2P Require Policy.
Open Scope string_scope.

(** The schema's CHECKs. *)
Record typed_columns (d : Db) : Prop := mk_typed_columns {
  tc_state : ∀ k r, access_requests d !! k = Some r →
    ar_state r ∈ [PENDING; APPROVED; DENIED; EXPIRED];
  tc_kind : ∀ k s, secrets d !! k = Some s → valid_injection_kind (sr_injection_kind s) = true;
  tc_policy : ∀ k p, policies d !! k = Some p → policy_checked p
}.

(** ** Preservation, a table at a time *)
Section Preservation.
Context (now : DateTime).
Implicit Types d : Db.

Lemma typed_requests d m :
  typed_columns d →
  (∀ k r, m !! k = Some r → ar_state r ∈ [PENDING; APPROVED; DENIED; EXPIRED]) →
  typed_columns (with_access_requests (λ _, m) d).
Proof. intros [_ Hs Hp] Hm. by split. Qed.
Lemma typed_secrets d m :
  typed_columns d →
  (∀ k s, m !! k = Some s → valid_injection_kind (sr_injection_kind s) = true) →
  typed_columns (with_secrets (λ _, m) d).
Proof. intros [Hr _ Hp] Hm. by split. Qed.
(** The tables that hold no such column. *)
Lemma typed_same d d' :
  access_requests d' = access_requests d → secrets d' = secrets d → policies d' = policies d →
  typed_columns d → typed_columns d'.
Proof. intros E1 E2 E3 [Hr Hs Hp]. split; [rewrite E1|rewrite E2|rewrite E3]; done. Qed.

Lemma typed_put_request d r :
  typed_columns d → ar_state r ∈ [PENDING; APPROVED; DENIED; EXPIRED] →
  typed_columns (put_request r d).
Proof.
  intros Ht Hr. apply (typed_requests d (<[ar_id r := r]> (access_requests d))); [done|].
  intros k x Hx. look; [done|]. by eapply tc_state.
Qed.
Lemma typed_put_secret d s :
  typed_columns d → valid_injection_kind (sr_injection_kind s) = true → typed_columns (put_secret s d).
Proof.
  intros Ht Hs. apply (typed_secrets d (<[sr_id s := s]> (secrets d))); [done|].
  intros k x Hx. look; [done|]. by eapply tc_kind.
Qed.
Lemma step_state r r' :
  request_step now r r' → ar_state r ∈ [PENDING; APPROVED; DENIED; EXPIRED] →
  ar_state r' ∈ [PENDING; APPROVED; DENIED; EXPIRED].
Proof.
  intros [_ [E|(_ & Hin & _)]] Hr.
  - unfold request_resolution in E. injection E as <- _ _ _. done.
  - do 2 right. exact Hin.
Qed.

Lemma action_typed d d' : action now d d' → typed_columns d → typed_columns d'.
Proof.
  intros Ha Ht. destruct Ha as [ev Hev|r H1 H2 H3 H4|f Hf|r r' g Hr Hap Hg E Hfr Hb
    |g key ver ev Hg Hl Hu Hev Hgid Hk|f Hf|f Hf|s (_ & _ & H1) H2|s v (_ & _ & H1) H2 H3 H4 H5
    |s s' H1 H2 H3 H4 H5|s s' v H1 H2 H3 H4 H5 H6 H7 H8|t Hx|s Hs|m _ Hm|m];
    try by apply (typed_same d).
  - apply typed_put_request; [done|]. rewrite H3. by left.
  - apply (typed_requests d (map_imap (λ k r, Some (f k r)) (access_requests d))); [done|].
    intros k r Hr. look. subst. eapply step_state; [by apply Hf|]. by eapply tc_state.
  - apply (typed_same (put_request r' d)); [done..|]. apply typed_put_request; [done|].
    destruct Hap as (_ & _ & -> & _). right. by left.
  - by destruct key; apply (typed_same d).
  - by apply typed_put_secret.
  - apply (typed_same (put_secret s d)); [done..|]. by apply typed_put_secret.
  - apply typed_put_secret; [done|]. apply H5. by eapply tc_kind.
  - apply (typed_same (put_secret s' d)); [done..|]. apply typed_put_secret; [done|].
    apply H5. by eapply tc_kind.
  - apply (typed_same (delete_secret_row (sr_id s) d)); [done..|]. destruct Ht as [Hr Hk Hp].
    split; [done| |done]. intros k x Hx. cbn in Hx. look. by eapply Hk.
  - destruct Ht as [Hr Hk Hp]. split; [done|done|]. cbn. intros k p Hkp.
    destruct (Hm k p Hkp) as [?|?]; [by eapply Hp|done].
Qed.
End Preservation.

Section Reachable.
Context `{UuidText, Primitives}.

Lemma world_step_typed w w' :
  inv w.1 w.2 → typed_columns w.2 → world_step w w' → typed_columns w'.2.
Proof.
  destruct w as [t d], w' as [t' d']. cbn. intros Hi Ht (Hle & o & Hok & Hex). cbn in *.
  apply exec_steps in Hex; [|by eapply inv_later|done].
  clear Hi Hok. induction Hex; eauto using action_typed.
Qed.
Lemma world_typed w : world_reachable w → typed_columns w.2.
Proof.
  intros Hr. cut (inv w.1 w.2 ∧ typed_columns w.2); [by intros [_ ?]|]. revert w Hr.
  apply (reachable_invariant world_init world_step (λ w, inv w.1 w.2 ∧ typed_columns w.2)).
  - intros [t d]. unfold world_init. cbn. intros ->. split; [apply inv_empty|].
    split; cbn; intros; by simplify_map_eq.
  - intros x y [Hi Ht] Hs. split; [by eapply world_step_inv|by eapply world_step_typed].
Qed.
End Reachable.

(** Where the vocabularies and the decoders agree. *)
Lemma state_decodes s :
  s ∈ [PENDING; APPROVED; DENIED; EXPIRED] →
  ∃ st, RequestState.from_str_opt s = Some st ∧ RequestState.as_str st = s.
Proof.
  intros Hs. repeat (apply elem_of_cons in Hs as [-> |Hs]; [by eexists|]). by apply elem_of_nil in Hs.
Qed.
Lemma outcome_decodes o :
  valid_outcome o = true → ∃ x, Policy.Outcome.from_str_opt o = Some x ∧ Policy.Outcome.as_str x = o.
Proof.
  intros Ho. apply bool_decide_eq_true in Ho.
  repeat (apply elem_of_cons in Ho as [-> |Ho]; [by eexists|]). by apply elem_of_nil in Ho.
Qed.

(** C20: stored rows are well typed. Every reachable database meets the
    schema's CHECKs: the state of a request decodes, so that its status can
    always be told, in the state stored and with the grant's id exactly when
    it was approved; the outcome of every policy row decodes, and a row names
    a secret or a tag but never both, so that no row is unreadable for its
    outcome; and the injection template of every secret is of a known kind. *)
Theorem stored_rows_decode `{UuidText, Primitives} w :
  world_reachable w →
  typed_columns w.2
  ∧ (∀ k r, access_requests w.2 !! k = Some r → ∀ n, ∃ st n',
     status_from_row r alone (n, w) = (Ok st, (n', w))
     ∧ RequestState.as_str (st_state st) = ar_state r
     ∧ (is_some (st_grant_id st) = true ↔ ar_state r = APPROVED))
  ∧ (∀ k p, policies w.2 !! k = Some p →
       (∃ o, Policy.Outcome.from_str_opt (po_outcome p) = Some o
          ∧ Policy.Outcome.as_str o = po_outcome p)
       ∧ (po_secret_name p = None ∨ po_secret_tag p = None))
  ∧ (∀ k s, secrets w.2 !! k = Some s →
       sr_injection_kind s ∈ ["bearer"; "header"; "basic"; "basic-password"; "aws-sigv4"]).
Proof.
  intros Hreach. pose proof (world_inv _ Hreach) as Hi. pose proof (world_typed _ Hreach) as Ht.
  split; [done|]. destruct Ht as [Hr Hs Hp]. split; [|split].
  - intros k r Hk n. destruct (state_decodes _ (Hr _ _ Hk)) as (st & Hst & Htext).
    assert (Hgrant : is_some (get_grant_by_request (ar_id r) w.2) = true ↔ ar_state r = APPROVED).
    { rewrite (inv_grant _ _ Hi _ _ Hk), (wf_request_pk _ (inv_wf _ _ Hi) _ _ Hk).
      unfold get_grant_by_request. destruct (find_row _ _) as [g|] eqn:Hf.
      - apply find_row_Some in Hf as [[gid Hg] He]. kbool. split; [|done]. intros _. by exists gid, g.
      - rewrite find_row_None in Hf. split; [done|]. intros (gid & g & Hg & He).
        specialize (Hf _ _ Hg). by rewrite He, eqb_refl in Hf. }
    unfold status_from_row. rewrite (lift_run _ _ _ _ st) by (by rewrite Hst).
    destruct (decide (st = RequestState.Approved)) as [->|Hne].
    + rewrite query_run. eexists _, _. split; [reflexivity|]. split; [exact Htext|].
      cbn [st_grant_id]. rewrite <-Hgrant. by destruct (get_grant_by_request _ _).
    + assert (Hna : ar_state r ≠ APPROVED) by (rewrite <-Htext; by destruct st).
      exists (mkStatus (ar_id r) st None (ar_deny_reason r) (ar_expires_at r) None
                (bool_decide (st = RequestState.Approved)
                 && eqb (ar_resolved_by r) (Some RESOLVED_BY_POLICY_AUTO))), n.
      split; [by destruct st|]. split; [exact Htext|]. split; [done|]. by intros ?.
  - intros k p Hk. destruct (Hp _ _ Hk) as [Ho Ht]. split; [by apply outcome_decodes|].
    destruct (po_secret_name p), (po_secret_tag p); [done|by right|by left..].
  - intros k s Hk. specialize (Hs _ _ Hk). by apply bool_decide_eq_true in Hs.
Qed.

Lemma stored_rows_decode_witness :
  ∃ st n', status_from_row (Scenario.request_of Scenario.approved 10) alone (0, Scenario.approved)
           = (Ok st, (n', Scenario.approved))
    ∧ is_some (st_grant_id st) = true.
Proof.
  destruct (stored_rows_decode Scenario.approved Scenario.reachable_start) as (_ & Hr & _ & _).
  destruct (Hr 10%N (Scenario.request_of Scenario.approved 10)) with (n := 0)
    as (st & n' & Hst & _ & Hg).
  - vm_compute. reflexivity.
  - exists st, n'. split; [exact Hst|]. apply Hg. vm_compute. reflexivity.
Defined.
