(* ===== verification/Push.v ===== *)
(** [server/src/notify/mod.rs], second half: what pushes say, the push of one
    request, and the background sweep: expiry, purges, then the push queue. *)

From S2P Require Import Prelude RustStr Types Json Crypto Examples SigV4 Http Store Requests Grants ApiExt.
From S2P Require Import Secrets UiExt Policies Clients Provision Notify Lifecycle Refinement Safety.
From S2P Require Import StoreProps Api.
Open Scope string_scope.

Record Notification := mkNotification {
  nt_title : string;
  nt_message : string;
  nt_url : option string;
  nt_url_title : option string
}.

(** [trait Notifier]; [send] is true when a send succeeds within its timeout. *)
Record Notifier := mkNotifier {
  is_real : bool;
  send : Notification → bool
}.
Definition NullNotifier : Notifier := mkNotifier false (λ _, true).

Definition PUSH_DEDUP_WINDOW_SECONDS : Z := 60.
Definition CONTEXT_RETENTION_HOURS : Z := 24.
Definition FYI_RETRY_WINDOW_HOURS : Z := 24.
Definition NOT_STORED_LABEL : string := "a not-yet-stored secret".

Section Texts.
Context `{UuidText}.

Definition review_url (external_url : string) (request_id : Uuid) : string :=
  trim_end_matches "/" external_url +:+ "/ui/requests/" +:+ uuid_display request_id.

Definition request_notification (external_url : string) (request_id : Uuid)
    (client_name : string) (mechanism : Mechanism.t) (secret_label : string) : Notification :=
  mkNotification "Keychute approval needed"
    (client_name +:+ " requests " +:+ Mechanism.as_str mechanism +:+ " access to "
     +:+ secret_label +:+ " — " +:+ Tier.human_label (Mechanism.tier mechanism))
    (Some (review_url external_url request_id)) (Some "Review request").

Definition release_notification (external_url : string) (request_id : Uuid)
    (client_name : string) (mechanism : Mechanism.t) (secret_label : string) : Notification :=
  mkNotification "Keychute access released"
    (client_name +:+ " was granted " +:+ Mechanism.as_str mechanism +:+ " access to "
     +:+ secret_label +:+ " — " +:+ Tier.human_label (Mechanism.tier mechanism)
     +:+ " — automatically under a standing notify-only policy. No approval is needed.")
    (Some (review_url external_url request_id)) (Some "View request").

Definition secret_push_label (secret_name : string) (d : Db) : string :=
  match get_secret_by_name secret_name d with
  | Some s => sr_name s
  | None => NOT_STORED_LABEL
  end.
(** The FYI's label: quoted when stored. *)
Definition fyi_label (secret : option SecretRow) : string :=
  match secret with
  | Some s => "'" +:+ sr_name s +:+ "'"
  | None => NOT_STORED_LABEL
  end.
End Texts.

(** ** One push *)

(** Run a step and go on whatever it returns. *)
Definition attempt {A} (m : Api A) : Api (result ApiFailure A) := λ env s,
  let '(r, s') := m env s in (Ok r, s').

Section Push.
Context `{UuidText, Primitives}.
Context (external_url : string) (notifier : Notifier).

(** Send, then record the delivery: what was sent, and how recording went. *)
Definition send_push (n : Notification) (request_id : Uuid)
  : Api (list Notification * result ApiFailure unit) :=
  r ← attempt (if send notifier n
               then transact (λ now d, mark_push_delivered now request_id d) else mret tt);
  mret ([n], r).

Definition push_one_fyi (row : AccessRequestRow)
  : Api (list Notification * result ApiFailure unit) :=
  match Mechanism.from_str_opt (ar_mechanism row) with
  | None => mret ([], Ok tt)
  | Some mechanism =>
      secret ← query (λ _ d, get_secret_by_name (ar_secret_name row) d);
      claimed ← transact (λ _ d, claim_for_fyi_push (ar_id row) d);
      if negb claimed then mret ([], Ok tt)
      else send_push (release_notification external_url (ar_id row) (ar_client_name row)
                        mechanism (fyi_label secret)) (ar_id row)
  end.

(** [wall] is the process clock when the row is considered. *)
Definition push_one (wall : DateTime) (row : AccessRequestRow)
  : Api (list Notification * result ApiFailure unit) :=
  dedup ← query (λ _ d,
            recent_duplicate_push row (wall - seconds PUSH_DEDUP_WINDOW_SECONDS) d);
  if (dedup : bool) then
    _ ← transact (λ now d, mark_push_delivered now (ar_id row) d);
    mret ([], Ok tt)
  else
    match Mechanism.from_str_opt (ar_mechanism row) with
    | None => mret ([], Ok tt)
    | Some mechanism =>
        label ← query (λ _ d, secret_push_label (ar_secret_name row) d);
        claimed ← transact (λ now d, claim_for_push now (ar_id row) d);
        if negb claimed then mret ([], Ok tt)
        else send_push (request_notification external_url (ar_id row) (ar_client_name row)
                          mechanism label) (ar_id row)
    end.

(** ** The sweep *)

(** The queue, walked serially; a row's failure does not stop it.  [budget] is
    how many rows are reached before the phase's deadline. *)
Fixpoint push_rows (wall : Uuid → DateTime) (budget : nat) (rows : list AccessRequestRow)
  : Api (list Notification) :=
  match rows, budget with
  | row :: rows, S budget =>
      r ← attempt (if ar_notify_only row then push_one_fyi row
                   else push_one (wall (ar_id row)) row);
      rest ← push_rows wall budget rows;
      mret (match r with Ok (sent, _) => sent | Err _ => [] end ++ rest)%list
  | _, _ => mret []
  end.

Definition push_phase (wall : Uuid → DateTime) (budget : nat) : Api (list Notification) :=
  if negb (is_real notifier) then mret []
  else
    pending ← query (λ now d, list_pending_needing_push now i32_MAX d);
    fyi ← query (λ now d, list_notify_only_needing_push now (FYI_RETRY_WINDOW_HOURS * 3600) d);
    push_rows wall budget (pending ++ fyi).

Definition expire_phase : Api Z := transact (λ now d, expire_stale now d).
Definition purge_phase (replay_window_seconds : Z) : Api Z :=
  _ ← transact (λ now d, sweep_purge_passthroughs now replay_window_seconds d);
  _ ← transact (λ now d, purge_request_context now (CONTEXT_RETENTION_HOURS * 3600) d);
  transact (λ now d, unpin_stale_grant_reads now replay_window_seconds d).

(** Every phase runs, whatever the ones before returned. *)
Definition sweep_once (wall : Uuid → DateTime) (budget : nat) (replay_window_seconds : Z)
  : Api (list Notification * result ApiFailure unit) :=
  expired ← attempt expire_phase;
  purged ← attempt (purge_phase replay_window_seconds);
  pushed ← attempt (push_phase wall budget);
  mret (match pushed with Ok sent => sent | Err _ => [] end,
        match expired, purged, pushed with
        | Ok _, Ok _, Ok _ => Ok tt
        | _, _, _ => Err (Internal "sweep")
        end).
End Push.

(** ** Handlers move the world forward *)
Section Progress.
Context `{UuidText, Primitives}.
Context (env : Env) (Henv : env_ok env).

Definition progresses {A} (m : Api A) : Prop := ∀ n w r n' w',
  m env (n, w) = (r, (n', w')) → later w w'.

Lemma progresses_bind {A B} (m : Api A) (f : A → Api B) :
  progresses m → (∀ a, progresses (f a)) → progresses (m ≫= f).
Proof.
  intros Hm Hf n w r n' w'. unfold mbind, Handler_bind.
  destruct (m env (n, w)) as [[a|e] [n1 w1]] eqn:E; apply Hm in E as Hl.
  - intros HH%Hf. by etrans.
  - by intros [= _ _ <-].
Qed.
Lemma progresses_lift {A} (r : result ApiFailure A) : progresses (lift r).
Proof. intros n w r' n' w' [= _ _ <-]. apply rtc_refl. Qed.
Lemma progresses_ret {A} (a : A) : progresses (mret a).
Proof. intros n w r' n' w' [= _ _ <-]. apply rtc_refl. Qed.
Lemma progresses_query {A} (f : DateTime → Db → A) : progresses (query f).
Proof.
  intros n w r n' w'. unfold query. destruct (env n w) as [w1|] eqn:E; intros [= _ _ <-].
  - by eapply Henv.
  - apply rtc_refl.
Qed.
Lemma progresses_transact {A} (f : DateTime → Db → result DbError (A * Db)) o :
  op_ok o → (∀ now d, exec now o d = committed (f now d)) → progresses (transact f).
Proof.
  intros Hok Hex n w r n' w'. unfold transact.
  destruct (env n w) as [[t d]|] eqn:E; [apply Henv in E|intros [= _ _ <-]; apply rtc_refl].
  cbn. destruct (f t d) as [[x d']|e] eqn:Ef; intros [= _ _ <-]; [|done].
  etrans; [exact E|]. apply exec_later with o; [done|done|]. by rewrite Hex, Ef.
Qed.
Lemma progresses_attempt {A} (m : Api A) : progresses m → progresses (attempt m).
Proof.
  intros Hm n w r n' w'. unfold attempt. destruct (m env (n, w)) as [r1 [n1 w1]] eqn:E.
  intros [= _ _ <-]. by eapply Hm.
Qed.

Lemma attempt_Ok {A} (m : Api A) s r s' :
  attempt m env s = (Ok r, s') → m env s = (r, s').
Proof. unfold attempt. destruct (m env s) as [r1 s1]. by intros [= <- <-]. Qed.
End Progress.
#[export] Hint Resolve progresses_bind progresses_lift progresses_ret progresses_query
  progresses_attempt : keychute.

(** Every step before the last is a bind. *)
Ltac progresses :=
  repeat first [apply progresses_bind; [|intros ?] | apply progresses_attempt];
  eauto with keychute.

(** ** What a sweep sends *)
Section Sends.
Context `{UuidText, Primitives}.
Context (env : Env) (Henv : env_ok env).
Context (external_url : string) (notifier : Notifier).
Notation sending := (list Notification * result ApiFailure unit)%type.

Lemma mark_progresses rid :
  progresses env (transact (λ now d, mark_push_delivered now rid d)).
Proof. by apply progresses_transact with (OpMarkPushDelivered rid). Qed.
Lemma claim_progresses rid : progresses env (transact (λ now d, claim_for_push now rid d)).
Proof. by apply progresses_transact with (OpClaimForPush rid). Qed.
Lemma claim_fyi_progresses rid : progresses env (transact (λ _ d, claim_for_fyi_push rid d)).
Proof. by apply progresses_transact with (OpClaimForFyiPush rid). Qed.
#[local] Hint Resolve mark_progresses claim_progresses claim_fyi_progresses : keychute.

Lemma send_push_progresses n rid : progresses env (send_push notifier n rid).
Proof. unfold send_push. progresses. destruct (send notifier n); auto with keychute. Qed.
#[local] Hint Resolve send_push_progresses : keychute.

Lemma push_one_fyi_progresses row : progresses env (push_one_fyi external_url notifier row).
Proof.
  unfold push_one_fyi. destruct (Mechanism.from_str_opt _); [|auto with keychute].
  progresses. destruct (negb _); auto with keychute.
Qed.
Lemma push_one_progresses wall row : progresses env (push_one external_url notifier wall row).
Proof.
  unfold push_one. apply progresses_bind; [auto with keychute|]. intros [|]; [progresses|].
  destruct (Mechanism.from_str_opt _); [|auto with keychute].
  progresses. destruct (negb _); auto with keychute.
Qed.

(** The claim that precedes a push held, of this request, in a world between
    the two; and the text names what was stored. *)
Definition backed_push (w w' : World) (rid : Uuid) (nt : Notification) : Prop :=
  ∃ wl wc r m, later w wl ∧ later wl wc ∧ later wc w'
    ∧ access_requests wc.2 !! rid = Some r ∧ ar_push_delivered_at r = None
    ∧ Mechanism.from_str_opt (ar_mechanism r) = Some m
    ∧ let stored := get_secret_by_name (ar_secret_name r) wl.2 in
      (ar_state r = PENDING ∧ (wc.1 < ar_expires_at r)%Z
       ∧ nt = request_notification external_url rid (ar_client_name r) m
                (secret_push_label (ar_secret_name r) wl.2))
      ∨ (ar_notify_only r = true
         ∧ nt = release_notification external_url rid (ar_client_name r) m (fyi_label stored)).

Lemma backed_push_mono w0 w w' w1 rid nt :
  later w0 w → later w' w1 → backed_push w w' rid nt → backed_push w0 w1 rid nt.
Proof.
  intros Ha Hb (wl & wc & r & m & Hl1 & Hl2 & Hl3 & HH). exists wl, wc, r, m.
  split; [by etrans|]. split; [done|]. split; [by etrans|done].
Qed.

(** A row read earlier keeps its identity. *)
Definition read_before (w : World) (row : AccessRequestRow) : Prop :=
  ∃ wq, world_reachable wq ∧ later wq w ∧ access_requests wq.2 !! ar_id row = Some row.

Lemma read_before_later w w' row : read_before w row → later w w' → read_before w' row.
Proof. intros (wq & Hr & Hl & Hrow) Hl'. exists wq. split; [done|]. split; [by etrans|done]. Qed.
Lemma read_before_identity w row r :
  read_before w row → access_requests w.2 !! ar_id row = Some r →
  request_identity row = request_identity r.
Proof.
  intros (wq & Hr%world_inv & Hl & Hrow) HH.
  destruct (ev_requests _ _ (later_evolves _ _ Hr Hl) _ _ Hrow) as (r' & Hr' & Hle).
  rewrite HH in Hr'. injection Hr' as <-. apply (rle_identity _ _ Hle).
Qed.

Lemma bump_guarded_claimed guard rid d d' :
  bump_guarded guard rid d = Ok (true, d') →
  ∃ r, access_requests d !! rid = Some r ∧ guard r = true.
Proof.
  unfold bump_guarded. destruct (guarded_request rid guard d) as [r|] eqn:E; [|done].
  intros _. exists r. by apply guarded_request_Some.
Qed.

Lemma send_push_Ok nt rid n w sent r n' w' :
  send_push notifier nt rid env (n, w) = (Ok (sent, r), (n', w')) → sent = [nt] ∧ later w w'.
Proof.
  intros HH. split; [|by eapply send_push_progresses].
  unfold send_push in HH. apply Api_bind_Ok in HH as (x & s & _ & HH).
  by apply ret_Ok in HH as [[= -> ->] _].
Qed.

Lemma push_one_fyi_sends row n w sent r n' w' :
  read_before w row →
  push_one_fyi external_url notifier row env (n, w) = (Ok (sent, r), (n', w')) →
  ∀ nt, nt ∈ sent → backed_push w w' (ar_id row) nt.
Proof.
  intros Hrow. unfold push_one_fyi. destruct (Mechanism.from_str_opt _) as [m|] eqn:Em.
  2:{ intros [[= -> ->] _]%ret_Ok nt []%elem_of_nil. }
  intros (s & [n1 w1] & Hq & HH)%Api_bind_Ok. apply (query_later _ Henv) in Hq as [Hl1 ->].
  apply Api_bind_Ok in HH as (c & [n2 w2] & Hc & HH).
  apply (transact_later _ Henv) in Hc as (wc & d & Hl2 & Hc & ->).
  destruct c; cbn [negb] in HH; [|by apply ret_Ok in HH as [[= -> ->] _]; intros nt []%elem_of_nil].
  apply send_push_Ok in HH as [-> Hl3]. intros nt ->%list_elem_of_singleton.
  assert (Hl4 : later wc (wc.1, d)).
  { destruct wc. apply exec_later with (OpClaimForFyiPush (ar_id row)); [done|done|].
    by apply (committed_eq _ _ _ Hc). }
  destruct (bump_guarded_claimed _ _ _ _ Hc) as (r' & Hr' & Hg). unfold fyi_pushable in Hg.
  assert (Hid : request_identity row = request_identity r').
  { apply (read_before_identity wc); [|done]. eapply read_before_later; [done|by etrans]. }
  unfold request_identity in Hid. injection Hid as _ Hcl Hsn Hme _ _ _ _ _ _ _.
  exists w1, wc, r', m. rewrite <-Hcl, <-Hsn, <-Hme. kbool.
  split_and!; try done; [by etrans| |by right]. by destruct (ar_push_delivered_at r').
Qed.

Lemma push_one_sends wall row n w sent r n' w' :
  read_before w row →
  push_one external_url notifier wall row env (n, w) = (Ok (sent, r), (n', w')) →
  ∀ nt, nt ∈ sent → backed_push w w' (ar_id row) nt.
Proof.
  intros Hrow. unfold push_one.
  intros (dup & [n0 w0] & Hq & HH)%Api_bind_Ok. apply (query_later _ Henv) in Hq as [Hl0 ->].
  destruct (recent_duplicate_push _ _ _).
  { apply Api_bind_Ok in HH as (? & ? & _ & HH). apply ret_Ok in HH as [[= -> ->] _].
    intros nt []%elem_of_nil. }
  destruct (Mechanism.from_str_opt _) as [m|] eqn:Em.
  2:{ apply ret_Ok in HH as [[= -> ->] _]. intros nt []%elem_of_nil. }
  apply Api_bind_Ok in HH as (s & [n1 w1] & Hq & HH). apply (query_later _ Henv) in Hq as [Hl1 ->].
  apply Api_bind_Ok in HH as (c & [n2 w2] & Hc & HH).
  apply (transact_later _ Henv) in Hc as (wc & d & Hl2 & Hc & ->).
  destruct c; cbn [negb] in HH; [|by apply ret_Ok in HH as [[= -> ->] _]; intros nt []%elem_of_nil].
  apply send_push_Ok in HH as [-> Hl3]. intros nt ->%list_elem_of_singleton.
  assert (Hl4 : later wc (wc.1, d)).
  { destruct wc. apply exec_later with (OpClaimForPush (ar_id row)); [done|done|].
    by apply (committed_eq _ _ _ Hc). }
  destruct (bump_guarded_claimed _ _ _ _ Hc) as (r' & Hr' & Hg). unfold pushable, is_pending in Hg.
  assert (Hid : request_identity row = request_identity r').
  { apply (read_before_identity wc); [|done].
    eapply read_before_later; [done|]. etrans; [done|by etrans]. }
  unfold request_identity in Hid. injection Hid as _ Hcl Hsn Hme _ _ _ _ _ _ _.
  exists w1, wc, r', m. rewrite <-Hcl, <-Hsn, <-Hme. kbool.
  apply Z.ltb_lt in H2.
  split_and!; try done; [by etrans|by etrans| |by left]. by destruct (ar_push_delivered_at r').
Qed.

Lemma push_rows_progresses wall budget rows :
  progresses env (push_rows external_url notifier wall budget rows).
Proof.
  revert budget. induction rows as [|row rows IH]; intros [|budget]; cbn [push_rows];
    auto with keychute.
  apply progresses_bind; [|intros ?; progresses].
  apply progresses_attempt. destruct (ar_notify_only row);
    auto using push_one_progresses, push_one_fyi_progresses.
Qed.

Lemma push_rows_sends wall budget rows n w sent n' w' :
  (∀ row, row ∈ rows → read_before w row) →
  push_rows external_url notifier wall budget rows env (n, w) = (Ok sent, (n', w')) →
  ∀ nt, nt ∈ sent → ∃ rid, backed_push w w' rid nt.
Proof.
  revert budget n w sent. induction rows as [|row rows IH]; intros [|budget] n w sent Hrows;
    cbn [push_rows]; try by (intros [-> _]%ret_Ok nt []%elem_of_nil).
  intros (r & [n1 w1] & Hr%attempt_Ok & HH)%Api_bind_Ok.
  apply Api_bind_Ok in HH as (rest & [n2 w2] & Hrest & HH). apply ret_Ok in HH as [-> [= -> ->]].
  assert (Hl : later w w1).
  { destruct (ar_notify_only row); [eapply push_one_fyi_progresses|eapply push_one_progresses];
      exact Hr. }
  assert (Hl' : later w1 w2) by by eapply push_rows_progresses.
  intros nt [Hnt|Hnt]%elem_of_app.
  - destruct r as [[sent0 r0]|]; [|by apply elem_of_nil in Hnt]. exists (ar_id row).
    apply (backed_push_mono w w w1 w2); [apply rtc_refl|done|].
    assert (Hrow : read_before w row) by (apply Hrows; by left).
    destruct (ar_notify_only row); [eapply push_one_fyi_sends|eapply push_one_sends]; eauto.
  - destruct (IH budget n1 w1 rest) with (nt := nt) as (rid & HH); [|done|done|].
    + intros x Hx. apply read_before_later with w; [|done]. apply Hrows. by right.
    + exists rid. by eapply backed_push_mono; [exact Hl|apply rtc_refl|].
Qed.

Lemma selected_read_before w f row :
  world_reachable w → row ∈ select f (access_requests w.2) → read_before w row.
Proof.
  intros Hr [[k Hk] _]%elem_select. exists w. split; [done|]. split; [apply rtc_refl|].
  pose proof (inv_wf _ _ (world_inv _ Hr)) as Hwf. by rewrite (wf_request_pk _ Hwf _ _ Hk).
Qed.

Lemma push_phase_progresses wall budget :
  progresses env (push_phase external_url notifier wall budget).
Proof.
  unfold push_phase. destruct (negb _); progresses. apply push_rows_progresses.
Qed.

Lemma push_phase_sends wall budget n w sent n' w' :
  world_reachable w →
  push_phase external_url notifier wall budget env (n, w) = (Ok sent, (n', w')) →
  ∀ nt, nt ∈ sent → is_real notifier = true ∧ ∃ rid, backed_push w w' rid nt.
Proof.
  intros Hr. unfold push_phase. destruct (is_real notifier); cbn [negb].
  2:{ intros [-> _]%ret_Ok nt []%elem_of_nil. }
  intros (pending & [n1 w1] & Hq & HH)%Api_bind_Ok. apply (query_later _ Henv) in Hq as [Hl1 ->].
  apply Api_bind_Ok in HH as (fyi & [n2 w2] & Hq & HH).
  apply (query_later _ Henv) in Hq as [Hl2 ->]. intros nt Hnt. split; [done|].
  assert (Hr1 : world_reachable w1) by by eapply reachable_later.
  assert (Hr2 : world_reachable w2) by by eapply reachable_later.
  eapply push_rows_sends in HH as (rid & Hb); [..|exact Hnt].
  - exists rid. eapply backed_push_mono; [|apply rtc_refl|exact Hb]. by etrans.
  - intros row [Hrow|Hrow]%elem_of_app; unfold list_pending_needing_push,
      list_notify_only_needing_push in Hrow; rewrite sort_by_key_perm in Hrow.
    + apply read_before_later with w1; [|done]. by eapply selected_read_before.
    + by eapply selected_read_before.
Qed.

Lemma expire_phase_progresses : progresses env expire_phase.
Proof. by apply progresses_transact with OpExpireStale. Qed.
Lemma purge_phase_progresses window : progresses env (purge_phase window).
Proof.
  unfold purge_phase. progresses.
  - by apply progresses_transact with (OpSweepPassthroughs window).
  - by apply progresses_transact with (OpPurgeRequestContext (CONTEXT_RETENTION_HOURS * 3600)).
  - by apply progresses_transact with (OpUnpinReads window).
Qed.
End Sends.

(** Every push a sweep sends was owed when it was claimed.  Whatever other
    handlers do meanwhile, each notification is for one request row that, at
    its claim, was undelivered and either pending and unexpired (an approval
    prompt) or marked for a release note; its text is built from that row's
    client and mechanism and, if the secret is stored, from the stored name;
    and a notifier that is not real is sent nothing. *)
Theorem sweep_pushes_backed `{UuidText, Primitives} env external_url notifier wall budget window
    n w sent r n' w' :
  env_ok env → world_reachable w →
  sweep_once external_url notifier wall budget window env (n, w) = (Ok (sent, r), (n', w')) →
  later w w'
  ∧ ∀ nt, nt ∈ sent → is_real notifier = true ∧ ∃ rid, backed_push external_url w w' rid nt.
Proof.
  intros Henv Hr. unfold sweep_once.
  intros (x & [n1 w1] & He%attempt_Ok & HH)%Api_bind_Ok. apply (expire_phase_progresses _ Henv) in He.
  apply Api_bind_Ok in HH as (y & [n2 w2] & Hp%attempt_Ok & HH).
  apply (purge_phase_progresses _ Henv) in Hp.
  apply Api_bind_Ok in HH as (z & [n3 w3] & Hs%attempt_Ok & HH).
  apply ret_Ok in HH as [[= -> _] [= -> ->]].
  assert (Hl : later w w2) by by etrans.
  assert (Hl3 : later w2 w3).
  { by eapply push_phase_progresses. }
  split; [by etrans|]. intros nt Hnt. destruct z as [sent|]; [|by apply elem_of_nil in Hnt].
  apply (push_phase_sends _ Henv _ _ _ _ _ _ _ _ _ (reachable_later _ _ Hr Hl) Hs) in Hnt
    as [Hn (rid & Hb)].
  split; [done|]. exists rid. by eapply backed_push_mono; [exact Hl|apply rtc_refl|].
Qed.

(** ** A sweep with a working notifier *)
Section Delivers.
Context `{UuidText, Primitives}.
Context (external_url : string) (notifier : Notifier).
Context (Hreal : is_real notifier = true) (Hsend : ∀ nt, send notifier nt = true).
Context (t : DateTime).


Definition delivered (r : AccessRequestRow) : Prop := is_Some (ar_push_delivered_at r).
(** Rows are left alone or become delivered. *)
Definition settles (d d' : Db) : Prop := ∀ k r', access_requests d' !! k = Some r' →
  access_requests d !! k = Some r' ∨ delivered r'.
Lemma settles_refl d : settles d d.
Proof. intros k r. by left. Qed.
Lemma settles_trans d1 d2 d3 : settles d1 d2 → settles d2 d3 → settles d1 d3.
Proof. intros Ha Hb k r [Hr|Hr]%Hb; [by apply Ha|by right]. Qed.

Definition marked (rid : Uuid) (d : Db) : Db :=
  with_access_requests (alter (λ r, set_push (Some t) (ar_push_attempts r) r) rid) d.
Lemma marked_row rid d r :
  access_requests (marked rid d) !! rid = Some r → delivered r.
Proof. cbn. rewrite lookup_alter_eq. intros (x & _ & ->)%fmap_Some. by eexists. Qed.
Lemma marked_settles rid d : settles d (marked rid d).
Proof.
  intros k r. destruct (decide (k = rid)) as [->|Hne]; [right; by eapply marked_row|].
  cbn. rewrite lookup_alter_ne by done. by left.
Qed.

Lemma bump_marked guard rid d d' :
  db_wf d → bump_guarded guard rid d = Ok (true, d') → settles d (marked rid d').
Proof.
  intros Hwf. unfold bump_guarded. destruct (guarded_request rid guard d) as [r|] eqn:E; [|done].
  apply guarded_request_Some in E as [Hr _].
  intros (x & _ & [= <-])%bind_Ok k r'. destruct (decide (k = rid)) as [->|Hne].
  - right. by eapply marked_row.
  - cbn. rewrite lookup_alter_ne, lookup_insert_ne; [by left| |done].
    by rewrite (wf_request_pk _ Hwf _ _ Hr).
Qed.
Lemma bump_unclaimed guard rid d d' :
  bump_guarded guard rid d = Ok (false, d') → d' = d ∧ guarded_request rid guard d = None.
Proof.
  unfold bump_guarded. destruct (guarded_request rid guard d) as [r|]; [|by intros [= <-]].
  by intros (x & _ & ?)%bind_Ok.
Qed.
Lemma bump_Err guard rid d e :
  bump_guarded guard rid d = Err e →
  ∃ r, access_requests d !! rid = Some r ∧ (i32_MAX ≤ ar_push_attempts r)%Z.
Proof.
  unfold bump_guarded. destruct (guarded_request rid guard d) as [r|] eqn:E; [|done].
  apply guarded_request_Some in E as [Hr _]. intros HH. exists r. split; [done|]. revert HH.
  unfold int4_succ. destruct (Z.ltb_spec (ar_push_attempts r) i32_MAX); [done|lia].
Qed.

Lemma send_push_alone nt rid n d :
  send_push notifier nt rid alone (n, (t, d)) = (Ok ([nt], Ok tt), (S n, (t, marked rid d))).
Proof. unfold send_push. unfold mbind, Handler_bind, attempt. by rewrite Hsend. Qed.

(** A row the push of its kind can send for. *)
Definition sendable (row : AccessRequestRow) : Prop :=
  (if ar_notify_only row then fyi_pushable row else pushable t row) = true
  ∧ (ar_push_attempts row < i32_MAX)%Z ∧ is_Some (Mechanism.from_str_opt (ar_mechanism row)).
Definition push_row (wall : DateTime) (row : AccessRequestRow) :=
  if ar_notify_only row then push_one_fyi external_url notifier row
  else push_one external_url notifier wall row.

(** The claim and the send that follows it. *)
Definition claimed_send (claim : DateTime → Db → result DbError (bool * Db)) (nt : Notification)
    (rid : Uuid) : Api (list Notification * result ApiFailure unit) :=
  claimed ← transact claim;
  if negb claimed then mret ([], Ok tt) else send_push notifier nt rid.

Lemma claimed_send_alone guard nt row n d :
  db_wf d →
  ∃ r n' d', claimed_send (λ _ d, bump_guarded guard (ar_id row) d) nt (ar_id row) alone
      (n, (t, d)) = (r, (n', (t, d')))
    ∧ settles d d'
    ∧ (access_requests d !! ar_id row = Some row → guard row = true →
       (ar_push_attempts row < i32_MAX)%Z →
       ∀ r', access_requests d' !! ar_id row = Some r' → delivered r').
Proof.
  intros Hwf. unfold claimed_send. unfold mbind, Handler_bind at 1. rewrite transact_alone. cbn [fst snd].
  destruct (bump_guarded guard (ar_id row) d) as [[[|] d1]|e] eqn:E; cbn [negb].
  - rewrite send_push_alone. do 3 eexists. split; [done|]. split; [by eapply bump_marked|].
    intros _ _ _ r'. apply marked_row.
  - apply bump_unclaimed in E as [-> E]. do 3 eexists. split; [done|].
    split; [apply settles_refl|]. intros Hr Hg _. unfold guarded_request in E.
    by rewrite Hr, Hg in E.
  - do 3 eexists. split; [done|]. split; [apply settles_refl|].
    apply bump_Err in E as (r & Hr & Hmax). intros Hr'. rewrite Hr' in Hr. injection Hr as <-. lia.
Qed.

Lemma push_row_alone wall row n d :
  db_wf d →
  ∃ r n' d', push_row wall row alone (n, (t, d)) = (r, (n', (t, d')))
    ∧ settles d d'
    ∧ (access_requests d !! ar_id row = Some row → sendable row →
       ∀ r', access_requests d' !! ar_id row = Some r' → delivered r').
Proof.
  intros Hwf. unfold push_row, sendable, push_one_fyi, push_one.
  destruct (ar_notify_only row).
  - destruct (Mechanism.from_str_opt _) as [m|].
    2:{ do 3 eexists. split; [done|]. split; [apply settles_refl|]. by intros _ (_ & _ & []). }
    erewrite bind_run by apply query_alone.
    edestruct claimed_send_alone as (r & n' & d' & E & Hs & Hd); [exact Hwf|].
    exists r, n', d'. split; [exact E|]. split; [done|]. intros Hr (Hg & Hmax & _). by apply Hd.
  - erewrite bind_run by apply query_alone. destruct (recent_duplicate_push _ _ _).
    { do 3 eexists. split; [done|]. split; [apply marked_settles|].
      intros _ _ r'. apply marked_row. }
    destruct (Mechanism.from_str_opt _) as [m|].
    2:{ do 3 eexists. split; [done|]. split; [apply settles_refl|]. by intros _ (_ & _ & []). }
    erewrite bind_run by apply query_alone.
    edestruct (claimed_send_alone (pushable t)) as (r & n' & d' & E & Hs & Hd); [exact Hwf|].
    exists r, n', d'. split; [exact E|]. split; [done|]. intros Hr (Hg & Hmax & _). by apply Hd.
Qed.

Lemma push_row_reachable wall row n d r n' d' :
  world_reachable (t, d) → push_row wall row alone (n, (t, d)) = (r, (n', (t, d'))) →
  world_reachable (t, d').
Proof.
  intros Hr HH. eapply reachable_later; [exact Hr|]. unfold push_row in HH.
  destruct (ar_notify_only row); [eapply push_one_fyi_progresses|eapply push_one_progresses];
    try exact HH; apply alone_ok.
Qed.

Lemma push_rows_alone wall budget rows n d :
  world_reachable (t, d) → (List.length rows ≤ budget)%nat →
  ∃ sent n' d', push_rows external_url notifier wall budget rows alone (n, (t, d))
      = (Ok sent, (n', (t, d')))
    ∧ settles d d'
    ∧ ∀ row, row ∈ rows → access_requests d !! ar_id row = Some row → sendable row →
        ∀ r', access_requests d' !! ar_id row = Some r' → delivered r'.
Proof.
  revert budget n d. induction rows as [|row rows IH]; intros budget n d Hr Hlen.
  - destruct budget; do 3 eexists; (split; [done|]); (split; [apply settles_refl|]);
      by intros row ?%elem_of_nil.
  - destruct budget as [|budget]; [cbn in Hlen; lia|]. cbn [push_rows].
    change (if ar_notify_only row then _ else _) with (push_row (wall (ar_id row)) row).
    destruct (push_row_alone (wall (ar_id row)) row n d (inv_wf _ _ (world_inv _ Hr)))
      as (r & n1 & d1 & E & Hs1 & Hd1).
    assert (Hr1 : world_reachable (t, d1)) by by eapply push_row_reachable.
    destruct (IH budget n1 d1 Hr1 ltac:(cbn in Hlen; lia)) as (rest & n2 & d2 & E2 & Hs2 & Hd2).
    erewrite bind_run by (unfold attempt; by rewrite E).
    erewrite bind_run by exact E2. do 3 eexists. split; [done|].
    split; [by eapply settles_trans|]. intros x Hx Hrow Hsend' r' Hr'.
    destruct (Hs2 _ _ Hr') as [Hr1'|]; [|done]. apply elem_of_cons in Hx as [->|Hx]; [by apply Hd1|].
    destruct (Hs1 _ _ Hr1') as [Hr0|]; [|done].
    rewrite Hrow in Hr0. injection Hr0 as <-. by apply (Hd2 x).
Qed.
End Delivers.

(** C34: a working notifier empties the outbox.  When no other handler runs,
    every send succeeds and the phase reaches the whole queue, the push phase
    completes and leaves undelivered only requests whose mechanism is unknown
    (or whose attempts counter is full): every other pending request and every
    recent automatic release has been delivered. *)
Theorem push_phase_delivers `{UuidText, Primitives} external_url notifier wall budget n w :
  world_reachable w → is_real notifier = true → (∀ nt, send notifier nt = true) →
  let window := (FYI_RETRY_WINDOW_HOURS * 3600)%Z in
  let owed d := (list_pending_needing_push w.1 i32_MAX d
                 ++ list_notify_only_needing_push w.1 window d)%list in
  (List.length (owed w.2) ≤ budget)%nat →
  ∃ sent n' d',
    push_phase external_url notifier wall budget alone (n, w) = (Ok sent, (n', (w.1, d')))
    ∧ ∀ r, r ∈ owed d' →
        Mechanism.from_str_opt (ar_mechanism r) = None ∨ (i32_MAX ≤ ar_push_attempts r)%Z.
Proof.
  destruct w as [t d]. intros Hr Hreal Hsend window owed Hlen.
  destruct (push_rows_alone external_url notifier Hsend t wall budget (owed d) (S (S n)) d Hr Hlen)
    as (sent & n' & d' & E & Hs & Hd).
  exists sent, n', d'. split.
  { unfold push_phase. rewrite Hreal. cbn [negb].
    erewrite bind_run by apply query_alone. by erewrite bind_run by apply query_alone. }
  intros r Hin.
  assert (Hrow : ∀ db, r ∈ owed db ↔ (∃ k, access_requests db !! k = Some r)
            ∧ ((is_pending r && is_none (ar_push_delivered_at r)
                && (ar_push_attempts r <? i32_MAX)%Z && (t <? ar_expires_at r)%Z) = true
               ∨ (ar_notify_only r && eqb (ar_state r) APPROVED && is_none (ar_push_delivered_at r)
                  && (t - seconds window <? ar_created_at r)%Z) = true)).
  { intros db. unfold owed, list_pending_needing_push, list_notify_only_needing_push.
    rewrite elem_of_app, !sort_by_key_perm, !elem_select. naive_solver. }
  apply Hrow in Hin as ((k & Hk) & Hc).
  assert (Hund : is_none (ar_push_delivered_at r) = true).
  { destruct Hc as [Hc|Hc]; by kbool. }
  assert (Hnd : ¬ delivered r) by (intros [x Hx]; by rewrite Hx in Hund).
  destruct (Hs _ _ Hk) as [Hk0|]; [|done].
  pose proof (wf_request_pk _ (inv_wf _ _ (world_inv _ Hr)) _ _ Hk0) as Hid.
  destruct (Mechanism.from_str_opt (ar_mechanism r)) eqn:Em; [right|by left].
  apply Z.nlt_ge. intros Hlt. apply Hnd. cbn [snd] in Hid. subst k.
  apply (Hd r); [apply Hrow; by eauto|done| |done]. split; [|by rewrite Em].
  unfold fyi_pushable, pushable. destruct (ar_notify_only r) eqn:En; [done|].
  rewrite Hund. destruct Hc as [Hc|Hc]; [|done]. kbool. by rewrite H1, H2.
Qed.

(** ** Witnesses: one pending request, one notifier that works *)
Module PushExample.
Import ApiExample.
Definition pushover : Notifier := mkNotifier true (λ _, true).
Definition asking : list (DateTime * op) :=
  [(seconds 5, OpReconcileClients (λ n, (500 + N.of_nat n)%N) [agent]);
   (seconds 20, OpInsertRequestWithId 10 99 (asked "cli-read" Null) (Some 3%Z)
                  InitialResolution.Pending None)].
Definition start : World := (seconds 20, Scenario.db_after asking).
Lemma asking_reachable : world_reachable start.
Proof.
  apply (Scenario.run_reachable asking); [|vm_compute; reflexivity].
  cbn. repeat (apply Forall_cons; split); [done|done|by apply Forall_nil].
Qed.
Definition run : result ApiFailure (list Notification * result ApiFailure unit) * St :=
  sweep_once "https://kc/" pushover (λ _, seconds 21) 5 60 alone (0, start).
Definition after : St := Eval vm_compute in run.2.
Definition prompt : Notification :=
  request_notification "https://kc/" 10 "agent" Mechanism.CliRead NOT_STORED_LABEL.
End PushExample.
Import ApiExample PushExample.

Lemma sweep_pushes_backed_witness :
  ∃ rid, backed_push "https://kc/" start after.2 rid prompt.
Proof.
  destruct (sweep_pushes_backed alone "https://kc/" pushover (λ _, seconds 21) 5 60 0 start
    [prompt] (Ok tt) after.1 after.2) as [_ Hall].
  - apply alone_ok.
  - exact asking_reachable.
  - vm_compute. reflexivity.
  - destruct (Hall prompt) as [_ Hb]; [apply list_elem_of_singleton; reflexivity|exact Hb].
Defined.

Lemma push_phase_delivers_witness :
  ∃ sent n' d', push_phase "https://kc/" pushover (λ _, seconds 21) 1 alone (0, start)
                = (Ok sent, (n', (start.1, d'))).
Proof.
  destruct (push_phase_delivers "https://kc/" pushover (λ _, seconds 21) 1 0 start)
    as (sent & n' & d' & E & _).
  - exact asking_reachable.
  - reflexivity.
  - intros nt. reflexivity.
  - apply (bool_decide_unpack _). vm_compute. exact I.
  - exists sent, n', d'. exact E.
Defined.
