(* ===== verification/ApiRequests.v ===== *)
(** [server/src/api/requests.rs]: validation of a request, the policy engine's
    inputs, creation (idempotent, decided before it is inserted), status and
    the long poll. *)

From S2P Require Import Prelude RustStr Types Paths Json Canonical Crypto Examples SigV4 Http Store Requests.
From S2P Require Import Grants ApiExt Secrets UiExt Policies Clients Provision Notify Lifecycle.
From S2P Require Import Refinement Safety StoreProps Slots Api Push.
From S2P Require Policy.
Open Scope string_scope.

Definition MAX_IDEM_KEY_BYTES : Z := 128.
Definition MAX_REASON_BYTES : Z := 4 * 1024.
Definition MAX_STRUCTURED_BYTES : Z := 16 * 1024.
Definition MAX_CONSTRAINT_ENTRIES : Z := 32.
Definition MAX_TTL_SECONDS : Z := 30 * 24 * 3600.
Definition MAX_USES : Z := i32_MAX.

Definition validate_idempotency_key (req : CreateAccessRequest) : result ApiFailure unit :=
  fail_if eqb (idempotency_key req) "" with InvalidRequest "idempotency_key is required";
  fail_if (MAX_IDEM_KEY_BYTES <? len (idempotency_key req))%Z
    with RequestTooLarge "idempotency_key too long";
  Ok tt.

Definition length_z {A} (l : list A) : Z := Z.of_nat (List.length l).

(** The uses a grant of the mechanism may ask for. *)
Definition requested_uses (mechanism : Mechanism.t) (methods : list string) (c : Constraints)
  : result ApiFailure (option Z) :=
  if eqb mechanism Mechanism.Brokered then
    fail_if negb (length_z (origins c) =? 1)%Z
      with InvalidRequest "brokered requests must name exactly one origin";
    fail_if is_empty methods
      with InvalidRequest "brokered requests must name at least one method";
    match max_uses c with
    | Some u =>
        fail_if (u =? 0)%Z with InvalidRequest "max_uses must be at least 1";
        fail_if (MAX_USES <? u)%Z with InvalidRequest "max_uses is too large";
        Ok (Some u)
    | None => Ok None
    end
  else
    match max_uses c with
    | None => Ok (Some 1%Z)
    | Some u =>
        fail_if negb (u =? 1)%Z
          with InvalidRequest "releasing-tier requests may not exceed max_uses = 1";
        Ok (Some 1%Z)
    end.

Section Validate.
(** The bytes [serde_json::to_vec] writes for a value. *)
Context (value_to_vec : Value → string).

Definition validate_request (req : CreateAccessRequest) : result ApiFailure Constraints :=
  _ ← validate_idempotency_key req;
  fail_if eqb (secret_name req) "" || (256 <? len (secret_name req))%Z
    with InvalidRequest "invalid secret_name";
  fail_if (MAX_REASON_BYTES <? len (reason (context req)))%Z
    with RequestTooLarge "context.reason too long";
  fail_if match structured (context req) with
          | Some v => (MAX_STRUCTURED_BYTES <? len (value_to_vec v))%Z
          | None => false
          end
    with RequestTooLarge "context.structured too large";
  let c := constraints req in
  fail_if (MAX_CONSTRAINT_ENTRIES <? length_z (origins c))%Z
          || (MAX_CONSTRAINT_ENTRIES <? length_z (methods c))%Z
          || (MAX_CONSTRAINT_ENTRIES <? length_z (path_prefixes c))%Z
    with RequestTooLarge "too many constraint entries";
  fail_if (ttl_seconds c <? 1)%Z || (MAX_TTL_SECONDS <? ttl_seconds c)%Z
    with InvalidRequest "ttl_seconds must be between 1 and 30 days";
  methods ← try_map (λ m,
              fail_if negb (Policy.is_valid_http_method m) with InvalidRequest "invalid method";
              Ok (to_ascii_uppercase m)) (methods c);
  prefixes ← try_map (λ p, map_err (λ _, InvalidRequest "invalid path prefix") (canonicalize p))
               (path_prefixes c);
  uses ← requested_uses (mechanism req) methods c;
  Ok (mkConstraints (origins c) methods prefixes (ttl_seconds c) uses).
End Validate.

(** ** The policy engine's inputs *)
Definition row_is_applicable_raw (r : PolicyRow) (client_name : string)
    (req : Policy.RequestedGrant) (secret_tags : list string) (now : DateTime) : bool :=
  if negb (eqb (po_mechanism r) (Mechanism.as_str (Policy.r_mechanism req))) then false
  else if match po_not_after r with Some not_after => (not_after <=? now)%Z | None => false end
  then false
  else if match po_client_name r with Some c => negb (eqb c client_name) | None => false end
  then false
  else match po_secret_name r, po_secret_tag r with
       | Some name, _ => eqb name (Policy.r_secret_name req)
       | None, Some tag => existsb (λ t, eqb t tag) secret_tags
       | None, None => true
       end.

Definition client_input (client : ClientRow) : Policy.ClientRow :=
  Policy.mkClientRow (cl_name client) (cl_enabled client)
    (default Tier.Brokered (Tier.from_int (cl_max_tier client)))
    (omap Mechanism.from_str_opt (cl_mechanisms client)).
Definition secret_input (s : SecretRow) : Policy.SecretRow :=
  Policy.mkSecretRow (sr_name s) (sr_enabled s)
    (default Tier.Brokered (Tier.from_int (sr_max_tier s))) (sr_operator_vetted s).

Section Inputs.
Context `{UrlLib}.

(** A stored row as the engine reads it, if it parses. *)
Definition parse_policy (r : PolicyRow) : option Policy.PolicyRow :=
  mechanism ← Mechanism.from_str_opt (po_mechanism r);
  outcome ← Policy.Outcome.from_str_opt (po_outcome r);
  origins ← Origins_of_value url_host_str (po_origins r);
  if negb (forallb Policy.is_valid_http_method (po_methods r)) then None else
  prefixes ← ok (try_map canonicalize (po_path_prefixes r));
  Some (Policy.mkPolicyRow (po_id r) (po_client_name r) (po_secret_name r) (po_secret_tag r)
          mechanism outcome (po_priority r) origins (po_methods r) prefixes
          (Z.max 0 <$> po_max_ttl_seconds r) (Z.max 0 <$> po_max_uses r) (po_not_after r)).

Definition UNREADABLE : string := "policy set contains an unreadable rule".
Fixpoint policy_rows (client_name : string) (secret_tags : list string)
    (req : Policy.RequestedGrant) (now : DateTime) (rows : list PolicyRow)
  : result ApiFailure (list Policy.PolicyRow) :=
  match rows with
  | [] => Ok []
  | r :: rows =>
      match parse_policy r with
      | Some p => out ← policy_rows client_name secret_tags req now rows; Ok (p :: out)
      | None =>
          fail_if row_is_applicable_raw r client_name req secret_tags now
            with PolicyDenied UNREADABLE;
          policy_rows client_name secret_tags req now rows
      end
  end.

Definition policy_inputs (client : ClientRow) (secret : option SecretRow)
    (secret_tags : list string) (req : Policy.RequestedGrant) (rows : list PolicyRow)
    (now : DateTime)
  : result ApiFailure (Policy.ClientRow * option Policy.SecretRow * list Policy.PolicyRow) :=
  out ← policy_rows (cl_name client) secret_tags req now rows;
  Ok (client_input client, secret_input <$> secret, out).
End Inputs.

(** ** Pushes of a new request *)
Definition ttl_human (seconds : Z) : string :=
  if (seconds mod 3600 =? 0)%Z then Z_to_string (seconds / 3600) +:+ "h"
  else if (seconds mod 60 =? 0)%Z then Z_to_string (seconds / 60) +:+ "m"
  else Z_to_string seconds +:+ "s".

(** [serde_json::to_vec] of a value and of the request context;
    [DateTime::<Utc>::MAX_UTC]. *)
Class JsonBytes := {
  value_to_vec : Value → string;
  context_to_vec : Types.RequestContext → string;
  MAX_UTC : DateTime
}.

(** The random draws of one creation. *)
Record Fresh := mkFresh {
  fresh_request : Uuid;
  fresh_grant : Uuid;
  fresh_draw : Draw
}.

Section Create.
Context `{UuidText, Primitives, HttpLib, UrlLib, SigText, WireLib, JsonText, JsonBytes}.

Definition approval_notification (external_url client_name : string) (mechanism : Mechanism.t)
    (ttl_seconds : Z) (secret : option SecretRow) (request_id : Uuid) : Notification :=
  mkNotification "Keychute approval needed"
    (client_name +:+ " requests " +:+ ttl_human ttl_seconds +:+ " of "
     +:+ Mechanism.as_str mechanism +:+ " access ("
     +:+ Tier.human_label (Mechanism.tier mechanism) +:+ ") using " +:+ fyi_label secret)
    (Some (review_url external_url request_id)) (Some "Review request").

(** ** Creation *)
Definition saturate_i32 (u : Z) : Z := if (u <=? i32_MAX)%Z then u else i32_MAX.

(** The grant an automatic decision mints, bound to the row just evaluated. *)
Definition auto_grant (client : ClientRow) (secret : SecretRow) (mechanism : Mechanism.t)
    (k : Constraints) (cap : option DateTime) (now : DateTime) : GrantParams :=
  let not_after := (now + seconds (ttl_seconds k))%Z in
  mkGrantParams (cl_name client) (sr_name secret) (Some (sr_id secret))
    (Mechanism.as_str mechanism) (Constraints_to_value k)
    (match cap with Some c => Z.min not_after c | None => not_after end)
    (saturate_i32 <$> max_uses k) None.

Definition resolution_of (client : ClientRow) (secret : option SecretRow)
    (mechanism : Mechanism.t) (k : Constraints) (e : Policy.Evaluation) (now : DateTime)
  : result ApiFailure InitialResolution.t :=
  let approved (notify_only : bool) :=
    secret ← ok_or secret (Internal "auto-approve decision without a stored secret");
    Ok (InitialResolution.Approved RESOLVED_BY_POLICY_AUTO
          (auto_grant client secret mechanism k (Policy.policy_not_after e) now) notify_only) in
  match Policy.decision e with
  | Policy.Decision.AutoApprove => approved false
  | Policy.Decision.NotifyOnly => approved true
  | Policy.Decision.Deny reason => Ok (InitialResolution.Denied reason "policy")
  | Policy.Decision.RequireApproval => Ok InitialResolution.Pending
  end.

Definition seal_context (keyset : Keyset) (draw : Draw) (id : Uuid) (c : Types.RequestContext)
  : SealedContext :=
  if eqb (reason c) "" && is_none (structured c) then None
  else Some (Keyset_seal keyset draw (context_to_vec c) (Crypto.RequestContext id)).

(** The row of an idempotency key that is already taken. *)
Definition existing_status (row : AccessRequestRow) (mac : string) : Api AccessRequestStatus :=
  _ ← lift (fail_if negb (ct_eq (ar_idem_mac row) mac) with IdempotencyKeyReuse; Ok tt);
  status_from_row row.

(** Send what a claim was won for; a failed send is left to the sweeper, a
    failed record of the delivery is an error. *)
Definition send_claimed (notifier : Notifier) (claimed : bool) (n : Notification) (id : Uuid)
  : Api (list Notification) :=
  if negb claimed then mret []
  else
    '(sent, r) ← send_push notifier n id;
    _ ← lift r;
    mret sent.

Definition push_release (config : Config) (notifier : Notifier) (client : ClientRow)
    (mechanism : Mechanism.t) (secret : option SecretRow) (id : Uuid)
  : Api (list Notification) :=
  claimed ← transact (λ _ d, claim_for_fyi_push id d);
  send_claimed notifier claimed
    (release_notification (external_url config) id (cl_name client) mechanism (fyi_label secret)) id.

Definition push_approval (config : Config) (notifier : Notifier) (wall : DateTime)
    (client : ClientRow) (mechanism : Mechanism.t) (ttl : Z) (secret : option SecretRow)
    (row : AccessRequestRow) : Api (list Notification) :=
  dedup ← query (λ _ d,
            recent_duplicate_push row (wall - seconds PUSH_DEDUP_WINDOW_SECONDS) d);
  if (dedup : bool) then
    _ ← transact (λ now d, mark_push_delivered now (ar_id row) d);
    mret []
  else
    claimed ← transact (λ now d, claim_for_push now (ar_id row) d);
    send_claimed notifier claimed
      (approval_notification (external_url config) (cl_name client) mechanism ttl secret
         (ar_id row)) (ar_id row).

(** What the handler does with the outcome of the insert. *)
Definition answer (config : Config) (notifier : Notifier) (wall : DateTime) (client : ClientRow)
    (req : CreateAccessRequest) (k : Constraints) (secret : option SecretRow) (mac : string)
    (decision : Policy.Decision.t) (outcome : InsertOutcome.t)
  : Api (list Notification * (Z * AccessRequestStatus)) :=
  match outcome with
  | InsertOutcome.PendingCapExceeded => throw TooManyPending
  | InsertOutcome.Existing row =>
      status ← existing_status row mac;
      mret ([], (200%Z, status))
  | InsertOutcome.Created row grant_id =>
      let released notify_only :=
        grant_id ← lift (ok_or grant_id (Internal "approved request created without a grant"));
        sent ← (if notify_only && is_real notifier
                then push_release config notifier client (mechanism req) secret (ar_id row)
                else mret []);
        mret (sent, (201%Z, mkStatus (ar_id row) RequestState.Approved (Some grant_id) None
                              (ar_expires_at row) (sr_name <$> secret) true)) in
      match decision with
      | Policy.Decision.Deny reason => throw (PolicyDenied reason)
      | Policy.Decision.AutoApprove => released false
      | Policy.Decision.NotifyOnly => released true
      | Policy.Decision.RequireApproval =>
          sent ← (if is_real notifier
                  then push_approval config notifier wall client (mechanism req)
                         (ttl_seconds k) secret row
                  else mret []);
          mret (sent, (201%Z, mkStatus (ar_id row) RequestState.Pending None None
                                (ar_expires_at row) None false))
      end
  end.

(** Policy's decision on a validated request, and the row it is inserted as. *)
Definition decide_request (client : ClientRow) (secret : option SecretRow) (tags : list string)
    (req : CreateAccessRequest) (k : Constraints) (rows : list PolicyRow) (now : DateTime)
  : result ApiFailure Policy.Evaluation :=
  let requested := Policy.mkRequestedGrant (secret_name req) (mechanism req) k in
  '(pclient, psecret, prows) ← policy_inputs client secret tags requested rows now;
  ok_or (Policy.evaluate MAX_UTC uuid_display pclient psecret tags requested prows now)
    (Internal "deny outcome won").
Definition new_row (config : Config) (client : ClientRow) (req : CreateAccessRequest)
    (k : Constraints) (e : Policy.Evaluation) (mac : string) (now : DateTime)
  : NewAccessRequest :=
  mkNewAccessRequest (cl_name client) (secret_name req) (Mechanism.as_str (mechanism req))
    (Constraints_to_value k) (now + seconds (request_expiry_seconds (limits config)))
    (Policy.policy_not_after e) (cl_name client) (idempotency_key req) mac.

(** A request that is not an idempotent retry. *)
Definition create_new (config : Config) (keyset : Keyset) (notifier : Notifier) (wall : DateTime)
    (fresh : Fresh) (client : ClientRow) (req : CreateAccessRequest) (mac : string)
  : Api (list Notification * (Z * AccessRequestStatus)) :=
  k ← lift (validate_request value_to_vec req);
  secret ← query (λ _ d, get_secret_by_name (secret_name req) d);
  tags ← match secret with
         | Some s => query (λ _ d, get_tags_for_secret (sr_id s) d)
         | None => mret []
         end;
  rows ← query (λ _ d, list_policies d);
  now ← query (λ now _, now);
  e ← lift (decide_request client secret tags req k rows now);
  resolution ← lift (resolution_of client secret (mechanism req) k e now);
  let cap := match Policy.decision e with
             | Policy.Decision.RequireApproval => Some (max_pending_per_client (limits config))
             | _ => None
             end in
  outcome ← transact (λ t d, insert_access_request_with_id t (fresh_request fresh)
              (fresh_grant fresh) (new_row config client req k e mac now) cap resolution
              (seal_context keyset (fresh_draw fresh) (fresh_request fresh) (context req)) d);
  answer config notifier wall client req k secret mac (Policy.decision e) outcome.

(** [POST /v1/access-requests]: the notifications sent, the status and body. *)
Definition create (config : Config) (keyset : Keyset) (notifier : Notifier) (wall : DateTime)
    (fresh : Fresh) (headers : HeaderMap) (body : result ApiFailure (option CreateAccessRequest))
  : Api (list Notification * (Z * AccessRequestStatus)) :=
  body ← lift body;
  client ← authenticate_client config headers;
  req ← lift (ok_or body (InvalidRequest "malformed request body"));
  _ ← lift (validate_idempotency_key req);
  let mac := idem_mac keyset (cl_name client) (canonical_request_payload req) in
  found ← query (λ _ d, get_request_by_idem (cl_name client) (idempotency_key req) d);
  match found with
  | Some row =>
      status ← existing_status row mac;
      mret ([], (200%Z, status))
  | None => create_new config keyset notifier wall fresh client req mac
  end.

(** ** Status and the long poll *)
Definition owned_request (client : ClientRow) (id : Uuid) : Api AccessRequestRow :=
  row ← query (λ _ d, get_request id d);
  match row with
  | Some r => if eqb (ar_client_name r) (cl_name client) then mret r else throw NotFound
  | None => throw NotFound
  end.

(** [GET /v1/access-requests/{id}] *)
Definition status (config : Config) (headers : HeaderMap) (raw_id : string)
  : Api AccessRequestStatus :=
  client ← authenticate_client config headers;
  id ← lift (path_id raw_id);
  row ← owned_request client id;
  status_from_row row.

(** Poll until the request is resolved or the deadline is reached.  [instants]
    are the readings of the clock, one per turn; a turn ends on a notification
    or after at most a second.  [None] when the readings run out. *)
Fixpoint poll (client : ClientRow) (id : Uuid) (deadline : Z) (instants : list Z)
    (row : AccessRequestRow) : Api (option AccessRequestRow) :=
  if negb (eqb (ar_state row) PENDING) then mret (Some row)
  else match instants with
       | [] => mret None
       | now :: instants =>
           if (deadline <=? now)%Z then mret (Some row)
           else
             row ← owned_request client id;
             poll client id deadline instants row
       end.

(** The poll's timeout, capped. *)
Definition wait_timeout (config : Config) (timeout_seconds : option Z) : Z :=
  let max := wait_max_seconds (limits config) in
  Z.min (default max timeout_seconds) max.

(** [GET /v1/access-requests/{id}/wait]; [params] is the query string, [None]
    when it is malformed. *)
Definition wait (config : Config) (headers : HeaderMap) (raw_id : string)
    (params : option (option Z)) (counts : Slots) (start : Z) (instants : list Z)
  : Api (option AccessRequestStatus) :=
  timeout_seconds ← lift (ok_or params (InvalidRequest "malformed query string"));
  client ← authenticate_client config headers;
  id ← lift (path_id raw_id);
  row ← owned_request client id;
  _ ← lift (fail_if negb (snd (try_take_slot (max_waits_per_client (limits config))
                                 (cl_name client) counts)) with TooManyWaits; Ok tt);
  row ← poll client id (start + seconds (wait_timeout config timeout_seconds)) instants row;
  match row with
  | Some row => st ← status_from_row row; mret (Some st)
  | None => mret None
  end.
End Create.

(** ** Reading the policy set *)
Section PolicyFacts.
Context `{UuidText, UrlLib, JsonBytes}.

Lemma parse_policy_applies r p c req tags now :
  parse_policy r = Some p →
  Policy.is_applicable p (client_input c) req tags now
  = row_is_applicable_raw r (cl_name c) req tags now.
Proof.
  unfold parse_policy. intros (m & Hm & HH)%bind_Some.
  apply bind_Some in HH as (o & _ & HH). apply bind_Some in HH as (os & _ & HH).
  destruct (negb _); [done|]. apply bind_Some in HH as (ps & _ & [= <-]).
  unfold Policy.is_applicable, row_is_applicable_raw. cbn.
  apply Mechanism.as_from_str in Hm.
  assert (Hmech : eqb m (Policy.r_mechanism req)
                  = eqb (po_mechanism r) (Mechanism.as_str (Policy.r_mechanism req))).
  { apply bool_decide_ext. rewrite <-Hm. split; [by intros ->|]. intros E.
    apply Mechanism.as_from_str in E. by rewrite Mechanism.from_as_str in E; injection E. }
  rewrite Hmech. destruct (negb _); [done|].
  destruct (match po_not_after r with Some _ => _ | None => _ end); [done|].
  destruct (match po_client_name r with Some _ => _ | None => _ end); [done|].
  destruct (po_secret_name r); [done|]. destruct (po_secret_tag r) as [tag|]; [|done].
  induction tags as [|t tags IH]; [done|]. cbn. rewrite IH. f_equal.
  by apply bool_decide_ext.
Qed.

Lemma parse_policy_columns r p :
  parse_policy r = Some p →
  Policy.Outcome.from_str_opt (po_outcome r) = Some (Policy.p_outcome p)
  ∧ Policy.p_not_after p = po_not_after r.
Proof.
  unfold parse_policy. intros (m & _ & HH)%bind_Some.
  apply bind_Some in HH as (o & Ho & HH). apply bind_Some in HH as (os & _ & HH).
  destruct (negb _); [done|]. by apply bind_Some in HH as (ps & _ & [= <-]).
Qed.

(** Either every applicable row was read, or the request is refused. *)
Lemma policy_rows_spec cn tags req now rows :
  match policy_rows cn tags req now rows with
  | Ok out => out = omap parse_policy rows
      ∧ ∀ r, r ∈ rows → row_is_applicable_raw r cn req tags now = true → is_Some (parse_policy r)
  | Err e => e = PolicyDenied UNREADABLE
      ∧ ∃ r, r ∈ rows ∧ row_is_applicable_raw r cn req tags now = true ∧ parse_policy r = None
  end.
Proof.
  induction rows as [|r rows IH]; cbn [policy_rows].
  { split; [done|]. by intros r ?%elem_of_nil. }
  destruct (parse_policy r) as [p|] eqn:Ep.
  - destruct (policy_rows _ _ _ _ rows) as [out|e]; cbn.
    + destruct IH as [-> Hall]. rewrite Ep. split; [done|].
      intros x [->|Hx]%elem_of_cons; [by rewrite Ep|by apply Hall].
    + destruct IH as (-> & x & Hx & HH). split; [done|]. exists x. split; [by right|done].
  - destruct (row_is_applicable_raw r _ _ _ _) eqn:Ea.
    + split; [done|]. exists r. split; [by left|done].
    + destruct (policy_rows _ _ _ _ rows) as [out|e]; cbn.
      * destruct IH as [-> Hall]. rewrite Ep. split; [done|].
        intros x [->|Hx]%elem_of_cons; [by rewrite Ea|by apply Hall].
      * destruct IH as (-> & x & Hx & HH). split; [done|]. exists x. split; [by right|done].
Qed.

Lemma decide_request_cases client secret tags req k rows now :
  let requested := Policy.mkRequestedGrant (secret_name req) (mechanism req) k in
  match decide_request client secret tags req k rows now with
  | Ok e =>
      Policy.evaluate MAX_UTC uuid_display (client_input client) (secret_input <$> secret) tags
        requested (omap parse_policy rows) now = Some e
      ∧ ∀ r, r ∈ rows → row_is_applicable_raw r (cl_name client) requested tags now = true →
          is_Some (parse_policy r)
  | Err err => err = PolicyDenied UNREADABLE
      ∧ ∃ r, r ∈ rows ∧ row_is_applicable_raw r (cl_name client) requested tags now = true
          ∧ parse_policy r = None
  end.
Proof.
  intros requested. unfold decide_request, policy_inputs. fold requested.
  pose proof (policy_rows_spec (cl_name client) tags requested now rows) as HH.
  destruct (policy_rows _ _ _ _ _) as [out|err]; cbn; [|done]. destruct HH as [-> Hall].
  destruct (Policy.evaluate_decides MAX_UTC uuid_display (client_input client)
    (secret_input <$> secret) tags requested now (omap parse_policy rows)) as (e & He & _).
  by rewrite He.
Qed.
End PolicyFacts.

(** C35: the stored policy set decides, and fails closed.  A stored row that
    applies to the request and cannot be read refuses it, whatever the others
    say; one that denies and overlaps the requested scope denies it; and an
    automatic decision is reached only for an enabled client that holds the
    mechanism, an enabled secret an operator has vetted, both within their tier
    caps, by a stored row of that outcome which applies, is read in full and
    contains the whole request, and whose expiry caps the grant. *)
Theorem stored_policies_decide `{UuidText, UrlLib, JsonBytes}
    client secret tags req k rows now :
  let requested := Policy.mkRequestedGrant (secret_name req) (mechanism req) k in
  let applies r := row_is_applicable_raw r (cl_name client) requested tags now = true in
  let decided := decide_request client secret tags req k rows now in
  (∀ r, r ∈ rows → applies r → parse_policy r = None → decided = Err (PolicyDenied UNREADABLE))
  ∧ (∀ r p e, r ∈ rows → applies r → parse_policy r = Some p →
       po_outcome r = "deny" → Policy.scopes_overlap p k = true →
       decided = Ok e → ∃ reason, Policy.decision e = Policy.Decision.Deny reason)
  ∧ (∀ e, decided = Ok e → Policy.is_auto (Policy.decision e) = true →
       cl_enabled client = true ∧ Mechanism.as_str (mechanism req) ∈ cl_mechanisms client
       ∧ (Tier.as_int (Mechanism.tier (mechanism req))
          ≤ Tier.as_int (default Tier.Brokered (Tier.from_int (cl_max_tier client))))%Z
       ∧ ∃ s r p o, secret = Some s ∧ sr_enabled s = true ∧ sr_operator_vetted s = true
         ∧ (Tier.as_int (Mechanism.tier (mechanism req))
            ≤ Tier.as_int (default Tier.Brokered (Tier.from_int (sr_max_tier s))))%Z
         ∧ r ∈ rows ∧ applies r ∧ parse_policy r = Some p
         ∧ Policy.Outcome.from_str_opt (po_outcome r) = Some o
         ∧ Policy.outcome_decision o = Some (Policy.decision e)
         ∧ Policy.request_is_subset p k = true
         ∧ (mechanism req = Mechanism.Brokered → Policy.p_origins p ≠ [])
         ∧ Policy.policy_not_after e = po_not_after r).
Proof.
  intros requested applies decided.
  pose proof (decide_request_cases client secret tags req k rows now) as Hc.
  cbv zeta in Hc. fold requested in Hc. fold decided in Hc.
  assert (Hread : ∀ r p, parse_policy r = Some p →
    Policy.is_applicable p (client_input client) requested tags now = true ↔ applies r).
  { intros r p Hp. by rewrite (parse_policy_applies _ _ _ _ _ _ Hp). }
  destruct decided as [e|err].
  2:{ destruct Hc as [-> _]. by split_and!. }
  destruct Hc as [He Hall].
  destruct (Policy.evaluate_decides MAX_UTC uuid_display (client_input client)
    (secret_input <$> secret) tags requested now (omap parse_policy rows)) as (e' & He' & Hd).
  rewrite He in He'. injection He' as <-. split_and!.
  - intros r Hr Ha Hn. destruct (Hall r Hr Ha) as [p Hp]. congruence.
  - intros r p e' Hr Ha Hp Hout Hov [= <-].
    assert (Hin : p ∈ omap parse_policy rows) by (apply list_elem_of_omap; by exists r).
    assert (Hden : Policy.denies (client_input client) tags requested now p).
    { split; [by apply (Hread r)|]. split; [|done]. destruct (parse_policy_columns _ _ Hp) as [Ho _].
      rewrite Hout in Ho. by injection Ho. }
    destruct Hd as [reason|q ? ? ?|q d ? Hn|? Hn]; [by eexists..| |].
    + by destruct (Hn p Hin).
    + by destruct (proj1 (Hn p Hin)).
  - intros e' [= <-] Hauto. destruct Hd as [| |p d Hcap Hnd Hp Hm _ Hw|]; try done.
    cbn in Hauto |- *. apply Policy.hard_caps_none in Hcap as (Hen & Hmech & Htier & Hsec).
    apply Policy.winner_decision_auto in Hw as (Ho & (ps & Hs & Hv) & Hor); [|done].
    destruct secret as [s|]; [|done]. injection Hs as <-.
    destruct (Hsec _ eq_refl) as [Hse Hst]. destruct Hm as (Happ & _ & Hsub).
    apply list_elem_of_omap in Hp as (r & Hr & Hp). destruct (parse_policy_columns _ _ Hp) as [Hout Hna].
    cbn in Hmech. apply list_elem_of_omap in Hmech as (x & Hx & Hm%Mechanism.as_from_str).
    split; [done|]. split; [by rewrite Hm|]. split; [done|].
    exists s, r, p, (Policy.p_outcome p). split_and!; try done. by apply (proj1 (Hread r p Hp)).
Qed.

(** ** What creation commits *)
Section CreateFacts.
Context `{UuidText, Primitives, HttpLib, UrlLib, SigText, WireLib, JsonText, JsonBytes}.
Context (env : Env) (Henv : env_ok env).
Context (config : Config) (keyset : Keyset) (notifier : Notifier) (wall : DateTime) (fresh : Fresh).

Lemma send_claimed_progresses claimed nt id : progresses env (send_claimed notifier claimed nt id).
Proof.
  unfold send_claimed. destruct (negb claimed); [auto with keychute|].
  apply progresses_bind; [by apply send_push_progresses|]. intros [sent r]. progresses.
Qed.
Lemma push_release_progresses client m secret id :
  progresses env (push_release config notifier client m secret id).
Proof.
  unfold push_release. progresses; [by apply claim_fyi_progresses|]. apply send_claimed_progresses.
Qed.
Lemma push_approval_progresses client m ttl secret row :
  progresses env (push_approval config notifier wall client m ttl secret row).
Proof.
  unfold push_approval. apply progresses_bind; [auto with keychute|]. intros [|].
  - progresses. by apply mark_progresses.
  - progresses; [by apply claim_progresses|]. apply send_claimed_progresses.
Qed.

(** The state the answer reports for a decision. *)
Definition reported (e : Policy.Evaluation) : option RequestState.t :=
  match Policy.decision e with
  | Policy.Decision.Deny _ => None
  | Policy.Decision.RequireApproval => Some RequestState.Pending
  | _ => Some RequestState.Approved
  end.

Lemma answer_created client req k secret mac e row gid n w sent code st n' w' :
  answer config notifier wall client req k secret mac (Policy.decision e)
    (InsertOutcome.Created row gid) env (n, w) = (Ok (sent, (code, st)), (n', w')) →
  later w w' ∧ code = 201%Z ∧ st_request_id st = ar_id row ∧ st_expires_at st = ar_expires_at row
  ∧ reported e = Some (st_state st)
  ∧ (st_state st = RequestState.Approved →
      st_grant_id st = gid ∧ st_granted_secret_name st = sr_name <$> secret)
  ∧ (st_state st = RequestState.Pending → st_grant_id st = None).
Proof.
  unfold answer, reported. destruct (Policy.decision e); cbn; [done|..];
    intros HH; apply Api_bind_Ok in HH as (x & s1 & Hx & HH).
  - apply ret_Ok in HH as [[= -> -> ->] <-]. split; [|done]. revert Hx.
    destruct (is_real notifier).
    + by apply push_approval_progresses.
    + intros Hx. apply ret_Ok in Hx as [_ [= -> ->]]. apply rtc_refl.
  - apply lift_Ok in Hx as [->%ok_or_Ok ->]. apply Api_bind_Ok in HH as (y & s2 & Hy & HH).
    apply ret_Ok in HH as [[= -> -> ->] <-]. split; [|done]. revert Hy.
    destruct (is_real notifier); cbn.
    + by apply push_release_progresses.
    + intros Hy. apply ret_Ok in Hy as [_ [= -> ->]]. apply rtc_refl.
  - apply lift_Ok in Hx as [->%ok_or_Ok ->]. apply Api_bind_Ok in HH as (y & s2 & Hy & HH).
    apply ret_Ok in HH as [[= -> -> ->] <-]. split; [|done].
    apply ret_Ok in Hy as [_ [= -> ->]]. apply rtc_refl.
Qed.

Lemma status_from_row_Ok row n w st n' w' :
  status_from_row row env (n, w) = (Ok st, (n', w')) →
  later w w' ∧ st_request_id st = ar_id row
  ∧ RequestState.from_str_opt (ar_state row) = Some (st_state st).
Proof.
  unfold status_from_row. intros (x & s & Hx & HH)%Api_bind_Ok.
  apply lift_Ok in Hx as [Hx%ok_or_Ok ->]. apply Api_bind_Ok in HH as (g & s & Hg & HH).
  apply ret_Ok in HH as [-> <-]. split; [|done].
  destruct x; [apply ret_Ok in Hg as [_ [= -> ->]]; apply rtc_refl| |
    apply ret_Ok in Hg as [_ [= -> ->]]; apply rtc_refl..].
  by apply (query_later _ Henv) in Hg as [Hl _].
Qed.

Lemma existing_status_Ok row mac n w st n' w' :
  existing_status row mac env (n, w) = (Ok st, (n', w')) →
  later w w' ∧ ar_idem_mac row = mac ∧ st_request_id st = ar_id row
  ∧ RequestState.from_str_opt (ar_state row) = Some (st_state st).
Proof.
  unfold existing_status. intros (x & s & Hx & HH)%Api_bind_Ok. apply lift_Ok in Hx as [Hx ->].
  destruct (ct_eq (ar_idem_mac row) mac) eqn:E; [|done]. unfold ct_eq in E. kbool.
  apply status_from_row_Ok in HH. tauto.
Qed.

(** The answer is the row this key already has. *)
Definition replayed (w w' : World) (client : ClientRow) (key mac : string)
    (st : AccessRequestStatus) : Prop :=
  ∃ wr row, later w wr ∧ later wr w' ∧ access_requests wr.2 !! ar_id row = Some row
    ∧ ar_idem_client row = cl_name client ∧ ar_idem_key row = key ∧ ar_idem_mac row = mac
    ∧ st_request_id st = ar_id row
    ∧ RequestState.from_str_opt (ar_state row) = Some (st_state st).

Lemma replayed_row w w0 w1 client key mac row n n1 st :
  world_reachable w → later w w0 →
  get_request_by_idem (cl_name client) key w0.2 = Some row →
  existing_status row mac env (n, w0) = (Ok st, (n1, w1)) → replayed w w1 client key mac st.
Proof.
  intros Hr Hl Hf Hs. apply existing_status_Ok in Hs as (Hl' & Hmac & Hid & Hst).
  pose proof (inv_wf _ _ (world_inv _ (reachable_later _ _ Hr Hl))) as Hwf.
  apply find_row_Some in Hf as [[k Hk] He]. unfold same_idem in He. kbool.
  exists w0, row. pose proof (wf_request_pk _ Hwf _ _ Hk) as Hpk. by subst k.
Qed.

(** The commit of a new request: validated, decided on the stored policy rows,
    and inserted with its resolution. *)
Definition committed_request (w w' : World) (client : ClientRow) (req : CreateAccessRequest)
    (mac : string) (st : AccessRequestStatus) : Prop :=
  ∃ k tags e res ctx ws wp wu d,
    let secret := get_secret_by_name (secret_name req) ws.2 in
    let row := resolved_row wu.1 res
                 (new_request_row (fresh_request fresh) wu.1
                    (new_row config client req k e mac wp.1) ctx) in
    validate_request value_to_vec req = Ok k
    ∧ later w ws ∧ later ws wp ∧ later wp wu ∧ later wu (wu.1, d) ∧ later (wu.1, d) w'
    ∧ match secret with
      | Some s => ∃ wt, later ws wt ∧ later wt wp ∧ tags = get_tags_for_secret (sr_id s) wt.2
      | None => tags = []
      end
    ∧ (∃ wr, later ws wr ∧ later wr wp
        ∧ decide_request client secret tags req k (list_policies wr.2) wp.1 = Ok e)
    ∧ resolution_of client secret (mechanism req) k e wp.1 = Ok res
    ∧ access_requests wu.2 !! fresh_request fresh = None
    ∧ access_requests d = <[fresh_request fresh := row]> (access_requests wu.2)
    ∧ (grants d, st_grant_id st)
      = resolved_grants wu.1 res (fresh_request fresh) (fresh_grant fresh) (grants wu.2)
    ∧ st_request_id st = fresh_request fresh ∧ reported e = Some (st_state st)
    ∧ (Policy.decision e = Policy.Decision.RequireApproval →
       pending_of wu.1 (cl_name client) d ≤ max_pending_per_client (limits config))%Z.

Lemma requested_uses_nonneg m ms c u x :
  requested_uses m ms c = Ok u → (∀ y, max_uses c = Some y → (0 ≤ y)%Z) → u = Some x → (0 ≤ x)%Z.
Proof.
  unfold requested_uses. intros HH Hc ->. revert HH Hc. destruct (eqb m _).
  - destruct (negb _); [done|]. destruct (is_empty ms); [done|].
    destruct (max_uses c) as [y|]; [|done]. destruct (y =? 0)%Z; [done|].
    destruct (MAX_USES <? y)%Z; [done|]. intros [= <-] Hc. by apply Hc.
  - destruct (max_uses c) as [y|]; [destruct (negb _); [done|]|]; intros [= <-] _; lia.
Qed.
Lemma validate_request_uses req k :
  validate_request value_to_vec req = Ok k →
  (∀ y, max_uses (constraints req) = Some y → (0 ≤ y)%Z) →
  ∀ x, max_uses k = Some x → (0 ≤ x)%Z.
Proof.
  unfold validate_request. intros (? & _ & HH)%bind_Ok Hc.
  do 5 (match type of HH with (if ?b then _ else _) = _ => destruct b; [done|] end).
  apply bind_Ok in HH as (ms & _ & HH). apply bind_Ok in HH as (ps & _ & HH).
  apply bind_Ok in HH as (u & Hu & [= <-]). cbn. intros x0 Hx0. by eapply requested_uses_nonneg.
Qed.

Lemma resolution_ok client secret req k e now res :
  validate_request value_to_vec req = Ok k →
  (∀ y, max_uses (constraints req) = Some y → (0 ≤ y)%Z) →
  resolution_of client secret (mechanism req) k e now = Ok res →
  match res with InitialResolution.Approved _ g _ => grant_ok g | _ => True end.
Proof.
  intros Hk Hu. unfold resolution_of.
  assert (Hg : ∀ s, grant_ok (auto_grant client s (mechanism req) k (Policy.policy_not_after e) now)).
  { intros s m. cbn. destruct (max_uses k) as [u|] eqn:Eu; [|done]. intros [= <-].
    pose proof (validate_request_uses _ _ Hk Hu _ Eu). unfold saturate_i32, i32_MAX.
    destruct (Z.leb_spec u 2147483647); lia. }
  destruct (Policy.decision e).
  - by intros [= <-].
  - by intros [= <-].
  - intros (s & _ & [= <-])%bind_Ok. apply Hg.
  - intros (s & _ & [= <-])%bind_Ok. apply Hg.
Qed.

Lemma tags_Ok (secret : option SecretRow) n w (tags : list string) n' w' :
  (match secret with
   | Some s => query (λ _ d, get_tags_for_secret (sr_id s) d)
   | None => mret []
   end) env (n, w) = (Ok tags, (n', w')) →
  later w w' ∧ match secret with
               | Some s => tags = get_tags_for_secret (sr_id s) w'.2 | None => tags = [] end.
Proof.
  destruct secret as [s|].
  - by intros [Hl ->]%(query_later _ Henv).
  - intros [-> [= -> ->]]%ret_Ok. split; [apply rtc_refl|done].
Qed.

Lemma create_new_Ok client req mac n w sent code st n' w' :
  world_reachable w → (∀ y, max_uses (constraints req) = Some y → (0 ≤ y)%Z) →
  create_new config keyset notifier wall fresh client req mac env (n, w)
    = (Ok (sent, (code, st)), (n', w')) →
  (code = 200%Z ∧ sent = [] ∧ replayed w w' client (idempotency_key req) mac st)
  ∨ (code = 201%Z ∧ committed_request w w' client req mac st).
Proof.
  intros Hr Huses. unfold create_new.
  intros (k & s & Hk & HH)%Api_bind_Ok. apply lift_Ok in Hk as [Hk ->].
  apply Api_bind_Ok in HH as (secret & [n1 ws] & Hq & HH).
  apply (query_later _ Henv) in Hq as [Hls ->].
  apply Api_bind_Ok in HH as (tags & [n2 wt] & Hq & HH). apply tags_Ok in Hq as [Hlt Htags].
  apply Api_bind_Ok in HH as (rows & [n3 wr] & Hq & HH).
  apply (query_later _ Henv) in Hq as [Hlr ->].
  apply Api_bind_Ok in HH as (now & [n4 wp] & Hq & HH).
  apply (query_later _ Henv) in Hq as [Hlp ->].
  api_lift HH e He. api_lift HH res Hres.
  apply Api_bind_Ok in HH as (x & [n5 w5] & Hx & HH).
  apply (transact_later _ Henv) in Hx as (wu & d & Hlu & Hx & ->).
  assert (Hlw : later w wu) by (repeat (etrans; [eassumption|]); apply rtc_refl).
  assert (Hld : later wu (wu.1, d)).
  { pose proof (resolution_ok _ _ _ _ _ _ _ Hk Huses Hres). destruct wu.
    eapply exec_later with (o := OpInsertRequestWithId _ _ _ _ _ _); [done| |
      by apply (committed_eq _ _ _ Hx)]. by destruct res. }
  destruct x as [row gid|row|]; [right|left|done].
  - apply answer_created in HH as (Hlw' & -> & Hid & _ & Hrep & Hgrant & Hnone).
    split; [done|]. apply insert_created in Hx as (ctx & -> & Hnew & _ & Hreq & Hg & _ & _ & Hcap).
    exists k, tags, e, res, ctx, ws, wp, wu, d. cbv zeta. split_and!; try done.
    + by etrans; [exact Hlt|etrans].
    + destruct (get_secret_by_name _ _) as [sec|]; [|done]. exists wt. split_and!; try done. by etrans.
    + exists wr. split_and!; try done. by etrans.
    + rewrite <-Hg. f_equal. unfold reported in Hrep. unfold resolution_of in Hres.
      destruct (Policy.decision e); [done| |apply Hgrant; by injection Hrep..].
      injection Hres as <-. injection Hg as _ ->. apply Hnone. by injection Hrep.
    + rewrite Hid. by destruct res.
    + intros Hdec. rewrite Hdec in Hcap. unfold resolution_of in Hres. rewrite Hdec in Hres.
      injection Hres as <-. unfold pending_of. rewrite Hreq. by apply Hcap.
  - apply Api_bind_Ok in HH as (st' & [n6 w6] & Hst & HH).
    apply ret_Ok in HH as [[= -> -> ->] [= -> ->]]. split; [done|]. split; [done|].
    unfold insert_access_request_with_id in Hx. destruct (identity_lost _ _); [done|].
    apply bind_Ok in Hx as (ctx & _ & Hx). apply bind_Ok in Hx as ([d1|] & Hi & Hx).
    { by destruct (match _ with Some c => _ | None => _ end);
        [|apply bind_Ok in Hx as ([[? ?] ?] & _ & [=])]. }
    apply bind_Ok in Hx as (row' & Hrow%ok_or_Ok & [= <- <-]).
    eapply (replayed_row w (wu.1, wu.2)); [exact Hr|by destruct wu|exact Hrow|exact Hst].
Qed.
End CreateFacts.

(** Creation by the client that was authenticated. *)
Lemma create_Ok `{UuidText, Primitives, HttpLib, UrlLib, SigText, WireLib, JsonText, JsonBytes}
    env config keyset notifier wall fresh headers req client n w n1 wc sent code st n' w' :
  env_ok env → world_reachable w →
  (∀ y, max_uses (constraints req) = Some y → (0 ≤ y)%Z) →
  authenticate_client config headers env (n, w) = (Ok client, (n1, wc)) →
  create config keyset notifier wall fresh headers (Ok (Some req)) env (n, w)
    = (Ok (sent, (code, st)), (n', w')) →
  cl_enabled client = true ∧ later w wc ∧ validate_idempotency_key req = Ok tt
  ∧ let mac := idem_mac keyset (cl_name client) (canonical_request_payload req) in
    (code = 200%Z ∧ sent = [] ∧ replayed wc w' client (idempotency_key req) mac st)
    ∨ (code = 201%Z ∧ committed_request config fresh wc w' client req mac st).
Proof.
  intros Henv Hr Huses Ha HH. unfold create in HH.
  erewrite bind_run in HH by done. erewrite bind_run in HH by exact Ha.
  apply (authenticate_client_Ok _ Henv) in Ha as (Hl & Hen & _).
  erewrite bind_run in HH by done. api_lift HH u Hu. destruct u.
  apply Api_bind_Ok in HH as (found & [n2 wf] & Hq & HH).
  apply (query_later _ Henv) in Hq as [Hlf ->].
  assert (Hrc : world_reachable wc) by by eapply reachable_later.
  assert (Hrf : world_reachable wf) by by eapply reachable_later.
  split; [done|]. split; [done|]. split; [done|]. cbv zeta. revert HH.
  destruct (get_request_by_idem _ _ _) as [row|] eqn:Erow.
  - intros (st' & [n3 w3] & Hst & HH)%Api_bind_Ok.
    apply ret_Ok in HH as [[= -> -> ->] [= -> ->]]. left. split; [done|]. split; [done|].
    by eapply (replayed_row env Henv wc wf).
  - intros [(-> & -> & HH)|[-> HH]]%(create_new_Ok _ Henv); try done; [left|right].
    + split; [done|]. split; [done|]. destruct HH as (wr & row & Hlr & HH). exists wr, row.
      split; [by etrans|done].
    + split; [done|]. destruct HH as (k & tags & e & res & ctx & ws & wp & wu & d & Hk & Hls & HH).
      exists k, tags, e, res, ctx, ws, wp, wu, d. split; [done|]. split; [by etrans|done].
Qed.

(** What creation answers was committed.  Whatever other handlers do
    meanwhile, the caller is an enabled client, and the answer is either the
    request its key already had, with the same payload, and nothing was sent;
    or a new request: validated, decided by the stored policy rows read after
    its secret, and committed in one transaction as a single row, resolved as
    was decided, with the grant of an automatic approval and no other; the
    answer reports that row and grant, and a pending request left its client
    within the pending cap. *)
Theorem create_backed
    `{UuidText, Primitives, HttpLib, UrlLib, SigText, WireLib, JsonText, JsonBytes}
    env config keyset notifier wall fresh headers req n w sent code st n' w' :
  env_ok env → world_reachable w →
  (∀ y, max_uses (constraints req) = Some y → (0 ≤ y)%Z) →
  create config keyset notifier wall fresh headers (Ok (Some req)) env (n, w)
    = (Ok (sent, (code, st)), (n', w')) →
  ∃ client wc, cl_enabled client = true ∧ later w wc
    ∧ let mac := idem_mac keyset (cl_name client) (canonical_request_payload req) in
      (code = 200%Z ∧ sent = [] ∧ replayed wc w' client (idempotency_key req) mac st)
      ∨ (code = 201%Z ∧ committed_request config fresh wc w' client req mac st).
Proof.
  intros Henv Hr Huses HH. pose proof HH as Hauth. unfold create in Hauth.
  erewrite bind_run in Hauth by done.
  apply Api_bind_Ok in Hauth as (client & [n1 wc] & Ha & _).
  destruct (create_Ok _ _ _ _ _ _ _ _ _ _ _ _ _ _ _ _ _ _ Henv Hr Huses Ha HH)
    as (Hen & Hl & _ & Hcase).
  by exists client, wc.
Qed.

(** ** Retries *)
Section RetryFacts.
Context `{UuidText, Primitives, HttpLib, UrlLib, SigText, WireLib, JsonText, JsonBytes}.

Lemma authenticate_quiet config headers : quiet (authenticate_client config headers).
Proof.
  unfold authenticate_client. apply quiet_bind; [auto with keychute|]. intros token.
  apply quiet_bind; [auto with keychute|]. intros [row|].
  { destruct (_ && _); auto with keychute. }
  destruct (tokenreview_url config); [|auto with keychute]. unfold tokenreview_authenticate.
  destruct (is_empty _); [auto with keychute|].
  apply quiet_bind; [auto with keychute|]. intros [review|]; [|auto with keychute].
  destruct (negb _ || _); [auto with keychute|].
  apply quiet_bind; [auto with keychute|]. intros rows.
  destruct (List.filter _ _) as [|? [|]]; auto with keychute.
Qed.

Lemma status_from_row_alone row n w :
  ar_state row ∈ ["pending"; "approved"; "denied"; "expired"] →
  ∃ st n', status_from_row row alone (n, w) = (Ok st, (n', w)) ∧ st_request_id st = ar_id row
    ∧ RequestState.from_str_opt (ar_state row) = Some (st_state st).
Proof.
  intros Hs. destruct w as [t d]. unfold status_from_row.
  rewrite !elem_of_cons in Hs.
  destruct Hs as [-> | [-> | [-> | [-> | []%elem_of_nil]]]]; do 2 eexists; (split; [done|]); done.
Qed.

(** The stored row behind an answer. *)
Lemma answered_row config fresh wc w' client req mac code (sent : list Notification) st :
  world_reachable wc →
  (code = 200%Z ∧ sent = [] ∧ replayed wc w' client (idempotency_key req) mac st)
  ∨ (code = 201%Z ∧ committed_request config fresh wc w' client req mac st) →
  later wc w' ∧ ∃ row, access_requests w'.2 !! st_request_id st = Some row
    ∧ ar_idem_client row = cl_name client ∧ ar_idem_key row = idempotency_key req
    ∧ ar_idem_mac row = mac
    ∧ (st_state st ≠ RequestState.Pending →
       RequestState.from_str_opt (ar_state row) = Some (st_state st)).
Proof.
  intros Hr Hcase.
  assert (∃ wr row, later wc wr ∧ later wr w'
    ∧ access_requests wr.2 !! st_request_id st = Some row
    ∧ ar_idem_client row = cl_name client ∧ ar_idem_key row = idempotency_key req
    ∧ ar_idem_mac row = mac ∧ RequestState.from_str_opt (ar_state row) = Some (st_state st))
    as (wr & row & Hlr & Hl & Hrow & E1 & E2 & E3 & Hst).
  { destruct Hcase as [(_ & _ & wr & row & Hl1 & Hl2 & Hrow & E1 & E2 & E3 & Hid & Hst)|
      (_ & k & tags & e & res & ctx & ws & wp & wu & d & HH)].
    - exists wr, row. by rewrite Hid.
    - cbv zeta in HH. destruct HH as (_ & Hl1 & Hl2 & Hl3 & Hl4 & Hl & _ & _ & Hres & _ & Hreq
        & _ & Hid & Hrep & _).
      eexists (wu.1, d), _. rewrite Hid. cbn [fst snd]. rewrite Hreq.
      split; [by do 3 (etrans; [eassumption|])|].
      split; [exact Hl|]. split; [by rewrite lookup_insert_eq|].
      unfold reported in Hrep. unfold resolution_of in Hres.
      destruct (Policy.decision e); [done|injection Hrep as <-; by injection Hres as <-|..];
        injection Hrep as <-; by apply bind_Ok in Hres as (s & _ & [= <-]). }
  split; [by etrans|].
  destruct (later_evolves _ _ (world_inv _ (reachable_later _ _ Hr Hlr)) Hl) as [Er _ _ _].
  destruct (Er _ _ Hrow) as (row' & Hrow' & Hle). exists row'. split; [done|].
  pose proof (rle_identity _ _ Hle) as Hi. unfold request_identity in Hi.
  split_and!; try congruence. intros Hnp.
  assert (Hne : ar_state row ≠ PENDING).
  { intros E. apply Hnp. rewrite E in Hst. by injection Hst. }
  pose proof (rle_final _ _ Hle Hne) as Hf. unfold request_resolution in Hf.
  by injection Hf as <-.
Qed.
End RetryFacts.

(** C38: a retry recovers the request it is a retry of.  Once a creation was
    answered, whatever happens later (also to the policy rows), the same client
    creating again under the same key with the same payload is answered, when
    no other handler interferes, with that same request and nothing else: it is
    not validated, not decided and not inserted again, no push is sent, and a
    resolution that was reported is reported again. *)
Theorem create_retry_recovers
    `{UuidText, Primitives, HttpLib, UrlLib, SigText, WireLib, JsonText, JsonBytes}
    env config keyset notifier wall fresh headers req client n w s1 sent code st n' w'
    notifier2 wall2 fresh2 headers2 req2 client2 m w2 s2 :
  env_ok env → world_reachable w →
  (∀ y, max_uses (constraints req) = Some y → (0 ≤ y)%Z) →
  authenticate_client config headers env (n, w) = (Ok client, s1) →
  create config keyset notifier wall fresh headers (Ok (Some req)) env (n, w)
    = (Ok (sent, (code, st)), (n', w')) →
  later w' w2 →
  authenticate_client config headers2 alone (m, w2) = (Ok client2, s2) →
  cl_name client2 = cl_name client → idempotency_key req2 = idempotency_key req →
  canonical_request_payload req2 = canonical_request_payload req →
  ∃ st2 m2,
    create config keyset notifier2 wall2 fresh2 headers2 (Ok (Some req2)) alone (m, w2)
      = (Ok ([], (200%Z, st2)), (m2, w2))
    ∧ st_request_id st2 = st_request_id st
    ∧ (st_state st ≠ RequestState.Pending → st_state st2 = st_state st).
Proof.
  intros Henv Hr Huses Hauth Hc Hl Hauth2 Ename Ekey Epay.
  destruct s1 as [n1 wc], s2 as [m1 w2'].
  assert (w2' = w2) as -> by by eapply (authenticate_quiet config headers2).
  destruct (create_Ok _ _ _ _ _ _ _ _ _ _ _ _ _ _ _ _ _ _ Henv Hr Huses Hauth Hc)
    as (_ & Hlc & Hkey & Hcase).
  assert (Hrc : world_reachable wc) by by eapply reachable_later.
  destruct (answered_row _ _ _ _ _ _ _ _ _ _ Hrc Hcase) as (Hlc' & row & Hrow & E1 & E2 & E3 & Hst).
  assert (Hr' : world_reachable w') by by eapply reachable_later.
  destruct (later_evolves _ _ (world_inv _ Hr') Hl) as [Er _ _ _].
  destruct (Er _ _ Hrow) as (row2 & Hrow2 & Hle).
  assert (Hr2 : world_reachable w2) by by eapply reachable_later.
  pose proof (inv_wf _ _ (world_inv _ Hr2)) as Hwf.
  pose proof (rle_identity _ _ Hle) as Hi. unfold request_identity in Hi.
  assert (Hfind : get_request_by_idem (cl_name client2) (idempotency_key req2) w2.2 = Some row2).
  { eapply get_request_by_idem_at; [done|exact Hrow2|congruence|congruence]. }
  destruct (status_from_row_alone row2 (S m1) w2) as (st2 & m2 & Est & Hid & Hst2).
  { by apply (wf_request_state _ Hwf _ _ Hrow2). }
  exists st2, m2. split_and!.
  - unfold create. erewrite bind_run by done. erewrite bind_run by exact Hauth2.
    erewrite bind_run by done.
    erewrite bind_run by (unfold validate_idempotency_key in *; by rewrite Ekey, Hkey).
    erewrite bind_run by apply query_alone. rewrite Hfind. unfold existing_status.
    assert (Hmac : ct_eq (ar_idem_mac row2)
      (idem_mac keyset (cl_name client2) (canonical_request_payload req2)) = true).
    { unfold ct_eq. apply bool_decide_eq_true. rewrite Ename, Epay. congruence. }
    rewrite Hmac. erewrite bind_run; [|erewrite bind_run by done; exact Est]. done.
  - rewrite Hid. by rewrite (wf_request_pk _ Hwf _ _ Hrow2).
  - intros Hnp. specialize (Hst Hnp).
    assert (Hne : ar_state row ≠ PENDING).
    { intros E. apply Hnp. rewrite E in Hst. by injection Hst. }
    pose proof (rle_final _ _ Hle Hne) as Hf. unfold request_resolution in Hf.
    injection Hf as Hf _ _ _. congruence.
Qed.

(** ** The long poll *)
Section WaitFacts.
Context `{UuidText, Primitives, HttpLib, UrlLib, SigText, WireLib}.

Lemma owned_request_Ok env client id n w r n' w' :
  env_ok env → owned_request client id env (n, w) = (Ok r, (n', w')) →
  later w w' ∧ access_requests w'.2 !! id = Some r ∧ ar_client_name r = cl_name client.
Proof.
  intros Henv. unfold owned_request. intros (o & [n1 w1] & Hq & HH)%Api_bind_Ok.
  apply (query_later _ Henv) in Hq as [Hl Ho]. destruct o as [g'|]; [|done].
  destruct (eqb _ _) eqn:E; [|done]. apply ret_Ok in HH as [-> [= -> ->]]. kbool. done.
Qed.

Lemma pending_text s :
  RequestState.from_str_opt s = Some RequestState.Pending → s = PENDING.
Proof.
  unfold RequestState.from_str_opt. destruct (eqb s "pending") eqn:E; [by kbool|].
  by repeat destruct (eqb s _).
Qed.

(** The poll ends once the clock passes the deadline. *)
Lemma poll_ends env client id deadline instants row n w s :
  Exists (λ t, (deadline ≤ t)%Z) instants →
  poll client id deadline instants row env (n, w) ≠ (Ok None, s).
Proof.
  revert row n w. induction instants as [|t instants IH]; intros row n w He;
    [by apply Exists_nil in He|]. cbn [poll]. destruct (negb _); [done|].
  destruct (Z.leb_spec deadline t); [done|].
  intros (r & [n1 w1] & _ & HH)%Api_bind_Ok. revert HH. apply IH.
  apply Exists_cons in He as [He|He]; [lia|done].
Qed.

Lemma poll_Ok env client id deadline instants row n w r n' w' :
  env_ok env → access_requests w.2 !! id = Some row → ar_client_name row = cl_name client →
  poll client id deadline instants row env (n, w) = (Ok (Some r), (n', w')) →
  later w w' ∧ access_requests w'.2 !! id = Some r ∧ ar_client_name r = cl_name client
  ∧ (ar_state r = PENDING → ∃ t, t ∈ instants ∧ (deadline ≤ t)%Z).
Proof.
  intros Henv. revert row n w. induction instants as [|t instants IH]; intros row n w Hrow Hown;
    cbn [poll]; destruct (eqb _ PENDING) eqn:E; cbn [negb].
  - done.
  - intros ([= ->] & [= -> ->])%ret_Ok. kbool. split; [apply rtc_refl|done].
  - destruct (Z.leb_spec deadline t).
    + intros ([= ->] & [= -> ->])%ret_Ok. split; [apply rtc_refl|]. do 2 (split; [done|]).
      intros _. exists t. split; [by left|done].
    + intros (x & [n1 w1] & (Hl & Hx & Ho)%owned_request_Ok & HH)%Api_bind_Ok; [|done].
      apply (IH _ _ _ Hx Ho) in HH as (Hl' & Hr & Ho' & Hp). split; [by etrans|].
      do 2 (split; [done|]).
      intros Hpend. destruct (Hp Hpend) as (t' & Ht & ?). exists t'. split; [by right|done].
  - intros ([= ->] & [= -> ->])%ret_Ok. kbool. split; [apply rtc_refl|done].
Qed.
End WaitFacts.


(** ** Witnesses: a policy that approves a request *)
Module RequestExample.
Import ApiExample.
#[export] Existing Instance JsonExample.text.
#[export] Instance bytes : JsonBytes := {|
  value_to_vec := λ _, "value";
  context_to_vec := reason;
  MAX_UTC := seconds 8210266876799
|}.

Definition rule (id : Uuid) (outcome : string) (prefixes : list string) : PolicyRow :=
  mkPolicyRow id (Some "agent") (Some "example-api-token") None "brokered" outcome 0
    (Array [Object [("host", Str "api.example.com")]]) ["GET"] prefixes None None None
    "alice" (seconds 11) false.
Definition allow : NewPolicy :=
  mkNewPolicy (Some "agent") (Some "example-api-token") None "brokered" "auto-approve" 0
    (Array [Object [("host", Str "api.example.com")]]) ["GET"] ["/v1"] None None None "alice".
Definition setup : list (DateTime * op) :=
  [(seconds 5, OpReconcileClients (λ n, (500 + N.of_nat n)%N) [agent]);
   (seconds 10, OpCreateSecretWithVersion 101 stored "alice");
   (seconds 20, OpInsertPolicy 7 allow)].
Definition start : World :=
  Eval vm_compute in (seconds 20, Scenario.db_after setup).
Lemma allowed_reachable : world_reachable start.
Proof.
  apply (Scenario.run_reachable setup); [|vm_compute; reflexivity].
  cbn. by repeat (apply Forall_cons; split).
Qed.

Definition fresh : Fresh := mkFresh 10 20 CryptoExample.draw.
Definition asked : CreateAccessRequest := JsonExample.req "key-1" None.
Definition run : result ApiFailure (list Notification * (Z * AccessRequestStatus)) * St :=
  create cfg keyset NullNotifier 0 fresh headers (Ok (Some asked)) alone (0, start).
Definition after : St := Eval vm_compute in run.2.
Definition caller : ClientRow :=
  mkClientRow 500 "agent" 3 ["cli-read"; "brokered"] "api-token" (Some "746f6b656e") None None
    true false.
Definition approved : AccessRequestStatus :=
  mkStatus 10 RequestState.Approved (Some 20%N) None (seconds 920) (Some "example-api-token") true.
Definition waited : result ApiFailure (option AccessRequestStatus) * St :=
  wait cfg headers "10" (Some (Some 2%Z)) ∅ 0 [seconds 1; seconds 2] alone (0, after.2).
End RequestExample.
Import ApiExample RequestExample.

Lemma stored_policies_decide_witness :
  let client := mkClientRow 500 "agent" 3 ["brokered"] "api-token" None None None true false in
  let rows := [rule 7 "auto-approve" ["/v1"]; rule 8 "deny" ["/v1/%zz"]] in
  rule 8 "deny" ["/v1/%zz"] ∈ rows
  ∧ decide_request client None [] asked (constraints asked) rows (seconds 20)
    = Err (PolicyDenied UNREADABLE).
Proof.
  intros client rows.
  assert (Hin : rule 8 "deny" ["/v1/%zz"] ∈ rows) by (right; left).
  split; [exact Hin|].
  destruct (stored_policies_decide client None [] asked (constraints asked) rows (seconds 20))
    as [Hunread _].
  apply (Hunread _ Hin); vm_compute; reflexivity.
Defined.

Lemma create_backed_witness :
  ∃ client wc, cl_enabled client = true ∧ later start wc.
Proof.
  destruct (create_backed alone cfg keyset NullNotifier 0 fresh headers asked 0 start
    [] 201 approved after.1 after.2) as (client & wc & Hen & Hl & _).
  - apply alone_ok.
  - exact allowed_reachable.
  - vm_compute. discriminate.
  - vm_cast_no_check (eq_refl (Ok (A := list Notification * (Z * AccessRequestStatus))
                                 (E := ApiFailure) ([], (201%Z, approved)), after)).
  - exists client, wc. split; [exact Hen|exact Hl].
Defined.

Lemma create_retry_recovers_witness :
  ∃ st2 m2, create cfg keyset NullNotifier 0 (mkFresh 11 21 CryptoExample.draw) headers
      (Ok (Some (JsonExample.req "key-1" (Some (int 7))))) alone (0, after.2)
    = (Ok ([], (200%Z, st2)), (m2, after.2)) ∧ st_request_id st2 = 10%N.
Proof.
  destruct (create_retry_recovers alone cfg keyset NullNotifier 0 fresh headers asked caller 0 start
    (1, start) [] 201 approved after.1 after.2 NullNotifier 0 (mkFresh 11 21 CryptoExample.draw)
    headers (JsonExample.req "key-1" (Some (int 7))) caller 0 after.2 (1, after.2))
    as (st2 & m2 & E & Hid & _).
  - apply alone_ok.
  - exact allowed_reachable.
  - vm_compute. discriminate.
  - vm_compute. reflexivity.
  - vm_cast_no_check (eq_refl (Ok (A := list Notification * (Z * AccessRequestStatus))
                                 (E := ApiFailure) ([], (201%Z, approved)), after)).
  - apply rtc_refl.
  - vm_compute. reflexivity.
  - reflexivity.
  - reflexivity.
  - reflexivity.
  - exists st2, m2. split; [exact E|exact Hid].
Defined.

