(* ===== verification/ApiGrants.v ===== *)
(** [server/src/api/grants.rs]: grant metadata, and the release of a secret:
    ownership, revalidation, use-accounting, then decryption. *)

From S2P Require Import Prelude RustStr Types Json Crypto SigV4 Http Store Requests Grants ApiExt.
From S2P Require Import Secrets UiExt Policies Clients Provision Notify Lifecycle Refinement Safety.
From S2P Require Import StoreProps Reconcile Api.
Open Scope string_scope.

Record ReadGrantResponse := mkReadGrantResponse {
  rr_secret : string;
  rr_encoding : SecretEncoding.t;
  rr_secret_version_id : Uuid
}.

(** Where the payload comes from, decided before use-accounting. *)
Module Source.
Inductive t := Passthrough | PassthroughGone | Stored (version : SecretVersionRow).
End Source.

Section Handlers.
Context `{UuidText, Primitives, HttpLib, UrlLib, SigText, WireLib}.

(** [GET /v1/grants/{id}] *)
Definition grant_info (g : GrantRow) (now : DateTime) : result ApiFailure GrantInfo :=
  mechanism ← ok_or (Mechanism.from_str_opt (g_mechanism g)) (Internal "unknown grant mechanism");
  k ← ok_or (Constraints_of_value url_host_str (g_constraints g)) (Internal "constraints");
  let clamped := (λ v, Z.max v 0) <$> g_max_uses g in
  let millis := Z.max (Z.quot (g_not_after g - g_created_at g) 1000000) 0 in
  Ok (mkGrantInfo (g_id g) mechanism
        (mkConstraints (origins k) (methods k) (path_prefixes k) (Z.quot (millis + 500) 1000)
           clamped)
        (g_not_after g) clamped (Z.max (g_use_count g) 0) (g_revoked g) (Some now)).
Definition info (config : Config) (headers : HeaderMap) (raw_id : string) : Api GrantInfo :=
  client ← authenticate_client config headers;
  id ← lift (path_id raw_id);
  grant ← owned_grant client id;
  _ ← lift (grant_info grant 0);
  now ← query (λ now _, now);
  lift (grant_info grant now).

Definition open_passthrough (ephemeral_kek : EphemeralKek) (grant : GrantRow)
  : result ApiFailure string :=
  match g_passthrough_ciphertext grant, g_passthrough_nonce grant,
        g_passthrough_wrapped_dek grant with
  | Some ct, Some nonce, Some dek =>
      fail_if negb (g_passthrough_ephemeral grant) with PayloadLost;
      map_err (λ _, PayloadLost)
        (Ephemeral_open ephemeral_kek ct nonce dek (GrantPassthrough (g_id grant)))
  | _, _, _ => Err PayloadLost
  end.

Definition open_secret_version (keyset : Keyset) (row : SecretVersionRow)
  : result ApiFailure string :=
  map_err (λ _, Internal "open")
    (Keyset_open keyset (sv_ciphertext row) (sv_nonce row) (sv_wrapped_dek row) (sv_kek_id row)
       (SecretVersion (sv_secret_id row) (sv_version row))).

(** [SELECT revoked OR now() >= not_after FROM grants WHERE id = $1] *)
Definition grant_dead (id : Uuid) (now : DateTime) (d : Db) : bool :=
  match grants d !! id with
  | Some g => g_revoked g || (g_not_after g <=? now)%Z
  | None => true
  end.

Definition payload_source (grant : GrantRow) (secret : option SecretRow)
  : Api (Source.t * Uuid) :=
  if is_some (g_passthrough_ciphertext grant) then mret (Source.Passthrough, g_id grant)
  else if g_passthrough_ephemeral grant then mret (Source.PassthroughGone, g_id grant)
  else
    secret ← lift (ok_or secret PayloadLost);
    version ← query (λ _ d, get_secret_version (sr_id secret) (sr_current_version secret) d);
    version ← lift (ok_or version PayloadLost);
    mret (Source.Stored version, sv_id version).

(** The payload the outcome releases, with its id and the grant row. *)
Definition release (keyset : Keyset) (ephemeral_kek : EphemeralKek) (source : Source.t)
    (version_id : Uuid) (outcome : GrantUse.t) : Api (string * Uuid * GrantRow) :=
  match outcome with
  | GrantUse.NotFound => throw NotFound
  | GrantUse.ExpiredOrRevoked => throw GrantExpired
  | GrantUse.Exhausted => throw GrantExhausted
  | GrantUse.FirstUse grant =>
      pt ← lift (match source with
                 | Source.Passthrough => open_passthrough ephemeral_kek grant
                 | Source.PassthroughGone => Err PayloadLost
                 | Source.Stored version => open_secret_version keyset version
                 end);
      mret (pt, version_id, grant)
  | GrantUse.Replay grant _ true =>
      pt ← lift (open_passthrough ephemeral_kek grant);
      mret (pt, g_id grant, grant)
  | GrantUse.Replay grant secret_version_id false =>
      pinned ← lift (ok_or secret_version_id PayloadLost);
      version ← query (λ _ d, get_secret_version_by_id pinned d);
      version ← lift (ok_or version PayloadLost);
      pt ← lift (open_secret_version keyset version);
      mret (pt, pinned, grant)
  end.

Definition encode_payload (bytes : string) : string * SecretEncoding.t :=
  if is_some (utf8_decode bytes) then (bytes, SecretEncoding.Utf8)
  else (base64_encode bytes, SecretEncoding.Base64).

Definition completed_event (grant : GrantRow) (released : Uuid) : AuditEvent :=
  mkAuditEvent kinds.RELEASE_COMPLETED (Some (g_request_id grant)) (Some (g_id grant))
    (Some (g_client_name grant)) (Some (g_secret_name grant)) (Some released) None None None None
    (Some 200%Z) None.

(** [POST /v1/grants/{id}/read].  [body] is the body's bytes, or axum's refusal,
    with [None] for bytes that are no request.  The completion event is recorded
    by a detached task after the response. *)
Definition read (config : Config) (keyset : Keyset) (ephemeral_kek : EphemeralKek)
    (headers : HeaderMap) (raw_id : string) (body : result ApiFailure (option string))
  : Api (ReadGrantResponse * AuditEvent) :=
  body ← lift body;
  client ← authenticate_client config headers;
  id ← lift (path_id raw_id);
  key ← lift (ok_or body (InvalidRequest "malformed request body"));
  _ ← lift (fail_if eqb key "" with InvalidRequest "idempotency_key is required";
            fail_if (160 <? len key)%Z with RequestTooLarge "idempotency_key too long";
            Ok tt);
  grant ← owned_grant client id;
  mechanism ← lift (ok_or (Mechanism.from_str_opt (g_mechanism grant)) RevalidationFailed);
  _ ← lift (fail_if negb (Mechanism.is_releasing mechanism) with WrongMechanism; Ok tt);
  secret ← revalidate_grant grant;
  dead ← query (grant_dead (g_id grant));
  _ ← lift (fail_if dead with GrantExpired; Ok tt);
  '(source, version_id) ← payload_source grant secret;
  outcome ← transact (λ now d, begin_grant_use now (g_id grant) (Some key) (Some version_id)
                        kinds.RELEASE_ATTEMPT (replay_window_seconds (limits config)) None d);
  '(plaintext, released, grant_row) ← release keyset ephemeral_kek source version_id outcome;
  let '(secret_str, encoding) := encode_payload plaintext in
  mret (mkReadGrantResponse secret_str encoding released, completed_event grant_row released).
End Handlers.

(** ** What a successful read says *)
Section ReadFacts.
Context `{UuidText, Primitives, HttpLib, UrlLib, SigText, WireLib}.
Context (env : Env) (Henv : env_ok env) (keyset : Keyset) (ephemeral_kek : EphemeralKek).

Lemma fail_if_Ok (b : bool) (e : ApiFailure) (k : result ApiFailure unit) u :
  (fail_if b with e; k) = Ok u ↔ b = false ∧ k = Ok u.
Proof. destruct b; naive_solver. Qed.

Lemma payload_source_Ok g secret n w source vid n' w' :
  payload_source g secret env (n, w) = (Ok (source, vid), (n', w')) →
  later w w' ∧
  match source with
  | Source.Stored v => ∃ s, secret = Some s ∧ g_passthrough_ephemeral g = false ∧ vid = sv_id v
      ∧ get_secret_version (sr_id s) (sr_current_version s) w'.2 = Some v
  | _ => vid = g_id g
  end.
Proof.
  unfold payload_source. destruct (is_some _).
  { by intros ([= -> ->] & [= -> ->])%ret_Ok. }
  destruct (g_passthrough_ephemeral g) eqn:Ee.
  { by intros ([= -> ->] & [= -> ->])%ret_Ok. }
  intros (s & s1 & Hs & HH)%Api_bind_Ok. apply lift_Ok in Hs as [Hs%ok_or_Ok ->].
  apply Api_bind_Ok in HH as (v & [n1 w1] & Hq & HH). apply (query_later _ Henv) in Hq as [Hl ->].
  api_lift HH v Hv. apply ok_or_Ok in Hv.
  apply ret_Ok in HH as [[= -> ->] [= -> ->]]. split; [done|]. by exists s.
Qed.

(** The bytes a use releases, and the id they are released under. *)
Definition released_by (source : Source.t) (vid : Uuid) (u : GrantUse.t) (d : Db)
    (bytes : string) (released : Uuid) (g : GrantRow) : Prop :=
  match u with
  | GrantUse.FirstUse g' => g = g' ∧ released = vid ∧
      match source with
      | Source.Passthrough => open_passthrough ephemeral_kek g = Ok bytes
      | Source.PassthroughGone => False
      | Source.Stored v => opens_to keyset v bytes
      end
  | GrantUse.Replay g' pin true =>
      g = g' ∧ released = g_id g ∧ open_passthrough ephemeral_kek g = Ok bytes
  | GrantUse.Replay g' pin false => g = g' ∧ pin = Some released ∧
      ∃ v, secret_versions d !! released = Some v ∧ opens_to keyset v bytes
  | _ => False
  end.

Lemma release_Ok source vid u n w bytes released g n' w' :
  release keyset ephemeral_kek source vid u env (n, w)
    = (Ok (bytes, released, g), (n', w')) →
  later w w' ∧ released_by source vid u w'.2 bytes released g.
Proof.
  destruct u as [| | |g' pin [|]|g']; try done; cbn [release];
    intros (x & s1 & Hx & HH)%Api_bind_Ok; apply lift_Ok in Hx as [Hx ->].
  - by apply ret_Ok in HH as [[= -> -> ->] [= -> ->]].
  - apply ok_or_Ok in Hx as ->. apply Api_bind_Ok in HH as (v & [n1 w1] & Hq & HH).
    apply (query_later _ Henv) in Hq as [Hl ->].
    api_lift HH v Hv. apply ok_or_Ok in Hv.
    apply Api_bind_Ok in HH as (pt & s2 & Hpt & HH). apply lift_Ok in Hpt as [Hpt%map_err_Ok ->].
    apply ret_Ok in HH as [[= -> -> ->] [= -> ->]]. split; [done|].
    split; [done|]. split; [done|]. by exists v.
  - apply ret_Ok in HH as [[= -> -> ->] [= -> ->]]. split; [done|]. split; [done|].
    split; [done|]. destruct source; [done|done|]. by apply map_err_Ok in Hx.
Qed.
End ReadFacts.


(** ** Witness *)
Module ReadExample.
Import ApiExample.
Definition start : World := world_after "cli-read" Null.
Definition run : result ApiFailure (ReadGrantResponse * AuditEvent) * St :=
  read cfg keyset ephemeral headers "20" (Ok (Some "read-1")) alone (0, start).
Definition response : ReadGrantResponse := mkReadGrantResponse "hunter2" SecretEncoding.Utf8 101.
Definition event : AuditEvent :=
  match run with (Ok (_, ev), _) => ev | _ => audit_default "" end.
End ReadExample.
Import ApiExample ReadExample.

