(* ===== verification/Retire.v ===== *)
(** [server/src/db/mod.rs], [verify_no_references]: retiring a key-encryption
    key.  Once a key is not the active one, the check that finds it unreferenced
    stays true whatever the server does, and the keyset file without that key
    opens everything the database holds. *)

From S2P Require Import Prelude RustStr Types Json Crypto Examples Store Requests Grants ApiExt.
From S2P Require Import Secrets UiExt Policies Clients Provision Notify Lifecycle Refinement Safety.
Open Scope string_scope.

(** [pg_advisory_xact_lock] orders the check against the transactions that
    insert a wrapped key, which seal under its shared side: it is one of the
    sequential operations of the model. *)
Definition verify_no_references (kek_id : string) (d : Db) : bool :=
  Z.eqb (count_rows (λ v, eqb (sv_kek_id v) kek_id) (secret_versions d)
         + count_rows (λ r, eqb (ar_context_kek_id r) (Some kek_id)) (access_requests d)) 0.

(** The keyset file with a key taken out of it. *)
Definition without_key (kek : string) (file : KeysetFile) : KeysetFile :=
  mkKeysetFile (file_active file) (delete kek (file_keys file)) (file_mac_key file).

(** ** What references a key *)
Definition unreferenced (kek : string) (d : Db) : Prop :=
  (∀ k v, secret_versions d !! k = Some v → sv_kek_id v ≠ kek)
  ∧ (∀ k r, access_requests d !! k = Some r → ar_context_kek_id r ≠ Some kek).

Lemma count_rows_zero {K V} `{Countable K} (f : V → bool) (m : gmap K V) :
  count_rows f m = 0%Z ↔ ∀ k v, m !! k = Some v → f v = false.
Proof.
  rewrite <-exists_row_false. unfold count_rows, select, exists_row.
  induction (rows m) as [|v l IH]; [done|]. cbn [List.filter existsb].
  destruct (f v); cbn [orb List.length]; [|exact IH]. split; [lia|done].
Qed.

Lemma verify_unreferenced kek d : verify_no_references kek d = true ↔ unreferenced kek d.
Proof.
  unfold verify_no_references. rewrite Z.eqb_eq.
  pose proof (count_rows_nonneg (λ v, eqb (sv_kek_id v) kek) (secret_versions d)) as H1.
  pose proof (count_rows_nonneg (λ r, eqb (ar_context_kek_id r) (Some kek)) (access_requests d))
    as H2.
  split.
  - intros Hz. split; intros k x Hx.
    + assert (E : count_rows (λ v, eqb (sv_kek_id v) kek) (secret_versions d) = 0%Z) by lia.
      rewrite count_rows_zero in E. specialize (E _ _ Hx). by kbool.
    + assert (E : count_rows (λ r, eqb (ar_context_kek_id r) (Some kek)) (access_requests d) = 0%Z)
        by lia.
      rewrite count_rows_zero in E. specialize (E _ _ Hx). by kbool.
  - intros [Hv Hr].
    rewrite (proj2 (count_rows_zero _ (secret_versions d))), (proj2 (count_rows_zero _ (access_requests d)));
      [done|intros k r Hk; specialize (Hr _ _ Hk); by apply bool_decide_eq_false_2
      |intros k v Hk; specialize (Hv _ _ Hk); by apply bool_decide_eq_false_2].
Qed.

(** A column that keeps its key or is cleared. *)
Definition context_kept (r r' : AccessRequestRow) : Prop :=
  ar_context_kek_id r' = ar_context_kek_id r ∨ ar_context_kek_id r' = None.

(** The tables a write leaves alone are the same by computation; these are the
    writes that change one of the two. *)
Section Writes.
Context (kek : string) (d : Db) (U : unreferenced kek d).

Lemma un_put_request r : ar_context_kek_id r ≠ Some kek → unreferenced kek (put_request r d).
Proof. intros Hr. split; cbn; intros k x Hx; look; try done; by eapply U. Qed.
Lemma un_replace_request k r r' :
  access_requests d !! k = Some r → context_kept r r' → unreferenced kek (put_request r' d).
Proof.
  intros Hr Hk. apply un_put_request. destruct Hk as [->| ->]; [|done]. by eapply U.
Qed.
Lemma un_update_requests f g :
  (∀ r, context_kept r (g r)) →
  unreferenced kek (with_access_requests (update_rows f g) d).
Proof.
  intros Hg. split; cbn; intros k x Hx; [by eapply U|]. look. destruct (f _); [|by eapply U].
  match goal with |- ar_context_kek_id (g ?r) ≠ _ => destruct (Hg r) as [->| ->] end;
    [by eapply U|done].
Qed.
Lemma un_alter_request g id :
  (∀ r, context_kept r (g r)) → unreferenced kek (with_access_requests (alter g id) d).
Proof.
  intros Hg. split; cbn; intros k x Hx; [by eapply U|].
  destruct (decide (k = id)) as [->|Hne].
  - rewrite lookup_alter_eq in Hx. apply fmap_Some in Hx as (r & Hr & ->).
    destruct (Hg r) as [->| ->]; [by eapply U|done].
  - rewrite lookup_alter_ne in Hx by done. by eapply U.
Qed.
Lemma un_put_version v : sv_kek_id v ≠ kek → unreferenced kek (put_version v d).
Proof. intros Hv. split; cbn; intros k x Hx; look; try done; by eapply U. Qed.
Lemma un_delete_secret id : unreferenced kek (delete_secret_row id d).
Proof.
  split; intros k x Hx; [apply (lookup_delete_rows _ (secret_versions d)) in Hx as [Hx _]|];
    by eapply U.
Qed.
End Writes.

Lemma un_log_each {A} kek now (f : A → AuditEvent) l d :
  unreferenced kek d → unreferenced kek (fold_left (λ d x, insert_audit now (f x) d) l d).
Proof. revert d. induction l as [|x l IH]; intros d U; cbn; [done|]. apply IH. exact U. Qed.

(** ** Operations whose seals are under other keys *)
Definition sealed_away (kek : string) (s : result CryptoError Sealed) : Prop :=
  ∀ x, s = Ok x → sealed_kek_id x ≠ kek.
Definition context_away (kek : string) (s : SealedContext) : Prop :=
  ∀ x, s = Some x → sealed_away kek x.
Definition seals_away (kek : string) (o : op) : Prop :=
  match o with
  | OpInsertRequest _ _ seal | OpInsertRequestWithId _ _ _ _ _ seal => context_away kek seal
  | OpApproveRequest _ _ _ _ _ store => ∀ s, store = Some s → sealed_away kek (ss_seal s)
  | OpInsertSecretVersion _ _ seal _ | OpRotate _ _ _ _ seal => ∀ n, sealed_away kek (seal n)
  | OpDeposit _ s _ _ | OpCreateSecretWithVersion _ s _ => sealed_away kek (ss_seal s)
  | OpReconcileSecret keyset _ _ => active keyset ≠ kek
  | _ => True
  end.

Section Away.
Context `{UuidText, Primitives}.

(** Sealing uses the active key, so a keyset with another active key is enough. *)
Lemma Keyset_seal_away kek ks draw pt a : active ks ≠ kek → sealed_away kek (Keyset_seal ks draw pt a).
Proof.
  intros Ha x (k & _ & Hs)%bind_Ok. by apply bind_Ok in Hs as (? & _ & (? & _ & [= <-])%bind_Ok).
Qed.

Context (kek : string) (now : DateTime).
Notation keeps d d' := (unreferenced kek d → unreferenced kek d').

Lemma un_insert_version v d d' :
  sv_kek_id v ≠ kek → insert_secret_version_row v d = Ok d' → keeps d d'.
Proof. intros Hv Hi U. apply insert_version_row_Ok in Hi as [-> _]. by apply un_put_version. Qed.
Lemma un_insert_tags sid tags d d' : insert_tags sid tags d = Ok d' → keeps d d'.
Proof. intros Hi U. apply insert_tags_Ok in Hi as [-> _]. exact U. Qed.
Lemma un_insert_grant g d d' : insert_grant g d = Ok d' → keeps d d'.
Proof. intros Hi U. apply insert_grant_Ok in Hi as [-> _]. exact U. Qed.
Lemma un_guarded id guard r r' d :
  guarded_request id guard d = Some r → context_kept r r' → keeps d (put_request r' d).
Proof. intros [Hr _]%guarded_request_Some Hk U. by apply (un_replace_request _ _ U id r). Qed.

Lemma un_new_request id req seal ctx d d' :
  context_away kek seal → run_seal seal = Ok ctx →
  insert_request_or_nothing (new_request_row id now req ctx) d = Ok (Some d') → keeps d d'.
Proof.
  intros Ha Hr Hi U. apply insert_request_Ok in Hi as [-> _]. apply un_put_request; [done|]. cbn.
  destruct seal as [s|]; [|by injection Hr as <-]. apply map_err_Ok in Hr.
  destruct s as [x|]; [|done]. injection Hr as <-. cbn. intros [= E]. by apply (Ha _ eq_refl x).
Qed.
End Away.

(** ** No operation brings a reference in *)
Section Exec.
Context `{UuidText, Primitives} (kek : string) (now : DateTime).
Notation keeps d d' := (unreferenced kek d → unreferenced kek d').

Lemma insert_access_request_un id req seal d x d' :
  context_away kek seal → insert_access_request now id req seal d = Ok (x, d') → keeps d d'.
Proof.
  intros Ha. unfold insert_access_request. intros (ctx & Hr & HH)%bind_Ok U.
  apply bind_Ok in HH as ([d1|] & Hi & HH).
  - injection HH as <- <-. exact (un_new_request _ _ _ _ _ _ _ _ Ha Hr Hi U).
  - by apply bind_Ok in HH as (r & _ & [= <- <-]).
Qed.

Lemma apply_resolution_un gid req res row d x d' :
  access_requests d !! ar_id row = Some row →
  apply_resolution now gid req res row d = Ok (x, d') → keeps d d'.
Proof.
  intros Hr. unfold apply_resolution. destruct res as [|reason by_|by_ g fyi].
  - by intros [= <- <-].
  - intros [= <- <-] U. exact (un_replace_request _ _ U _ _ (set_denied reason by_ now row) Hr (or_introl eq_refl)).
  - destruct (negb _); [done|]. intros (d1 & Hi & [= <- <-])%bind_Ok U.
    apply (un_insert_grant kek _ _ _ Hi).
    by apply (un_replace_request _ _ U _ _ (set_notify_only fyi (set_approved by_ now row)) Hr); left.
Qed.
Lemma insert_with_id_un id gid req cap res seal d x d' :
  context_away kek seal →
  insert_access_request_with_id now id gid req cap res seal d = Ok (x, d') → keeps d d'.
Proof.
  intros Ha. unfold insert_access_request_with_id. destruct (identity_lost _ _); [done|].
  intros (ctx & Hr & HH)%bind_Ok U. apply bind_Ok in HH as ([d1|] & Hi & HH).
  - destruct (match cap with Some c => _ | None => _ end); [by injection HH as <- <-|].
    apply bind_Ok in HH as ([[row g] d3] & Hres & [= <- <-]).
    pose proof (un_new_request _ _ _ _ _ _ _ _ Ha Hr Hi U) as U1.
    apply insert_request_Ok in Hi as [-> _].
    eapply apply_resolution_un; [|exact Hres|exact U1]. cbn. by rewrite lookup_insert_eq.
  - by apply bind_Ok in HH as (r & _ & [= <- <-]).
Qed.

Lemma resolve_approve_un gid rid by_ g d x d' :
  resolve_approve now gid rid by_ g d = Ok (x, d') → keeps d d'.
Proof.
  unfold resolve_approve. destruct (_ && _); [by intros [= <- <-]|].
  destruct (guarded_request _ _ _) as [r|] eqn:Hr; [|by intros [= <- <-]].
  intros (d2 & Hi & [= <- <-])%bind_Ok U. apply (un_insert_grant kek _ _ _ Hi).
  by eapply un_guarded; [exact Hr|left|exact U].
Qed.
Lemma resolve_deny_un rid by_ reason d x d' :
  resolve_deny now rid by_ reason d = Ok (x, d') → keeps d d'.
Proof.
  unfold resolve_deny. destruct (guarded_request _ _ _) as [r|] eqn:Hr; [|by intros [= <- <-]].
  intros [= <- <-] U. exact (un_guarded _ _ _ _ (set_denied reason by_ now r) _ Hr (or_introl eq_refl) U).
Qed.
Lemma expire_stale_un d x d' : expire_stale now d = Ok (x, d') → keeps d d'.
Proof.
  intros [= <- <-] U. apply (un_log_each kek now expired_event), un_update_requests; [done|]. by left.
Qed.
Lemma bump_un guard rid d x d' : bump_guarded guard rid d = Ok (x, d') → keeps d d'.
Proof.
  unfold bump_guarded. destruct (guarded_request _ _ _) as [r|] eqn:Hr; [|by intros [= <- <-]].
  intros (n & _ & [= <- <-])%bind_Ok U. by eapply un_guarded; [exact Hr|left|exact U].
Qed.
Lemma increment_un rid d x d' : increment_push_attempts rid d = Ok (x, d') → keeps d d'.
Proof.
  unfold increment_push_attempts. destruct (access_requests d !! rid) as [r|] eqn:Hr;
    [|by intros [= <- <-]].
  intros (n & _ & [= <- <-])%bind_Ok U. by eapply un_replace_request; [exact U|exact Hr|left].
Qed.
Lemma begin_grant_use_un gid key ver kind w target d x d' :
  begin_grant_use now gid key ver kind w target d = Ok (x, d') → keeps d d'.
Proof.
  unfold begin_grant_use, first_use. destruct (grants d !! gid) as [g|]; [|by intros [= <- <-]].
  destruct (negb (live now g)); [by intros [= <- <-]|].
  destruct (k ← key; grant_reads d !! (gid, k)) as [r|].
  { destruct (in_window now w r); by intros [= <- <-]. }
  destruct (negb _); [by intros [= <- <-]|]. intros (n & _ & HH)%bind_Ok U.
  apply bind_Ok in HH as (d2 & Hd & [= <- <-]). destruct key as [k|]; [|by injection Hd as <-].
  apply insert_grant_read_Ok in Hd as [-> _]. exact U.
Qed.

Lemma insert_version_un vid sid seal by_request d x d' :
  (∀ n, sealed_away kek (seal n)) →
  insert_secret_version now vid sid seal by_request d = Ok (x, d') → keeps d d'.
Proof.
  intros Ha. unfold insert_secret_version. destruct (secrets d !! sid) as [s|]; [|done].
  intros (n & _ & HH)%bind_Ok U. apply bind_Ok in HH as (sealed & Hs%map_err_Ok & HH).
  apply bind_Ok in HH as (d2 & Hi & [= <- <-]).
  refine (un_insert_version _ _ _ _ _ Hi U). exact (Ha _ _ Hs).
Qed.
Lemma rotate_un vid sid name actor seal d x d' :
  (∀ n, sealed_away kek (seal n)) →
  rotate_secret_version now vid sid name actor seal d = Ok (x, d') → keeps d d'.
Proof.
  intros Ha. unfold rotate_secret_version. destruct (secrets d !! sid) as [s|];
    [|by intros [= <- <-]].
  intros (n & _ & HH)%bind_Ok U. apply bind_Ok in HH as (sealed & Hs%map_err_Ok & HH).
  apply bind_Ok in HH as (d2 & Hi & [= <- <-]).
  refine (un_insert_version kek _ _ _ _ Hi U). exact (Ha _ _ Hs).
Qed.
Lemma deposit_un vid s client rate d x d' :
  sealed_away kek (ss_seal s) →
  create_secret_from_client now vid s client rate d = Ok (x, d') → keeps d d'.
Proof.
  intros Ha. unfold create_secret_from_client. destruct (_ <=? _)%Z; [by intros [= <- <-]|].
  intros ([d1|] & Hi & HH)%bind_Ok U; [|by injection HH as <- <-].
  apply insert_secret_or_nothing_Ok in Hi as [-> _].
  apply bind_Ok in HH as (sealed & Hs%map_err_Ok & (d2 & Hv & [= <- <-])%bind_Ok).
  refine (un_insert_version kek _ _ _ _ Hv U). exact (Ha _ Hs).
Qed.
Lemma create_with_version_un vid s actor d x d' :
  sealed_away kek (ss_seal s) →
  create_secret_with_version now vid s actor d = Ok (x, d') → keeps d d'.
Proof.
  intros Ha. unfold create_secret_with_version. intros (sealed & Hs%map_err_Ok & HH)%bind_Ok U.
  apply bind_Ok in HH as ([d1|] & Hi & HH); [|by injection HH as <- <-].
  apply insert_secret_or_nothing_Ok in Hi as [-> _].
  apply bind_Ok in HH as (d2 & Hv & [= <- <-]).
  refine (un_insert_version kek _ _ _ _ Hv U). exact (Ha _ Hs).
Qed.
Lemma store_with_approval_un vid rid by_ store d d' :
  (∀ s, store = Some s → sealed_away kek (ss_seal s)) →
  store_with_approval now vid rid by_ store d = Ok (Some d') → keeps d d'.
Proof.
  intros Ha. unfold store_with_approval. destruct store as [s|]; [|by intros [= <-]].
  intros (sealed & Hs%map_err_Ok & HH)%bind_Ok U.
  apply bind_Ok in HH as ([d1|] & Hi & HH); [|done].
  apply insert_secret_or_nothing_Ok in Hi as [-> _].
  apply bind_Ok in HH as (d2 & Hv & [= <-]).
  refine (un_insert_version kek _ _ _ _ Hv U). exact (Ha _ eq_refl _ Hs).
Qed.
Lemma approve_request_un vid rid by_ gid g store d x d' :
  (∀ s, store = Some s → sealed_away kek (ss_seal s)) →
  approve_request now vid rid by_ gid g store d = Ok (x, d') → keeps d d'.
Proof.
  intros Ha. unfold approve_request. destruct (_ && _); [by intros [= <- <-]|].
  destruct (guarded_request _ _ _) as [r|] eqn:Hr; [|by intros [= <- <-]].
  intros ([d2|] & Hst & HH)%bind_Ok U; [|by injection HH as <- <-].
  apply bind_Ok in HH as (d3 & Hi & [= <- <-]). apply (un_insert_grant kek _ _ _ Hi).
  eapply store_with_approval_un; [exact Ha|exact Hst|].
  by eapply un_guarded; [exact Hr|left|exact U].
Qed.
Lemma update_settings_un sid s actor d x d' :
  update_secret_settings_audited now sid s actor d = Ok (x, d') → keeps d d'.
Proof.
  unfold update_secret_settings_audited. destruct (secrets d !! sid) as [prev|];
    [|by intros [= <- <-]].
  destruct (sr_managed_by_config prev); [by intros [= <- <-]|]. destruct (negb _); [done|].
  intros (d2 & Hi & [= <- <-])%bind_Ok U. exact (un_insert_tags kek _ _ _ _ Hi U).
Qed.
Lemma delete_secret_un sid version actor d x d' :
  delete_secret_audited now sid version actor d = Ok (x, d') → keeps d d'.
Proof.
  unfold delete_secret_audited. destruct (secrets d !! sid) as [s|]; [|by intros [= <- <-]].
  destruct (negb _); [by intros [= <- <-]|]. intros [= <- <-] U.
  apply (un_log_each kek now (λ g, revoked_event g actor (Some deleted_detail))).
  exact (un_delete_secret kek d U sid).
Qed.

(** Config's policies, clients and secrets. *)
Lemma drop_unwanted_un existing wanted d n wanted' d' n' :
  drop_unwanted now existing wanted d n = (wanted', d', n') → keeps d d'.
Proof.
  revert wanted d n. induction existing as [|r l IH]; intros wanted d n; cbn.
  - by intros [= _ <- _].
  - destruct (position _ _) as [i|]; [by apply IH|]. intros Hd U. by apply (IH _ _ _ Hd).
Qed.
Lemma insert_wanted_un ids wanted d d' :
  insert_wanted now ids wanted d = Ok d' → keeps d d'.
Proof.
  revert ids d. induction wanted as [|[k p] l IH]; intros ids d; cbn; [by intros [= <-]|].
  intros (d1 & Hp & Hd)%bind_Ok U. apply insert_policy_Ok in Hp as [-> _]. by apply (IH _ _ Hd).
Qed.
Lemma upsert_clients_un ids cs d d' : upsert_clients ids cs d = Ok d' → keeps d d'.
Proof.
  revert ids d. induction cs as [|c cs IH]; intros ids d; cbn; [by intros [= <-]|].
  intros (d1 & Hu & Hd)%bind_Ok U. apply (IH _ _ Hd).
  unfold upsert_client in Hu. destruct (_ && _); [done|]. destruct (exists_row _ _); [done|].
  by injection Hu as <-.
Qed.
Lemma provisioned_version_un keyset r sid n value d d' :
  active keyset ≠ kek → insert_version now keyset r sid n value d = Ok d' → keeps d d'.
Proof.
  intros Ha. unfold insert_version. intros (sealed & Hs%map_err_Ok & Hi)%bind_Ok U.
  refine (un_insert_version _ _ _ _ _ Hi U). by eapply Keyset_seal_away.
Qed.
Lemma reconcile_one_secret_un keyset r w d x d' :
  active keyset ≠ kek → reconcile_one_secret now keyset r w d = Ok (x, d') → keeps d d'.
Proof.
  intros Ha. unfold reconcile_one_secret. destruct (get_secret_by_name _ d) as [row|].
  - intros (d1 & Hm & HH)%bind_Ok U. apply bind_Ok in HH as (same & _ & HH).
    apply bind_Ok in HH as (d2 & Hrot & [= <- <-]).
    assert (U1 : unreferenced kek d1).
    { destruct (metadata_differs _ _ _ _); [|by injection Hm as <-].
      unfold sync_metadata in Hm. destruct (negb _); [done|].
      apply bind_Ok in Hm as (d0 & Ht & [= <-]). exact (un_insert_tags kek _ _ _ _ Ht U). }
    destruct (negb same); [|by injection Hrot as <-].
    unfold rotate_in in Hrot. apply bind_Ok in Hrot as (s & _ & Hrot).
    apply bind_Ok in Hrot as (n & _ & Hrot). apply bind_Ok in Hrot as (d3 & Hv & [= <-]).
    exact (provisioned_version_un _ _ _ _ _ _ _ Ha Hv U1).
  - intros (d1 & Hs & HH)%bind_Ok U. apply bind_Ok in HH as (d2 & Hv & HH).
    apply bind_Ok in HH as (d3 & Ht & [= <- <-]). apply insert_secret_Ok in Hs as [-> _].
    apply (un_insert_tags kek _ _ _ _ Ht). exact (provisioned_version_un _ _ _ _ _ _ _ Ha Hv U).
Qed.

Lemma exec_un o d d' : seals_away kek o → exec now o d = Ok d' → keeps d d'.
Proof.
  intros Ha Hex. destruct o; cbn [exec seals_away] in *;
    try (apply committed_Ok in Hex as [x Hex]); try (injection Hex as <-; done).
  - by eapply insert_access_request_un.
  - by eapply insert_with_id_un.
  - by eapply resolve_approve_un.
  - by eapply approve_request_un.
  - by eapply resolve_deny_un.
  - by eapply expire_stale_un.
  - injection Hex as <- <-. intros U. apply un_update_requests; [done|]. by right.
  - injection Hex as <- <-. intros U. apply un_alter_request; [done|]. by left.
  - by eapply increment_un.
  - by eapply bump_un.
  - by eapply bump_un.
  - by eapply begin_grant_use_un.
  - unfold revoke_grant in Hex. destruct (grants d !! gid) as [g|]; [|by injection Hex as <- <-].
    by destruct (g_revoked g); injection Hex as <- <-.
  - by injection Hex as <- <-.
  - by injection Hex as <- <-.
  - by injection Hex as <- <-.
  - apply bind_Ok in Hex as (d1 & Hi & [= <- <-]). by apply insert_secret_Ok in Hi as [-> _].
  - by eapply insert_version_un.
  - by eapply deposit_un.
  - by eapply create_with_version_un.
  - by eapply rotate_un.
  - unfold mark_secret_vetted in Hex. destruct (secrets d !! sid) as [s|];
      [|by injection Hex as <- <-]. by destruct (_ && _); injection Hex as <- <-.
  - apply bind_Ok in Hex as (d1 & Hi & [= <- <-]). intros U. exact (un_insert_tags kek _ _ _ _ Hi U).
  - by eapply update_settings_un.
  - by eapply delete_secret_un.
  - apply bind_Ok in Hex as (d1 & Hp & [= <- <-]). by apply insert_policy_Ok in Hp as [-> _].
  - by injection Hex as <- <-.
  - apply bind_Ok in Hex as (d1 & Hp & [= <- <-]). by apply insert_policy_Ok in Hp as [-> _].
  - unfold delete_policy_audited in Hex. by destruct (policies d !! id); injection Hex as <- <-.
  - unfold update_policy_audited in Hex. destruct (policies d !! id) as [r|];
      [|by injection Hex as <- <-]. destruct (po_managed_by_config r); [by injection Hex as <- <-|].
    destruct (negb _); [done|]. destruct (_ && _); [done|]. by injection Hex as <- <-.
  - unfold reconcile_policies in Hex. destruct (drop_unwanted _ _ _ _ _) as [[w d1] n] eqn:Hd.
    apply bind_Ok in Hex as (d2 & Hw & [= <- <-]). intros U.
    eapply insert_wanted_un; [exact Hw|]. by eapply drop_unwanted_un.
  - unfold reconcile_clients in Hex. apply bind_Ok in Hex as (d3 & Hu & [= <- <-]). intros U.
    by apply (upsert_clients_un _ _ _ _ Hu).
  - by eapply reconcile_one_secret_un.
Qed.
End Exec.

(** ** The keyset without the key *)
Section Keysets.
Context `{UuidText, Primitives}.

Lemma decoded_lookup (m : gmap string string) l id :
  try_map (λ '(id, b64), k ← decode_key b64 ("key " +:+ id); Ok (id, k)) (map_to_list m) = Ok l →
  (list_to_map l : gmap string string) !! id
  = (b64 ← m !! id; ok (decode_key b64 ("key " +:+ id))).
Proof.
  intros Hl. pose proof (decoded_ids _ _ Hl) as Hfst. rewrite try_map_Ok in Hl.
  assert (Hnd : NoDup l.*1) by (rewrite Hfst; apply NoDup_fst_map_to_list).
  destruct (m !! id) as [b|] eqn:Hm; cbn [mbind option_bind].
  - apply elem_of_map_to_list, list_elem_of_lookup in Hm as [i Hi].
    destruct (Forall2_lookup_l _ _ _ _ _ Hl Hi) as ([id' k] & Hk & Hx).
    apply bind_Ok in Hx as (x & Hx & [= <- <-]). rewrite Hx.
    apply elem_of_list_to_map; [done|]. by apply list_elem_of_lookup_2 with i.
  - apply not_elem_of_list_to_map. rewrite Hfst. intros ([i b] & -> & Hi)%list_elem_of_fmap.
    apply elem_of_map_to_list in Hi. cbn in Hm. congruence.
Qed.

(** Without a key that is not the active one the file still loads, to the same
    keyset less that key. *)
Lemma without_key_loads kek file ks :
  from_file file = Ok ks → file_active file ≠ kek →
  ∃ ks', from_file (without_key kek file) = Ok ks' ∧ active ks' = active ks
    ∧ mac_key ks' = mac_key ks ∧ keys ks' = delete kek (keys ks).
Proof.
  unfold from_file, without_key. cbn [file_keys file_active file_mac_key]. intros Hf Hne.
  destruct (bool_decide _) eqn:E1; [done|].
  destruct (file_keys file !! file_active file) as [b|] eqn:Ha; [|done]. cbn [is_none] in *.
  destruct (is_some _) eqn:Hr in Hf; [done|]. apply bind_Ok in Hf as (l & Hl & Hf).
  apply bind_Ok in Hf as (mk & Hmk & [= <-]).
  destruct (try_map_all (λ '(id, b64), k ← decode_key b64 ("key " +:+ id); Ok (id, k))
              (map_to_list (delete kek (file_keys file)))) as [l' Hl'].
  { intros [i x] Hx. apply elem_of_map_to_list, lookup_delete_Some in Hx as [_ Hx].
    apply elem_of_map_to_list in Hx. exact (try_map_each _ _ _ Hl _ Hx). }
  rewrite (bool_decide_eq_false_2 (delete kek (file_keys file) = ∅)).
  2: { intros E. apply (f_equal (λ m : gmap string string, m !! file_active file)) in E.
       by rewrite lookup_delete_ne, Ha, lookup_empty in E. }
  rewrite lookup_delete_ne, Ha by done. cbn [is_none].
  replace (is_some (delete kek (file_keys file) !! EPHEMERAL_KEK_ID)) with false.
  2: { destruct (delete _ _ !! _) eqn:E; [|done]. apply lookup_delete_Some in E as [_ E].
       by rewrite E in Hr. }
  rewrite Hl'. cbn [mbind result_bind]. rewrite Hmk. eexists. split; [done|].
  split; [done|]. split; [done|]. cbn. apply map_eq. intros id.
  rewrite (decoded_lookup _ _ _ Hl'). destruct (decide (id = kek)) as [->|Hid].
  - by rewrite !lookup_delete_eq.
  - by rewrite !lookup_delete_ne, (decoded_lookup _ _ _ Hl) by done.
Qed.
End Keysets.

(** ** Retirement *)
Section Retirement.
Context `{UuidText, Primitives}.

(** The store at work, no operation of which seals under [kek]. *)
Definition step_without (kek : string) (w w' : World) : Prop :=
  (w.1 ≤ w'.1)%Z ∧ ∃ o, op_ok o ∧ seals_away kek o ∧ exec w'.1 o w.2 = Ok w'.2.
Definition later_without (kek : string) : relation World := rtc (step_without kek).

Lemma later_without_un kek w w' :
  later_without kek w w' → unreferenced kek w.2 → unreferenced kek w'.2.
Proof.
  induction 1 as [|x y z (_ & o & _ & Ha & Hex) _ IH]; [done|]. intros U.
  apply IH. by eapply exec_un.
Qed.

(** C29: a key found unreferenced can be retired.  [verify_no_references] answers
    yes exactly when no stored version and no request context is wrapped under
    the key.  Once it has, it stays so whatever operations follow, in any order,
    as long as they seal under other keys; and the keyset file with that key
    taken out still loads, with the same active and MAC keys, and opens every
    version and context of every such later database, to the same result.  When
    it answers no, some stored row would be lost with the key. *)
Theorem kek_retirement_safe kek file ks w w' :
  from_file file = Ok ks → active ks ≠ kek → later_without kek w w' →
  ∃ ks', from_file (without_key kek file) = Ok ks'
    ∧ active ks' = active ks ∧ mac_key ks' = mac_key ks
    ∧ (verify_no_references kek w.2 = true →
         verify_no_references kek w'.2 = true
         ∧ (∀ k v ct n dek a, secret_versions w'.2 !! k = Some v →
              Keyset_open ks' ct n dek (sv_kek_id v) a = Keyset_open ks ct n dek (sv_kek_id v) a)
         ∧ (∀ k r id ct n dek a, access_requests w'.2 !! k = Some r →
              ar_context_kek_id r = Some id →
              Keyset_open ks' ct n dek id a = Keyset_open ks ct n dek id a))
    ∧ (verify_no_references kek w.2 = false →
         (∀ ct n dek a, Keyset_open ks' ct n dek kek a = Err (UnknownKek kek))
         ∧ ((∃ k v, secret_versions w.2 !! k = Some v ∧ sv_kek_id v = kek)
            ∨ ∃ k r, access_requests w.2 !! k = Some r ∧ ar_context_kek_id r = Some kek)).
Proof.
  intros Hf Ha Hl. pose proof Hf as (_ & _ & Hact)%from_file_Ok.
  destruct (without_key_loads kek file ks Hf) as (ks' & Hf' & Hact' & Hmac & Hk);
    [by rewrite <-Hact|].
  exists ks'. split; [done|]. split; [done|]. split; [done|].
  assert (Hopen : ∀ ct n dek id a, id ≠ kek →
            Keyset_open ks' ct n dek id a = Keyset_open ks ct n dek id a).
  { intros ct n dek id a Hid. unfold Keyset_open, Keyset_kek.
    by rewrite Hk, lookup_delete_ne by done. }
  split.
  - intros Hv. apply verify_unreferenced in Hv. apply (later_without_un kek w w' Hl) in Hv.
    split; [by apply verify_unreferenced|]. destruct Hv as [Uv Ur]. split.
    + intros k v ct n dek a Hkv. apply Hopen. by eapply Uv.
    + intros k r id ct n dek a Hkr Hid. apply Hopen. intros ->. by eapply Ur.
  - intros Hv. split; [intros ct n dek a; unfold Keyset_open, Keyset_kek; by rewrite Hk, lookup_delete_eq|].
    destruct (exists_row (λ v, eqb (sv_kek_id v) kek) (secret_versions w.2)) eqn:Ev.
    { left. apply exists_row_true in Ev as (k & v & Hkv & Hid). exists k, v. by kbool. }
    destruct (exists_row (λ r, eqb (ar_context_kek_id r) (Some kek)) (access_requests w.2)) eqn:Er.
    { right. apply exists_row_true in Er as (k & r & Hkr & Hid). exists k, r. by kbool. }
    exfalso. rewrite exists_row_false in Ev. rewrite exists_row_false in Er.
    assert (U : unreferenced kek w.2).
    { split; intros k x Hx; [specialize (Ev _ _ Hx)|specialize (Er _ _ Hx)]; by kbool. }
    apply verify_unreferenced in U. congruence.
Qed.
End Retirement.

(** ** A key rotated out *)
Module RetireExample.
#[export] Existing Instance CryptoExample.primitives.
#[export] Existing Instance uuid_text_example.
Definition keyset : Keyset := CryptoExample.new_set.
Definition first : StoreSecretParams :=
  mkStoreSecretParams 1 "example-api-token" "" 3 "bearer" None None
    (Keyset_seal keyset CryptoExample.draw "hunter2" (SecretVersion 1 1)).
Definition second (n : Z) : result CryptoError Sealed :=
  Keyset_seal keyset CryptoExample.draw "hunter3" (SecretVersion 1 n).
Definition before : World :=
  Eval vm_compute in
    (seconds 10, Scenario.db_after [(seconds 10, OpCreateSecretWithVersion 101 first "alice")]).
Definition rotate : op := OpRotate 102 1 "example-api-token" "alice" second.
Definition after : World :=
  Eval vm_compute in
    (seconds 20, match exec (seconds 20) rotate before.2 with Ok d => d | Err _ => empty_db end).
End RetireExample.
Import RetireExample.

Lemma kek_retirement_safe_witness :
  verify_no_references "k1" after.2 = true
  ∧ ∃ ks', from_file (without_key "k1" CryptoExample.file) = Ok ks' ∧ active ks' = "k2".
Proof.
  destruct (kek_retirement_safe "k1" CryptoExample.file keyset before after)
    as (ks' & Hf & Ha & _ & Hyes & _).
  - vm_compute. reflexivity.
  - discriminate.
  - apply rtc_once. split; [discriminate|]. exists rotate. split; [exact I|]. split.
    + intros n. apply Keyset_seal_away. discriminate.
    + vm_compute. reflexivity.
  - destruct Hyes as [Hv _]; [vm_compute; reflexivity|]. split; [exact Hv|].
    exists ks'. split; [exact Hf|]. rewrite Ha. reflexivity.
Defined.
