(* ===== verification/Proxy.v ===== *)
(** [server/src/proxy.rs]: the brokered leg: which headers travel, where the
    credential is placed, the outbound URL, and the handler up to the request
    it hands to the HTTP client. *)

From S2P Require Import Prelude RustStr Types Paths Json Crypto Examples SigV4 Http Injection Store.
From S2P Require Import Requests Grants ApiExt Secrets UiExt Policies Clients Provision Notify.
From S2P Require Import Lifecycle Refinement Safety StoreProps Reconcile Slots Api ApiGrants.
Open Scope string_scope.

Definition STRIP_LIST : list string :=
  ["host"; "authorization"; "proxy-authorization"; "cookie"; "set-cookie"; "forwarded";
   "x-real-ip"; "x-http-method-override"; "x-method-override"; "x-original-url";
   "x-rewrite-url"; "x-original-method"; "connection"; "keep-alive"; "proxy-connection";
   "te"; "trailer"; "transfer-encoding"; "upgrade"; "content-length"; "expect"].
Definition KEYCHUTE_ERROR_HEADER : string := "x-keychute-error".
Definition RESPONSE_STRIP : list string :=
  [KEYCHUTE_ERROR_HEADER; "connection"; "keep-alive"; "proxy-authenticate";
   "proxy-authorization"; "proxy-connection"; "te"; "trailer"; "transfer-encoding"; "upgrade"].

Section Headers.
Context `{HttpLib}.

Definition connection_named (headers : HeaderMap) : list string :=
  List.filter (λ t, negb (eqb t ""))
    (map (λ t, to_ascii_lowercase (trim t))
       (concat (map (split ",") (omap to_str (headers_get_all "connection" headers))))).

(** Copy the entries that pass, in order. *)
Definition copy_headers (keep : string → bool) (from : HeaderMap) : HeaderMap :=
  fold_left (λ out kv, if keep kv.1 then headers_append kv.1 kv.2 out else out)
    (headers_iter from) headers_new.

Definition forwarded (caller : HeaderMap) (injected : list string) (n : string) : bool :=
  negb (contains STRIP_LIST n || starts_with "x-forwarded-" n
        || contains (connection_named caller) n || contains injected n).
Definition build_outbound_headers (caller : HeaderMap) (injected : list string) : HeaderMap :=
  copy_headers (forwarded caller injected) caller.

Definition returned (upstream : HeaderMap) (n : string) : bool :=
  negb (contains RESPONSE_STRIP n || contains (connection_named upstream) n).
Definition build_response_headers (upstream : HeaderMap) : HeaderMap :=
  copy_headers (returned upstream) upstream.
End Headers.

Module InjectionSpec.
Inductive t :=
| Bearer
| Header (name : string)
| BasicPassword (username : string)
| AwsSigV4 (scope : Scope).
End InjectionSpec.

Definition header_safe (bytes : string) : bool :=
  negb (any_byte (λ b, eqb b CR || eqb b LF || eqb b NUL) bytes).

Section Inject.
Context `{HttpLib, UrlLib, SigText, WireLib, Primitives}.

Definition validate (spec : InjectionSpec.t) : result ApiFailure string :=
  match spec with
  | InjectionSpec.Bearer => Ok "authorization"
  | InjectionSpec.Header name =>
      let lower := to_ascii_lowercase name in
      fail_if contains STRIP_LIST lower || starts_with "x-forwarded-" lower
        with BadCredentialEncoding;
      ok_or (header_name name) BadCredentialEncoding
  | InjectionSpec.BasicPassword username =>
      fail_if contains_char ":" username || negb (header_safe username)
        with BadCredentialEncoding;
      Ok "authorization"
  | InjectionSpec.AwsSigV4 scope =>
      _ ← map_err (λ _, BadCredentialEncoding) (validate_access_key_id (access_key_id scope));
      _ ← map_err (λ _, BadCredentialEncoding)
            (parse_scope (region scope +:+ "/" +:+ service scope));
      Ok "authorization"
  end.

Definition owned_headers (spec : InjectionSpec.t) : list string :=
  match spec with
  | InjectionSpec.AwsSigV4 _ => ("authorization" :: SYNTHESIZED ++ STRIPPED_CALLER_HEADERS)%list
  | _ => []
  end.

Definition injection_header (spec : InjectionSpec.t) (secret : string)
  : result ApiFailure (string * string) :=
  name ← validate spec;
  match spec with
  | InjectionSpec.Bearer =>
      fail_if negb (header_safe secret) with BadCredentialEncoding;
      v ← ok_or (header_value ("Bearer " +:+ secret)) BadCredentialEncoding;
      Ok (name, v)
  | InjectionSpec.Header _ =>
      fail_if negb (header_safe secret) with BadCredentialEncoding;
      v ← ok_or (header_value secret) BadCredentialEncoding;
      Ok (name, v)
  | InjectionSpec.BasicPassword username =>
      v ← ok_or (header_value ("Basic " +:+ base64_encode (username +:+ ":" +:+ secret)))
            BadCredentialEncoding;
      Ok (name, v)
  | InjectionSpec.AwsSigV4 _ => Err (Internal "aws-sigv4 has no static injection header")
  end.

(** The caller's [x-amz-*] headers, signed along; they must be visible ASCII. *)
Definition amz_headers (outbound : HeaderMap) : result ApiFailure (list (string * string)) :=
  try_map (λ kv, v ← ok_or (to_str kv.2) (InvalidRequest "x-amz-* header is not visible ASCII");
                 Ok (kv.1, v))
    (List.filter (λ kv, starts_with "x-amz-" kv.1) (headers_iter outbound)).

Definition sigv4_headers (scope : Scope) (secret method : string) (url : Url)
    (outbound : HeaderMap) (payload : string) (wall : DateTime)
  : result ApiFailure (list (string * string)) :=
  h ← ok_or (host_str url) (Internal "upstream URL has no host");
  let h := match url_port url with Some p => h +:+ ":" +:+ Z_to_string p | None => h end in
  extra ← amz_headers outbound;
  let signed := sign scope secret (mkSigRequest method h (url_path url) extra payload) wall in
  a ← ok_or (header_value (authorization signed)) BadCredentialEncoding;
  d ← ok_or (header_value (amz_date signed)) (Internal "x-amz-date");
  c ← ok_or (header_value (content_sha256 signed)) (Internal "x-amz-content-sha256");
  Ok [("authorization", a); ("x-amz-date", d); ("x-amz-content-sha256", c)].

(** [canonical_path.replace('%', "%25")] *)
Fixpoint escape_percent (s : string) : string :=
  match s with
  | "" => ""
  | String c s => if eqb c "%"%char then "%25" +:+ escape_percent s
                  else String c (escape_percent s)
  end.
Definition outbound_url (origin canonical_path : string) (query : option string)
    (sigv4_path : bool) : option Url :=
  url ← url_parse origin;
  let p := if sigv4_path then wire_path canonical_path else escape_percent canonical_path in
  Some (set_query query (set_path p url)).

Definition sent_path (url : Url) : string :=
  match url_query url with
  | Some q => url_path url +:+ "?" +:+ q
  | None => url_path url
  end.
End Inject.

(** ** The route *)
Definition grant_id_from_path `{UuidText} (raw_path : string) : result ApiFailure Uuid :=
  after_prefix ← ok_or (strip_prefix "/v1/grants/" raw_path) NotFound;
  '(id, _) ← ok_or (split_once "/" after_prefix) NotFound;
  ok_or (uuid_parse id) NotFound.

Definition proxy_suffix (raw_path : string) : option string :=
  after_prefix ← strip_prefix "/v1/grants/" raw_path;
  '(_, rest) ← split_once "/" after_prefix;
  suffix ← strip_prefix "proxy" rest;
  match suffix with
  | "" => Some "/"
  | String c _ => if eqb c "/"%char then Some suffix else None
  end.

(** ** The handler *)
Section Handler.
Context `{UuidText, Primitives, HttpLib, UrlLib, SigText, WireLib}.

Record ProxyRequest := mkProxyRequest {
  pr_method : string;
  pr_path : string;                          (* raw, un-decoded *)
  pr_query : option string;
  pr_headers : HeaderMap;
  pr_body : list (result unit string)        (* the chunks as they arrive *)
}.

(** What [forward] is given to send. *)
Record Outbound := mkOutbound {
  out_method : string;
  out_url : Url;
  out_headers : HeaderMap;
  out_body : string;
  out_version_id : Uuid;
  out_audited_path : string
}.

(** Buffer the body; the cap is checked before a chunk is appended. *)
Fixpoint read_body (max : Z) (chunks : list (result unit string)) (buf : string)
  : result ApiFailure string :=
  match chunks with
  | [] => Ok buf
  | Err _ :: _ => Err (InvalidRequest "request body read failed")
  | Ok chunk :: chunks =>
      fail_if (max <? len buf + len chunk)%Z with BodyTooLarge;
      read_body max chunks (buf +:+ chunk)
  end.

Definition method_allowed (k : Constraints) (method : string) : result ApiFailure unit :=
  fail_if eqb method "TRACE"
    with PolicyDenied "TRACE is never proxied (it would reflect the injected credential)";
  fail_if negb (is_empty (methods k))
          && negb (existsb (λ m, eq_ignore_ascii_case m method) (methods k))
    with PolicyDenied "method not allowed by grant";
  Ok tt.

Definition path_allowed (k : Constraints) (raw_path : string) : result ApiFailure string :=
  rest ← ok_or (proxy_suffix raw_path) (Internal "route prefix mismatch");
  canonical ← map_err InvalidPath (canonicalize rest);
  fail_if negb (is_empty (path_prefixes k))
          && negb (existsb (λ p, prefix_matches p canonical) (path_prefixes k))
    with PolicyDenied "path not allowed by grant";
  Ok canonical.

(** The template of the row, before the plaintext is in hand. *)
Definition spec_of_secret (secret : SecretRow) : result ApiFailure InjectionSpec.t :=
  if eqb (sr_injection_kind secret) "bearer" then Ok InjectionSpec.Bearer
  else if eqb (sr_injection_kind secret) "header" then
    name ← ok_or (sr_injection_header secret) BadCredentialEncoding;
    Ok (InjectionSpec.Header name)
  else if eqb (sr_injection_kind secret) "basic" || eqb (sr_injection_kind secret) "basic-password"
  then
    username ← ok_or (match sr_injection_username secret with
                      | Some u => Some u | None => sr_injection_header secret end)
                 BadCredentialEncoding;
    Ok (InjectionSpec.BasicPassword username)
  else if eqb (sr_injection_kind secret) "aws-sigv4" then
    id ← ok_or (sr_injection_username secret) BadCredentialEncoding;
    '(r, s) ← ok_or (scope ← sr_injection_header secret; ok (parse_scope scope))
                BadCredentialEncoding;
    Ok (InjectionSpec.AwsSigV4 (mkScope id r s))
  else Err BadCredentialEncoding.
Definition is_sigv4 (spec : InjectionSpec.t) : bool :=
  match spec with InjectionSpec.AwsSigV4 _ => true | _ => false end.

(** The caller's headers that travel, and the ones set over them. *)
Definition inject (spec : InjectionSpec.t) (secret method : string) (url : Url)
    (caller : HeaderMap) (payload : string) (wall : DateTime)
  : result ApiFailure (HeaderMap * list (string * string)) :=
  match spec with
  | InjectionSpec.AwsSigV4 scope =>
      let outbound := build_outbound_headers caller (owned_headers spec) in
      signed ← sigv4_headers scope secret method url outbound payload wall;
      Ok (outbound, signed)
  | _ =>
      '(name, value) ← injection_header spec secret;
      Ok (build_outbound_headers caller [name], [(name, value)])
  end.
Definition insert_all (out : HeaderMap) (injected : list (string * string)) : HeaderMap :=
  fold_left (λ out kv, headers_insert kv.1 kv.2 out) injected out.

(** Everything decided before a use is accounted, once the grant, its secret
    row and a slot are in hand. *)
Record Checked := mkChecked {
  ck_method : string; ck_origin : Origin; ck_body : string
}.
Definition check_request (config : Config) (grant : GrantRow) (req : ProxyRequest)
  : result ApiFailure (Checked * string) :=
  k ← ok_or (Constraints_of_value url_host_str (g_constraints grant)) (Internal "constraints");
  let method := to_ascii_uppercase (pr_method req) in
  _ ← method_allowed k method;
  canonical ← path_allowed k (pr_path req);
  origin ← match origins k with
           | [o] => Ok o
           | _ => Err (Internal "brokered grant must have exactly one origin")
           end;
  body ← read_body (proxy_max_body_bytes (limits config)) (pr_body req) "";
  Ok (mkChecked method origin body, canonical).

Definition check_target (spec : InjectionSpec.t) (origin : Origin) (canonical : string)
    (query : option string) : result ApiFailure Url :=
  _ ← validate spec;
  fail_if is_sigv4 spec && is_some query
    with InvalidRequest "aws-sigv4 grants do not forward a query string";
  ok_or (outbound_url (to_display origin) canonical query (is_sigv4 spec))
    (Internal "origin parse").

Definition handle_inner (config : Config) (keyset : Keyset) (counts : Slots) (wall : DateTime)
    (grant_id : Uuid) (req : ProxyRequest) : Api Outbound :=
  client ← authenticate_client config (pr_headers req);
  grant ← owned_grant client grant_id;
  _ ← lift (fail_if negb (bool_decide (Mechanism.from_str_opt (g_mechanism grant)
                                       = Some Mechanism.Brokered)) with WrongMechanism; Ok tt);
  secret ← revalidate_grant grant;
  secret ← lift (ok_or secret PayloadLost);
  _ ← lift (fail_if negb (snd (try_take_slot (max_proxy_streams_per_client (limits config))
                                 (cl_name client) counts)) with TooManyStreams; Ok tt);
  '(checked, canonical) ← lift (check_request config grant req);
  version ← query (λ _ d, get_secret_version (sr_id secret) (sr_current_version secret) d);
  version ← lift (ok_or version PayloadLost);
  spec ← lift (spec_of_secret secret);
  url ← lift (check_target spec (ck_origin checked) canonical (pr_query req));
  let target := mkAuditTarget (ck_method checked) (to_display (ck_origin checked))
                  (sent_path url) in
  outcome ← transact (λ now d, begin_grant_use now grant_id None (Some (sv_id version))
                        kinds.PROXY_ATTEMPT (replay_window_seconds (limits config))
                        (Some target) d);
  _ ← lift (match outcome with
            | GrantUse.FirstUse _ => Ok tt
            | GrantUse.NotFound => Err NotFound
            | GrantUse.ExpiredOrRevoked => Err GrantExpired
            | GrantUse.Exhausted => Err GrantExhausted
            | GrantUse.Replay _ _ _ => Err (Internal "replay outcome without idempotency key")
            end);
  plaintext ← lift (open_secret_version keyset version);
  '(outbound, injected) ← lift (inject spec plaintext (ck_method checked) url
                                  (pr_headers req) (ck_body checked) wall);
  mret (mkOutbound (ck_method checked) url (insert_all outbound injected) (ck_body checked)
          (sv_id version) (sent_path url)).

Definition proxy (config : Config) (keyset : Keyset) (counts : Slots) (wall : DateTime)
    (req : ProxyRequest) : Api Outbound :=
  id ← lift (grant_id_from_path (pr_path req));
  handle_inner config keyset counts wall id req.
End Handler.

(** ** Headers on the wire *)
Section HeaderFacts.
Context `{UuidText, Primitives, HttpLib, UrlLib, SigText, WireLib}.
Notation headers := (list (string * string)).

Lemma copy_headers_perm keep from :
  headers_iter (copy_headers keep from)
  ≡ₚ List.filter (λ kv, keep kv.1) (headers_iter from).
Proof.
  unfold copy_headers.
  assert (Hgen : ∀ l out, headers_iter (fold_left (λ out kv,
      if keep kv.1 then headers_append kv.1 kv.2 out else out) l out)
    ≡ₚ headers_iter out ++ List.filter (λ kv : string * string, keep kv.1) l).
  { induction l as [|[k v] l IH]; intros out; cbn [fold_left List.filter fst snd];
      [by rewrite app_nil_r|]. rewrite IH. destruct (keep k); [|done].
    by rewrite iter_append, <-Permutation_middle. }
  by rewrite Hgen, iter_new.
Qed.

Lemma filter_filter_perm (f g : string * string → bool) (l : headers) :
  List.filter f (List.filter g l) = List.filter (λ x, g x && f x) l.
Proof.
  induction l as [|x l IH]; [done|]. cbn. destruct (g x); cbn; by rewrite IH.
Qed.

Lemma filter_all {A} (f : A → bool) l : (∀ x, f x = true) → List.filter f l = l.
Proof. intros Hf. induction l as [|x l IH]; cbn; [done|]. by rewrite Hf, IH. Qed.

Lemma filter_none {A} (f : A → bool) l : (∀ x, x ∈ l → f x = false) → List.filter f l = [].
Proof.
  induction l as [|x l IH]; [done|]. intros Hf. cbn. rewrite (Hf x) by by left.
  apply IH. intros y Hy. apply Hf. by right.
Qed.
Lemma filter_name_once (l : headers) n v :
  NoDup (map fst l) → (n, v) ∈ l → List.filter (λ kv, eqb kv.1 n) l = [(n, v)].
Proof.
  induction l as [|[k w] l IH]; cbn; [by intros _ ?%elem_of_nil|].
  intros [Hk Hnd]%NoDup_cons [[= -> ->]|Hin]%elem_of_cons.
  - rewrite eqb_refl, filter_none; [done|]. intros [k' w'] Hin. apply bool_decide_eq_false.
    cbn. intros ->. by apply Hk, (list_elem_of_fmap_2 fst _ (k, w')).
  - destruct (eqb k n) eqn:E; [|by apply IH]. kbool. subst k.
    destruct Hk. by apply (list_elem_of_fmap_2 fst _ (n, v)).
Qed.

Lemma insert_all_perm out injected :
  NoDup (map fst injected) →
  headers_iter (insert_all out injected)
  ≡ₚ injected ++ List.filter (λ kv, negb (contains (map fst injected) kv.1)) (headers_iter out).
Proof.
  revert out. induction injected as [|[n v] injected IH]; intros out; cbn [map fst].
  { intros _. cbn. by rewrite filter_all. }
  intros [Hn Hnd]%NoDup_cons.
  change (insert_all out ((n, v) :: injected))
    with (insert_all (headers_insert n v out) injected).
  rewrite IH by done.
  rewrite (List_filter_perm _ _ _ (iter_insert n v out)). cbn [List.filter fst].
  assert (Hc : contains (map fst injected) n = false) by by apply bool_decide_eq_false.
  rewrite Hc. cbn [negb]. rewrite <-Permutation_middle. cbn [app]. apply perm_skip, Permutation_app_head.
  rewrite filter_filter_perm. erewrite List.filter_ext; [done|]. intros [k w]. cbn.
  rewrite <-negb_orb. f_equal. unfold contains, eqb.
  rewrite <-bool_decide_or. apply bool_decide_ext. by rewrite elem_of_cons.
Qed.

(** The credential of the static kinds, as a header. *)
Definition credential (spec : InjectionSpec.t) (secret : string) : string * string :=
  match spec with
  | InjectionSpec.Bearer => ("authorization", "Bearer " +:+ secret)
  | InjectionSpec.Header name => (to_ascii_lowercase name, secret)
  | InjectionSpec.BasicPassword u =>
      ("authorization", "Basic " +:+ base64_encode (u +:+ ":" +:+ secret))
  | InjectionSpec.AwsSigV4 _ => ("", "")
  end.

Lemma validate_name spec name :
  validate spec = Ok name → name ∈ STRIP_LIST → name = "authorization".
Proof.
  destruct spec as [|n|u|sc]; cbn [validate].
  - by intros [= <-].
  - destruct (_ || _) eqn:E; [done|]. apply orb_false_iff in E as [E _]. kbool.
    intros Hn%ok_or_Ok%header_name_lower Hs. by subst name.
  - destruct (_ || _); [done|]. by intros [= <-].
  - intros (? & _ & (? & _ & [= <-])%bind_Ok)%bind_Ok. done.
Qed.

Lemma injection_header_Ok spec secret name value :
  injection_header spec secret = Ok (name, value) →
  validate spec = Ok name ∧ is_sigv4 spec = false ∧ (name, value) = credential spec secret.
Proof.
  unfold injection_header. intros (n & Hn & HH)%bind_Ok. destruct spec as [|h|u|sc]; cbn in HH.
  - destruct (negb _); [done|]. apply bind_Ok in HH as (v & Hv%ok_or_Ok%header_value_bytes & [= <- <-]).
    injection Hn as <-. by subst v.
  - destruct (negb _); [done|]. apply bind_Ok in HH as (v & Hv%ok_or_Ok%header_value_bytes & [= <- <-]).
    split; [done|]. split; [done|]. subst v. cbn in Hn. destruct (_ || _); [done|].
    by apply ok_or_Ok, header_name_lower in Hn as ->.
  - apply bind_Ok in HH as (v & Hv%ok_or_Ok%header_value_bytes & [= <- <-]).
    split; [done|]. split; [done|]. subst v. cbn in Hn. destruct (_ || _); [done|]. by injection Hn as <-.
  - done.
Qed.

(** The headers [inject] sets, and the caller headers it drops for them. *)
Definition injected_as (spec : InjectionSpec.t) (secret method : string) (url : Url)
    (outbound : HeaderMap) (payload : string) (wall : DateTime) (injected : headers) : Prop :=
  match spec with
  | InjectionSpec.AwsSigV4 scope => ∃ h extra, host_str url = Some h
      ∧ amz_headers outbound = Ok extra
      ∧ let authority := match url_port url with
                         | Some p => h +:+ ":" +:+ Z_to_string p | None => h end in
        let signed := sign scope secret
                        (mkSigRequest method authority (url_path url) extra payload) wall in
        injected = [("authorization", authorization signed); ("x-amz-date", amz_date signed);
                    ("x-amz-content-sha256", content_sha256 signed)]
  | _ => injected = [credential spec secret]
  end.

Lemma inject_Ok spec secret method url caller payload wall outbound injected :
  inject spec secret method url caller payload wall = Ok (outbound, injected) →
  injected_as spec secret method url outbound payload wall injected
  ∧ NoDup (map fst injected)
  ∧ (∀ n, n ∈ map fst injected → n ∈ STRIP_LIST → n = "authorization")
  ∧ ∃ dropped, outbound = build_outbound_headers caller dropped
      ∧ ∀ n, n ∈ dropped ↔ n ∈ map fst injected ∨ n ∈ owned_headers spec.
Proof.
  destruct spec as [|h|u|scope]; cbn [inject].
  1,2,3: intros ([name value] & (Hv & _ & Hc)%injection_header_Ok & [= <- <-])%bind_Ok;
    (split; [by rewrite Hc|]); (split; [apply NoDup_singleton|]);
    (split; [intros n ->%list_elem_of_singleton; by apply (validate_name _ _ Hv)|]);
    eexists; (split; [done|]); intros n; set_solver.
  unfold sigv4_headers. intros (signed & HH & [= <- <-])%bind_Ok.
  apply bind_Ok in HH as (h & Hh%ok_or_Ok & HH). apply bind_Ok in HH as (extra & Hx & HH).
  apply bind_Ok in HH as (a & Ha%ok_or_Ok%header_value_bytes & HH).
  apply bind_Ok in HH as (d & Hd%ok_or_Ok%header_value_bytes & HH).
  apply bind_Ok in HH as (c & Hc%ok_or_Ok%header_value_bytes & [= <-]).
  split; [exists h, extra; by rewrite Ha, Hd, Hc|].
  split; [apply (bool_decide_unpack _); by vm_compute|]. split.
  - intros n Hn. cbn in Hn. rewrite !elem_of_cons in Hn.
    destruct Hn as [-> | [-> | [-> | []%elem_of_nil]]]; [done|..];
      intros Hs%(bool_decide_eq_true_2 _); by vm_compute in Hs.
  - eexists. split; [done|]. intros n. split; [by right|]. intros [Hn|Hn]; [|done].
    cbn in Hn. rewrite !elem_of_cons in Hn.
    destruct Hn as [-> | [-> | [-> | []%elem_of_nil]]];
      by apply (bool_decide_unpack _); vm_compute.
Qed.

Lemma sent_headers spec secret method url caller payload wall outbound injected :
  inject spec secret method url caller payload wall = Ok (outbound, injected) →
  headers_iter (insert_all outbound injected)
  ≡ₚ injected ++ List.filter (λ kv, forwarded caller (map fst injected ++ owned_headers spec) kv.1)
                   (headers_iter caller).
Proof.
  intros (_ & Hnd & _ & dropped & -> & Hd)%inject_Ok. rewrite insert_all_perm by done.
  apply Permutation_app_head. unfold build_outbound_headers.
  rewrite (List_filter_perm _ _ _ (copy_headers_perm _ _)), filter_filter_perm.
  erewrite List.filter_ext; [done|]. intros [n v]. cbn. unfold forwarded.
  assert (Hc : contains dropped n = contains (map fst injected ++ owned_headers spec) n)
    by (apply bool_decide_ext; rewrite elem_of_app; apply Hd).
  rewrite Hc. destruct (contains (map fst injected) n) eqn:E; [|by rewrite andb_true_r].
  kbool. rewrite andb_false_r. symmetry. apply negb_false_iff, orb_true_iff. right.
  apply bool_decide_eq_true, elem_of_app. by left.
Qed.
End HeaderFacts.

(** C31: what goes upstream.  The headers sent are the injected ones and the
    caller's, minus the strip list, [x-forwarded-*], the headers named in
    [Connection] and every header the injection owns; each injected header is
    sent exactly once, and of the strip list only the injected credential is
    ever sent; the injected header is the template's, carrying the secret's
    bytes, or the signature of this very method, path, payload and the
    [x-amz-*] headers that are sent. *)
Theorem outbound_headers_clean `{UuidText, Primitives, HttpLib, UrlLib, SigText, WireLib}
    spec secret method url caller payload wall outbound injected :
  inject spec secret method url caller payload wall = Ok (outbound, injected) →
  let sent := headers_iter (insert_all outbound injected) in
  injected_as spec secret method url outbound payload wall injected
  ∧ (∀ n v, (n, v) ∈ sent ↔ (n, v) ∈ injected ∨ ((n, v) ∈ headers_iter caller
       ∧ forwarded caller (map fst injected ++ owned_headers spec) n = true))
  ∧ (∀ n v, (n, v) ∈ injected → List.filter (λ kv, eqb kv.1 n) sent ≡ₚ [(n, v)])
  ∧ (∀ n v, (n, v) ∈ sent → n ∈ STRIP_LIST → n = "authorization" ∧ (n, v) ∈ injected).
Proof.
  intros Hi sent. pose proof (sent_headers _ _ _ _ _ _ _ _ _ Hi) as Hsent. fold sent in Hsent.
  apply inject_Ok in Hi as (Has & Hnd & Hstrip & _).
  assert (Hmem : ∀ n v, (n, v) ∈ sent ↔ (n, v) ∈ injected ∨ ((n, v) ∈ headers_iter caller
       ∧ forwarded caller (map fst injected ++ owned_headers spec) n = true)).
  { intros n v. rewrite Hsent, elem_of_app.
    by rewrite (list_elem_of_In (List.filter _ _)), filter_In, <-list_elem_of_In. }
  split; [done|]. split; [done|]. split.
  - intros n v Hin. rewrite (List_filter_perm _ _ _ Hsent), List.filter_app.
    rewrite (filter_name_once _ _ _ Hnd Hin), filter_none; [done|].
    intros [n' v']. rewrite list_elem_of_In, filter_In. cbn. intros [_ Hf].
    apply bool_decide_eq_false. intros ->. unfold forwarded in Hf.
    apply negb_true_iff, orb_false_iff in Hf as [_ Hf]. kbool. apply Hf, elem_of_app. left.
    by apply (list_elem_of_fmap_2 fst _ (n, v)).
  - intros n v [Hin|[_ Hf]]%Hmem Hn.
    + split; [|done]. apply Hstrip; [|done]. by apply (list_elem_of_fmap_2 fst _ (n, v)).
    + unfold forwarded in Hf. apply negb_true_iff in Hf. rewrite !orb_false_iff in Hf.
      destruct Hf as [[[Hf _] _] _]. by kbool.
Qed.

(** ** The request that is forwarded *)
Section ForwardFacts.
Context `{UuidText, Primitives, HttpLib, UrlLib, SigText, WireLib}.

Lemma percent_decode_escape_percent s :
  contains_char "\" s = false → percent_decode (escape_percent s) = Ok s.
Proof.
  induction s as [|c s IH]; [done|]. rewrite contains_char_cons, orb_false_iff.
  intros [Hc Hs]. specialize (IH Hs). cbn [escape_percent]. destruct (eqb c "%"%char) eqn:E.
  - kbool. subst c. change ("%25" +:+ ?r) with (escape_byte "%" +:+ r).
    by rewrite percent_decode_escape, IH by done.
  - kbool. by rewrite percent_decode_plain, IH by congruence.
Qed.

(** The path sent decodes, once, to the path that was checked; nothing else of
    the approved origin changes. *)
Lemma outbound_url_spec origin p q sigv4_path url :
  outbound_url origin p q sigv4_path = Some url → canonical p →
  canonicalize (url_path url) = Ok p
  ∧ (sigv4_path = true → url_path url = wire_path p)
  ∧ ∃ base, url_parse origin = Some base ∧ host_str url = host_str base
      ∧ url_port url = url_port base.
Proof.
  unfold outbound_url. intros (base & Hb & [= <-])%bind_Some Hc.
  pose proof (can_slash _ Hc) as Hs. pose proof (proj1 (starts_with_spec _ _) Hs) as [t Ht].
  rewrite set_query_path, set_query_host, set_query_port, set_path_host, set_path_port.
  assert (Hdec : ∀ r, starts_with "/" r = true → percent_decode r = Ok p →
            canonicalize (url_path (set_path r base)) = Ok p).
  { intros r Hr Hd. apply canonicalize_Ok. split; [by apply set_path_slash|].
    split; [by apply set_path_decodes|done]. }
  split; [|split; [|by exists base]].
  - assert (Hw : wire_path p = uri_encode p true) by (by subst p).
    destruct sigv4_path; apply Hdec.
    + rewrite Hw, Ht. cbn. apply starts_with_spec. by eexists.
    + rewrite Hw. apply decode_uri_encode, Hc.
    + rewrite Ht. cbn. apply starts_with_spec. by eexists.
    + apply percent_decode_escape_percent, Hc.
  - intros ->. assert (Hw : wire_path p = uri_encode p true) by (by subst p). rewrite Hw.
    apply set_path_wire with p; [|apply uri_encode_wire|apply decode_uri_encode, Hc|done].
    rewrite Ht. cbn. apply starts_with_spec. by eexists.
Qed.

Lemma read_body_Ok max chunks buf body :
  read_body max chunks buf = Ok body → (len buf ≤ max)%Z → (len body ≤ max)%Z.
Proof.
  revert buf. induction chunks as [|[c|] chunks IH]; intros buf; cbn; [by intros [= <-]| |done].
  destruct (Z.ltb_spec max (len buf + len c)); [done|]. intros Hb _. apply (IH _ Hb).
  unfold len in *. rewrite length_append. lia.
Qed.

(** A method and a path the grant admits. *)
Definition admitted (k : Constraints) (method canonical_path : string) : Prop :=
  method ≠ "TRACE"
  ∧ (methods k = [] ∨ ∃ m, m ∈ methods k ∧ eq_ignore_ascii_case m method = true)
  ∧ canonical canonical_path
  ∧ (path_prefixes k = [] ∨ ∃ p, p ∈ path_prefixes k ∧ prefix_matches p canonical_path = true).

Lemma any_or_empty {A} (f : A → bool) l :
  negb (is_empty l) && negb (existsb f l) = false → l = [] ∨ ∃ x, x ∈ l ∧ f x = true.
Proof.
  destruct l as [|x l]; [by left|]. cbn [is_empty negb andb]. intros E%negb_false_iff. right.
  by apply existsb_elem.
Qed.

Lemma check_request_Ok config g req c p :
  (0 ≤ proxy_max_body_bytes (limits config))%Z →
  check_request config g req = Ok (c, p) →
  ∃ k, Constraints_of_value url_host_str (g_constraints g) = Some k
    ∧ origins k = [ck_origin c] ∧ ck_method c = to_ascii_uppercase (pr_method req)
    ∧ admitted k (ck_method c) p ∧ (len (ck_body c) ≤ proxy_max_body_bytes (limits config))%Z.
Proof.
  intros Hmax. unfold check_request. intros (k & Hk%ok_or_Ok & HH)%bind_Ok. exists k. split; [done|].
  apply bind_Ok in HH as ([] & Hm & HH). apply bind_Ok in HH as (p' & Hp & HH).
  apply bind_Ok in HH as (o & Ho & HH). apply bind_Ok in HH as (b & Hb & [= <- <-]). cbn.
  destruct (origins k) as [|o' [|]]; [done| |done]. injection Ho as ->.
  split; [done|]. split; [done|]. split; [|by apply (read_body_Ok _ _ _ _ Hb)].
  unfold method_allowed in Hm. destruct (eqb _ "TRACE") eqn:Et; [done|].
  destruct (_ && _) eqn:Em; [done|]. apply any_or_empty in Em. kbool.
  unfold path_allowed in Hp. apply bind_Ok in Hp as (rest & _ & Hp).
  apply bind_Ok in Hp as (cp & Hcp%map_err_Ok & Hp). destruct (_ && _) eqn:Ep; [done|].
  apply any_or_empty in Ep. injection Hp as <-. apply canonicalize_Ok in Hcp as (_ & _ & Hcp).
  by split_and!.
Qed.

Lemma check_target_Ok spec o p q url :
  canonical p → check_target spec o p q = Ok url →
  (∃ name, validate spec = Ok name) ∧ (is_sigv4 spec = true → q = None)
  ∧ outbound_url (to_display o) p q (is_sigv4 spec) = Some url.
Proof.
  intros Hp. unfold check_target. intros (name & Hn & HH)%bind_Ok.
  destruct (is_sigv4 spec && is_some q) eqn:E; [done|]. apply ok_or_Ok in HH.
  split; [by exists name|]. split; [|done]. intros Hs. rewrite Hs in E. by destruct q.
Qed.
End ForwardFacts.


(** ** Witnesses *)
Module ProxyExample.
Import ApiExample.
Definition limited : Value :=
  Constraints_to_value
    (mkConstraints [mkOrigin "api.example.com" None] ["GET"] ["/v1"] 3600 (Some 2%Z)).
Definition start : World := world_after "brokered" limited.
Definition caller : @HeaderMap HttpExample.http :=
  [("authorization", "Bearer token"); ("accept", "*/*"); ("x-trace", "1"); ("cookie", "a=b");
   ("connection", "x-trace")].
Definition request : ProxyRequest :=
  mkProxyRequest "get" "/v1/grants/20/proxy/v1/me%20too" (Some "page=2") caller [Ok "bo"; Ok "dy"].
Definition run : result ApiFailure Outbound * St :=
  proxy cfg keyset ∅ (seconds 31) request alone (0, start).
Definition target : @Url HttpExample.url :=
  HttpExample.mkUrl "api.example.com" None "/v1/me too" (Some "page=2").
Definition after : St := Eval vm_compute in run.2.
Definition out : Outbound :=
  mkOutbound "GET" target [("authorization", "Bearer hunter2"); ("accept", "*/*")] "body" 101
    "/v1/me too?page=2".
End ProxyExample.

Import ApiExample ProxyExample.

Lemma outbound_headers_clean_witness :
  ∃ outbound, inject InjectionSpec.Bearer "hunter2" "GET" target caller "body" 0
      = Ok (outbound, [("authorization", "Bearer hunter2")])
    ∧ ∀ v, ("cookie", v) ∉ headers_iter (insert_all outbound [("authorization", "Bearer hunter2")]).
Proof.
  exists [("accept", "*/*")]. split; [vm_compute; reflexivity|]. intros v Hv.
  destruct (outbound_headers_clean InjectionSpec.Bearer "hunter2" "GET" target caller "body" 0
    [("accept", "*/*")] [("authorization", "Bearer hunter2")] ltac:(vm_compute; reflexivity))
    as (_ & _ & _ & Hstrip).
  destruct (Hstrip "cookie" v Hv) as [E _]; [|discriminate].
  do 3 right. left.
Defined.

