(* ===== verification/ProxyStream.v ===== *)
(** [server/src/proxy.rs], the second half of the brokered leg: the request is
    sent, the response relayed, and one deadline runs over all of it until the
    upstream has answered. *)

From S2P Require Import Prelude RustStr Types Paths Json Crypto Examples SigV4 Http Injection Store.
From S2P Require Import Requests Grants ApiExt Secrets UiExt Policies Clients Provision Notify.
From S2P Require Import Lifecycle Refinement Safety StoreProps Reconcile Slots Api ApiGrants Proxy.
Open Scope string_scope.

(** ** The deadline race

    A future under [select!] is a state and what a poll at an instant does to
    it: it is ready with an answer or pending, and it may have fired the
    [committed] signal on the way. *)
Section Deadline.
Context {S R : Type}.

Inductive Poll :=
| Ready (r : R) (fired : bool)
| Pending (s : S) (fired : bool).
Context (poll : Z → S → Poll).
Context (timeout : R).

(** [inner.await], woken at the given instants; [None]: still pending. *)
Fixpoint await (wakes : list Z) (s : S) : option R :=
  match wakes with
  | [] => None
  | t :: wakes => match poll t s with Ready r _ => Some r | Pending s _ => await wakes s end
  end.

(** The biased [select!]: the inner future first; then the signal, after which
    the inner future is awaited (and polled again at once); then the clock. *)
Fixpoint run_before_deadline (deadline : Z) (wakes : list Z) (s : S) : option R :=
  match wakes with
  | [] => None
  | t :: wakes' =>
      match poll t s with
      | Ready r _ => Some r
      | Pending s true => await wakes s
      | Pending s false =>
          if (deadline <=? t)%Z then Some timeout else run_before_deadline deadline wakes' s
      end
  end.

(** The state after wakes at which the future stayed pending and silent. *)
Fixpoint uncommitted (wakes : list Z) (s : S) : option S :=
  match wakes with
  | [] => Some s
  | t :: wakes => match poll t s with Pending s false => uncommitted wakes s | _ => None end
  end.

Lemma race_prefix deadline ts wakes s s' :
  (∀ t, t ∈ ts → (t < deadline)%Z) → uncommitted ts s = Some s' →
  run_before_deadline deadline (ts ++ wakes) s = run_before_deadline deadline wakes s'.
Proof.
  revert s. induction ts as [|t ts IH]; intros s Hlt; cbn; [by intros [= ->]|].
  destruct (poll t s) as [|s1 [|]]; try done. intros Hu.
  destruct (Z.leb_spec deadline t) as [Hle|_].
  - specialize (Hlt t ltac:(by left)). lia.
  - apply IH; [|done]. intros u Hin. apply Hlt. by right.
Qed.
End Deadline.
Arguments Poll : clear implicits.

(** A committed answer outlives the deadline.  Whatever the future and
    however late the task is woken: the race answers with a timeout only at a
    wake past the deadline up to which the future was pending and had not
    signalled; from the wake at which it signals, the answer is the future's own,
    however far past the deadline; otherwise it answers as soon as the future
    does; and a wake past the deadline ends it or finds it committed. *)
Theorem commit_outlives_deadline {S R} (poll : Z → S → Poll S R) (timeout : R) deadline
    ts t wakes s s' :
  uncommitted poll ts s = Some s' → (∀ u, u ∈ ts → (u < deadline)%Z) →
  let answer := run_before_deadline poll timeout deadline (ts ++ t :: wakes) s in
  match poll t s' with
  | Ready r _ => answer = Some r
  | Pending s'' true => answer = await poll (t :: wakes) s''
  | Pending s'' false =>
      if (deadline <=? t)%Z then answer = Some timeout
      else answer = run_before_deadline poll timeout deadline wakes s''
           ∧ uncommitted poll (ts ++ [t]) s = Some s''
  end.
Proof.
  intros Hu Hlt answer. unfold answer. rewrite (race_prefix _ _ _ _ _ _ _ Hlt Hu). cbn.
  destruct (poll t s') as [r f|s'' [|]] eqn:E; [done|done|].
  destruct (_ <=? _)%Z; [done|]. split; [done|].
  clear answer Hlt wakes. revert s Hu. induction ts as [|u ts IH]; intros s; cbn.
  - intros [= ->]. by rewrite E.
  - destruct (poll u s) as [|s1 [|]]; try done. apply IH.
Qed.

(** ** Sending, and relaying the response *)
Section Forward.
Context `{UuidText, Primitives, HttpLib, UrlLib, SigText, WireLib}.

(** What the HTTP client answers: its error, or the response's head with the
    chunks its body will yield. *)
Inductive SendError := SendTimedOut | SendFailed.
Record UpstreamResponse := mkUpstreamResponse {
  up_status : Z;
  up_headers : HeaderMap;
  up_body : list (result unit string)
}.

Inductive StreamError := StreamFailed | StreamTooLarge.
Record Response := mkResponse {
  rs_status : Z;
  rs_headers : HeaderMap;
  rs_body : list (result StreamError string)
}.

(** [bytes_stream().map(…)]: the running total is a [usize], which saturates. *)
Definition usize_MAX : Z := u64_MAX.
Fixpoint relay_body (max_body total : Z) (chunks : list (result unit string))
  : list (result StreamError string) :=
  match chunks with
  | [] => []
  | Err _ :: chunks => Err StreamFailed :: relay_body max_body total chunks
  | Ok bytes :: chunks =>
      let total := Z.min usize_MAX (total + len bytes) in
      if (max_body <? total)%Z then Err StreamTooLarge :: relay_body max_body total chunks
      else Ok bytes :: relay_body max_body total chunks
  end.

Definition relayed_headers (upstream : HeaderMap) : HeaderMap :=
  headers_insert "cache-control" "no-store" (build_response_headers upstream).

Definition completed_event (g : GrantRow) (o : Origin) (out : Outbound) (status : Z) : AuditEvent :=
  mkAuditEvent kinds.PROXY_COMPLETED (Some (g_request_id g)) (Some (g_id g))
    (Some (g_client_name g)) (Some (g_secret_name g)) (Some (out_version_id out)) None
    (Some (out_method out)) (Some (to_display o)) (Some (out_audited_path out)) (Some status) None.

(** [Method::from_bytes], and one exchange under the time that remains. *)
Context (method_from_bytes : string → option string).
Context (send : string → Outbound → Z → result SendError UpstreamResponse).

Definition outbound_method (normalized : string) : result ApiFailure string :=
  ok_or (method_from_bytes normalized) (InvalidRequest "invalid HTTP method").

(** The response, and the event of the detached completion audit. *)
Definition forward (max_body remaining : Z) (g : GrantRow) (o : Origin) (out : Outbound)
  : result ApiFailure (Response * AuditEvent) :=
  m ← outbound_method (out_method out);
  upstream ← map_err (λ e, match e with
                           | SendTimedOut => UpstreamTimeout
                           | SendFailed => UpstreamUnreachable
                           end) (send m out remaining);
  Ok (mkResponse (up_status upstream) (relayed_headers (up_headers upstream))
        (relay_body max_body 0 (up_body upstream)),
      completed_event g o out (up_status upstream)).

(** The future of the exchange: its outcome is there from an instant on, and the
    poll that finds a response signals [committed] and returns. *)
Definition Exchange : Type := Z * result ApiFailure (Response * AuditEvent).
Definition poll_exchange (t : Z) (x : Exchange)
  : Poll Exchange (result ApiFailure (Response * AuditEvent)) :=
  if (x.1 <=? t)%Z then Ready x.2 (is_some (ok x.2)) else Pending x false.

(** [handle], for a request that reached [forward] at the instant [started]. *)
Definition handle (limit_seconds received started arrival : Z) (wakes : list Z)
    (max_body : Z) (g : GrantRow) (o : Origin) (out : Outbound)
  : option (result ApiFailure (Response * AuditEvent)) :=
  let deadline := (received + seconds limit_seconds)%Z in
  let remaining := Z.max 0 (deadline - started) in
  run_before_deadline poll_exchange (Err UpstreamTimeout) deadline wakes
    (arrival, forward max_body remaining g o out).

End Forward.

(** ** The body *)
Section RelayFacts.
Context `{UuidText, Primitives, HttpLib, UrlLib, SigText, WireLib}.
(** What reaches the caller: the chunks up to the first error, which ends the
    connection. *)
Fixpoint delivered {E} (chunks : list (result E string)) : string :=
  match chunks with Ok b :: chunks => b +:+ delivered chunks | _ => "" end.
Definition complete {E} (chunks : list (result E string)) : bool := forallb (λ c, is_some (ok c)) chunks.

Lemma relay_spec max_body total chunks :
  (0 ≤ total ≤ max_body)%Z → (max_body < usize_MAX)%Z →
  (∃ rest, delivered chunks = delivered (relay_body max_body total chunks) +:+ rest)
  ∧ (total + len (delivered (relay_body max_body total chunks)) ≤ max_body)%Z
  ∧ (complete (relay_body max_body total chunks) = true ↔
       complete chunks = true ∧ (total + len (delivered chunks) ≤ max_body)%Z)
  ∧ (complete (relay_body max_body total chunks) = true →
       delivered (relay_body max_body total chunks) = delivered chunks).
Proof.
  intros Ht Hm. revert total Ht. induction chunks as [|[b|e] chunks IH]; intros total Ht.
  - cbn. unfold len. cbn. split_and!; [by exists ""|lia| |done]. split; [intros _; split; [done|lia]|done].
  - cbn [relay_body delivered complete forallb]. pose proof (len_nonneg b) as Hb.
    assert (Hmin : (max_body <? Z.min usize_MAX (total + len b) = (max_body <? total + len b))%Z).
    { destruct (Z.ltb_spec max_body (total + len b)), (Z.ltb_spec max_body (Z.min usize_MAX (total + len b))); lia. }
    rewrite Hmin. destruct (Z.ltb_spec max_body (total + len b)) as [Hlt|Hle].
    + cbn [delivered complete forallb ok is_some andb]. split_and!.
      * by eexists.
      * unfold len. cbn. lia.
      * split; [done|]. intros [_ Hs]. rewrite len_append in Hs. pose proof (len_nonneg (delivered chunks)). lia.
      * done.
    + rewrite Z.min_r by lia. destruct (IH (total + len b)%Z) as ((rest & Hr) & Hlen & Hc & Hd); [lia|].
      cbn [delivered complete forallb ok is_some andb]. split_and!.
      * exists rest. by rewrite Hr, string_app_assoc at 1.
      * rewrite len_append. lia.
      * unfold complete in Hc. rewrite Hc, len_append. split; intros [? ?]; (split; [done|lia]).
      * intros E. f_equal. by apply Hd.
  - cbn. unfold len. cbn. split_and!; [by eexists|lia| |done]. split; [done|by intros [? _]].
Qed.

(** ** The headers *)
Lemma relayed_headers_elem up n v :
  (n, v) ∈ headers_iter (relayed_headers up) ↔
  (n, v) = ("cache-control", "no-store")
  ∨ (n ≠ "cache-control" ∧ (n, v) ∈ headers_iter up ∧ returned up n = true).
Proof.
  unfold relayed_headers, build_response_headers.
  rewrite iter_insert, elem_of_cons, (List_filter_perm _ _ _ (copy_headers_perm _ _)).
  rewrite filter_filter_perm, list_elem_of_In, filter_In, <-list_elem_of_In. cbn [fst].
  rewrite andb_true_iff, negb_true_iff. unfold eqb. rewrite bool_decide_eq_false. naive_solver.
Qed.
Lemma relayed_cache_control up :
  List.filter (λ kv, eqb kv.1 "cache-control") (headers_iter (relayed_headers up))
  ≡ₚ [("cache-control", "no-store")].
Proof.
  unfold relayed_headers. rewrite (List_filter_perm _ _ _ (iter_insert _ _ _)).
  cbn [List.filter fst]. rewrite eqb_refl, filter_filter_perm, filter_none; [done|].
  intros [k w] _. cbn. by destruct (eqb k "cache-control").
Qed.
Lemma marker_not_relayed up v : (KEYCHUTE_ERROR_HEADER, v) ∉ headers_iter (relayed_headers up).
Proof. rewrite relayed_headers_elem. intros [[=]|(_ & _ & Hr)]. by vm_compute in Hr. Qed.

(** ** The exchange under the deadline *)
Context (method_from_bytes : string → option string).
Context (send : string → Outbound → Z → result SendError UpstreamResponse).

Lemma exchange_race timeout deadline wakes (x : Exchange) r :
  run_before_deadline poll_exchange timeout deadline wakes x = Some r →
  (r = x.2 ∧ ∃ t, t ∈ wakes ∧ (x.1 ≤ t)%Z)
  ∨ (r = timeout ∧ ∃ t, t ∈ wakes ∧ (deadline ≤ t < x.1)%Z).
Proof.
  induction wakes as [|t wakes IH]; [done|]. cbn [run_before_deadline]. unfold poll_exchange at 1.
  destruct (Z.leb_spec x.1 t) as [Hle|Hlt].
  - intros [= <-]. left. split; [done|]. exists t. split; [by left|done].
  - destruct (Z.leb_spec deadline t) as [Hd|_].
    + intros [= <-]. right. split; [done|]. exists t. split; [by left|lia].
    + intros [[-> (u & Hin & Hu)]|[-> (u & Hin & Hu)]]%IH; [left|right];
        (split; [done|]); exists u; (split; [by right|done]).
Qed.
Lemma exchange_in_time timeout deadline wakes (x : Exchange) :
  (∃ t, t ∈ wakes ∧ (x.1 ≤ t)%Z) → (∀ t, t ∈ wakes → (deadline ≤ t)%Z → (x.1 ≤ t)%Z) →
  run_before_deadline poll_exchange timeout deadline wakes x = Some x.2.
Proof.
  induction wakes as [|t wakes IH]; [by intros (t & []%elem_of_nil & _)|].
  intros (u & Hin & Hu) Hd. cbn [run_before_deadline]. unfold poll_exchange at 1.
  destruct (Z.leb_spec x.1 t) as [Hle|Hlt]; [done|].
  destruct (Z.leb_spec deadline t) as [Hle|_]; [specialize (Hd t ltac:(by left) Hle); lia|].
  apply IH; [|intros v Hv; apply Hd; by right]. exists u. split; [|done].
  apply elem_of_cons in Hin as [->|]; [lia|done].
Qed.

Lemma forward_cases max_body remaining g o out :
  match forward method_from_bytes send max_body remaining g o out with
  | Ok (resp, ev) => ∃ m upstream, method_from_bytes (out_method out) = Some m
      ∧ send m out remaining = Ok upstream ∧ rs_status resp = up_status upstream
      ∧ rs_headers resp = relayed_headers (up_headers upstream)
      ∧ rs_body resp = relay_body max_body 0 (up_body upstream)
      ∧ ev = completed_event g o out (up_status upstream)
  | Err e =>
      (method_from_bytes (out_method out) = None ∧ e = InvalidRequest "invalid HTTP method")
      ∨ ∃ m, method_from_bytes (out_method out) = Some m
          ∧ ((send m out remaining = Err SendTimedOut ∧ e = UpstreamTimeout)
             ∨ (send m out remaining = Err SendFailed ∧ e = UpstreamUnreachable))
  end.
Proof.
  unfold forward, outbound_method. destruct (method_from_bytes (out_method out)) as [m|]; cbn;
    [|by left].
  destruct (send m out remaining) as [up|[|]] eqn:E; cbn.
  - by exists m, up.
  - right. exists m. split; [done|]. by left.
  - right. exists m. split; [done|]. by right.
Qed.
End RelayFacts.

(** C33: what comes back.  A response of the upstream that is there at the first
    wake past the deadline, or before, is the caller's, and only one that is not
    becomes a timeout.  It is relayed with the upstream's status, its headers
    except those that are the hop's or a forged error marker, with exactly one
    cache policy, [no-store], and with a body that is a prefix of the upstream's
    within the limit, whole exactly when the upstream's is whole and fits; its
    completion is audited with the same status.  An error of the exchange
    commits nothing and is the upstream's silence, its failure, or a method that
    is not one. *)
Theorem response_relayed `{UuidText, Primitives, HttpLib, UrlLib, SigText, WireLib}
    method_from_bytes send limit_seconds received started arrival wakes max_body g o out :
  (0 ≤ max_body < usize_MAX)%Z →
  let deadline := (received + seconds limit_seconds)%Z in
  let remaining := Z.max 0 (deadline - started) in
  let answer := handle method_from_bytes send limit_seconds received started arrival wakes
                  max_body g o out in
  ((∃ t, t ∈ wakes ∧ (arrival ≤ t)%Z) → (∀ t, t ∈ wakes → (deadline ≤ t)%Z → (arrival ≤ t)%Z) →
     answer = Some (forward method_from_bytes send max_body remaining g o out))
  ∧ (∀ resp ev, answer = Some (Ok (resp, ev)) →
       ∃ m upstream, method_from_bytes (out_method out) = Some m
         ∧ send m out remaining = Ok upstream ∧ rs_status resp = up_status upstream
         ∧ (∀ n v, (n, v) ∈ headers_iter (rs_headers resp) ↔
              (n, v) = ("cache-control", "no-store")
              ∨ (n ≠ "cache-control" ∧ (n, v) ∈ headers_iter (up_headers upstream)
                 ∧ returned (up_headers upstream) n = true))
         ∧ List.filter (λ kv, eqb kv.1 "cache-control") (headers_iter (rs_headers resp))
           ≡ₚ [("cache-control", "no-store")]
         ∧ (∀ v, (KEYCHUTE_ERROR_HEADER, v) ∉ headers_iter (rs_headers resp))
         ∧ (∃ rest, delivered (up_body upstream) = delivered (rs_body resp) +:+ rest)
         ∧ (len (delivered (rs_body resp)) ≤ max_body)%Z
         ∧ (complete (rs_body resp) = true ↔
              complete (up_body upstream) = true ∧ (len (delivered (up_body upstream)) ≤ max_body)%Z)
         ∧ (complete (rs_body resp) = true → delivered (rs_body resp) = delivered (up_body upstream))
         ∧ ev = completed_event g o out (rs_status resp))
  ∧ (∀ e, answer = Some (Err e) →
       (e = UpstreamTimeout ∧ ∃ t, t ∈ wakes ∧ (deadline ≤ t < arrival)%Z)
       ∨ (method_from_bytes (out_method out) = None ∧ e = InvalidRequest "invalid HTTP method")
       ∨ ∃ m, method_from_bytes (out_method out) = Some m
           ∧ ((send m out remaining = Err SendTimedOut ∧ e = UpstreamTimeout)
              ∨ (send m out remaining = Err SendFailed ∧ e = UpstreamUnreachable))).
Proof.
  intros Hmax deadline remaining answer. unfold answer, handle. fold deadline remaining.
  pose proof (forward_cases method_from_bytes send max_body remaining g o out) as Hf.
  split; [intros Ha Hd; exact (exchange_in_time _ _ _ (arrival, _) Ha Hd)|]. split.
  - intros resp ev [[E _]|[E _]]%exchange_race; [|done]. cbn in E. rewrite <-E in Hf.
    destruct Hf as (m & up & Hm & Hs & Hst & Hh & Hb & ->). exists m, up.
    destruct (relay_spec max_body 0 (up_body up)) as (Hpre & Hlen & Hc & Hd); [lia|lia|].
    rewrite Hst, Hh, Hb. rewrite !Z.add_0_l in *. split_and!; try done.
    + exact (relayed_headers_elem (up_headers up)).
    + exact (relayed_cache_control (up_headers up)).
    + exact (marker_not_relayed (up_headers up)).
  - intros e [[E _]|[E Ht]]%exchange_race; [|left; by injection E as ->].
    cbn in E. rewrite <-E in Hf. by right.
Qed.

(** ** A response *)
Module StreamExample.
Import ApiExample ProxyExample.
Definition upstream : UpstreamResponse :=
  mkUpstreamResponse 200
    ([("content-type", "text/plain"); ("cache-control", "public");
      ("x-keychute-error", "policy-denied")] : @HeaderMap HttpExample.http)
    [Ok "hel"; Ok "lo"].
Definition send (m : string) (o : Outbound) (remaining : Z) : result SendError UpstreamResponse :=
  if (remaining =? 0)%Z then Err SendTimedOut else Ok upstream.
Definition grant : GrantRow :=
  mkGrantRow 20 10 "agent" "example-api-token" "brokered" limited 3600000 (Some 2%Z) 1 false
    None None None false 30000.
Definition origin : Origin := mkOrigin "api.example.com" None.
(** The upstream answers a millisecond after the deadline; the task is next
    woken by that answer. *)
Definition late := handle Some send 300 1000 2000 301001 [150000; 301001]%Z 1024 grant origin out.
Definition answered : option (Response * AuditEvent) :=
  Eval vm_compute in match late with Some r => ok r | None => None end.
Definition response : Response :=
  Eval vm_compute in match answered with Some r => r.1 | None => mkResponse 0 [] [] end.
Definition event : AuditEvent :=
  Eval vm_compute in match answered with Some r => r.2 | None => audit_default "" end.
End StreamExample.
Import ApiExample ProxyExample StreamExample.

Lemma response_relayed_witness :
  late = Some (Ok (response, event)) ∧ rs_status response = 200%Z
  ∧ ∀ v, (KEYCHUTE_ERROR_HEADER, v) ∉ headers_iter (rs_headers response).
Proof.
  assert (Hmax : (0 ≤ 1024 < usize_MAX)%Z) by (unfold usize_MAX, u64_MAX; lia).
  pose proof (response_relayed Some send 300 1000 2000 301001 [150000; 301001]%Z 1024 grant origin
    out Hmax) as (_ & Hok & _).
  assert (E : late = Some (Ok (response, event))) by (vm_compute; reflexivity).
  split; [exact E|]. split; [reflexivity|].
  destruct (Hok response event E) as (m & up & _ & _ & _ & _ & _ & Hmark & _).
  exact Hmark.
Defined.
