(* ===== verification/Csrf.v ===== *)
(** [server/src/ui/csrf.rs]: the form token of the operator's pages and the
    check of the browser's request metadata. *)

From S2P Require Import Prelude RustStr Crypto Examples SigV4 Http.
Open Scope string_scope.

Definition CSRF_TTL_SECONDS : Z := 15 * 60.

(** [DateTime::timestamp] *)
Definition timestamp (now : DateTime) : Z := (now / second)%Z.

(** [i64::to_be_bytes], [i64::from_be_bytes]. *)
Fixpoint be_bytes (n : nat) (z : Z) : string :=
  match n with
  | O => ""
  | S n => String (ascii_of_N (Z.to_N (z / 256 ^ Z.of_nat n mod 256))) (be_bytes n z)
  end%Z.
Fixpoint of_be_bytes (s : string) : Z :=
  match s with
  | "" => 0
  | String c s => Z.of_N (byte_of c) * 256 ^ len s + of_be_bytes s
  end%Z.
Definition i64_from_be (s : string) : Z :=
  let u := of_be_bytes s in if (u <? 2 ^ 63)%Z then u else (u - 2 ^ 64)%Z.
Definition is_i64 (z : Z) : Prop := (- 2 ^ 63 ≤ z < 2 ^ 63)%Z.

(** The [base64] crate's URL-safe engine, and the length of an HMAC-SHA256 tag. *)
Class FormLib `{Primitives} := {
  b64_encode : string → string;
  b64_decode : string → option string;
  b64_decode_encode : ∀ s, b64_decode (b64_encode s) = Some s;
  hmac_len : ∀ k m, len (hmac_sha256 k m) = 32%Z
}.

(** What the [url] crate says of an origin, beyond its host. *)
Class OriginLib `{UrlLib} := {
  url_scheme : Url → string;
  url_username : Url → string;
  url_password : Url → option string;
  port_or_known_default : Url → option Z
}.

(** ** The form token *)

(** What a token is bound to. *)
Record Binding := mkBinding {
  b_route : string;
  b_action_id : string;
  b_subject : string;
  b_form_state : string
}.

Definition mac_input (b : Binding) (expiry_unix : Z) : string :=
  b_route b +:+ String NUL (b_action_id b +:+ String NUL (b_subject b +:+ String NUL
    (b_form_state b +:+ String NUL (Z_to_string expiry_unix)))).

Section Token.
Context `{FormLib}.

Definition issue_token (ks : Keyset) (b : Binding) (now : DateTime) : string :=
  let expiry := (timestamp now + CSRF_TTL_SECONDS)%Z in
  b64_encode (be_bytes 8 expiry +:+ csrf_mac ks (mac_input b expiry)).

Definition verify_token (ks : Keyset) (b : Binding) (token : string) (now : DateTime) : bool :=
  match b64_decode token with
  | None => false
  | Some raw =>
      if negb (len raw =? 8 + 32)%Z then false
      else
        let '(head, tail) := split_at 8 raw in
        let expiry := i64_from_be head in
        let ts := timestamp now in
        if (expiry <=? ts)%Z || (CSRF_TTL_SECONDS <? expiry - ts)%Z then false
        else ct_eq tail (csrf_mac ks (mac_input b expiry))
  end.
End Token.

(** ** Browser metadata *)
Section Metadata.
Context `{HttpLib, UrlLib, !OriginLib}.

Definition parse_origin (s : string) : option (string * string * Z) :=
  url ← url_parse (trim s);
  if negb (contains ["http"; "https"] (url_scheme url)) then None
  else if negb (eqb (url_username url) "") || is_some (url_password url) then None
  else
    host ← host_str url;
    port ← port_or_known_default url;
    Some (url_scheme url, to_ascii_lowercase host, port).

Definition browser_metadata_ok (external_url : string) (tls : bool) (headers : HeaderMap) : bool :=
  match headers_get "origin" headers with
  | Some origin =>
      match to_str origin ≫= parse_origin with
      | None => false
      | Some got =>
          eqb (parse_origin external_url) (Some got)
          || match headers_get "host" headers ≫= to_str with
             | Some host =>
                 let scheme := if tls then "https" else "http" in
                 eqb (parse_origin (scheme +:+ "://" +:+ host)) (Some got)
             | None => false
             end
      end
  | None =>
      match to_str <$> headers_get "sec-fetch-site" headers with
      | None => true
      | Some (Some site) => contains ["same-origin"; "none"] (to_ascii_lowercase site)
      | Some None => false
      end
  end.
End Metadata.

(** ** Lemmas *)
Lemma byte_of_range c : (0 ≤ Z.of_N (byte_of c) < 256)%Z.
Proof. pose proof (N_ascii_bounded c). unfold byte_of. lia. Qed.

Lemma of_be_bytes_range s : (0 ≤ of_be_bytes s < 256 ^ len s)%Z.
Proof.
  induction s as [|c s IH]; cbn [of_be_bytes]; [by cbn|].
  assert (E : (256 ^ len (String c s) = 256 * 256 ^ len s)%Z).
  { unfold len. cbn [String.length]. rewrite Nat2Z.inj_succ, Z.pow_succ_r by lia. done. }
  rewrite E. pose proof (byte_of_range c). nia.
Qed.

Lemma be_bytes_of h s :
  be_bytes (String.length s) (h * 256 ^ len s + of_be_bytes s) = s.
Proof.
  revert h. induction s as [|c s IH]; intros h; [done|]. cbn [String.length be_bytes of_be_bytes].
  assert (E : (256 ^ len (String c s) = 256 * 256 ^ len s)%Z).
  { unfold len. cbn [String.length]. rewrite Nat2Z.inj_succ, Z.pow_succ_r by lia. done. }
  rewrite E. change (256 ^ Z.of_nat (String.length s))%Z with (256 ^ len s)%Z.
  pose proof (of_be_bytes_range s) as Hr. pose proof (byte_of_range c) as Hc.
  replace (h * (256 * 256 ^ len s) + (Z.of_N (byte_of c) * 256 ^ len s + of_be_bytes s))%Z
    with ((h * 256 + Z.of_N (byte_of c)) * 256 ^ len s + of_be_bytes s)%Z by ring.
  rewrite IH. f_equal. rewrite Z.div_add_l, Z.div_small by lia.
  rewrite Z.add_0_r, (Z.add_comm (h * 256)), Z.mod_add, Z.mod_small, N2Z.id by lia.
  apply ascii_N_embedding.
Qed.

Lemma be_bytes_length n z : String.length (be_bytes n z) = n.
Proof. induction n as [|n IH]; cbn; [done|]. by rewrite IH. Qed.

Lemma of_be_bytes_be n z : of_be_bytes (be_bytes n z) = (z mod 256 ^ Z.of_nat n)%Z.
Proof.
  induction n as [|n IH]; cbn [be_bytes of_be_bytes]; [by rewrite Z.mod_1_r|].
  rewrite IH. unfold len, byte_of. rewrite be_bytes_length.
  pose proof (Z.mod_pos_bound (z / 256 ^ Z.of_nat n) 256 eq_refl) as Hb.
  rewrite N_ascii_embedding by lia. rewrite Z2N.id by lia.
  rewrite Nat2Z.inj_succ, Z.pow_succ_r by lia. rewrite (Z.mul_comm 256).
  rewrite Z.rem_mul_r by lia. lia.
Qed.

Lemma i64_be_roundtrip z : is_i64 z → i64_from_be (be_bytes 8 z) = z.
Proof.
  unfold is_i64, i64_from_be. intros Hz. rewrite of_be_bytes_be.
  change (256 ^ Z.of_nat 8)%Z with (2 ^ 64)%Z.
  destruct (Z.ltb_spec z 0).
  - replace (z mod 2 ^ 64)%Z with (z + 2 ^ 64)%Z
      by (apply (Z.mod_unique_pos _ _ (-1)); lia).
    destruct (Z.ltb_spec (z + 2 ^ 64) (2 ^ 63)); lia.
  - rewrite Z.mod_small by lia. destruct (Z.ltb_spec z (2 ^ 63)); lia.
Qed.

Lemma be_i64_roundtrip s : String.length s = 8%nat → be_bytes 8 (i64_from_be s) = s ∧ is_i64 (i64_from_be s).
Proof.
  intros Hl. unfold i64_from_be, is_i64. pose proof (of_be_bytes_range s) as Hr.
  unfold len in Hr. rewrite Hl in Hr. change (256 ^ Z.of_nat 8)%Z with (2 ^ 64)%Z in Hr.
  assert (E : ∀ h, be_bytes 8 (h * 2 ^ 64 + of_be_bytes s) = s).
  { intros h. pose proof (be_bytes_of h s) as E. unfold len in E. by rewrite Hl in E. }
  destruct (Z.ltb_spec (of_be_bytes s) (2 ^ 63)); (split; [|lia]).
  - by rewrite <-(E 0%Z) at 2.
  - rewrite <-(E (-1)%Z) at 2. f_equal. lia.
Qed.

Lemma split_at_eq n s : (n ≤ String.length s)%nat →
  (split_at n s).1 +:+ (split_at n s).2 = s ∧ String.length (split_at n s).1 = n.
Proof.
  revert s. induction n as [|n IH]; intros s Hn; [by destruct s|].
  destruct s as [|c s]; cbn in *; [lia|]. destruct (IH s) as [E1 E2]; [lia|].
  destruct (split_at n s) as [a b]. cbn in *. by rewrite E1, E2.
Qed.

Lemma split_be z s : split_at 8 (be_bytes 8 z +:+ s) = (be_bytes 8 z, s).
Proof. rewrite <-(be_bytes_length 8 z) at 1. apply split_at_app. Qed.

Lemma Z_to_string_no_nul z : contains_char NUL (Z_to_string z) = false.
Proof.
  unfold Z_to_string. destruct (z <? 0)%Z.
  - rewrite contains_char_cons, orb_false_iff. split; [done|].
    apply (contains_char_excluded is_ascii_digit); [done|]. apply N_to_string_digits.
  - apply (contains_char_excluded is_ascii_digit); [done|]. apply N_to_string_digits.
Qed.

(** The last separator is the one before a part without separators. *)
Lemma app_sep_inj_r c s t x y :
  contains_char c x = false → contains_char c y = false →
  s +:+ String c x = t +:+ String c y → s = t ∧ x = y.
Proof.
  intros Hx Hy E. pose proof (rsplit_once_app c s x Hx) as E1.
  rewrite E, (rsplit_once_app c t y Hy) in E1. by injection E1 as -> ->.
Qed.

(** The fields of a MAC input cannot be shifted into one another. *)
Definition binding_plain (b : Binding) : Prop :=
  contains_char NUL (b_route b) = false ∧ contains_char NUL (b_action_id b) = false
  ∧ contains_char NUL (b_subject b) = false.

Lemma mac_input_inj b b' e e' :
  binding_plain b → binding_plain b' → mac_input b e = mac_input b' e' → b = b' ∧ e = e'.
Proof.
  intros (Hr & Ha & Hs) (Hr' & Ha' & Hs') E. unfold mac_input in E.
  apply app_sep_inj in E as [E1 E]; [|done..].
  apply app_sep_inj in E as [E2 E]; [|done..].
  apply app_sep_inj in E as [E3 E]; [|done..].
  apply app_sep_inj_r in E as [E4 E5]; [|apply Z_to_string_no_nul..].
  apply Z_to_string_inj in E5. destruct b, b'; cbn in *. by subst.
Qed.

Section TokenFacts.
Context `{FormLib}.

(** Which tokens are accepted: the bytes of an expiry ahead of the clock by at
    most the lifetime, and the tag over the binding and that expiry. *)
Lemma verify_token_spec ks b token now :
  verify_token ks b token now = true ↔
  ∃ expiry, b64_decode token = Some (be_bytes 8 expiry +:+ csrf_mac ks (mac_input b expiry))
    ∧ is_i64 expiry
    ∧ (timestamp now < expiry ≤ timestamp now + CSRF_TTL_SECONDS)%Z.
Proof.
  unfold verify_token. split.
  - destruct (b64_decode token) as [raw|]; [|done].
    destruct (len raw =? 8 + 32)%Z eqn:El; [|done]. apply Z.eqb_eq in El. cbn [negb].
    assert (Hn : (8 ≤ String.length raw)%nat) by (unfold len in El; lia).
    destruct (split_at_eq 8 raw Hn) as [E1 E2]. destruct (split_at 8 raw) as [h t]. cbn in E1, E2.
    destruct (be_i64_roundtrip h E2) as [E3 E4].
    destruct (_ <=? _)%Z eqn:Et; [done|]. destruct (_ <? _)%Z eqn:Em; [done|].
    cbn [orb]. unfold ct_eq. intros ?; kbool. exists (i64_from_be h).
    apply Z.leb_gt in Et. apply Z.ltb_ge in Em. rewrite E3. subst t. rewrite E1.
    split; [done|]. split; [done|]. lia.
  - intros (e & -> & He & Hlo & Hhi).
    replace (len (be_bytes 8 e +:+ csrf_mac ks (mac_input b e)) =? 8 + 32)%Z with true.
    2:{ symmetry. apply Z.eqb_eq. pose proof (hmac_len (mac_key ks) (csrf_mac_input (mac_input b e))) as Hl.
        fold (csrf_mac ks (mac_input b e)) in Hl. unfold len in *.
        rewrite <-Hl. cbn. lia. }
    cbn [negb]. rewrite split_be, i64_be_roundtrip by done. cbn zeta.
    rewrite (proj2 (Z.leb_gt _ _) Hlo). rewrite (proj2 (Z.ltb_ge _ _)) by lia.
    apply eqb_refl.
Qed.
(** A token issued for [b] is accepted for nothing else unless two MAC inputs
    collide, and for [b] while it lives. *)
Lemma issued_bound ks b b' t now :
  binding_plain b → binding_plain b' → is_i64 (timestamp t + CSRF_TTL_SECONDS) →
  let expiry := (timestamp t + CSRF_TTL_SECONDS)%Z in
  (csrf_mac ks (mac_input b expiry) = csrf_mac ks (mac_input b' expiry) →
   mac_input b expiry = mac_input b' expiry) →
  verify_token ks b' (issue_token ks b t) now = true →
  b' = b ∧ (timestamp t ≤ timestamp now < timestamp t + CSRF_TTL_SECONDS)%Z.
Proof.
  intros Hb Hb' Hi expiry Hfree. rewrite verify_token_spec. unfold issue_token.
  fold expiry. rewrite b64_decode_encode.
  intros (e & E & He & Hr). apply (inj Some), (f_equal (split_at 8)) in E.
  rewrite !split_be in E. apply pair_equal_spec in E as [Eh Em].
  apply (f_equal i64_from_be) in Eh. rewrite !i64_be_roundtrip in Eh by done. subst e.
  apply Hfree, mac_input_inj in Em as [-> _]; [|done..].
  split; [done|]. unfold expiry in *. lia.
Qed.
Lemma issued_verifies ks b t now :
  is_i64 (timestamp t + CSRF_TTL_SECONDS) →
  (timestamp t ≤ timestamp now < timestamp t + CSRF_TTL_SECONDS)%Z →
  verify_token ks b (issue_token ks b t) now = true.
Proof.
  intros Hi Hr. rewrite verify_token_spec. unfold issue_token. rewrite b64_decode_encode.
  eexists. split; [done|]. split; [done|]. lia.
Qed.
End TokenFacts.

(** A form token is good for its own form only, and for fifteen minutes.
    A token issued at [t] for a route, an object, an operator and a rendered
    state verifies at [now] exactly when [now] is less than the lifetime after
    [t] and not before it (in whole seconds), and never for another route,
    object, operator or rendered state, unless two MAC inputs collide. *)
Theorem csrf_token_bound `{FormLib} ks b b' t now :
  binding_plain b → binding_plain b' →
  is_i64 (timestamp t + CSRF_TTL_SECONDS) →
  let expiry := (timestamp t + CSRF_TTL_SECONDS)%Z in
  (csrf_mac ks (mac_input b expiry) = csrf_mac ks (mac_input b' expiry) →
   mac_input b expiry = mac_input b' expiry) →
  verify_token ks b' (issue_token ks b t) now = true ↔
  b' = b ∧ (timestamp t ≤ timestamp now < timestamp t + CSRF_TTL_SECONDS)%Z.
Proof.
  intros Hb Hb' Hi expiry Hfree. split; [by apply issued_bound|].
  intros [-> Hr]. by apply issued_verifies.
Qed.

(** ** An instance *)
Module CsrfExample.
#[export] Existing Instance CryptoExample.primitives.
Definition forms : @FormLib CryptoExample.primitives :=
  @Build_FormLib CryptoExample.primitives (λ s, s) Some (λ s, eq_refl)
    CryptoExample.tag_length.
#[export] Existing Instance forms.
Definition approval : Binding := mkBinding "/ui/requests/approve" "10" "alice" "1:3".
Definition rotated : Binding := mkBinding "/ui/requests/approve" "10" "alice" "1:4".
Definition token : string := issue_token CryptoExample.new_set approval (seconds 1000).
End CsrfExample.
Import CsrfExample.

Lemma csrf_token_bound_witness :
  ¬ verify_token CryptoExample.new_set CsrfExample.rotated CsrfExample.token (seconds 1010) = true.
Proof.
  intros E. apply (csrf_token_bound CryptoExample.new_set CsrfExample.approval CsrfExample.rotated
    (seconds 1000) (seconds 1010)) in E as [E _]; [discriminate E|done|done| |].
  - split; vm_compute; congruence.
  - intros E'. vm_compute in E'. discriminate E'.
Defined.
