(* ===== verification/Human.v ===== *)
(** [server/src/authn/human.rs]: who may operate Keychute: a configured token, or
    an OIDC token verified against a cached JWKS document plus an allowlist. *)

From S2P Require Import Prelude RustStr Json Crypto SigV4 Http Api.
Open Scope string_scope.

(** ** Configuration ([config.rs]) *)
Module HumanAuthMode.
Inductive t := Static | Oidc.
End HumanAuthMode.
Record StaticHumanAuth := mkStaticHumanAuth { token_sha256 : string; static_subject : string }.
Record OidcHumanAuth := mkOidcHumanAuth {
  issuer : string;
  audience : string;
  jwks_url : string;
  allowed_subjects : list string;
  allowed_group : option string;
  group_claim : string;
  clock_skew_seconds : Z
}.
Record HumanAuthConfig := mkHumanAuthConfig {
  mode : HumanAuthMode.t;
  static_ : option StaticHumanAuth;
  oidc : option OidcHumanAuth
}.

Record Operator := mkOperator { subject : string }.
(** [StatusCode]s. *)
Definition UNAUTHORIZED : Z := 401.
Definition FORBIDDEN : Z := 403.
Definition INTERNAL_SERVER_ERROR : Z := 500.

(** The [jsonwebtoken] crate: algorithms, published keys, token headers and the
    verification of a token at an instant. *)
Class JoseLib := {
  Algorithm : Type;
  Algorithm_eq_dec :: EqDecision Algorithm;
  RS256 : Algorithm;
  ES256 : Algorithm;
  Jwk : Type;
  key_id : Jwk → option string;
  (** [public_key_use]: whether it is [Signature]; [key_operations]: whether they
      contain [Verify]. *)
  use_is_signature : Jwk → option bool;
  operations_verify : Jwk → option bool;
  is_rsa : Jwk → bool;
  is_elliptic_curve : Jwk → bool;
  DecodingKey : Type;
  from_jwk : Jwk → option DecodingKey;
  (** The header's [alg] and [kid]. *)
  decode_header : string → option (Algorithm * option string);
  (** The claims of a token whose signature verifies under the key and that
      satisfies the validation (algorithm, required claims, issuers, audiences,
      leeway; expiry and not-before are both checked). *)
  decode : DateTime → string → DecodingKey →
    Algorithm * list string * list string * list string * Z → option Value
}.

(** ** The JWKS cache *)
Definition JWKS_MIN_REFRESH : Z := seconds 10.
Definition JWKS_MAX_AGE : Z := seconds (10 * 60).
Definition JWKS_STALE_IF_ERROR_MAX : Z := seconds (60 * 60).

Module CacheAction.
Inductive t := Serve | Refresh | RateLimited.
End CacheAction.

Definition cache_action (cached : option (bool * Z * Z)) : CacheAction.t :=
  match cached with
  | None => CacheAction.Refresh
  | Some (has_kid, age, attempt_age) =>
      if has_kid && (age <? JWKS_MAX_AGE)%Z then CacheAction.Serve
      else if (attempt_age <? JWKS_MIN_REFRESH)%Z then CacheAction.RateLimited
      else CacheAction.Refresh
  end.

Section Human.
Context `{JoseLib}.

Record CachedJwks := mkCachedJwks {
  jwks_keys : gmap string Jwk;
  fetched_at : Z;
  last_attempt : Z
}.

(** [fetch_jwks]'s map: the keys with an id, the last of an id winning. *)
Definition keys_by_id (set : list Jwk) : gmap string Jwk :=
  list_to_map (reverse (omap (λ k, (λ kid, (kid, k)) <$> key_id k) set)).

(** One use of the cache, under its lock: the clock on entry, what the provider
    answers if it is asked ([None] for any failure), the clock after that. *)
Record Lookup := mkLookup {
  lk_at : Z;
  lk_response : option (list Jwk);
  lk_done : Z
}.

(** The key, the cache afterwards, and whether the provider was asked. *)
Definition jwk_for_kid (l : Lookup) (url kid : string) (cache : gmap string CachedJwks)
  : result Z Jwk * gmap string CachedJwks * bool :=
  let entry := cache !! url in
  let stale_hit := c ← entry; jwks_keys c !! kid in
  let within_stale_grace :=
    match entry with
    | Some c => (lk_at l - fetched_at c <? JWKS_STALE_IF_ERROR_MAX)%Z
    | None => false
    end in
  let graced := if within_stale_grace then stale_hit else None in
  match cache_action ((λ c, (is_some stale_hit, (lk_at l - fetched_at c)%Z,
                             (lk_at l - last_attempt c)%Z)) <$> entry) with
  | CacheAction.Serve => (ok_or stale_hit UNAUTHORIZED, cache, false)
  | CacheAction.RateLimited => (ok_or graced UNAUTHORIZED, cache, false)
  | CacheAction.Refresh =>
      let now := lk_done l in
      match lk_response l with
      | Some set =>
          let keys := keys_by_id set in
          (ok_or (keys !! kid) UNAUTHORIZED, <[url := mkCachedJwks keys now now]> cache, true)
      | None =>
          let c := default (mkCachedJwks ∅ now now) entry in
          (ok_or graced UNAUTHORIZED,
           <[url := mkCachedJwks (jwks_keys c) (fetched_at c) now]> cache, true)
      end
  end.

(** ** Tokens *)
Definition oidc_validation (cfg : OidcHumanAuth) (alg : Algorithm) :=
  (alg, ["exp"; "iss"; "aud"; "sub"], [issuer cfg], [audience cfg], clock_skew_seconds cfg).

Definition authorize_claims (cfg : OidcHumanAuth) (sub : string) (claims : Value) : bool :=
  if contains (allowed_subjects cfg) sub then true
  else
    match allowed_group cfg with
    | Some group =>
        match as_object claims ≫= λ m, map_get m (group_claim cfg) ≫= as_array with
        | Some values => existsb (λ v, eqb (as_str v) (Some group)) values
        | None => false
        end
    | None => false
    end.

Definition family_ok (jwk : Jwk) (alg : Algorithm) : bool :=
  is_rsa jwk && eqb alg RS256 || is_elliptic_curve jwk && eqb alg ES256.

(** Everything after the key is looked up. *)
Definition verify_oidc (cfg : OidcHumanAuth) (wall : DateTime) (token : string) (alg : Algorithm)
    (jwk : Jwk) : result Z Operator :=
  fail_if eqb (use_is_signature jwk) (Some false) with UNAUTHORIZED;
  fail_if eqb (operations_verify jwk) (Some false) with UNAUTHORIZED;
  fail_if negb (family_ok jwk alg) with UNAUTHORIZED;
  key ← ok_or (from_jwk jwk) UNAUTHORIZED;
  claims ← ok_or (decode wall token key (oidc_validation cfg alg)) UNAUTHORIZED;
  sub ← ok_or (as_object claims ≫= λ m, map_get m "sub" ≫= as_str) UNAUTHORIZED;
  if authorize_claims cfg sub claims then Ok (mkOperator sub) else Err FORBIDDEN.

(** The algorithm and key id a token asks for. *)
Definition token_key (bearer : option string) : result Z (string * Algorithm * string) :=
  token ← ok_or bearer UNAUTHORIZED;
  '(alg, kid) ← ok_or (decode_header token) UNAUTHORIZED;
  fail_if negb (eqb alg RS256 || eqb alg ES256) with UNAUTHORIZED;
  kid ← ok_or kid UNAUTHORIZED;
  Ok (token, alg, kid).

Definition authenticate_oidc (cfg : OidcHumanAuth) (wall : DateTime) (bearer : option string)
    (l : Lookup) (cache : gmap string CachedJwks) : result Z Operator * gmap string CachedJwks :=
  match token_key bearer with
  | Err e => (Err e, cache)
  | Ok (token, alg, kid) =>
      let '(jwk, cache, _) := jwk_for_kid l (jwks_url cfg) kid cache in
      (jwk ← jwk; verify_oidc cfg wall token alg jwk, cache)
  end.

Context `{SigText}.
Definition authenticate_static (cfg : StaticHumanAuth) (bearer : option string)
  : result Z Operator :=
  token ← ok_or bearer UNAUTHORIZED;
  let want := to_ascii_lowercase (token_sha256 cfg) in
  if ct_eq (sha256_hex token) want then Ok (mkOperator (static_subject cfg)) else Err UNAUTHORIZED.

Context `{HttpLib}.
Definition authenticate_human (cfg : HumanAuthConfig) (wall : DateTime) (headers : HeaderMap)
    (l : Lookup) (cache : gmap string CachedJwks) : result Z Operator * gmap string CachedJwks :=
  let bearer := bearer_token headers in
  match mode cfg with
  | HumanAuthMode.Static =>
      (cfg ← ok_or (static_ cfg) INTERNAL_SERVER_ERROR; authenticate_static cfg bearer, cache)
  | HumanAuthMode.Oidc =>
      match oidc cfg with
      | None => (Err INTERNAL_SERVER_ERROR, cache)
      | Some cfg => authenticate_oidc cfg wall bearer l cache
      end
  end.
End Human.

(** ** A history of lookups

    The cache starts empty with the process; its lock serialises the lookups, and
    the clock does not run backwards.  Newest first. *)
Section History.
Context `{JoseLib}.

Record Event := mkEvent {
  ev_url : string;
  ev_kid : string;
  ev_lookup : Lookup;
  ev_result : result Z Jwk;
  ev_fetched : bool
}.
Definition at_ (e : Event) : Z := lk_at (ev_lookup e).
Definition done_ (e : Event) : Z := lk_done (ev_lookup e).
Definition asked (url : string) (e : Event) : Prop := ev_fetched e = true ∧ ev_url e = url.

Inductive history : list Event → gmap string CachedJwks → Prop :=
| history_nil : history [] ∅
| history_cons url kid l past cache res cache' fetched :
    history past cache →
    (∀ e, e ∈ past → done_ e ≤ lk_at l)%Z → (lk_at l ≤ lk_done l)%Z →
    jwk_for_kid l url kid cache = (res, cache', fetched) →
    history (mkEvent url kid l res fetched :: past) cache'.

(** [f] brought the document [set] of the provider [url]. *)
Definition brought (url : string) (set : list Jwk) (f : Event) : Prop :=
  asked url f ∧ lk_response (ev_lookup f) = Some set.

(** What a cached entry says of the past. *)
Record entry_of (past : list Event) (url : string) (c : CachedJwks) : Prop := mk_entry_of {
  entry_document : jwks_keys c = ∅
    ∨ ∃ f set, f ∈ past ∧ brought url set f ∧ jwks_keys c = keys_by_id set
        ∧ fetched_at c = done_ f;
  entry_attempt : ∃ g, g ∈ past ∧ asked url g ∧ done_ g = last_attempt c
    ∧ (jwks_keys c = ∅ ∨ fetched_at c = last_attempt c ∨ lk_response (ev_lookup g) = None);
  entry_latest : ∀ g, g ∈ past → asked url g → (done_ g ≤ last_attempt c)%Z
}.

Lemma keys_by_id_Some set kid jwk :
  keys_by_id set !! kid = Some jwk → jwk ∈ set ∧ key_id jwk = Some kid.
Proof.
  unfold keys_by_id. intros Hk%elem_of_list_to_map_2. rewrite elem_of_reverse in Hk.
  apply list_elem_of_omap in Hk as (k & Hk & (i & Hi & [= <- <-])%fmap_Some). done.
Qed.

Lemma entry_of_mono e past url c :
  ¬ asked url e → entry_of past url c → entry_of (e :: past) url c.
Proof.
  intros Hn [Hd Ha Hl]. constructor.
  - destruct Hd as [?|(f & set & Hf & HH)]; [by left|]. right. exists f, set. split; [by right|done].
  - destruct Ha as (g & Hg & HH). exists g. split; [by right|done].
  - intros g [->|Hg]%elem_of_cons; [done|]. by apply Hl.
Qed.

Lemma cache_entries past cache :
  history past cache →
  (∀ url c, cache !! url = Some c → entry_of past url c)
  ∧ (∀ url, cache !! url = None → ∀ g, g ∈ past → ¬ asked url g).
Proof.
  induction 1 as [|url kid l past cache res cache' fetched Hh [IHs IHn] Hpast Hl Hj].
  { split; [done|]. by intros ? _ ? ?%elem_of_nil. }
  unfold jwk_for_kid in Hj. destruct (cache_action _).
  - injection Hj as <- <- <-. split; [|intros u Hu g [->|Hg]%elem_of_cons; [by intros []|by eapply IHn]].
    intros u c Hc. apply entry_of_mono; [by intros []|by apply IHs].
  - assert (Hother : ∀ u c, u ≠ url → cache !! u = Some c →
      entry_of (mkEvent url kid l res fetched :: past) u c).
    { intros u c Hu Hc. apply entry_of_mono; [intros [_ ?]; by apply Hu|by apply IHs]. }
    assert (Hnone : ∀ u, u ≠ url → cache !! u = None →
      ∀ g, g ∈ mkEvent url kid l res fetched :: past → ¬ asked u g).
    { intros u Hu Hc g [->|Hg]%elem_of_cons; [intros [_ ?]; by apply Hu|by eapply IHn]. }
    assert (Hlate : ∀ g, g ∈ mkEvent url kid l res fetched :: past →
      asked url g → (done_ g ≤ lk_done l)%Z).
    { intros g [->|Hg]%elem_of_cons _; [done|]. specialize (Hpast g Hg). lia. }
    destruct (lk_response l) as [set|] eqn:Er; injection Hj as Hres <- <-.
    + split.
      * intros u c. destruct (decide (u = url)) as [->|Hu].
        -- rewrite lookup_insert_eq. intros [= <-]. constructor; cbn; [| |done].
           ++ right. eexists _, set. split; [by left|]. by repeat split.
           ++ eexists. split; [by left|]. repeat split. by right; left.
        -- rewrite lookup_insert_ne by done. auto.
      * intros u. destruct (decide (u = url)) as [->|Hu];
          [by rewrite lookup_insert_eq|rewrite lookup_insert_ne by done; auto].
    + split.
      * intros u c. destruct (decide (u = url)) as [->|Hu].
        -- rewrite lookup_insert_eq. intros [= <-]. constructor; cbn; [| |done].
           ++ destruct (cache !! url) as [c|] eqn:Ec; [|by left]. cbn.
              destruct (entry_document _ _ _ (IHs _ _ Ec)) as [?|(f & set & Hf & HH)]; [by left|].
              right. exists f, set. split; [by right|done].
           ++ eexists. split; [by left|]. repeat split. by right; right.
        -- rewrite lookup_insert_ne by done. auto.
      * intros u. destruct (decide (u = url)) as [->|Hu];
          [by rewrite lookup_insert_eq|rewrite lookup_insert_ne by done; auto].
  - injection Hj as <- <- <-. split; [|intros u Hu g [->|Hg]%elem_of_cons; [by intros []|by eapply IHn]].
    intros u c Hc. apply entry_of_mono; [by intros []|by apply IHs].
Qed.

(** A key is served from this lookup's own document, from a young one, or from
    one within the grace period while the provider keeps failing. *)
Definition served_from (e : Event) (past : list Event) (jwk : Jwk) : Prop :=
  ∃ f set, f ∈ e :: past ∧ brought (ev_url e) set f ∧ jwk ∈ set ∧ key_id jwk = Some (ev_kid e)
    ∧ (f = e
       ∨ (at_ e - done_ f < JWKS_MAX_AGE)%Z
       ∨ (at_ e - done_ f < JWKS_STALE_IF_ERROR_MAX)%Z
         ∧ ∃ g, g ∈ e :: past ∧ asked (ev_url e) g ∧ lk_response (ev_lookup g) = None
             ∧ (g = e ∨ (at_ e - done_ g < JWKS_MIN_REFRESH)%Z)).

Lemma lookup_served url kid l past cache jwk cache' fetched res :
  history past cache → (lk_at l ≤ lk_done l)%Z →
  jwk_for_kid l url kid cache = (res, cache', fetched) → res = Ok jwk →
  served_from (mkEvent url kid l res fetched) past jwk.
Proof.
  intros Hh Hl Hj Hres. destruct (cache_entries _ _ Hh) as [IHs _]. unfold jwk_for_kid in Hj.
  (* a key found in the cache comes from a document of the past *)
  assert (Hhit : ∀ c, cache !! url = Some c → jwks_keys c !! kid = Some jwk →
    ∃ f set, f ∈ past ∧ brought url set f ∧ jwk ∈ set ∧ key_id jwk = Some kid
      ∧ fetched_at c = done_ f).
  { intros c Hc Hk. destruct (entry_document _ _ _ (IHs _ _ Hc)) as [E|(f & set & Hf & Hb & E & Ht)].
    - by rewrite E, lookup_empty in Hk.
    - rewrite E in Hk. apply keys_by_id_Some in Hk as [? ?]. by exists f, set. }
  destruct (cache !! url) as [c|] eqn:Ec; cbn in Hj.
  2:{ destruct (lk_response l) as [set|] eqn:Er; injection Hj as <- <- <-; [|done].
      apply ok_or_Ok, keys_by_id_Some in Hres as [Hin Hid].
      eexists _, set. split; [by left|]. split; [by repeat split|]. auto. }
  destruct ((is_some (jwks_keys c !! kid) && _)) eqn:Eserve.
  { injection Hj as <- <- <-. apply ok_or_Ok in Hres. apply andb_true_iff in Eserve as [_ Ey].
    destruct (Hhit c eq_refl Hres) as (f & set & Hf & Hb & Hin & Hid & Ht).
    exists f, set. split; [by right|]. repeat (split; [done|]). right; left.
    apply Z.ltb_lt in Ey. unfold at_. cbn. by rewrite <-Ht. }
  destruct (lk_at l - last_attempt c <? _)%Z eqn:Erate.
  { injection Hj as <- <- <-. apply ok_or_Ok in Hres.
    destruct (lk_at l - fetched_at c <? JWKS_STALE_IF_ERROR_MAX)%Z eqn:Eg; [|done].
    apply Z.ltb_lt in Eg, Erate. destruct (Hhit c eq_refl Hres) as (f & set & Hf & Hb & Hin & Hid & Ht).
    exists f, set. split; [by right|]. repeat (split; [done|]).
    destruct (entry_attempt _ _ _ (IHs _ _ Ec)) as (g & Hg & Hag & Hd & [He|[He|He]]).
    - by rewrite He, lookup_empty in Hres.
    - right; left. unfold at_, JWKS_MAX_AGE, JWKS_MIN_REFRESH, seconds, second in *. cbn. lia.
    - right; right. unfold at_. cbn. split; [by rewrite <-Ht|].
      exists g. split; [by right|]. split; [done|]. split; [done|]. right. by rewrite Hd. }
  destruct (lk_response l) as [set|] eqn:Er; injection Hj as <- <- <-.
  { apply ok_or_Ok, keys_by_id_Some in Hres as [Hin Hid].
    eexists _, set. split; [by left|]. split; [by repeat split|]. auto. }
  apply ok_or_Ok in Hres.
  destruct (lk_at l - fetched_at c <? JWKS_STALE_IF_ERROR_MAX)%Z eqn:Eg; [|done].
  apply Z.ltb_lt in Eg. destruct (Hhit c eq_refl Hres) as (f & set & Hf & Hb & Hin & Hid & Ht).
  exists f, set. split; [by right|]. repeat (split; [done|]). right; right.
  unfold at_. cbn. split; [by rewrite <-Ht|].
  eexists. split; [by left|]. split; [done|]. split; [done|]. by left.
Qed.

Lemma lookup_spaced url kid l past cache cache' res g :
  history past cache → jwk_for_kid l url kid cache = (res, cache', true) →
  g ∈ past → asked url g → (done_ g + JWKS_MIN_REFRESH ≤ lk_at l)%Z.
Proof.
  intros Hh Hj Hg Hag. destruct (cache_entries _ _ Hh) as [IHs IHn].
  unfold jwk_for_kid in Hj. destruct (cache !! url) as [c|] eqn:Ec; cbn in Hj.
  2:{ by destruct (IHn _ Ec g Hg). }
  destruct (is_some _ && _); [done|]. destruct (_ <? JWKS_MIN_REFRESH)%Z eqn:Er; [done|].
  apply Z.ltb_ge in Er. pose proof (entry_latest _ _ _ (IHs _ _ Ec) g Hg Hag). lia.
Qed.
End History.


(** ** An instance *)
Module HumanExample.
Definition claims : Value := obj [("sub", Str "alice"); ("iss", Str "https://idp")].
Definition jose : JoseLib := {|
  Algorithm := bool;
  RS256 := true;
  ES256 := false;
  Jwk := string * string;
  key_id := λ k, Some k.1;
  use_is_signature := λ _, Some true;
  operations_verify := λ _, None;
  is_rsa := λ _, true;
  is_elliptic_curve := λ _, false;
  DecodingKey := string;
  from_jwk := λ k, Some k.2;
  decode_header := λ _, Some (true, Some "kid-1");
  decode := λ _ _ _ _, Some claims
|}.
#[export] Existing Instance jose.
Definition url : string := "https://idp/jwks".
Definition published : Lookup :=
  mkLookup (seconds 100) (Some [("kid-1", "modulus")]) (seconds 101).
(** Half an hour later the provider does not answer. *)
Definition outage : Lookup := mkLookup (seconds 1900) None (seconds 1910).
Definition first_lookup := jwk_for_kid published url "kid-1" ∅.
Definition second_lookup := jwk_for_kid outage url "kid-1" first_lookup.1.2.
Definition first_event : Event :=
  mkEvent url "kid-1" published first_lookup.1.1 first_lookup.2.
Definition second_event : Event :=
  mkEvent url "kid-1" outage second_lookup.1.1 second_lookup.2.
Lemma example_history : history [second_event; first_event] second_lookup.1.2.
Proof.
  apply (history_cons url "kid-1" outage [first_event] first_lookup.1.2);
    [|by intros e [->|[]%elem_of_nil]%elem_of_cons; vm_compute|by vm_compute|reflexivity].
  apply (history_cons url "kid-1" published [] ∅);
    [constructor|by intros e ?%elem_of_nil|by vm_compute|reflexivity].
Qed.
End HumanExample.
Import HumanExample.

