(* ===== verification/Config.v ===== *)
(** [server/src/config.rs]: the configuration file once parsed: normalisation,
    validation, injection templates, policy rows; and the desired secrets read
    from it ([server/src/db/provision.rs]). *)

From S2P Require Import Prelude RustStr Types Paths Json Crypto Examples SigV4 Http Injection Store.
From S2P Require Import Requests Grants ApiExt Secrets UiExt Policies Clients Provision Notify.
From S2P Require Import Lifecycle Refinement Safety Reconcile Api Human NetAddr.
From S2P Require Policy.
Open Scope string_scope.

(** ** The file's sections, beyond those the handlers read *)
Record InjectionConfig := mkInjectionConfig {
  ij_kind : string;
  ij_header : option string;
  ij_username : option string;
  ij_username_file : option string;
  ij_region : option string;
  ij_service : option string
}.
Record SecretConfig := mkSecretConfig {
  sc_name : string;
  sc_description : string;
  sc_max_tier : Tier.t;
  sc_tags : list string;
  sc_injection : InjectionConfig;
  sc_value_file : string
}.
Record PolicyConfig := mkPolicyConfig {
  pc_client : option string;
  pc_secret : option string;
  pc_secret_tag : option string;
  pc_mechanism : Mechanism.t;
  pc_outcome : string;
  pc_priority : Z;
  pc_origins : list string;
  pc_methods : list string;
  pc_path_prefixes : list string;
  pc_max_ttl_seconds : option Z;
  pc_max_uses : option Z;
  pc_not_after : option DateTime
}.

Record PushoverConfig := mkPushoverConfig {
  push_base_url : string;
  push_token : option string;
  push_token_path : option string;
  push_user_key : option string;
  push_user_key_path : option string
}.

(** [Config]: [cf_served] is the part the handlers read ([Api.Config]); of the
    TLS section only the presence matters here. *)
Record ConfigFile := mkConfigFile {
  cf_listen_addr : string;
  cf_served : Config;
  cf_tls : bool;
  cf_allow_insecure_http : bool;
  cf_allow_insecure_http_non_loopback : bool;
  cf_database_url : option string;
  cf_human_auth : HumanAuthConfig;
  cf_secrets : list SecretConfig;
  cf_policies : list PolicyConfig;
  cf_pushover : option PushoverConfig;
  cf_proxy_stream_deadline_seconds : Z;
  cf_kek_file : string;
  cf_upstream_ca_path : option string
}.

(** The values of fields the file leaves out. *)
Definition default_injection : InjectionConfig := mkInjectionConfig "bearer" None None None None None.
Definition default_limits : Limits := mkLimits 10 5 300 3600 (10 * 1024 * 1024) 60 8 20.
Definition default_proxy_stream_deadline_seconds : Z := 300.
Definition default_pushover_base : string := "https://api.pushover.net".

(** What a startup refuses, one constructor per [bail!]. *)
Inductive ConfigError :=
| NoDatabaseUrl | NoTls | PlaintextNonLoopback
| NoStaticAuth | MalformedOperatorDigest | NoOidcAuth | NoAllowlist
| NoAuthBinding (client : string) | TwoAuthBindings (client : string)
| MalformedDigest (client : string) | NoMechanisms (client : string)
| NoTokenReview (client : string) | MechanismAboveTier (client : string) (m : Mechanism.t)
| LimitNotPositive (limit : string)
| PlaintextOutbound (what url : string) | NotHttp (what url : string)
| DuplicateClients | BadSecretName (name : string) | DuplicateSecret (name : string)
| EmptyTag (secret : string)
| SecretAndTag | InvalidOutcome (outcome : string) | BadOrigin (e : OriginError)
| NoOrigin | InvalidMethod (method : string) | BadPathPrefix (prefix e : string)
| TtlNotPositive | UsesNotPositive | UnknownPolicyClient (client : string)
| DuplicateToken | DuplicateServiceAccount (audience subject : string)
| UsernameAndFile | Unreadable (path : string) | NotUtf8 (path : string)
| RegionWithoutService | HeaderNotAllowed | UsernameNotAllowed (kind : string)
| BadInjection (e : string) | EmptyValue (path : string).

(** ** Injection templates *)

(** At most one trailing newline, LF or CR LF, is dropped. *)
Fixpoint trim_one_newline (s : string) : string :=
  match s with
  | "" => ""
  | String c r =>
      if eqb c LF && eqb r "" || eqb c CR && eqb r (String LF "") then ""
      else String c (trim_one_newline r)
  end.

Section Template.
(** The file system the server starts on. *)
Context (read : string → option string).

Definition injection_username (c : InjectionConfig) : result ConfigError (option string) :=
  match ij_username c, ij_username_file c with
  | Some _, Some _ => Err UsernameAndFile
  | Some u, None => Ok (Some u)
  | None, Some path =>
      raw ← ok_or (read path) (Unreadable path);
      let value := trim_one_newline raw in
      fail_if is_none (utf8_decode value) with NotUtf8 path;
      Ok (Some value)
  | None, None => Ok None
  end.
Definition injection_scope (c : InjectionConfig) : result ConfigError (option string) :=
  match ij_region c, ij_service c with
  | Some r, Some s => Ok (Some (r +:+ "/" +:+ s))
  | None, None => Ok None
  | _, _ => Err RegionWithoutService
  end.
Definition resolve (c : InjectionConfig)
  : result ConfigError (string * option string * option string) :=
  let kind := ij_kind c in
  username ← injection_username c;
  scope ← injection_scope c;
  free_text ← (if eqb kind "header" then Ok (ij_header c)
               else fail_if is_some (ij_header c) with HeaderNotAllowed; Ok username);
  fail_if eqb kind "header" && is_some username with UsernameNotAllowed kind;
  fail_if eqb kind "bearer" && is_some username with UsernameNotAllowed kind;
  map_err BadInjection (validate_injection kind free_text scope).

Definition desired_secret (c : SecretConfig) : result ConfigError DesiredSecret :=
  '(kind, header, username) ← resolve (sc_injection c);
  raw ← ok_or (read (sc_value_file c)) (Unreadable (sc_value_file c));
  let value := trim_one_newline raw in
  fail_if eqb value "" with EmptyValue (sc_value_file c);
  Ok (mkDesiredSecret (sc_name c) (sc_description c) (Tier.as_int (sc_max_tier c)) kind header
        username (sc_tags c) value).
Definition desired_secrets : list SecretConfig → result ConfigError (list DesiredSecret) :=
  try_map desired_secret.
End Template.

(** ** Standing policy rows *)
Section Validation.
Context `{UrlLib}.

Definition check_method (m : string) : result ConfigError string :=
  fail_if negb (Policy.is_valid_http_method m) with InvalidMethod m;
  Ok (to_ascii_uppercase m).
Definition not_positive (v : option Z) : bool :=
  match v with Some n => (n <=? 0)%Z | None => false end.
Definition to_new_policy (p : PolicyConfig) : result ConfigError NewPolicy :=
  fail_if is_some (pc_secret p) && is_some (pc_secret_tag p) with SecretAndTag;
  let outcome := pc_outcome p in
  fail_if negb (contains ["auto-approve"; "notify-only"; "require-approval"; "deny"] outcome)
    with InvalidOutcome outcome;
  origins ← try_map (λ o, map_err BadOrigin (Origin_parse url_host_str o)) (pc_origins p);
  fail_if eqb (pc_mechanism p) Mechanism.Brokered && is_empty origins
          && contains ["auto-approve"; "notify-only"] outcome with NoOrigin;
  methods ← try_map check_method (pc_methods p);
  path_prefixes ← try_map (λ x, map_err (BadPathPrefix x) (canonicalize x)) (pc_path_prefixes p);
  fail_if not_positive (pc_max_ttl_seconds p) with TtlNotPositive;
  fail_if not_positive (pc_max_uses p) with UsesNotPositive;
  Ok (mkNewPolicy (pc_client p) (pc_secret p) (pc_secret_tag p)
        (Mechanism.as_str (pc_mechanism p)) outcome (pc_priority p)
        (Array (map Origin_to_value origins)) methods path_prefixes (pc_max_ttl_seconds p)
        (pc_max_uses p) (pc_not_after p) CONFIG_ACTOR).

(** ** Outbound addresses *)
(** The text before the first of these characters. *)
Fixpoint before (l : list ascii) (s : string) : string :=
  match s with
  | "" => ""
  | String c r => if contains l c then "" else String c (before l r)
  end.
Definition outbound_host (rest : string) : string :=
  let hostport := before ["/"; "?"; "#"]%char rest in
  match strip_prefix "[" hostport with
  | Some v6 => before ["]"%char] v6
  | None => before [":"%char] hostport
  end.
Definition validate_outbound_https (what url : string) (insecure_ok : bool)
  : result ConfigError unit :=
  match strip_prefix "http://" url with
  | Some rest =>
      let host := outbound_host rest in
      let loopback := eq_ignore_ascii_case host "localhost"
                      || match parse_ip_addr host with
                         | Some ip => is_loopback ip
                         | None => false
                         end in
      fail_if negb loopback && negb insecure_ok with PlaintextOutbound what url;
      Ok tt
  | None => fail_if negb (starts_with "https://" url) with NotHttp what url; Ok tt
  end.
Definition validate_outbound (what : string) (url : option string) (insecure_ok : bool)
  : result ConfigError unit :=
  match url with Some u => validate_outbound_https what u insecure_ok | None => Ok tt end.

(** ** Normalisation *)
Definition digest_text (h : string) : string := to_ascii_lowercase (trim h).
Definition normalize_client (c : ClientConfig) : ClientConfig :=
  mkClientConfig (cc_name c) (cc_max_tier c) (cc_mechanisms c)
    (mkClientAuthConfig (digest_text <$> auth_api_token_sha256 (cc_auth c))
       (auth_service_account (cc_auth c)))
    (cc_may_store_secrets c).
Definition normalize_human (h : HumanAuthConfig) : HumanAuthConfig :=
  mkHumanAuthConfig (mode h)
    ((λ s, mkStaticHumanAuth (digest_text (token_sha256 s)) (static_subject s)) <$> static_ h)
    (oidc h).
Definition normalize (c : ConfigFile) : ConfigFile :=
  let k := cf_served c in
  mkConfigFile (cf_listen_addr c)
    (mkConfig (limits k) (map normalize_client (cfg_clients k)) (tokenreview_url k)
       (external_url k))
    (cf_tls c) (cf_allow_insecure_http c) (cf_allow_insecure_http_non_loopback c)
    (cf_database_url c) (normalize_human (cf_human_auth c)) (cf_secrets c) (cf_policies c)
    (cf_pushover c) (cf_proxy_stream_deadline_seconds c) (cf_kek_file c) (cf_upstream_ca_path c).

(** ** Validation *)
Definition is_ascii_hexdigit (c : ascii) : bool :=
  is_ascii_digit c || in_range "a" "f" c || in_range "A" "F" c.
Definition is_digest (h : string) : bool := (len h =? 64)%Z && all_bytes is_ascii_hexdigit h.

Definition check_listener (c : ConfigFile) : result ConfigError unit :=
  if cf_tls c then Ok tt
  else
    fail_if negb (cf_allow_insecure_http c) with NoTls;
    let loopback := match parse_socket_addr (cf_listen_addr c) with
                    | Some (ip, _) => is_loopback ip
                    | None => false
                    end in
    fail_if negb loopback && negb (cf_allow_insecure_http_non_loopback c)
      with PlaintextNonLoopback;
    Ok tt.
Definition check_human (h : HumanAuthConfig) : result ConfigError unit :=
  match mode h with
  | HumanAuthMode.Static =>
      s ← ok_or (static_ h) NoStaticAuth;
      fail_if negb (is_digest (token_sha256 s)) with MalformedOperatorDigest;
      Ok tt
  | HumanAuthMode.Oidc =>
      o ← ok_or (oidc h) NoOidcAuth;
      fail_if is_empty (allowed_subjects o) && is_none (allowed_group o) with NoAllowlist;
      Ok tt
  end.
Definition check_mechanism (c : ClientConfig) (m : Mechanism.t) : result ConfigError unit :=
  fail_if Tier.gt (Mechanism.tier m) (cc_max_tier c) with MechanismAboveTier (cc_name c) m; Ok tt.
Definition check_client (k : Config) (c : ClientConfig) : result ConfigError unit :=
  let token := auth_api_token_sha256 (cc_auth c) in
  let has_sa := is_some (auth_service_account (cc_auth c)) in
  fail_if negb (is_some token) && negb has_sa with NoAuthBinding (cc_name c);
  fail_if is_some token && has_sa with TwoAuthBindings (cc_name c);
  fail_if match token with Some h => negb (is_digest h) | None => false end
    with MalformedDigest (cc_name c);
  fail_if is_empty (cc_mechanisms c) with NoMechanisms (cc_name c);
  fail_if has_sa && is_none (tokenreview_url k) with NoTokenReview (cc_name c);
  _ ← try_map (check_mechanism c) (cc_mechanisms c);
  Ok tt.
Definition check_positive (limit : string) (v : Z) : result ConfigError unit :=
  fail_if (v <=? 0)%Z with LimitNotPositive limit; Ok tt.
Fixpoint check_secrets (seen : list string) (l : list SecretConfig) : result ConfigError unit :=
  match l with
  | [] => Ok tt
  | s :: l =>
      let name := sc_name s in
      fail_if eqb (trim name) "" || negb (eqb (trim name) name) with BadSecretName name;
      fail_if contains seen name with DuplicateSecret name;
      fail_if existsb (λ t, eqb (trim t) "") (sc_tags s) with EmptyTag name;
      check_secrets (name :: seen) l
  end.
Definition check_policy (names : list string) (p : PolicyConfig) : result ConfigError unit :=
  _ ← to_new_policy p;
  match pc_client p with
  | Some c => fail_if negb (contains names c) with UnknownPolicyClient c; Ok tt
  | None => Ok tt
  end.
Fixpoint check_bindings (hashes : list string) (sas : list (string * string))
    (l : list ClientConfig) : result ConfigError unit :=
  match l with
  | [] => Ok tt
  | c :: l =>
      let hash := to_ascii_lowercase <$> auth_api_token_sha256 (cc_auth c) in
      let sa := (λ s, (sa_audience s, sa_subject s)) <$> auth_service_account (cc_auth c) in
      fail_if match hash with Some h => contains hashes h | None => false end with DuplicateToken;
      fail_if match sa with Some s => contains sas s | None => false end
        with DuplicateServiceAccount (default "" (fst <$> sa)) (default "" (snd <$> sa));
      check_bindings (option_list hash ++ hashes) (option_list sa ++ sas) l
  end.

Definition validate (c : ConfigFile) : result ConfigError unit :=
  let k := cf_served c in
  let l := limits k in
  let names := map cc_name (cfg_clients k) in
  let insecure_ok := cf_allow_insecure_http_non_loopback c in
  fail_if is_none (cf_database_url c) with NoDatabaseUrl;
  _ ← check_listener c;
  _ ← check_human (cf_human_auth c);
  _ ← try_map (check_client k) (cfg_clients k);
  _ ← check_positive "request_expiry_seconds" (request_expiry_seconds l);
  _ ← check_positive "replay_window_seconds" (replay_window_seconds l);
  _ ← check_positive "max_pending_per_client" (max_pending_per_client l);
  _ ← check_positive "max_waits_per_client" (max_waits_per_client l);
  _ ← check_positive "max_proxy_streams_per_client" (max_proxy_streams_per_client l);
  _ ← check_positive "max_deposits_per_hour_per_client" (max_deposits_per_hour_per_client l);
  _ ← validate_outbound "tokenreview_url" (tokenreview_url k) insecure_ok;
  _ ← validate_outbound "pushover.base_url" (push_base_url <$> cf_pushover c) insecure_ok;
  _ ← validate_outbound "human_auth.oidc.jwks_url" (jwks_url <$> oidc (cf_human_auth c)) insecure_ok;
  _ ← check_positive "wait_max_seconds" (wait_max_seconds l);
  _ ← check_positive "proxy_max_body_bytes" (proxy_max_body_bytes l);
  _ ← check_positive "proxy_stream_deadline_seconds" (cf_proxy_stream_deadline_seconds c);
  fail_if negb (bool_decide (NoDup names)) with DuplicateClients;
  _ ← check_secrets [] (cf_secrets c);
  _ ← try_map (check_policy names) (cf_policies c);
  check_bindings [] [] (cfg_clients k).

(** [Config::load], past reading the file and parsing its text. *)
Definition with_database_url (env_url : option string) (c : ConfigFile) : ConfigFile :=
  match env_url with
  | Some url => mkConfigFile (cf_listen_addr c) (cf_served c) (cf_tls c)
      (cf_allow_insecure_http c) (cf_allow_insecure_http_non_loopback c) (Some url)
      (cf_human_auth c) (cf_secrets c) (cf_policies c) (cf_pushover c)
      (cf_proxy_stream_deadline_seconds c) (cf_kek_file c) (cf_upstream_ca_path c)
  | None => c
  end.
Definition load (parsed : ConfigFile) (env_url : option string) : result ConfigError ConfigFile :=
  let c := normalize (with_database_url env_url parsed) in
  _ ← validate c; Ok c.
End Validation.

(** ** What validation establishes of the clients *)
Definition token_hash (c : ClientConfig) : option string :=
  to_ascii_lowercase <$> auth_api_token_sha256 (cc_auth c).
Definition sa_binding (c : ClientConfig) : option (string * string) :=
  (λ s, (sa_audience s, sa_subject s)) <$> auth_service_account (cc_auth c).
(** Distinct entries bind distinct credentials. *)
Definition apart (c c' : ClientConfig) : Prop :=
  (∀ h, token_hash c = Some h → token_hash c' ≠ Some h)
  ∧ (∀ s, sa_binding c = Some s → sa_binding c' ≠ Some s).

Lemma check_bindings_Ok hs sas l :
  check_bindings hs sas l = Ok tt →
  (∀ c, c ∈ l → (∀ h, token_hash c = Some h → h ∉ hs) ∧ (∀ s, sa_binding c = Some s → s ∉ sas))
  ∧ (∀ c c', c ∈ l → c' ∈ l → c ≠ c' → apart c c').
Proof.
  revert hs sas. induction l as [|c l IH]; intros hs sas; cbn [check_bindings].
  { intros _. split; [intros c Hc|intros c c' Hc]; by apply elem_of_nil in Hc. }
  fold (token_hash c) (sa_binding c).
  destruct (match token_hash c with Some h => contains hs h | None => false end) eqn:Eh; [done|].
  destruct (match sa_binding c with Some s => contains sas s | None => false end) eqn:Es; [done|].
  intros [Hout Hpair]%IH.
  assert (Hhead : ∀ c', c' ∈ l → apart c c' ∧ apart c' c).
  { intros c' Hc'. destruct (Hout c' Hc') as [Hh Hs]. unfold apart. split; split.
    - intros h E E'. apply (Hh h E'). rewrite E. by left.
    - intros s E E'. apply (Hs s E'). rewrite E. by left.
    - intros h E E'. apply (Hh h E). rewrite E'. by left.
    - intros s E E'. apply (Hs s E). rewrite E'. by left. }
  split.
  - intros c' [->|Hc']%elem_of_cons; split.
    + intros h E. rewrite E in Eh. by kbool.
    + intros s E. rewrite E in Es. by kbool.
    + intros h E Hin. apply (proj1 (Hout c' Hc') h E). apply elem_of_app. by right.
    + intros s E Hin. apply (proj2 (Hout c' Hc') s E). apply elem_of_app. by right.
  - intros c1 c2 [->|H1]%elem_of_cons [->|H2]%elem_of_cons Hne; [done|..].
    + by apply Hhead.
    + by apply Hhead.
    + by apply Hpair.
Qed.

Lemma digest_graphic h : is_digest h = true → all_bytes graphic h = true.
Proof.
  intros [_ Hh]%andb_true_iff. revert Hh. apply all_bytes_mono. intros c Hc.
  assert (H : ∀ c, implb (is_ascii_hexdigit c) (graphic c) = true)
    by (apply ascii_all; vm_compute; done).
  specialize (H c). by rewrite Hc in H.
Qed.
(** A digest is stored as it is compared: lower case, nothing trimmed. *)
Lemma digest_text_id h : is_digest h = true → digest_text h = to_ascii_lowercase h.
Proof. intros Hd%digest_graphic. unfold digest_text. by rewrite trim_graphic. Qed.

(** A client entry as validation leaves it. *)
Record client_ok (k : Config) (c : ClientConfig) : Prop := mk_client_ok {
  co_digest : ∀ h, auth_api_token_sha256 (cc_auth c) = Some h → is_digest h = true;
  co_one : is_some (auth_api_token_sha256 (cc_auth c))
           = negb (is_some (auth_service_account (cc_auth c)));
  co_review : is_some (auth_service_account (cc_auth c)) = true → is_some (tokenreview_url k) = true;
  co_tiers : ∀ m, m ∈ cc_mechanisms c →
    (Tier.as_int (Mechanism.tier m) ≤ Tier.as_int (cc_max_tier c))%Z
}.

Lemma check_client_Ok k c : check_client k c = Ok tt → client_ok k c.
Proof.
  assert (Htiers : ∀ us, try_map (check_mechanism c) (cc_mechanisms c) = Ok us → ∀ m,
    m ∈ cc_mechanisms c → (Tier.as_int (Mechanism.tier m) ≤ Tier.as_int (cc_max_tier c))%Z).
  { intros us Hus m Hm. destruct (try_map_each _ _ _ Hus m Hm) as [u Hu]. revert Hu.
    unfold check_mechanism. destruct (Tier.gt _ _) eqn:Eg; [done|]. intros _.
    by apply Tier.gt_false. }
  unfold check_client. destruct (auth_api_token_sha256 (cc_auth c)) as [h|] eqn:Eh;
    destruct (auth_service_account (cc_auth c)) as [sa|] eqn:Es; cbn [is_some negb andb]; try done.
  - destruct (is_digest h) eqn:Ed; [|done]. cbn [negb]. destruct (is_empty _); [done|].
    intros (us & Hus & _)%bind_Ok. split; rewrite ?Eh, ?Es; [by intros h' [= <-]|done|done|].
    by eapply Htiers.
  - destruct (is_empty _); [done|]. destruct (is_none _) eqn:Et; [done|].
    intros (us & Hus & _)%bind_Ok. split; rewrite ?Eh, ?Es; [done|done| |by eapply Htiers].
    intros _. unfold is_none in Et. by apply negb_false_iff in Et.
Qed.

Section Clients.
Context `{UrlLib}.

Lemma validate_clients c :
  validate c = Ok tt →
  let all := cfg_clients (cf_served c) in
  NoDup (map cc_name all) ∧ (∀ cc, cc ∈ all → client_ok (cf_served c) cc)
  ∧ check_bindings [] [] all = Ok tt.
Proof.
  unfold validate. destruct (is_none _); [done|].
  intros (? & _ & (? & _ & (us & Hc & HH)%bind_Ok)%bind_Ok)%bind_Ok.
  do 12 (apply bind_Ok in HH as (? & _ & HH)).
  destruct (bool_decide _) eqn:En; [|done]. cbn [negb] in HH. apply bool_decide_eq_true in En.
  apply bind_Ok in HH as (? & _ & HH). apply bind_Ok in HH as (? & _ & HH).
  split; [done|]. split; [|done]. intros cc Hcc.
  destruct (try_map_each _ _ _ Hc cc Hcc) as [u Hu]. destruct u. by apply check_client_Ok.
Qed.

(** Entries that bind distinct credentials write rows that do. *)
Lemma apart_credentials k c c' : client_ok k c → client_ok k c' →
  apart c c' → same_credential (configured_row 0 c) (configured_row 0 c') = false.
Proof.
  intros Hc Hc' [Ht Hs]. unfold same_credential, configured_row. cbn.
  apply orb_false_iff. split.
  - destruct (auth_api_token_sha256 (cc_auth c)) as [h|] eqn:E; [|done].
    destruct (auth_api_token_sha256 (cc_auth c')) as [h'|] eqn:E'; [|done]. cbn.
    apply bool_decide_eq_false. intros [= Eq]. unfold token_hash in Ht. rewrite E, E' in Ht.
    apply (Ht _ eq_refl). cbn. f_equal.
    pose proof (digest_text_id h (co_digest _ _ Hc h E)) as D.
    pose proof (digest_text_id h' (co_digest _ _ Hc' h' E')) as D'.
    unfold digest_text in D, D'. congruence.
  - destruct (auth_service_account (cc_auth c)) as [s|] eqn:E; [|done].
    destruct (auth_service_account (cc_auth c')) as [s'|] eqn:E'; [|done]. cbn.
    apply andb_false_iff. destruct (eqb (Some (sa_audience s)) _) eqn:Ea; [right|by left].
    apply bool_decide_eq_false. intros [= Eq]. kbool. simplify_eq.
    unfold sa_binding in Hs. rewrite E, E' in Hs. apply (Hs _ eq_refl). cbn. congruence.
Qed.

Lemma validate_distinct c :
  validate c = Ok tt → credentials_distinct (cfg_clients (cf_served c)).
Proof.
  intros (Hnd & Hok & [_ Hb]%check_bindings_Ok)%validate_clients c1 c2 H1 H2 Hne.
  apply (apart_credentials (cf_served c)); [by apply Hok..|]. apply Hb; [done..|congruence].
Qed.
End Clients.

(** ** From the file to the tables to an authenticated client *)
Section Startup.
Context `{UrlLib, HttpLib, SigText, WireLib}.


Definition holds_credential (token : string) (row : ClientRow) (k : Config) : Prop :=
  cl_api_token_sha256 row = Some (sha256_hex token)
  ∨ ∃ review aud, token_review (review_audiences k) token = Ok (Some review)
      ∧ tr_authenticated review = true ∧ cl_sa_subject row = Some (tr_username review)
      ∧ cl_sa_audience row = Some aud ∧ aud ∈ tr_audiences review.

(** Whoever is authenticated is an enabled row of the table that holds the
    credential presented. *)
Lemma authenticate_client_row k headers n t d row n' w' :
  authenticate_client k headers alone (n, (t, d)) = (Ok row, (n', w')) →
  ∃ id token, bearer_token headers = Some token ∧ clients d !! id = Some row
    ∧ cl_enabled row = true ∧ holds_credential token row k.
Proof.
  unfold authenticate_client. intros (token & s1 & Ht & HH)%Api_bind_Ok.
  apply lift_Ok in Ht as [Ht%ok_or_Ok ->]. apply Api_bind_Ok in HH as (found & [n1 w1] & Hq & HH).
  apply query_Ok in Hq as (w2 & [= <-] & -> & [= -> ->]). cbn [fst snd] in HH.
  destruct (get_client_by_token_hash _ d) as [r|] eqn:Er.
  - destruct (_ && cl_enabled r) eqn:E; [|done]. apply ret_Ok in HH as [-> _].
    apply find_row_Some in Er as ((id & Hid) & Hh). kbool. exists id, token. by repeat (split; [done|]); left.
  - destruct (tokenreview_url k); [|done]. unfold tokenreview_authenticate in HH.
    destruct (is_empty _); [done|]. apply Api_bind_Ok in HH as (answer & s2 & Ha & HH).
    apply lift_Ok in Ha as [Ha ->]. destruct answer as [review|]; [|done].
    destruct (negb _ || _) eqn:Ev; [done|]. apply orb_false_iff in Ev as [Ev _].
    apply negb_false_iff in Ev. apply Api_bind_Ok in HH as (rows & [n2 w2] & Hq & HH).
    apply query_Ok in Hq as (w3 & [= <-] & -> & [= -> ->]). cbn [fst snd] in HH.
    destruct (List.filter _ _) as [|c0 [|]] eqn:Ef; [done| |done]. apply ret_Ok in HH as [-> _].
    assert (Hin : In c0 (List.filter (review_accepts review)
                          (get_clients_by_sa_subject (tr_username review) d)))
      by (rewrite Ef; by left).
    apply filter_In in Hin as [Hin Hacc]. apply list_elem_of_In, elem_select in Hin as ((id & Hid) & Hsub).
    unfold review_accepts in Hacc. destruct (cl_sa_audience c0) as [aud|] eqn:Eaud;
      [|by rewrite andb_false_r in Hacc]. kbool.
    exists id, token. repeat (split; [done|]). right. by exists review, aud.
Qed.

Lemma authenticate_client_found k headers token n t d row :
  bearer_token headers = Some token → get_client_by_token_hash (sha256_hex token) d = Some row →
  hash_matches row (sha256_hex token) = true → cl_enabled row = true →
  authenticate_client k headers alone (n, (t, d)) = (Ok row, (S n, (t, d))).
Proof.
  intros Hb Hr Hm He. unfold authenticate_client. rewrite Hb.
  unfold mbind, Handler_bind, lift, query, ok_or, alone. cbn. by rewrite Hr, Hm, He.
Qed.
End Startup.

Lemma configured_row_normalize k id c :
  client_ok k (normalize_client c) → configured_row id (normalize_client c) = configured_row id c.
Proof.
  intros Hok. unfold configured_row, normalize_client. cbn.
  destruct (auth_api_token_sha256 (cc_auth c)) as [h|] eqn:E; [|done]. cbn. do 2 f_equal.
  pose proof (digest_text_id (digest_text h)) as D. unfold digest_text in D at 2.
  rewrite D; [|apply (co_digest _ _ Hok); cbn; by rewrite E].
  unfold digest_text. by rewrite to_lower_idemp.
Qed.

Section Authenticates.
Context `{UrlLib, HttpLib, SigText, WireLib}.

(** The table after the configuration was applied. *)
Record applied_to (all : list ClientConfig) (d : Db) : Prop := mk_applied_to {
  at_wf : clients_wf d;
  at_configured : ∀ c, c ∈ all → ∃ k, get_client_by_name (cc_name c) d = Some (configured_row k c);
  at_others : ∀ k r, clients d !! k = Some r → cl_name r ∉ map cc_name all →
    cl_enabled r = false ∧ no_credentials r
}.

Lemma applied_row all d k r :
  applied_to all d → clients d !! k = Some r →
  (∃ c id, c ∈ all ∧ r = configured_row id c) ∨ cl_enabled r = false ∧ no_credentials r.
Proof.
  intros [Hwf Hc Ho] Hr. destruct (decide (cl_name r ∈ map cc_name all)) as [Hin|Hn];
    [left|right; by eapply Ho].
  apply list_elem_of_fmap in Hin as (c & Hname & Hin). destruct (Hc c Hin) as [id Hid].
  exists c, id. split; [done|]. apply find_row_Some in Hid as [(k' & Hk') _].
  assert (k = k') as -> by (eapply (cw_name _ Hwf); [exact Hr|exact Hk'|done]). congruence.
Qed.

(** The row a token's hash finds. *)
Lemma token_row k all d c h :
  applied_to all d → credentials_distinct all → (∀ c, c ∈ all → client_ok k c) →
  c ∈ all → auth_api_token_sha256 (cc_auth c) = Some h → digest_text h = h →
  ∃ id, get_client_by_token_hash h d = Some (configured_row id c).
Proof.
  intros Ha Hd Hok Hc Hh Hlow. destruct (at_configured _ _ Ha c Hc) as [id Hid].
  exists id. pose proof Hid as HH. apply find_row_Some in HH as [(key & Hk) _].
  assert (Hrow : cl_api_token_sha256 (configured_row id c) = Some h).
  { unfold configured_row. cbn. rewrite Hh. cbn. f_equal. exact Hlow. }
  apply (find_row_unique _ _ key); [exact Hk|by rewrite Hrow, eqb_refl|].
  intros key' r' Hr' E. kbool. destruct (applied_row all d key' r' Ha Hr') as [(c' & id' & Hc' & ->)|[_ Hno]].
  - destruct (decide (cc_name c' = cc_name c)) as [En|En].
    + assert (key' = key) as -> by (eapply (cw_name _ (at_wf _ _ Ha)); [exact Hr'|exact Hk|done]).
      congruence.
    + pose proof (Hd c' c Hc' Hc En) as Hf. unfold same_credential in Hf.
      apply orb_false_iff in Hf as [Hf _].
      assert (Es : cl_api_token_sha256 (configured_row 0 c') = Some h) by exact E.
      assert (Es' : cl_api_token_sha256 (configured_row 0 c) = Some h) by exact Hrow.
      rewrite Es, Es' in Hf. by rewrite eqb_refl in Hf.
  - destruct Hno as [Hno _]. congruence.
Qed.
End Authenticates.

(** The credential of a configured client, as the file writes it. *)
Definition binds (c : ClientConfig) `{SigText, WireLib} (token : string) (k : Config) : Prop :=
  match auth_api_token_sha256 (cc_auth c), auth_service_account (cc_auth c) with
  | Some h, None => digest_text h = sha256_hex token
  | None, Some sa => ∃ review, token_review (review_audiences k) token = Ok (Some review)
      ∧ tr_authenticated review = true ∧ tr_username review = sa_subject sa
      ∧ sa_audience sa ∈ tr_audiences review
  | _, _ => False
  end.

(** The configuration decides who is a client.  Whatever clients the table
    held before, applying a configuration that loads succeeds; afterwards a
    token whose SHA-256 is a configured digest, in either case and with stray
    space around it, authenticates as that very client; and every request that
    is authenticated is one of a configured client, with its tier, mechanisms
    and rights, presenting the one credential the file binds to it, a digest or
    a reviewed service account and never both. *)
Theorem configured_clients_authenticate `{UrlLib, HttpLib, SigText, WireLib}
    parsed env_url c ids t d :
  load parsed env_url = Ok c → clients_wf d →
  (∀ i, clients d !! ids i = None) → (∀ i j, ids i = ids j → i = j) →
  let file := cfg_clients (cf_served parsed) in
  ∃ d', reconcile_clients ids (cfg_clients (cf_served c)) d = Ok (tt, d')
    ∧ (∀ cc h headers token n, cc ∈ file → auth_api_token_sha256 (cc_auth cc) = Some h →
         bearer_token headers = Some token → sha256_hex token = digest_text h →
         ∃ id s', authenticate_client (cf_served c) headers alone (n, (t, d'))
                  = (Ok (configured_row id cc), s'))
    ∧ (∀ headers row n s',
         authenticate_client (cf_served c) headers alone (n, (t, d')) = (Ok row, s') →
         ∃ cc id token, cc ∈ file ∧ row = configured_row id cc
           ∧ bearer_token headers = Some token ∧ binds cc token (cf_served c)).
Proof.
  intros Hload Hwf Hfresh Hinj file. apply bind_Ok in Hload as ([] & Hv & [= <-]).
  pose proof (validate_distinct _ Hv) as Hdist. apply validate_clients in Hv as (Hnd & Hok & _).
  assert (Hfile : cfg_clients (cf_served (normalize (with_database_url env_url parsed)))
                  = map normalize_client file) by (by destruct env_url).
  rewrite Hfile in *.
  destruct (reconcile_clients_correct _ ids d Hwf Hfresh Hinj Hnd Hdist)
    as (d' & Hd' & Hwf' & _ & Hconf & Hother & _).
  exists d'. split; [done|]. assert (Ha : applied_to (map normalize_client file) d') by done.
  set (served := cf_served (normalize (with_database_url env_url parsed))) in *.
  assert (Hin : ∀ cc, cc ∈ file → normalize_client cc ∈ map normalize_client file)
    by (intros; by apply list_elem_of_fmap_2).
  split.
  - intros cc h headers token n Hcc Hh Hb Hsha. pose proof (Hok _ (Hin _ Hcc)) as Hcok.
    assert (Hnh : auth_api_token_sha256 (cc_auth (normalize_client cc)) = Some (digest_text h))
      by (cbn; by rewrite Hh).
    assert (Hlow : digest_text (digest_text h) = digest_text h).
    { rewrite digest_text_id by (by eapply co_digest). unfold digest_text. by rewrite to_lower_idemp. }
    destruct (token_row served _ d' _ _ Ha Hdist Hok (Hin _ Hcc) Hnh Hlow) as [id Hid].
    exists id. rewrite (configured_row_normalize served) in Hid by done.
    assert (Hm : hash_matches (configured_row id cc) (digest_text h) = true).
    { unfold hash_matches, configured_row. cbn. rewrite Hh. cbn. fold (digest_text h).
      unfold ct_eq, digest_text. rewrite to_lower_idemp. apply eqb_refl. }
    eexists. eapply authenticate_client_found; [exact Hb|by rewrite Hsha|by rewrite Hsha|done].
  - intros headers row n [n' w'] HH. apply authenticate_client_row in HH as (key & token & Hb & Hr & He & Hc).
    destruct (applied_row _ d' key row Ha Hr) as [(cc & id & Hcc & ->)|[Hd _]]; [|congruence].
    apply list_elem_of_fmap in Hcc as (c0 & -> & Hc0).
    exists c0, id, token. pose proof (Hok _ (Hin _ Hc0)) as Hcok.
    rewrite (configured_row_normalize served) in * by done.
    split; [done|]. split; [done|]. split; [done|]. unfold binds.
    pose proof (co_one _ _ Hcok) as Hone. destruct Hc as [Hc|(review & aud & Ht & Hau & Hs & Haud & Hina)].
    + cbn in Hc, Hone. destruct (auth_api_token_sha256 (cc_auth c0)) as [h|]; [|done].
      destruct (auth_service_account (cc_auth c0)); [done|]. by injection Hc.
    + cbn in Hs, Haud, Hone. destruct (auth_service_account (cc_auth c0)) as [sa|]; [|done].
      destruct (auth_api_token_sha256 (cc_auth c0)); [done|].
      injection Hs as Hs. injection Haud as <-. by exists review.
Qed.

(** ** A configuration *)
Module ConfigExample.
Import ApiExample.
Definition secret_token : string := "0123456789abcdef0123456789abcdef".
(** Its digest, as typed: upper case, with a newline. *)
Definition typed : string := to_ascii_uppercase (sha256_hex secret_token) +:+ String LF "".
Definition build_bot : ClientConfig :=
  mkClientConfig "build-bot" Tier.Direct [Mechanism.CliRead; Mechanism.Brokered]
    (mkClientAuthConfig (Some typed) None) false.
Definition rule : PolicyConfig :=
  mkPolicyConfig (Some "build-bot") None None Mechanism.Brokered "auto-approve" 0
    ["api.example.com"] ["get"] ["/v1"] (Some 600%Z) None None.
Definition parsed : ConfigFile :=
  mkConfigFile "127.0.0.1:8443"
    (mkConfig (mkLimits 10 5 300 3600 1024 60 8 20) [build_bot] None "https://kc")
    false true false None
    (mkHumanAuthConfig HumanAuthMode.Static
       (Some (mkStaticHumanAuth (to_ascii_uppercase (sha256_hex secret_token)) "alice")) None)
    [] [rule]
    (Some (mkPushoverConfig "http://[::1]:9000/push" (Some "t") None (Some "u") None)) 300
    "/etc/keychute/kek.json" None.
Definition env_url : option string := Some "postgres://db/keychute".
Definition loaded : ConfigFile := Eval vm_compute in normalize (with_database_url env_url parsed).
(** The table a former configuration left. *)
Definition old_client : ClientConfig :=
  mkClientConfig "old-bot" Tier.Brokered [Mechanism.Brokered]
    (mkClientAuthConfig (Some (sha256_hex secret_token)) None) true.
Definition rows : gmap Uuid ClientRow := {[7%N := configured_row 7 old_client]}.
Definition table : Db := with_clients (λ _, rows) empty_db.
Lemma rows_at k r : clients table !! k = Some r → k = 7%N ∧ r = configured_row 7 old_client.
Proof.
  change (clients table) with rows. unfold rows. intros Hr. rewrite lookup_singleton_Some in Hr.
  by destruct Hr as [<- <-].
Qed.
Definition ids (n : nat) : Uuid := (500 + N.of_nat n)%N.
Definition presented : HeaderMap := [("authorization", "Bearer " +:+ secret_token)].
End ConfigExample.

Lemma configured_clients_authenticate_witness :
  ∃ d' id s', reconcile_clients ConfigExample.ids (cfg_clients (cf_served ConfigExample.loaded))
                ConfigExample.table = Ok (tt, d')
    ∧ @authenticate_client HttpExample.http SigExample.text ApiExample.wire
        (cf_served ConfigExample.loaded) ConfigExample.presented alone (0, (5%Z, d'))
      = (Ok (configured_row id ConfigExample.build_bot), s').
Proof.
  destruct (@configured_clients_authenticate HttpExample.url HttpExample.http SigExample.text
    ApiExample.wire ConfigExample.parsed ConfigExample.env_url ConfigExample.loaded
    ConfigExample.ids 5%Z ConfigExample.table) as (d' & Hd' & Htoken & _).
  - vm_compute. reflexivity.
  - constructor.
    + intros k r Hr. apply ConfigExample.rows_at in Hr as [-> ->]. reflexivity.
    + intros k k' r r' Hr Hr' _. apply ConfigExample.rows_at in Hr as [-> _], Hr' as [-> _]. reflexivity.
  - intros i. destruct (clients ConfigExample.table !! ConfigExample.ids i) as [r|] eqn:E; [|done].
    apply ConfigExample.rows_at in E as [E _]. unfold ConfigExample.ids in E. lia.
  - intros i j. unfold ConfigExample.ids. lia.
  - destruct (Htoken ConfigExample.build_bot ConfigExample.typed ConfigExample.presented
      ConfigExample.secret_token 0) as (id & s' & Hs').
    + by left.
    + reflexivity.
    + vm_compute. reflexivity.
    + vm_compute. reflexivity.
    + exists d', id, s'. split; [exact Hd'|exact Hs'].
Defined.

(** A file is not refused for what it leaves out: the defaults pass the checks,
    and the default template is a bearer token. *)
Lemma defaults_accepted read :
  let l := default_limits in
  Forall (λ v, check_positive "limit" v = Ok tt)
    [request_expiry_seconds l; replay_window_seconds l; max_pending_per_client l;
     max_waits_per_client l; max_proxy_streams_per_client l; max_deposits_per_hour_per_client l;
     wait_max_seconds l; proxy_max_body_bytes l; default_proxy_stream_deadline_seconds]
  ∧ validate_outbound_https "pushover.base_url" default_pushover_base false = Ok tt
  ∧ resolve read default_injection = Ok ("bearer", None, None).
Proof. split; [by repeat constructor|by split]. Qed.

(** The host of a plaintext address is taken to end at the first colon, so user
    information hides the real one: this address goes to [upstream.example], yet
    passes as a loopback one. *)
Example userinfo_taken_for_host :
  validate_outbound_https "tokenreview_url" "http://localhost:x@upstream.example/" false = Ok tt
  ∧ validate_outbound_https "tokenreview_url" "http://upstream.example/" false
    = Err (PlaintextOutbound "tokenreview_url" "http://upstream.example/").
Proof. split; reflexivity. Qed.
