(* ===== verification/Startup.v ===== *)
(** [server/src/state.rs], [AppState::init], and what it builds from the
    configuration: the keyset, the notifier ([notify/mod.rs]) and the proxy's
    client; the sweeper's loop; and that the tables after [init] are the
    configuration's, a fixed point of the next [init]. *)

From S2P Require Import Prelude RustStr Types Json Crypto Examples SigV4 Http Injection Store.
From S2P Require Import Requests Grants ApiExt Secrets UiExt Policies Clients Provision Notify.
From S2P Require Import Lifecycle Refinement Safety Reconcile Settle Api Push Human NetAddr Config.
Open Scope string_scope.

(** ** The Pushover notifier *)
Inductive CredentialError :=
| CredentialUnreadable (what path : string)
| CredentialMissing (what : string)
| CredentialEmpty (what source : string).

Record PushoverNotifier := mkPushoverNotifier {
  pn_base_url : string;
  pn_token : string;
  pn_user_key : string
}.

(** What a send posts, and to which address. *)
Definition pushover_url (p : PushoverNotifier) : string :=
  trim_end_matches "/" (pn_base_url p) +:+ "/1/messages.json".
Definition pushover_form (p : PushoverNotifier) (n : Notification) : list (string * string) :=
  ([("token", pn_token p); ("user", pn_user_key p);
    ("title", nt_title n); ("message", nt_message n)]
   ++ match nt_url n with Some u => [("url", u)] | None => [] end
   ++ match nt_url_title n with Some t => [("url_title", t)] | None => [] end)%list.

(** [post] is the HTTP client: the status of the answer, or none within the
    timeout. *)
Definition pushover_send (post : string → list (string * string) → option Z)
    (p : PushoverNotifier) (n : Notification) : bool :=
  match post (pushover_url p) (pushover_form p n) with
  | Some status => is_success status
  | None => false
  end.

Section Credentials.
Context (read : string → option string).

(** [std::fs::read_to_string] *)
Definition read_to_string (path : string) : option string :=
  match read path with
  | Some raw => if is_some (utf8_decode raw) then Some raw else None
  | None => None
  end.

Definition load_credential (what : string) (value path : option string)
  : result CredentialError string :=
  '(resolved, source) ← match value, path with
    | Some v, _ => Ok (v, "value")
    | None, Some p =>
        raw ← ok_or (read_to_string p) (CredentialUnreadable what p);
        Ok (trim raw, p)
    | None, None => Err (CredentialMissing what)
    end;
  fail_if eqb (trim resolved) "" with CredentialEmpty what source;
  Ok resolved.

Definition build_pushover (cfg : PushoverConfig) : result CredentialError PushoverNotifier :=
  token ← load_credential "token" (push_token cfg) (push_token_path cfg);
  user_key ← load_credential "user_key" (push_user_key cfg) (push_user_key_path cfg);
  Ok (mkPushoverNotifier (push_base_url cfg) token user_key).
End Credentials.

(** ** Startup *)
Inductive StartupError :=
| StartupDatabase
| KeysetUnreadable (path : string)
| KeysetUnparsable (path : string)
| BadKeyset (e : KeysetError)
| BadConfig (e : ConfigError)
| PushoverMisconfigured (e : CredentialError)
| CaUnreadable (path : string)
| CaUnparsable (path : string)
| NoClient
| BadAddress (addr : string).
#[export] Instance StartupError_db : DbFailure StartupError := StartupDatabase.

(** What the process draws: ids for new rows, and the ephemeral key. *)
Record StartupDraws := mkStartupDraws {
  draw_clients : nat → Uuid;
  draw_secrets : nat → SecretDraw;
  draw_policies : nat → Uuid;
  draw_ephemeral : EphemeralKek
}.

(** What else the process starts with: its files, [serde_json] on a keyset
    file, [reqwest]'s PEM bundles, proxy client and POST. *)
Class Process := {
  file : string → option string;
  parse_keyset : string → option KeysetFile;
  Certificate : Type;
  from_pem_bundle : string → option (list Certificate);
  Client : Type;
  build_client : list Certificate → option Client;
  post : string → list (string * string) → option Z
}.

(** [Inner]; its counters and wake-ups start empty. *)
Record Inner `{Process} := mkInner {
  in_config : ConfigFile;
  in_keyset : Keyset;
  in_ephemeral_kek : EphemeralKek;
  in_notifier : Notifier;
  in_upstream : Client
}.

Section Startup.
Context `{UrlLib, UuidText, Primitives, Process}.
Notation Startup := (Handler StartupError).

Definition Keyset_load (path : string) : result StartupError Keyset :=
  raw ← ok_or (read_to_string file path) (KeysetUnreadable path);
  parsed ← ok_or (parse_keyset raw) (KeysetUnparsable path);
  map_err BadKeyset (from_file parsed).

Definition build_notifier (c : ConfigFile) : result StartupError Notifier :=
  match cf_pushover c with
  | Some cfg =>
      n ← map_err PushoverMisconfigured (build_pushover file cfg);
      Ok (mkNotifier true (pushover_send post n))
  | None => Ok NullNotifier
  end.

Definition upstream_client (c : ConfigFile) : result StartupError Client :=
  roots ← match cf_upstream_ca_path c with
          | Some path =>
              pem ← ok_or (file path) (CaUnreadable path);
              ok_or (from_pem_bundle pem) (CaUnparsable path)
          | None => Ok []
          end;
  ok_or (build_client roots) NoClient.

(** [reconcile_secrets], a transaction per secret. *)
Fixpoint reconcile_each_secret (keyset : Keyset) (draws : nat → SecretDraw)
    (ws : list DesiredSecret) : Startup (list (string * SecretChange.t)) :=
  match ws with
  | [] => mret []
  | w :: ws =>
      change ← transact (λ now d, reconcile_one_secret now keyset (draws 0%nat) w d);
      changes ← reconcile_each_secret keyset (λ n, draws (S n)) ws;
      mret ((ds_name w, change) :: changes)
  end.
Fixpoint delete_each_secret (stale : list SecretRow) : Startup unit :=
  match stale with
  | [] => mret tt
  | s :: stale =>
      _ ← transact (λ now d,
            delete_secret_audited now (sr_id s) (sr_current_version s) CONFIG_ACTOR d);
      delete_each_secret stale
  end.
Definition stale_secrets (desired : list DesiredSecret) (d : Db) : list SecretRow :=
  select (λ s, sr_managed_by_config s && negb (contains (map ds_name desired) (sr_name s)))
    (secrets d).
Definition reconcile_secrets_live (keyset : Keyset) (draws : nat → SecretDraw)
    (desired : list DesiredSecret) : Startup (list (string * SecretChange.t)) :=
  changes ← reconcile_each_secret keyset draws desired;
  stale ← query (λ _ d, stale_secrets desired d);
  _ ← delete_each_secret stale;
  mret changes.

(** [AppState::init]; the first call is the connection and its migrations. *)
Definition init (r : StartupDraws) (c : ConfigFile) : Startup Inner :=
  keyset ← lift (Keyset_load (cf_kek_file c));
  _ ← query (λ _ _, tt);
  _ ← transact (λ _ d, reconcile_clients (draw_clients r) (cfg_clients (cf_served c)) d);
  desired ← lift (map_err BadConfig (desired_secrets file (cf_secrets c)));
  _ ← reconcile_secrets_live keyset (draw_secrets r) desired;
  policies ← lift (map_err BadConfig (try_map to_new_policy (cf_policies c)));
  _ ← transact (λ now d, reconcile_policies now (draw_policies r) policies d);
  notifier ← lift (build_notifier c);
  upstream ← lift (upstream_client c);
  mret (mkInner _ c keyset (draw_ephemeral r) notifier upstream).

(** ** The sweeper *)

(** What wakes the loop. *)
Inductive Wake := Tick (wall : Uuid → DateTime) (budget : nat) | Shutdown.

(** [spawn_sweeper]'s loop over the wakes: a failed sweep is logged and the loop
    goes on; the first shutdown ends it. *)
Fixpoint sweeper (external_url : string) (notifier : Notifier) (window : Z) (wakes : list Wake)
  : Api (list Notification) :=
  match wakes with
  | [] | Shutdown :: _ => mret []
  | Tick wall budget :: wakes =>
      r ← attempt (sweep_once external_url notifier wall budget window);
      rest ← sweeper external_url notifier window wakes;
      mret (match r with Ok (sent, _) => sent | Err _ => [] end ++ rest)%list
  end.
End Startup.

(** ** Startup alone

    What the transactions compose to when nothing else runs. *)
Section Alone.
Context `{UrlLib, UuidText, Primitives, Process}.

Lemma transact_alone_Ok {E A} `{DbFailure E} (f : DateTime → Db → result DbError (A * Db)) n t d a s' :
  (transact f : Handler E A) alone (n, (t, d)) = (Ok a, s')
  ↔ ∃ d', f t d = Ok (a, d') ∧ s' = (S n, (t, d')).
Proof.
  rewrite transact_Ok. split.
  - intros (w & d' & [= <-] & Hf & ->). by exists d'.
  - intros (d' & Hf & ->). by exists (t, d), d'.
Qed.
Lemma query_alone_Ok {E A} `{DbFailure E} (f : DateTime → Db → A) n t d a s' :
  (query f : Handler E A) alone (n, (t, d)) = (Ok a, s') ↔ a = f t d ∧ s' = (S n, (t, d)).
Proof. rewrite query_alone. cbn. naive_solver. Qed.

Lemma reconcile_each_alone keyset draws ws n t d cs s' :
  reconcile_each_secret keyset draws ws alone (n, (t, d)) = (Ok cs, s')
  ↔ ∃ d', reconcile_each t keyset draws ws d = Ok (cs, d') ∧ s' = ((n + List.length ws)%nat, (t, d')).
Proof.
  revert draws n d cs s'. induction ws as [|w ws IH]; intros draws n d cs s';
    cbn [reconcile_each_secret reconcile_each List.length].
  { rewrite ret_Ok, Nat.add_0_r. naive_solver. }
  rewrite Api_bind_Ok. setoid_rewrite bind_Ok. split.
  - intros (c & s1 & (d1 & HA & ->)%transact_alone_Ok & HH).
    apply Api_bind_Ok in HH as (cs' & s2 & (d2 & HB & ->)%IH & [-> ->]%ret_Ok).
    exists d2. split; [|by rewrite Nat.add_succ_r]. exists (c, d1). split; [done|]. by rewrite HB.
  - intros (d' & ([c d1] & HA & ([cs' d2] & HB & [= <- <-])%bind_Ok) & ->).
    exists c, (S n, (t, d1)). split; [apply transact_alone_Ok; by exists d1|].
    apply Api_bind_Ok. exists cs', ((S n + List.length ws)%nat, (t, d2)).
    split; [apply IH; by exists d2|]. rewrite ret_Ok. split; [done|]. by rewrite Nat.add_succ_r.
Qed.

Lemma delete_each_alone stale n t d x s' :
  delete_each_secret stale alone (n, (t, d)) = (Ok x, s')
  ↔ ∃ d', delete_each t stale d = Ok d' ∧ s' = ((n + List.length stale)%nat, (t, d')).
Proof.
  revert n d s'. induction stale as [|w ws IH]; intros n d s';
    cbn [delete_each_secret delete_each List.length].
  { rewrite ret_Ok, Nat.add_0_r. destruct x. naive_solver. }
  rewrite Api_bind_Ok. setoid_rewrite bind_Ok. split.
  - intros (c & s1 & (d1 & HA & ->)%transact_alone_Ok & (d2 & HB & ->)%IH).
    exists d2. split; [|by rewrite Nat.add_succ_r]. by exists (c, d1).
  - intros (d' & ([c d1] & HA & HB) & ->).
    exists c, (S n, (t, d1)). split; [apply transact_alone_Ok; by exists d1|].
    apply IH. exists d'. split; [done|]. by rewrite Nat.add_succ_r.
Qed.

(** The secrets' transactions compose to [Provision.reconcile_secrets]. *)
Lemma reconcile_secrets_alone keyset draws ws n t d cs s' :
  reconcile_secrets_live keyset draws ws alone (n, (t, d)) = (Ok cs, s')
  → ∃ d' m, reconcile_secrets t keyset draws ws d = Ok (cs, d') ∧ s' = (m, (t, d')).
Proof.
  unfold reconcile_secrets_live, reconcile_secrets.
  intros (cs' & s1 & (d1 & HA & ->)%reconcile_each_alone & HH)%Api_bind_Ok.
  apply Api_bind_Ok in HH as (stale & s2 & [-> ->]%query_alone_Ok & HH).
  apply Api_bind_Ok in HH as (x & s3 & (d2 & HB & ->)%delete_each_alone & [-> ->]%ret_Ok).
  exists d2. eexists. split; [|done]. rewrite HA. cbn. fold (stale_secrets ws d1). by rewrite HB.
Qed.
Lemma reconcile_secrets_live_run keyset draws ws n t d cs d' :
  reconcile_secrets t keyset draws ws d = Ok (cs, d') →
  ∃ m, reconcile_secrets_live keyset draws ws alone (n, (t, d)) = (Ok cs, (m, (t, d'))).
Proof.
  unfold reconcile_secrets_live, reconcile_secrets.
  intros ([cs' d1] & HA & (d2 & HB & [= <- <-])%bind_Ok)%bind_Ok. fold (stale_secrets ws d1) in HB.
  eexists. apply Api_bind_Ok. eexists _, _. split; [apply reconcile_each_alone; eauto|].
  apply Api_bind_Ok. eexists _, _. split; [by apply query_alone_Ok|].
  apply Api_bind_Ok. exists tt. eexists _. split; [apply delete_each_alone; eauto|by apply ret_Ok].
Qed.
End Alone.

(** ** What a configuration that loads promises startup *)
Section Loaded.
Context `{UrlLib}.

Lemma check_secrets_NoDup seen l :
  check_secrets seen l = Ok tt →
  NoDup (map sc_name l) ∧ ∀ c, c ∈ l → sc_name c ∉ seen.
Proof.
  revert seen. induction l as [|c l IH]; intros seen; cbn [check_secrets map].
  { intros _. split; [constructor|by intros c ?%elem_of_nil]. }
  destruct (_ || _); [done|]. destruct (contains seen _) eqn:Es; [done|].
  destruct (existsb _ _); [done|]. intros [Hnd Hout]%IH. apply bool_decide_eq_false in Es. split.
  - constructor; [|done]. intros (c' & E & Hc')%list_elem_of_fmap.
    apply (Hout c' Hc'). rewrite <-E. by left.
  - intros c' [->|Hc']%elem_of_cons; [done|]. intros Hin. apply (Hout c' Hc'). by right.
Qed.

Lemma validate_secrets c : validate c = Ok tt → NoDup (map sc_name (cf_secrets c)).
Proof.
  unfold validate. destruct (is_none _); [done|].
  intros (? & _ & (? & _ & (us & Hc & HH)%bind_Ok)%bind_Ok)%bind_Ok.
  do 12 (apply bind_Ok in HH as (? & _ & HH)).
  destruct (bool_decide _); [|done]. cbn [negb] in HH.
  apply bind_Ok in HH as ([] & Hs & _). by apply check_secrets_NoDup in Hs as [? _].
Qed.

Lemma desired_names read l ws :
  desired_secrets read l = Ok ws → map ds_name ws = map sc_name l.
Proof.
  unfold desired_secrets. rewrite try_map_Ok. induction 1 as [|c w l ws Hw _ IH]; [done|].
  cbn. f_equal; [|done]. unfold desired_secret in Hw.
  apply bind_Ok in Hw as ([[? ?] ?] & _ & Hw). apply bind_Ok in Hw as (raw & _ & Hw).
  destruct (eqb _ _); [done|]. by injection Hw as <-.
Qed.
End Loaded.

(** ** The tables after startup *)
Section Settled.
Context `{UrlLib, UuidText, Primitives, Process}.

(** The tables say what the configuration says. *)
Record tables_settled (keyset : Keyset) (c : ConfigFile) (desired : list DesiredSecret)
    (policies : list NewPolicy) (d : Db) : Prop := mk_tables_settled {
  ts_clients : clients_settled (cfg_clients (cf_served c)) d;
  ts_secrets : secrets_settled keyset desired d;
  ts_policies : map row_key (managed_rows d) ≡ₚ map policy_key policies
}.

(** What the draws must not collide with. *)
Record draws_fresh (r : StartupDraws) (d : Db) : Prop := mk_draws_fresh {
  df_clients : ∀ i, clients d !! draw_clients r i = None;
  df_distinct : ∀ i j, draw_clients r i = draw_clients r j → i = j;
  df_sealing : ∀ i, draw_ok (sd_draw (draw_secrets r i))
}.

Lemma clients_settled_same all d d' :
  clients d' = clients d → clients_settled all d → clients_settled all d'.
Proof.
  intros E [[Hpk Hn] Hr Ho]. constructor; [constructor|..]; rewrite E; [exact Hpk|exact Hn|exact Hr|exact Ho].
Qed.

(** Settled tables, started on again. *)
Lemma init_again c r' keyset desired policies notifier upstream n t d :
  validate c = Ok tt → Keyset_load (cf_kek_file c) = Ok keyset →
  desired_secrets file (cf_secrets c) = Ok desired →
  try_map to_new_policy (cf_policies c) = Ok policies →
  build_notifier c = Ok notifier → upstream_client c = Ok upstream →
  tables_settled keyset c desired policies d →
  (∀ now ids, reconcile_policies now ids policies d = Ok (mkPolicyChanges 0 0, d)) →
  ∃ m, init r' c alone (n, (t, d))
       = (Ok (mkInner _ c keyset (draw_ephemeral r') notifier upstream), (m, (t, d))).
Proof.
  intros Hv Hk Hd Hp Hn Hup [Hc Hs _] Hpol.
  pose proof (validate_distinct _ Hv) as Hdist. apply validate_clients in Hv as (Hnd & _ & _).
  destruct (reconcile_secrets_live_run keyset (draw_secrets r') desired (S (S n)) t d _ d
              (reconcile_secrets_again t keyset (draw_secrets r') desired d Hs)) as [m Hm].
  unfold init. rewrite (lift_run _ _ _ _ _ Hk), query_run.
  erewrite transact_run by (by apply reconcile_clients_again).
  rewrite (lift_run _ _ _ _ desired) by (by rewrite Hd). cbn [fst snd].
  erewrite bind_run by exact Hm.
  rewrite (lift_run _ _ _ _ policies) by (by rewrite Hp).
  erewrite transact_run by apply Hpol.
  rewrite (lift_run _ _ _ _ _ Hn), (lift_run _ _ _ _ _ Hup). by eexists.
Qed.

(** What a startup that succeeds did, step by step. *)
Lemma init_Ok r c n t d st s' :
  init r c alone (n, (t, d)) = (Ok st, s') →
  ∃ desired policies cs pc d1 d2 d3 m,
    Keyset_load (cf_kek_file c) = Ok (in_keyset st)
    ∧ reconcile_clients (draw_clients r) (cfg_clients (cf_served c)) d = Ok (tt, d1)
    ∧ desired_secrets file (cf_secrets c) = Ok desired
    ∧ reconcile_secrets t (in_keyset st) (draw_secrets r) desired d1 = Ok (cs, d2)
    ∧ try_map to_new_policy (cf_policies c) = Ok policies
    ∧ reconcile_policies t (draw_policies r) policies d2 = Ok (pc, d3)
    ∧ build_notifier c = Ok (in_notifier st) ∧ upstream_client c = Ok (in_upstream st)
    ∧ in_config st = c ∧ s' = (m, (t, d3)).
Proof.
  unfold init. intros (keyset & s0 & [Hk ->]%lift_Ok & HH)%Api_bind_Ok.
  apply Api_bind_Ok in HH as (u & s1 & [_ ->]%query_alone_Ok & HH).
  apply Api_bind_Ok in HH as ([] & s2 & (d1 & Hc & ->)%transact_alone_Ok & HH).
  apply Api_bind_Ok in HH as (desired & s3 & [Hd%map_err_Ok ->]%lift_Ok & HH).
  apply Api_bind_Ok in HH as (cs & s4 & (d2 & m & Hs & ->)%reconcile_secrets_alone & HH).
  apply Api_bind_Ok in HH as (policies & s5 & [Hp%map_err_Ok ->]%lift_Ok & HH).
  apply Api_bind_Ok in HH as (pc & s6 & (d3 & Hpc & ->)%transact_alone_Ok & HH).
  apply Api_bind_Ok in HH as (notifier & s7 & [Hn ->]%lift_Ok & HH).
  apply Api_bind_Ok in HH as (upstream & s8 & [Hr ->]%lift_Ok & [-> ->]%ret_Ok).
  by exists desired, policies, cs, pc, d1, d2, d3, (S m).
Qed.

Lemma untouched_same sid d d' : same_secrets d d' → untouched sid d d'.
Proof.
  intros (E1 & E2 & E3). split; [by rewrite E1|]. split; [|intros; by rewrite E3].
  intros k v _. by rewrite E2.
Qed.
Lemma operators_kept_same ws d d1 d2 d3 :
  same_secrets d d1 → operators_kept ws d1 d2 → same_secrets d2 d3 → operators_kept ws d d3.
Proof.
  intros Ha Hk Hb sid s Hs Hm Hn. assert (Hs1 : secrets d1 !! sid = Some s) by by rewrite (proj1 Ha).
  destruct (untouched_same sid _ _ Ha) as (A1 & A2 & A3), (Hk sid s Hs1 Hm Hn) as (B1 & B2 & B3),
    (untouched_same sid _ _ Hb) as (C1 & C2 & C3).
  split; [congruence|]. split; [eauto|]. intros x. by rewrite C3, B3, A3.
Qed.
Lemma only_clients_others d d' :
  only_clients d d' → same_secrets d d' ∧ policies d' = policies d.
Proof. intros ->. done. Qed.
End Settled.


(** ** A startup *)
Module StartupExample.
#[export] Existing Instance HttpExample.url.
#[export] Existing Instance CryptoExample.primitives.
#[export] Existing Instance uuid_text_example.

Definition files (path : string) : option string :=
  if eqb path "/etc/keychute/kek.json" then Some "keyset"
  else if eqb path "/run/api-token" then Some ("hunter2" +:+ String LF "")
  else if eqb path "/run/push-token" then Some (" app" +:+ String LF "")
  else None.
#[export] Instance process : Process := {|
  file := files;
  parse_keyset := λ raw, if eqb raw "keyset" then Some CryptoExample.file else None;
  Certificate := string;
  from_pem_bundle := λ pem, Some [pem];
  Client := list string;
  build_client := Some;
  post := λ url _, if eqb url "https://push.example/1/messages.json" then Some 200%Z else None
|}.

Definition token : SecretConfig :=
  mkSecretConfig "api-token" "" Tier.Direct ["prod"; "api"; "prod"]
    (mkInjectionConfig "bearer" None None None None None) "/run/api-token".
Definition parsed : ConfigFile :=
  let c := ConfigExample.parsed in
  mkConfigFile (cf_listen_addr c) (cf_served c) (cf_tls c) (cf_allow_insecure_http c)
    (cf_allow_insecure_http_non_loopback c) (cf_database_url c) (cf_human_auth c)
    [token] (cf_policies c)
    (Some (mkPushoverConfig "https://push.example/" None (Some "/run/push-token") (Some "u") None))
    (cf_proxy_stream_deadline_seconds c) (cf_kek_file c) None.
Definition loaded : ConfigFile := Eval vm_compute in
  match load parsed ConfigExample.env_url with Ok c => c | Err _ => parsed end.

(** A former configuration left a secret this one does not name. *)
Definition draws (from : N) : StartupDraws :=
  mkStartupDraws (λ i, from + N.of_nat i)%N
    (λ i, mkSecretDraw (from + 1000 + N.of_nat i)%N (from + 2000 + N.of_nat i)%N CryptoExample.draw)
    (λ i, from + 3000 + N.of_nat i)%N (CryptoExample.key "e").
Definition old_secrets : list DesiredSecret :=
  [mkDesiredSecret "old-token" "" 3 "bearer" None None [] "swordfish"].
Definition before : Db := Eval vm_compute in
  match reconcile_secrets 5 CryptoExample.new_set (draw_secrets (draws 1)) old_secrets empty_db with
  | Ok (_, d) => d | Err _ => empty_db end.
Definition outcome : result StartupError Inner * St := init (draws 10000) loaded alone (0, (9%Z, before)).
Definition state : Inner :=
  match outcome.1 with Ok st => st
  | Err _ => mkInner _ loaded CryptoExample.new_set "" NullNotifier [] end.

Lemma before_inv : inv 5 before ∧ clients before = ∅ ∧ policies before = ∅.
Proof.
  assert (E : reconcile_secrets 5 CryptoExample.new_set (draw_secrets (draws 1)) old_secrets empty_db
              = Ok ([("old-token", SecretChange.Created)], before)) by (vm_compute; reflexivity).
  apply reconcile_secrets_settles in E as (Hi & [Hc Hp] & _); [done|apply inv_empty| |].
  - intros i. repeat split.
  - apply NoDup_singleton.
Qed.
End StartupExample.
Import StartupExample.

