(* ===== verification/FirstStart.v ===== *)
(** The first startup of an installation: on the empty database, with a
    configuration that loads and files that can be read, [Startup.init]
    succeeds. *)

From S2P Require Import Prelude RustStr Types Paths Json Crypto Examples SigV4 Http Injection Store.
From S2P Require Import Requests Grants ApiExt Secrets UiExt Policies Clients Provision Notify.
From S2P Require Import Lifecycle Refinement Safety Reconcile Settle Api Push Human NetAddr Config Startup.
Open Scope string_scope.

(** ** What the configuration promises the tables *)
Section Promises.
Context `{UrlLib}.

Lemma desired_kind read l ws w :
  desired_secrets read l = Ok ws → w ∈ ws → valid_injection_kind (ds_injection_kind w) = true.
Proof.
  unfold desired_secrets. rewrite try_map_Ok. intros Hl [i Hi]%list_elem_of_lookup.
  destruct (Forall2_lookup_r _ _ _ _ _ Hl Hi) as (c & _ & Hc). unfold desired_secret in Hc.
  apply bind_Ok in Hc as ([[kind h] u] & Hk & Hc). apply bind_Ok in Hc as (raw & _ & Hc).
  destruct (eqb _ _); [done|]. injection Hc as <-. cbn. unfold resolve in Hk.
  apply bind_Ok in Hk as (name & _ & (scope & _ & (text & _ & Hk)%bind_Ok)%bind_Ok).
  destruct (_ && _); [done|]. destruct (_ && _); [done|]. apply map_err_Ok in Hk.
  by eapply validate_injection_kind.
Qed.

Lemma to_new_policy_checked p np :
  to_new_policy p = Ok np →
  valid_outcome (np_outcome np) = true ∧ is_some (np_secret_name np) && is_some (np_secret_tag np) = false.
Proof.
  unfold to_new_policy. destruct (_ && _) eqn:Eb; [done|].
  destruct (negb (contains _ _)) eqn:Eo; [done|]. apply negb_false_iff in Eo.
  intros (origins & _ & HH)%bind_Ok. destruct (_ && contains _ _); [done|].
  apply bind_Ok in HH as (methods & _ & (prefixes & _ & HH)%bind_Ok).
  destruct (not_positive _); [done|]. destruct (not_positive _); [done|]. by injection HH as <-.
Qed.
Lemma validate_policies c :
  validate c = Ok tt → ∃ ps, try_map to_new_policy (cf_policies c) = Ok ps.
Proof.
  unfold validate. destruct (is_none _); [done|].
  intros (? & _ & (? & _ & (us & Hc & HH)%bind_Ok)%bind_Ok)%bind_Ok.
  do 12 (apply bind_Ok in HH as (? & _ & HH)).
  destruct (bool_decide _); [|done]. cbn [negb] in HH.
  apply bind_Ok in HH as (? & _ & HH). apply bind_Ok in HH as (u & Hp & _).
  apply try_map_all. intros p Hin. destruct (try_map_each _ _ _ Hp p Hin) as [y Hx].
  apply bind_Ok in Hx as (np & Hnp & _). by exists np.
Qed.
End Promises.

(** ** Each step succeeds *)
Section Steps.
Context `{UuidText, Primitives}.
Context (keyset : Keyset) (Hkeys : keyset_wf keyset).
(** XChaCha20-Poly1305 takes every message under keys and nonces of its sizes. *)
Hypothesis aead_total : ∀ k n a m,
  len k = KEY_LEN → len n = NONCE_LEN → is_Some (aead_encrypt k n a m).

Lemma Keyset_seal_total draw pt a : draw_ok draw → ∃ s, Keyset_seal keyset draw pt a = Ok s.
Proof.
  intros (Hd & Hp & Hw). destruct (wf_active _ Hkeys) as [kek Hkek].
  unfold Keyset_seal, Keyset_kek, seal_with_kek. rewrite Hkek. cbn.
  destruct (aead_total (dek draw) (payload_nonce draw) (derive a) pt Hd Hp) as [ct ->]. cbn.
  destruct (aead_total kek (wrap_nonce draw) DEK_WRAP_AAD (dek draw)) as [wct ->];
    [by eapply wf_lengths|done|]. by eexists.
Qed.

(** The ids the secrets still to come will get are free, and so are their names. *)
Record room (draws : nat → SecretDraw) (ws : list DesiredSecret) (d : Db) : Prop := mk_room {
  rm_secret : ∀ i, secrets d !! sd_secret_id (draws i) = None;
  rm_version : ∀ i, secret_versions d !! sd_version_id (draws i) = None;
  rm_name : ∀ w k s, w ∈ ws → secrets d !! k = Some s → sr_name s ≠ ds_name w
}.

Lemma create_secret_total now draws w ws d :
  inv now d → draw_ok (sd_draw (draws 0%nat)) → valid_injection_kind (ds_injection_kind w) = true →
  (∀ i j, sd_secret_id (draws i) = sd_secret_id (draws j) → i = j) →
  (∀ i j, sd_version_id (draws i) = sd_version_id (draws j) → i = j) →
  ds_name w ∉ map ds_name ws → room draws (w :: ws) d →
  ∃ d', reconcile_one_secret now keyset (draws 0%nat) w d = Ok (SecretChange.Created, d')
    ∧ room (λ n, draws (S n)) ws d'.
Proof.
  intros Hi Hdraw Hkind Hs Hv Hn [Rs Rv Rn]. set (r := draws 0%nat) in *.
  assert (Hnone : get_secret_by_name (ds_name w) d = None).
  { apply find_row_None. intros k s Hk. unfold eqb. apply bool_decide_eq_false.
    apply (Rn w k s); [by left|done]. }
  destruct (Keyset_seal_total (sd_draw r) (ds_value w) (SecretVersion (sd_secret_id r) 1) Hdraw)
    as [sealed Hseal].
  set (row := provisioned_row now (sd_secret_id r) w).
  set (v := version_row (sd_version_id r) (sd_secret_id r) 1 sealed now None).
  assert (E1 : insert_secret row d = Ok (put_secret row d)).
  { unfold insert_secret. cbn [sr_injection_kind row provisioned_row]. rewrite Hkind. cbn [negb].
    rewrite (Rs 0%nat : secrets d !! sr_id row = None). cbn [is_some].
    rewrite (proj2 (exists_row_false _ _)); [done|]. intros k s Hk. unfold eqb.
    apply bool_decide_eq_false. apply (Rn w k s); [by left|done]. }
  assert (E2 : insert_version now keyset r (sd_secret_id r) 1 (ds_value w) (put_secret row d)
               = Ok (put_version v (put_secret row d))).
  { unfold insert_version. rewrite Hseal. cbn [map_err mbind result_bind].
    unfold insert_secret_version_row. fold v.
    change (secret_versions (put_secret row d)) with (secret_versions d).
    rewrite (Rv 0%nat : secret_versions d !! sv_id v = None). cbn [is_some].
    rewrite (proj2 (exists_row_false _ _)).
    - change (secrets (put_secret row d) !! sv_secret_id v) with (secrets (put_secret row d) !! sr_id row).
      cbn [secrets put_secret with_secrets]. by rewrite lookup_insert_eq.
    - intros k x Hk. destruct (eqb (sv_secret_id x) (sv_secret_id v)) eqn:E; [|done]. kbool.
      destruct (wf_version_fk _ (inv_wf _ _ Hi) _ _ Hk) as [s Hx]. rewrite E in Hx.
      assert (Hno : Some s = None) by (rewrite <-Hx; exact (Rs 0%nat)). done. }
  assert (E3 : ∃ d3, replace_tags (sd_secret_id r) (ds_tags w) (put_version v (put_secret row d)) = Ok d3
                 ∧ secrets d3 = <[sd_secret_id r := row]> (secrets d)
                 ∧ secret_versions d3 = <[sd_version_id r := v]> (secret_versions d)).
  { unfold replace_tags, insert_tags.
    replace (is_none (secrets (delete_tags (sd_secret_id r) (put_version v (put_secret row d)))
                        !! sd_secret_id r)) with false by (cbn; by rewrite lookup_insert_eq).
    rewrite andb_false_r. by eexists. }
  destruct E3 as (d3 & E3 & Es & Ev).
  eexists. split; [unfold reconcile_one_secret; rewrite Hnone; fold row; rewrite E1; cbn [mbind result_bind]; rewrite E2;
    cbn [mbind result_bind]; rewrite E3; reflexivity|].
  split.
  - intros i. cbn. rewrite Es. rewrite lookup_insert_ne; [apply Rs|]. intros E. by apply Hs in E.
  - intros i. cbn. rewrite Ev. rewrite lookup_insert_ne; [apply Rv|]. intros E. by apply Hv in E.
  - intros w' k s Hw'. cbn. rewrite Es, lookup_insert_Some. intros [[_ <-]|[_ Hk]].
    + intros E. apply Hn. cbn in E. rewrite E. by apply list_elem_of_fmap_2.
    + apply (Rn w' k s); [by right|done].
Qed.

Lemma reconcile_each_total now draws ws d :
  inv now d → (∀ i, draw_ok (sd_draw (draws i))) →
  (∀ w, w ∈ ws → valid_injection_kind (ds_injection_kind w) = true) →
  (∀ i j, sd_secret_id (draws i) = sd_secret_id (draws j) → i = j) →
  (∀ i j, sd_version_id (draws i) = sd_version_id (draws j) → i = j) →
  NoDup (map ds_name ws) → room draws ws d →
  ∃ cs d', reconcile_each now keyset draws ws d = Ok (cs, d').
Proof.
  revert draws d. induction ws as [|w ws IH]; intros draws d Hi Hdraw Hkind Hs Hv Hnd Hroom.
  { by exists [], d. }
  cbn [map] in Hnd. apply NoDup_cons in Hnd as [Hn Hnd]. cbn [reconcile_each].
  destruct (create_secret_total now draws w ws d) as (d1 & E1 & Hroom1); try done;
    [apply Hkind; by left|].
  rewrite E1. cbn [mbind result_bind].
  destruct (IH (λ n, draws (S n)) d1) as (cs & d2 & E2).
  - by eapply steps_inv, reconcile_one_secret_steps.
  - intros i. apply Hdraw.
  - intros x Hx. apply Hkind. by right.
  - intros i j E. apply Hs in E. by injection E.
  - intros i j E. apply Hv in E. by injection E.
  - done.
  - done.
  - rewrite E2. by eexists _, _.
Qed.

Lemma delete_each_total now stale d : ∃ d', delete_each now stale d = Ok d'.
Proof.
  revert d. induction stale as [|s stale IH]; intros d; cbn [delete_each]; [by eexists|].
  assert (E : ∃ x d1, delete_secret_audited now (sr_id s) (sr_current_version s) CONFIG_ACTOR d = Ok (x, d1)).
  { unfold delete_secret_audited. destruct (secrets d !! sr_id s); [|by eexists _, _].
    destruct (negb _); by eexists _, _. }
  destruct E as (x & d1 & ->). cbn [mbind result_bind]. apply IH.
Qed.

Lemma reconcile_secrets_total now draws ws d :
  inv now d → (∀ i, draw_ok (sd_draw (draws i))) →
  (∀ w, w ∈ ws → valid_injection_kind (ds_injection_kind w) = true) →
  (∀ i j, sd_secret_id (draws i) = sd_secret_id (draws j) → i = j) →
  (∀ i j, sd_version_id (draws i) = sd_version_id (draws j) → i = j) →
  NoDup (map ds_name ws) → room draws ws d →
  ∃ cs d', reconcile_secrets now keyset draws ws d = Ok (cs, d').
Proof.
  intros Hi Hdraw Hkind Hs Hv Hnd Hroom.
  destruct (reconcile_each_total now draws ws d) as (cs & d1 & E1); try done.
  unfold reconcile_secrets. rewrite E1. cbn [mbind result_bind].
  match goal with |- context [delete_each now ?l d1] =>
    destruct (delete_each_total now l d1) as [d2 E2] end.
  rewrite E2. by eexists _, _.
Qed.
End Steps.

(** Policy rows, where there are none. *)
Lemma insert_wanted_total `{UuidText} now ids wanted d :
  (∀ i, policies d !! ids i = None) → (∀ i j, ids i = ids j → i = j) →
  (∀ w, w ∈ wanted → valid_outcome (np_outcome w.2) = true
     ∧ is_some (np_secret_name w.2) && is_some (np_secret_tag w.2) = false) →
  ∃ d', insert_wanted now ids wanted d = Ok d'.
Proof.
  revert ids d. induction wanted as [|[key p] wanted IH]; intros ids d Hfree Hinj Hok;
    cbn [insert_wanted]; [by eexists|].
  destruct (Hok (key, p)) as [Ho Ht]; [by left|]. cbn [snd] in *.
  unfold insert_policy_row at 1. cbn [po_outcome po_secret_name po_secret_tag policy_row po_id].
  rewrite Ho, Ht, Hfree. cbn [negb is_some mbind result_bind]. apply IH.
  - intros i. cbn. rewrite lookup_insert_ne; [apply Hfree|]. intros E. by apply Hinj in E.
  - intros i j E. apply Hinj in E. by injection E.
  - intros w Hw. apply Hok. by right.
Qed.
Lemma reconcile_policies_total `{UuidText} now ids desired d :
  policies d = ∅ → (∀ i j, ids i = ids j → i = j) →
  (∀ p, p ∈ desired → valid_outcome (np_outcome p) = true
     ∧ is_some (np_secret_name p) && is_some (np_secret_tag p) = false) →
  ∃ x d', reconcile_policies now ids desired d = Ok (x, d').
Proof.
  intros Hempty Hinj Hok. unfold reconcile_policies. rewrite Hempty.
  change (select po_managed_by_config (∅ : gmap Uuid PolicyRow)) with ([] : list PolicyRow).
  cbn [drop_unwanted].
  destruct (insert_wanted_total now ids (map (λ p, (policy_key p, p)) desired) d) as [d' ->].
  - intros i. by rewrite Hempty, lookup_empty.
  - done.
  - intros w (p & -> & Hp)%list_elem_of_fmap. by apply Hok.
  - by eexists _, _.
Qed.

(** Draws that do not repeat an id. *)
Record draws_distinct (r : StartupDraws) : Prop := mk_draws_distinct {
  dd_clients : ∀ i j, draw_clients r i = draw_clients r j → i = j;
  dd_secrets : ∀ i j, sd_secret_id (draw_secrets r i) = sd_secret_id (draw_secrets r j) → i = j;
  dd_versions : ∀ i j, sd_version_id (draw_secrets r i) = sd_version_id (draw_secrets r j) → i = j;
  dd_policies : ∀ i j, draw_policies r i = draw_policies r j → i = j;
  dd_sealing : ∀ i, draw_ok (sd_draw (draw_secrets r i))
}.

(** C27: a new installation starts.  On the empty database, with a configuration
    that loads, a keyset file that is one, secret files and push credentials
    that can be read and ids that do not repeat, startup succeeds: no constraint
    of the schema, no check of the policies and no sealing stands in its way. *)
Theorem first_start_succeeds `{UrlLib, UuidText, Primitives, Process}
    parsed env_url c r t n keyset desired notifier upstream :
  (∀ k n a m, len k = KEY_LEN → len n = NONCE_LEN → is_Some (aead_encrypt k n a m)) →
  load parsed env_url = Ok c → Keyset_load (cf_kek_file c) = Ok keyset →
  desired_secrets file (cf_secrets c) = Ok desired →
  build_notifier c = Ok notifier → upstream_client c = Ok upstream → draws_distinct r →
  ∃ st s', init r c alone (n, (t, empty_db)) = (Ok st, s') ∧ in_keyset st = keyset.
Proof.
  intros Haead Hload Hk Hd Hn Hup [Hc1 Hs1 Hv1 Hp1 Hdraw].
  assert (Hv : validate c = Ok tt) by (by apply bind_Ok in Hload as ([] & Hv & [= <-])).
  pose proof (validate_distinct _ Hv) as Hdist. pose proof (validate_clients _ Hv) as (Hnd & _ & _).
  destruct (validate_policies _ Hv) as [ps Hps].
  assert (Hkeys : keyset_wf keyset).
  { apply bind_Ok in Hk as (raw & _ & (f & _ & Hf%map_err_Ok)%bind_Ok).
    by apply from_file_Ok in Hf as [? _]. }
  destruct (reconcile_clients_correct (cfg_clients (cf_served c)) (draw_clients r) empty_db)
    as (d1 & E1 & _ & Honly & _); [split; cbn; intros; by simplify_map_eq|done..|].
  pose proof (steps_inv _ _ _ (inv_empty t) (reconcile_clients_steps t _ _ _ _ _ E1)) as Hi1.
  apply only_clients_others in Honly as [(Es & Ev & _) Ep].
  destruct (reconcile_secrets_total keyset Hkeys Haead t (draw_secrets r) desired d1)
    as (cs & d2 & E2); [done|done| |done|done| | |].
  { intros w Hw. by eapply desired_kind. }
  { rewrite (desired_names _ _ _ Hd). by apply validate_secrets. }
  { split; [intros i; by rewrite Es|intros i; by rewrite Ev|].
    intros w k s _ Hs. rewrite Es in Hs. cbn in Hs. by simplify_map_eq. }
  pose proof E2 as E2'. apply reconcile_secrets_settles in E2' as (_ & [_ Ep2] & _);
    [|done|done|rewrite (desired_names _ _ _ Hd); by apply validate_secrets].
  destruct (reconcile_policies_total t (draw_policies r) ps d2) as (pc & d3 & E3);
    [by rewrite Ep2, Ep|done| |].
  { rewrite try_map_Ok in Hps. intros np [i Hi]%list_elem_of_lookup.
    destruct (Forall2_lookup_r _ _ _ _ _ Hps Hi) as (p & _ & Hnp). by eapply to_new_policy_checked. }
  destruct (reconcile_secrets_live_run keyset (draw_secrets r) desired (S (S n)) t d1 cs d2 E2) as [m Em].
  eexists _, _. unfold init. rewrite (lift_run _ _ _ _ _ Hk), query_run.
  erewrite transact_run by exact E1.
  rewrite (lift_run _ _ _ _ desired) by (by rewrite Hd). cbn [fst snd].
  erewrite bind_run by exact Em.
  rewrite (lift_run _ _ _ _ ps) by (by rewrite Hps).
  erewrite transact_run by exact E3.
  rewrite (lift_run _ _ _ _ _ Hn), (lift_run _ _ _ _ _ Hup). by split.
Qed.

Import StartupExample.

Lemma first_start_succeeds_witness :
  ∃ st s', init (draws 10000) loaded alone (0, (9%Z, empty_db)) = (Ok st, s')
    ∧ in_keyset st = CryptoExample.new_set.
Proof.
  eapply (first_start_succeeds parsed ConfigExample.env_url loaded (draws 10000) 9 0 CryptoExample.new_set).
  - intros k n a m _ _. by eexists.
  - vm_compute. reflexivity.
  - vm_compute. reflexivity.
  - vm_compute. reflexivity.
  - reflexivity.
  - reflexivity.
  - split; intros i; try intros j; unfold draws; cbn [draw_clients draw_secrets draw_policies sd_secret_id sd_version_id].
    + lia.
    + lia.
    + lia.
    + lia.
    + repeat split.
Defined.
