(* ===== verification/Ui.v ===== *)
(** [server/src/ui/mod.rs], what every POST handler of the operator's pages
    shares: errors, the application state, authentication and the form guard,
    and the reading of form fields. *)

From S2P Require Import Prelude RustStr Types Json Crypto SigV4 Http Injection Store Requests Api.
From S2P Require Import Csrf Human.
Open Scope string_scope.

Definition BAD_REQUEST : Z := 400.
Definition NOT_FOUND : Z := 404.
Definition CONFLICT : Z := 409.

Record UiError := mkUiError { err_status : Z; err_msg : string }.
Definition bad_request (msg : string) : UiError := mkUiError BAD_REQUEST msg.
(** [From<anyhow::Error>] *)
Definition internal_error : UiError := mkUiError INTERNAL_SERVER_ERROR "internal error".
#[export] Instance UiError_db : DbFailure UiError := internal_error.
#[export] Instance UiError_eq_dec : EqDecision UiError.
Proof. solve_decision. Defined.

(** Where a form's submission leads: back to a list, or to the page again
    (status 409) with a notice. *)
Inductive UiResponse := Redirect (to : string) | Rerender (notice : string).

Definition R_APPROVE : string := "/ui/requests/approve".
Definition R_DENY : string := "/ui/requests/deny".
Definition R_REVOKE : string := "/ui/grants/revoke".
Definition R_POLICY_CREATE : string := "/ui/policies/create".
Definition R_POLICY_DELETE : string := "/ui/policies/delete".
Definition R_POLICY_UPDATE : string := "/ui/policies/update".
Definition R_SECRET_SAVE : string := "/ui/secrets/save".
Definition R_SECRET_UPDATE : string := "/ui/secrets/update".
Definition R_SECRET_ROTATE : string := "/ui/secrets/rotate".
Definition R_SECRET_REVEAL : string := "/ui/secrets/reveal".
Definition R_SECRET_VET : string := "/ui/secrets/vet".
Definition R_SECRET_DELETE : string := "/ui/secrets/delete".
Definition R_SECRET_DELETE_CONFIRM : string := "/ui/secrets/delete-confirm".

(** ** Form fields *)
Definition non_empty (v : option string) : option string :=
  s ← trim <$> v;
  if eqb s "" then None else Some s.

(** [s.parse::<iN>()]: a sign, at least one digit, within the type. *)
Definition parse_int (min max : Z) (s : string) : option Z :=
  n ← match s with
      | String "-" r => Z.opp <$> (if is_empty (list_ascii_of_string r) then None else parse_digits r 0)
      | String "+" r => if is_empty (list_ascii_of_string r) then None else parse_digits r 0
      | "" => None
      | r => parse_digits r 0
      end;
  if (min <=? n)%Z && (n <=? max)%Z then Some n else None.
Definition parse_i32 : string → option Z := parse_int (- i32_MAX - 1) i32_MAX.
Definition i64_MAX : Z := 2 ^ 63 - 1.
Definition parse_i64 : string → option Z := parse_int (- i64_MAX - 1) i64_MAX.

Definition tier_from_str (s : string) : option Tier.t :=
  if eqb s "brokered" then Some Tier.Brokered
  else if eqb s "trusted-client" then Some Tier.TrustedClient
  else if eqb s "cooperating-client" then Some Tier.CooperatingClient
  else if eqb s "direct" then Some Tier.Direct
  else None.

(** A field of a number that may only shrink what was requested. *)
Definition parse_narrow_u64 (input : option string) (requested : Z) (what : string)
  : result UiError Z :=
  match input with
  | None => Ok requested
  | Some raw =>
      v ← ok_or (parse_uint u64_MAX raw) (bad_request ("invalid " +:+ what));
      fail_if (v =? 0)%Z with bad_request (what +:+ " must be positive");
      fail_if (requested <? v)%Z
        with bad_request (what +:+ " may only narrow the request (requested "
                          +:+ Z_to_string requested +:+ ")");
      Ok v
  end.

(** A credential typed into a form: its bytes as they are, not trimmed. *)
Definition take_secret_value (v : option string) : option string :=
  s ← v;
  if eqb s "" then None else Some s.

Definition validate_injection (kind : string) (header scope : option string)
  : result UiError (string * option string * option string) :=
  map_err bad_request (Injection.validate_injection kind header scope).

(** ** Who posts what *)
Section Guard.
Context `{JoseLib, HttpLib, UrlLib, !OriginLib, SigText, FormLib}.

(** The application state the pages read. *)
Record AppState := mkAppState {
  st_config : Config;
  st_human : HumanAuthConfig;
  st_tls : bool;
  st_keyset : Keyset;
  st_ephemeral : EphemeralKek
}.
(** What a handler sees of the process besides the database: the headers, the
    process clock and the JWKS cache with what the provider would answer. *)
Record Visit := mkVisit {
  v_headers : HeaderMap;
  v_wall : DateTime;
  v_lookup : Lookup;
  v_jwks : gmap string CachedJwks
}.

Definition operator (st : AppState) (v : Visit) : result UiError Operator :=
  map_err (λ status, mkUiError status
             (if (status =? FORBIDDEN)%Z then "not authorized to operate Keychute"
              else "authentication required"))
    (authenticate_human (st_human st) (v_wall v) (v_headers v) (v_lookup v) (v_jwks v)).1.

Definition check_post (st : AppState) (v : Visit) (b : Binding) (token : string)
  : result UiError unit :=
  fail_if negb (browser_metadata_ok (external_url (st_config st)) (st_tls st) (v_headers v))
    with mkUiError FORBIDDEN "cross-origin request rejected";
  fail_if negb (verify_token (st_keyset st) b token (v_wall v))
    with mkUiError FORBIDDEN "invalid or expired form token; reload the page and retry";
  Ok tt.

(** The first two steps of every POST handler. *)
Definition guard_post (st : AppState) (v : Visit) (route action_id form_state token : string)
  : result UiError Operator :=
  op ← operator st v;
  _ ← check_post st v (mkBinding route action_id (subject op) form_state) token;
  Ok op.

Lemma guard_post_Ok st v route action_id form_state token op :
  guard_post st v route action_id form_state token = Ok op →
  operator st v = Ok op
  ∧ browser_metadata_ok (external_url (st_config st)) (st_tls st) (v_headers v) = true
  ∧ verify_token (st_keyset st) (mkBinding route action_id (subject op) form_state) token
      (v_wall v) = true.
Proof.
  unfold guard_post. intros (op' & Ho & ([] & Hc & [= <-])%bind_Ok)%bind_Ok.
  split; [done|]. unfold check_post in Hc.
  destruct (browser_metadata_ok _ _ _); [|done]. by destruct (verify_token _ _ _ _).
Qed.
End Guard.

(** ** Lemmas on form fields *)
Lemma parse_narrow_Ok input requested what v :
  parse_narrow_u64 input requested what = Ok v →
  (v ≤ requested)%Z ∧ (input = None ∧ v = requested ∨ is_Some input ∧ (1 ≤ v)%Z).
Proof.
  unfold parse_narrow_u64. destruct input as [raw|]; [|by intros [= <-]; auto with lia].
  intros (n & Hn%ok_or_Ok & HH)%bind_Ok. destruct (Z.eqb_spec n 0); [done|].
  destruct (Z.ltb_spec requested n); [done|]. injection HH as <-.
  split; [done|]. right. split; [by eexists|].
  apply Types.parse_uint_nonneg in Hn. lia.
Qed.
