(* ===== verification/UiApprove.v ===== *)
(** [server/src/ui/mod.rs]: the operator's decision on a request (approve, with
    narrowing, a stored, substituted or typed-in secret; deny) and the
    revocation of a grant. *)

From S2P Require Import Prelude RustStr Types Json Crypto Examples SigV4 Http Injection Store Requests Grants.
From S2P Require Import ApiExt Secrets UiExt Policies Clients Provision Lifecycle Refinement Safety Api ApiRequests Csrf Human Ui.
From S2P Require Policy.
Open Scope string_scope.

Record ApproveForm := mkApproveForm {
  af_csrf_token : string;
  af_secret_present : option string;
  af_ttl_seconds : option string;
  af_max_uses : option string;
  af_secret_value : option string;
  af_substitute_secret : option string;
  af_store_secret : option string;
  af_store_max_tier : option string;
  af_injection_kind : option string;
  af_injection_header : option string;
  af_store_description : option string
}.

(** ** Render-time markers *)
Definition parse_secret_present (rendered : option string) : option bool :=
  s ← rendered;
  if eqb s "0" then Some false
  else v ← strip_prefix "1:" s; (λ _, true) <$> parse_i32 v.
Definition secret_state_marker (secret : option SecretRow) : string :=
  match secret with
  | Some s => "1:" +:+ Z_to_string (sr_current_version s)
  | None => "0"
  end.
Definition substitute_option_value (secret : SecretRow) : string :=
  Z_to_string (sr_current_version secret) +:+ ":" +:+ sr_name secret.
Definition parse_substitute_option (raw : string) : option (Z * string) :=
  '(version, name) ← split_once ":" raw;
  version ← parse_i32 version;
  if eqb name "" then None else Some (version, name).

Definition SUBSTITUTE_STATE_CHANGED : string :=
  "The stored secret you picked changed while you were reviewing: it was removed, disabled, or rotated since the page loaded, so approving would have released a version nobody reviewed. Nothing was approved. Pick again.".
Definition SECRET_STATE_CHANGED : string :=
  "This secret changed while you were reviewing: it was stored, removed, or rotated since the page loaded, so the form no longer meant what it said. Nothing was approved. Check the details below and decide again.".
Definition quoted (s : string) : string := String "034" (s +:+ String "034" "").

(** [as i64], for [Duration::seconds]. *)
Definition as_i64 (z : Z) : Z := if (z <=? i64_MAX)%Z then z else (z - 2 ^ 64)%Z.
Definition policy_cap_elapsed (policy_not_after : option DateTime) (now : DateTime) : bool :=
  match policy_not_after with Some cap => (cap <=? now)%Z | None => false end.
Definition cap_at (cap : option DateTime) (t : DateTime) : DateTime :=
  match cap with Some c => Z.min t c | None => t end.

Definition malformed_form : UiError :=
  bad_request "malformed approval form; reload the page and retry".

(** What is released under a grant: the stored secret by name and row, an extra
    expiry cap, a secret to store, or a sealed payload. *)
Record Release := mkRelease {
  rel_name : string;
  rel_secret_id : option Uuid;
  rel_cap : option DateTime;
  rel_store : option StoreSecretParams;
  rel_passthrough : option PassthroughPayload
}.
(** Random draws of one approval. *)
Record ApproveFresh := mkApproveFresh {
  fr_grant : Uuid;
  fr_secret : Uuid;
  fr_version : Uuid;
  fr_draw : Draw
}.

(** The uses a request asks for, and the narrowed ones. *)
Definition base_uses (mechanism : Mechanism.t) (k : Constraints) : option Z :=
  if Mechanism.is_releasing mechanism then Some 1%Z else max_uses k.
Definition narrow_uses (input : option string) (base : option Z) : result UiError (option Z) :=
  match input with
  | None => Ok base
  | Some raw => v ← parse_narrow_u64 (Some raw) (default u64_MAX base) "max_uses"; Ok (Some v)
  end.

(** The stored secret the request names. *)
Definition stored_release (mechanism : Mechanism.t) (s : SecretRow) (name : string)
  : result UiError Release :=
  fail_if negb (sr_enabled s) with bad_request "secret is disabled";
  fail_if (sr_max_tier s <? Tier.as_int (Mechanism.tier mechanism))%Z
    with bad_request "requested mechanism exceeds the secret's max tier";
  Ok (mkRelease name (Some (sr_id s)) None None None).

Section Approve.
Context `{UuidText, Primitives, !FormLib, JoseLib, HttpLib, UrlLib, !OriginLib, SigText, JsonBytes}.

Definition parse_constraints (row : AccessRequestRow) : result UiError Constraints :=
  ok_or (Constraints_of_value url_host_str (ar_constraints row)) internal_error.
Definition parse_mechanism (s : string) : result UiError Mechanism.t :=
  ok_or (Mechanism.from_str_opt s) internal_error.

(** The policy engine on the secret the operator picked instead. *)
Definition substitution_decision (client : ClientRow) (tags : list string)
    (policies : list PolicyRow) (chosen : SecretRow) (mechanism : Mechanism.t) (k : Constraints)
    (now : DateTime) : result UiError Policy.Evaluation :=
  let requested := Policy.mkRequestedGrant (sr_name chosen) mechanism k in
  '(pclient, psecret, prows) ←
    map_err (λ _, bad_request "the policy table holds a rule that applies to that secret and cannot be read; fix it before releasing this secret")
      (policy_inputs client (Some chosen) tags requested policies now);
  ok_or (Policy.evaluate MAX_UTC uuid_display pclient psecret tags requested prows now)
    internal_error.
Definition evaluate_substitution (row : AccessRequestRow) (chosen : SecretRow)
    (mechanism : Mechanism.t) (k : Constraints) (now : DateTime)
  : Handler UiError Policy.Evaluation :=
  client ← query (λ _ d, get_client_by_name (ar_client_name row) d);
  client ← lift (ok_or client (bad_request "the requesting client no longer exists"));
  tags ← query (λ _ d, get_tags_for_secret (sr_id chosen) d);
  policies ← query (λ _ d, list_policies d);
  lift (substitution_decision client tags policies chosen mechanism k now).

(** Another stored secret; [None] when it changed since the page rendered. *)
Definition substitute_release (row : AccessRequestRow) (mechanism : Mechanism.t)
    (effective : Constraints) (now : DateTime) (mixed : bool) (raw : string)
  : Handler UiError (option Release) :=
  _ ← lift (fail_if mixed
              with bad_request "choose either a stored secret or a new value to store, not both";
            Ok tt);
  '(picked_version, picked_name) ← lift (ok_or (parse_substitute_option raw) malformed_form);
  chosen ← query (λ _ d, get_secret_by_name picked_name d);
  match chosen with
  | None => mret None
  | Some chosen =>
      if negb (sr_enabled chosen) || negb (sr_current_version chosen =? picked_version)%Z
      then mret None
      else
        _ ← lift (fail_if (sr_max_tier chosen <? Tier.as_int (Mechanism.tier mechanism))%Z
                    with bad_request "that secret's max tier is below the tier being approved";
                  Ok tt);
        evaluation ← evaluate_substitution row chosen mechanism effective now;
        _ ← lift (match Policy.decision evaluation with
                  | Policy.Decision.Deny reason =>
                      Err (bad_request ("standing policy refuses that secret for "
                                        +:+ ar_client_name row +:+ ": " +:+ reason))
                  | _ => Ok tt
                  end);
        _ ← lift (fail_if policy_cap_elapsed (Policy.policy_not_after evaluation) now
                    with bad_request "the standing policy governing that secret has expired: any grant issued now would already be past its cap";
                  Ok tt);
        mret (Some (mkRelease (sr_name chosen) (Some (sr_id chosen))
                      (Policy.policy_not_after evaluation) None None))
  end.

(** A value typed into the form: stored, or released once. *)
Definition entered_release (st : AppState) (fresh : ApproveFresh) (form : ApproveForm)
    (mechanism : Mechanism.t) (name : string) (value : string) (store_requested : bool)
  : result UiError Release :=
  if store_requested then
    max_tier ← match non_empty (af_store_max_tier form) with
               | None => Ok (Mechanism.tier mechanism)
               | Some raw => ok_or (tier_from_str raw) (bad_request "invalid max_tier")
               end;
    fail_if negb (eqb max_tier (Mechanism.tier mechanism))
      with bad_request "stored max_tier must equal the requested mechanism's tier: an approval cannot store a secret at a broader tier than the access it grants";
    '(kind, header, username) ←
      validate_injection (default "bearer" (non_empty (af_injection_kind form)))
        (non_empty (af_injection_header form)) None;
    let secret_id := fr_secret fresh in
    Ok (mkRelease name (Some secret_id) None
          (Some (mkStoreSecretParams secret_id name
                   (default "" (non_empty (af_store_description form))) (Tier.as_int max_tier)
                   kind header username
                   (Keyset_seal (st_keyset st) (fr_draw fresh) value (SecretVersion secret_id 1))))
          None)
  else
    fail_if eqb mechanism Mechanism.Brokered
      with bad_request ("brokered grants need a stored secret (injection template): check "
                        +:+ quoted "store this secret in Keychute");
    passthrough ← map_err (λ _, internal_error)
                    (PassthroughPayload_seal (st_ephemeral st) (fr_draw fresh) (fr_grant fresh) value);
    Ok (mkRelease name None None None (Some passthrough)).

(** What the answer of the form releases, against the secret stored now. *)
Definition choose_release (st : AppState) (fresh : ApproveFresh) (form : ApproveForm)
    (row : AccessRequestRow) (mechanism : Mechanism.t) (effective : Constraints) (now : DateTime)
    (secret : option SecretRow) : Handler UiError (option Release) :=
  let secret_value := take_secret_value (af_secret_value form) in
  let substitute := non_empty (af_substitute_secret form) in
  let store_requested := is_some (non_empty (af_store_secret form)) in
  _ ← lift (fail_if is_some secret && (is_some secret_value || is_some substitute)
              with malformed_form; Ok tt);
  match secret, substitute with
  | None, Some raw =>
      substitute_release row mechanism effective now (is_some secret_value || store_requested) raw
  | Some s, _ =>
      r ← lift (stored_release mechanism s (ar_secret_name row));
      mret (Some r)
  | None, None =>
      value ← lift (ok_or secret_value
                (bad_request "this secret is not stored: pick a stored secret to release instead, or enter the value"));
      r ← lift (entered_release st fresh form mechanism (ar_secret_name row) value store_requested);
      mret (Some r)
  end.

(** The grant an approval mints. *)
Definition approval_grant (row : AccessRequestRow) (ttl : Z) (max_uses : option Z)
    (now : DateTime) (r : Release) : GrantParams :=
  let not_after := cap_at (ar_policy_not_after row) (now + seconds (as_i64 ttl))%Z in
  mkGrantParams (ar_client_name row) (rel_name r) (rel_secret_id r) (ar_mechanism row)
    (ar_constraints row) (cap_at (rel_cap r) not_after) (Z.min i32_MAX <$> max_uses)
    (rel_passthrough r).

Definition approval_response (o : ApproveOutcome.t) : result UiError UiResponse :=
  match o with
  | ApproveOutcome.Approved _ => Ok (Redirect "/ui/requests")
  | ApproveOutcome.NotApprovable =>
      Err (mkUiError CONFLICT "request was resolved or expired concurrently")
  | ApproveOutcome.SecretNameTaken =>
      Err (mkUiError CONFLICT "a secret with that name was stored while you were reviewing. Nothing was approved — reload the request and decide against the secret that is now stored.")
  | ApproveOutcome.SecretGone =>
      Err (mkUiError CONFLICT "that secret was deleted while you were reviewing. Nothing was approved — reload the request and decide again.")
  end.

(** The request can still be approved. *)
Definition check_approvable (row : AccessRequestRow) (now : DateTime) : result UiError unit :=
  fail_if negb (is_pending row) || (ar_expires_at row <=? now)%Z
    with mkUiError CONFLICT "request is no longer pending";
  fail_if policy_cap_elapsed (ar_policy_not_after row) now
    with mkUiError CONFLICT "the standing policy this request matched has expired: the request is no longer approvable and must be re-submitted";
  Ok tt.

(** [POST /ui/requests/{id}/approve] *)
Definition approve (st : AppState) (v : Visit) (fresh : ApproveFresh) (id : Uuid)
    (form : ApproveForm) : Handler UiError UiResponse :=
  let submitted_marker := default "" (non_empty (af_secret_present form)) in
  op ← lift (guard_post st v R_APPROVE (uuid_display id) submitted_marker (af_csrf_token form));
  _ ← lift (ok_or (parse_secret_present (non_empty (af_secret_present form))) malformed_form);
  row ← query (λ _ d, get_request id d);
  row ← lift (ok_or row (mkUiError NOT_FOUND "no such request"));
  now ← query (λ now _, now);
  _ ← lift (check_approvable row now);
  mechanism ← lift (parse_mechanism (ar_mechanism row));
  k ← lift (parse_constraints row);
  ttl ← lift (parse_narrow_u64 (non_empty (af_ttl_seconds form)) (ttl_seconds k) "ttl_seconds");
  uses ← lift (narrow_uses (non_empty (af_max_uses form)) (base_uses mechanism k));
  secret ← query (λ _ d, get_secret_by_name (ar_secret_name row) d);
  if negb (eqb submitted_marker (secret_state_marker secret))
  then mret (Rerender SECRET_STATE_CHANGED)
  else
    let effective := mkConstraints (origins k) (methods k) (path_prefixes k) ttl
                       (Z.min u32_MAX <$> uses) in
    release ← choose_release st fresh form row mechanism effective now secret;
    match release with
    | None => mret (Rerender SUBSTITUTE_STATE_CHANGED)
    | Some r =>
        outcome ← transact (λ t d, approve_request t (fr_version fresh) id (subject op)
                    (fr_grant fresh) (approval_grant row ttl uses now r) (rel_store r) d);
        lift (approval_response outcome)
    end.

(** [POST /ui/requests/{id}/deny] *)
Definition deny (st : AppState) (v : Visit) (id : Uuid) (csrf_token : string)
  : Handler UiError UiResponse :=
  op ← lift (guard_post st v R_DENY (uuid_display id) "" csrf_token);
  denied ← transact (λ now d, resolve_deny now id (subject op) "denied by operator" d);
  if (denied : bool) then mret (Redirect "/ui/requests")
  else throw (mkUiError CONFLICT "request is no longer pending").

(** [POST /ui/grants/{id}/revoke] *)
Definition revoke (st : AppState) (v : Visit) (id : Uuid) (csrf_token : string)
  : Handler UiError UiResponse :=
  op ← lift (guard_post st v R_REVOKE (uuid_display id) "" csrf_token);
  revoked ← transact (λ now d, revoke_grant now id (subject op) d);
  if (revoked : bool) then mret (Redirect "/ui/grants")
  else throw (mkUiError CONFLICT "grant is no longer active").
End Approve.

(** ** What an approval commits *)

Lemma approve_request_commits now vid rid by_ gid g store d gid' d' :
  db_wf d → approve_request now vid rid by_ gid g store d = Ok (ApproveOutcome.Approved gid', d') →
  (now < gp_not_after g)%Z
  ∧ (∃ r, access_requests d !! rid = Some r ∧ ar_state r = PENDING
       ∧ access_requests d' !! rid = Some (set_approved by_ now r))
  ∧ grants d' !! gid = Some (new_grant_row gid rid now g)
  ∧ match store with
    | None => secrets d' = secrets d ∧ (gp_passthrough g = None → same_row g d = true)
    | Some s => ∃ sealed, ss_seal s = Ok sealed
        ∧ secrets d' !! ss_secret_id s = Some (new_secret_row now s true)
        ∧ secret_versions d' !! vid = Some (version_row vid (ss_secret_id s) 1 sealed now (Some rid))
    end.
Proof.
  intros Hwf. unfold approve_request. destruct (_ && negb _) eqn:Hsame; [done|].
  destruct (guarded_request _ _ _) as [r|] eqn:Hr; [|done].
  apply guarded_request_Some in Hr as [Hr Hg]. apply andb_true_iff in Hg as [Hp Hn].
  apply live_pending_state in Hp. apply Z.ltb_lt in Hn.
  intros ([d2|] & Hst & HH)%bind_Ok; [|done]. apply bind_Ok in HH as (d3 & Hi & [= _ <-]).
  apply insert_grant_Ok in Hi as [-> _]. pose proof (request_at _ _ _ Hwf Hr) as Hid.
  split; [done|]. unfold store_with_approval in Hst. destruct store as [s|].
  - apply bind_Ok in Hst as (sealed & Hseal%map_err_Ok & ([d1|] & Hs & Hst)%bind_Ok); [|done].
    apply insert_secret_or_nothing_Ok in Hs as [-> _].
    apply bind_Ok in Hst as (d1 & (-> & _)%insert_version_row_Ok & [= <-]).
    split; [|split].
    + exists r. split; [done|]. split; [done|]. cbn. by rewrite Hid, lookup_insert_eq.
    + cbn. by rewrite lookup_insert_eq.
    + exists sealed. cbn. by rewrite !lookup_insert_eq.
  - injection Hst as <-. split; [|split].
    + exists r. split; [done|]. split; [done|]. cbn. by rewrite Hid, lookup_insert_eq.
    + cbn. by rewrite lookup_insert_eq.
    + split; [done|]. intros Hpt. rewrite Hpt in Hsame. cbn in Hsame. by kbool.
Qed.

Lemma cap_at_le cap t : (cap_at cap t ≤ t)%Z ∧ ∀ c, cap = Some c → (cap_at cap t ≤ c)%Z.
Proof. destruct cap as [c|]; cbn; split; try done; [lia|]. intros c' [= <-]. lia. Qed.
Lemma as_i64_le z : (as_i64 z ≤ z)%Z.
Proof. unfold as_i64. destruct (_ <=? _)%Z; lia. Qed.

(** The uses granted against those asked for: a bound stays a bound and is not
    raised, and a bound the operator set is positive. *)
Definition uses_narrowed (asked granted : option Z) : Prop :=
  match asked, granted with
  | Some u, Some g => (g ≤ u)%Z
  | Some _, None => False
  | None, Some g => (1 ≤ g)%Z
  | None, None => True
  end.

Lemma narrow_uses_Ok input base uses :
  narrow_uses input base = Ok uses → uses_narrowed base (Z.min i32_MAX <$> uses).
Proof.
  unfold narrow_uses. destruct input as [raw|].
  - intros (v & Hv & [= <-])%bind_Ok. apply parse_narrow_Ok in Hv as [Hle [[? _]|[_ Hpos]]]; [done|].
    unfold i32_MAX. destruct base; cbn in *; lia.
  - intros [= <-]. destruct base; cbn; lia.
Qed.

Section ApproveFacts.
Context `{UuidText, Primitives, !FormLib, JoseLib, HttpLib, UrlLib, !OriginLib, SigText, JsonBytes}.
Context (env : Env) (Henv : env_ok env).

(** What the form's answer releases, decided on rows read after [w]. *)
Section Chosen.
Context (st : AppState) (fresh : ApproveFresh) (form : ApproveForm) (w : World).
Context (row : AccessRequestRow) (m : Mechanism.t) (effective : Constraints) (now : DateTime).

(** The state of the requested secret the page was rendered with. *)
Definition marker (shown : string) : Prop := default "" (non_empty (af_secret_present form)) = shown.
Definition usable (s : SecretRow) : Prop :=
  sr_enabled s = true ∧ (Tier.as_int (Mechanism.tier m) ≤ sr_max_tier s)%Z.

Inductive chosen : Release → Prop :=
| chosen_stored s wq :
    later w wq → get_secret_by_name (ar_secret_name row) wq.2 = Some s →
    marker ("1:" +:+ Z_to_string (sr_current_version s)) → usable s →
    chosen (mkRelease (ar_secret_name row) (Some (sr_id s)) None None None)
| chosen_substitute raw name s wq client wc wt wp e :
    marker "0" → non_empty (af_substitute_secret form) = Some raw →
    parse_substitute_option raw = Some (sr_current_version s, name) →
    later w wq → get_secret_by_name name wq.2 = Some s → usable s →
    later wq wc → get_client_by_name (ar_client_name row) wc.2 = Some client →
    later wc wt → later wt wp →
    substitution_decision client (get_tags_for_secret (sr_id s) wt.2) (list_policies wp.2)
      s m effective now = Ok e →
    (∀ reason, Policy.decision e ≠ Policy.Decision.Deny reason) →
    chosen (mkRelease (sr_name s) (Some (sr_id s)) (Policy.policy_not_after e) None None)
| chosen_new_stored value description kind header username :
    marker "0" → af_secret_value form = Some value →
    chosen (mkRelease (ar_secret_name row) (Some (fr_secret fresh)) None
              (Some (mkStoreSecretParams (fr_secret fresh) (ar_secret_name row) description
                       (Tier.as_int (Mechanism.tier m)) kind header username
                       (Keyset_seal (st_keyset st) (fr_draw fresh) value
                          (SecretVersion (fr_secret fresh) 1)))) None)
| chosen_once value payload :
    marker "0" → af_secret_value form = Some value → m ≠ Mechanism.Brokered →
    PassthroughPayload_seal (st_ephemeral st) (fr_draw fresh) (fr_grant fresh) value
      = Ok payload →
    chosen (mkRelease (ar_secret_name row) None None None (Some payload)).
End Chosen.

Lemma take_secret_value_Some v s : take_secret_value v = Some s → v = Some s.
Proof. unfold take_secret_value. destruct v as [x|]; cbn; [|done]. destruct (eqb x ""); congruence. Qed.

Lemma substitute_release_chosen st fresh form w row m effective now mixed raw n wq n' w' r :
  later w wq → marker form "0" → non_empty (af_substitute_secret form) = Some raw →
  substitute_release row m effective now mixed raw env (n, wq) = (Ok (Some r), (n', w')) →
  later wq w' ∧ chosen st fresh form w row m effective now r.
Proof.
  intros Hw Hm Hraw. unfold substitute_release. intros HH.
  api_check HH Hmixed. api_lift HH picked Hp. destruct picked as [pv pn]. apply ok_or_Ok in Hp.
  api_query HH Henv c w3 Hl3.
  destruct (get_secret_by_name pn w3.2) as [s|] eqn:Es; [|by apply ret_Ok in HH as [? _]].
  destruct (negb _ || _) eqn:Estale; [by apply ret_Ok in HH as [? _]|].
  apply orb_false_iff in Estale as [Een Ev]. apply negb_false_iff in Een, Ev.
  apply Z.eqb_eq in Ev as <-. api_check HH Ht.
  destruct (sr_max_tier s <? _)%Z eqn:Etier; [done|]. apply Z.ltb_ge in Etier.
  apply Api_bind_Ok in HH as (e & [n5 w5] & He & HH). unfold evaluate_substitution in He.
  api_query He Henv cl wc Hlc. api_lift He client Hc. apply ok_or_Ok in Hc.
  api_query He Henv tags wt Hlt. api_query He Henv ps wp Hlp.
  apply lift_Ok in He as [He [= -> ->]]. api_check HH Hd. api_check HH Hcap.
  apply ret_Ok in HH as [[= ->] [= -> ->]].
  split; [by repeat (etrans; [eassumption|])|].
  eapply (chosen_substitute _ _ _ _ _ _ _ _ raw pn s w3 client wc wt wp e); try done;
    [by etrans|].
  intros reason E. by rewrite E in Hd.
Qed.

Lemma choose_release_chosen st fresh form w row m effective now n wq n' w' r :
  later w wq → marker form (secret_state_marker (get_secret_by_name (ar_secret_name row) wq.2)) →
  choose_release st fresh form row m effective now (get_secret_by_name (ar_secret_name row) wq.2)
    env (n, wq) = (Ok (Some r), (n', w')) →
  later wq w' ∧ chosen st fresh form w row m effective now r.
Proof.
  intros Hw Hm. unfold choose_release. intros HH. api_check HH Hboth.
  destruct (get_secret_by_name (ar_secret_name row) wq.2) as [s|] eqn:Es.
  - api_lift HH r' Hr. apply ret_Ok in HH as [[= ->] [= -> ->]]. split; [reflexivity|].
    unfold stored_release in Hr. destruct (sr_enabled s) eqn:Een; [|done]. cbn [negb] in Hr.
    destruct (_ <? _)%Z eqn:Et; [done|]. apply Z.ltb_ge in Et. injection Hr as <-.
    by eapply (chosen_stored _ _ _ _ _ _ _ _ s wq).
  - destruct (non_empty (af_substitute_secret form)) as [raw|] eqn:Eraw.
    { by eapply substitute_release_chosen. }
    api_lift HH typed Hv. apply ok_or_Ok, take_secret_value_Some in Hv.
    api_lift HH r' Hr. apply ret_Ok in HH as [[= ->] [= -> ->]]. split; [reflexivity|].
    unfold entered_release in Hr.
    destruct (is_some (non_empty (af_store_secret form))).
    + apply bind_Ok in Hr as (tier & _ & Hr). destruct (eqb tier _) eqn:Et; [|done]. kbool. subst tier.
      apply bind_Ok in Hr as ([[kind header] username] & _ & [= <-]). by eapply chosen_new_stored.
    + destruct (eqb m Mechanism.Brokered) eqn:Eb; [done|]. kbool.
      apply bind_Ok in Hr as (payload & Hp%map_err_Ok & [= <-]). by eapply chosen_once.
Qed.

(** What the approval leaves in the database for a chosen release. *)
Definition release_in_place (r : Release) (g : GrantRow) (t : DateTime) (version_id : Uuid)
    (d : Db) : Prop :=
  g_passthrough_ciphertext g = pt_ciphertext <$> rel_passthrough r
  ∧ match rel_store r with
    | Some s => ∃ sealed ver, ss_seal s = Ok sealed
        ∧ secrets d !! ss_secret_id s = Some (new_secret_row t s true)
        ∧ secret_versions d !! version_id = Some ver
        ∧ sv_secret_id ver = ss_secret_id s ∧ sv_ciphertext ver = sealed_ciphertext sealed
    | None => rel_passthrough r = None →
        ∃ id s, rel_secret_id r = Some id ∧ secrets d !! id = Some s ∧ sr_name s = rel_name r
    end.

Lemma approval_in_place t vid rid by_ gid row ttl uses now r d gid' d' :
  db_wf d →
  approve_request t vid rid by_ gid (approval_grant row ttl uses now r) (rel_store r) d
    = Ok (ApproveOutcome.Approved gid', d') →
  ∃ g, grants d' !! gid = Some g ∧ g = new_grant_row gid rid t (approval_grant row ttl uses now r)
    ∧ release_in_place r g t vid d'
    ∧ ∃ rq, access_requests d' !! rid = Some rq ∧ ar_state rq = APPROVED
        ∧ ar_resolved_by rq = Some by_.
Proof.
  intros Hwf (_ & (rq & _ & _ & Hrq) & Hg & HH)%approve_request_commits; [|done].
  eexists. split; [exact Hg|]. split; [done|]. split.
  - split; [done|]. destruct (rel_store r) as [s|].
    + destruct HH as (sealed & Hs & Hrow & Hver). eexists sealed, _. repeat split; eauto.
    + destruct HH as [Esec Hsame]. intros Hp. specialize (Hsame Hp). unfold same_row in Hsame.
      cbn in Hsame. destruct (rel_secret_id r) as [id|]; [|done].
      unfold secret_incarnation_exists in Hsame. rewrite <-Esec in Hsame.
      destruct (secrets d' !! id) as [s|] eqn:Es; [|done]. kbool. by exists id, s.
  - eexists. split; [exact Hrq|]. by destruct rq.
Qed.
(** An approval that redirects: what each step of the handler read and found. *)
Lemma approve_run st v fresh id form n w to n' w' :
  approve st v fresh id form env (n, w) = (Ok (Redirect to), (n', w')) →
  ∃ op row m k ttl uses w1 w2 wr wu r gid,
    guard_post st v R_APPROVE (uuid_display id) (default "" (non_empty (af_secret_present form)))
      (af_csrf_token form) = Ok op
    ∧ later w w1 ∧ access_requests w1.2 !! id = Some row
    ∧ later w1 w2 ∧ check_approvable row w2.1 = Ok tt
    ∧ Mechanism.from_str_opt (ar_mechanism row) = Some m
    ∧ Constraints_of_value url_host_str (ar_constraints row) = Some k
    ∧ parse_narrow_u64 (non_empty (af_ttl_seconds form)) (ttl_seconds k) "ttl_seconds" = Ok ttl
    ∧ narrow_uses (non_empty (af_max_uses form)) (base_uses m k) = Ok uses
    ∧ later w2 wr
    ∧ chosen st fresh form w row m
        (mkConstraints (origins k) (methods k) (path_prefixes k) ttl (Z.min u32_MAX <$> uses)) w2.1 r
    ∧ later wr wu
    ∧ approve_request wu.1 (fr_version fresh) id (subject op) (fr_grant fresh)
        (approval_grant row ttl uses w2.1 r) (rel_store r) wu.2
      = Ok (ApproveOutcome.Approved gid, w'.2).
Proof.
  unfold approve. cbv zeta. intros HH.
  api_lift HH oper Hop. apply Api_bind_Ok in HH as (present & s1 & Hx & HH).
  apply lift_Ok in Hx as [_ ->]. api_query HH Henv found w1 Hl1. api_lift HH row Hrow.
  apply ok_or_Ok in Hrow. api_query HH Henv now w2 Hl2. api_check HH Hcheck.
  api_lift HH mech Hm. apply ok_or_Ok in Hm. api_lift HH bounds Hk. apply ok_or_Ok in Hk.
  api_lift HH life Httl. api_lift HH usage Huses.
  api_query HH Henv secret w3 Hl3. destruct (eqb _ (secret_state_marker _)) eqn:Em; cbn [negb] in HH.
  2:{ by apply ret_Ok in HH as [? _]. }
  kbool. assert (Hl : later w w3) by (etrans; [|etrans]; eassumption).
  apply Api_bind_Ok in HH as (release & [n4 w4] & Hrel & HH).
  destruct release as [r|]; [|by apply ret_Ok in HH as [? _]].
  eapply choose_release_chosen in Hrel as [Hl4 Hch]; [|exact Hl|exact Em].
  apply Api_bind_Ok in HH as (outcome & [n5 w5] & Htx & HH).
  eapply transact_later in Htx as (wu & d' & Hlu & Happ & ->); [|exact Henv].
  apply lift_Ok in HH as [Hout [= -> ->]]. destruct outcome as [gid'| | |]; try done.
  exists oper, row, mech, bounds, life, usage, w1, w2, w4, wu, r, gid'.
  by split_and!; try done; etrans.
Qed.
End ApproveFacts.

(** A grant that stays within the request and the policies that govern it. *)
Record narrowed (row : AccessRequestRow) (m : Mechanism.t) (k : Constraints) (r : Release)
    (id : Uuid) (g : GrantRow) : Prop := mk_narrowed {
  nr_request : g_request_id g = id;
  nr_client : g_client_name g = ar_client_name row;
  nr_mechanism : g_mechanism g = ar_mechanism row;
  nr_constraints : g_constraints g = ar_constraints row;
  nr_secret : g_secret_name g = rel_name r;
  nr_lifetime : (g_created_at g < g_not_after g ≤ g_created_at g + seconds (ttl_seconds k))%Z;
  nr_caps : ∀ cap, ar_policy_not_after row = Some cap ∨ rel_cap r = Some cap →
    (g_not_after g ≤ cap)%Z;
  nr_uses : uses_narrowed (base_uses m k) (g_max_uses g)
}.

Lemma approval_narrowed row m k r id gid ttl uses now t :
  (ttl ≤ ttl_seconds k)%Z → (now ≤ t)%Z → uses_narrowed (base_uses m k) (Z.min i32_MAX <$> uses) →
  let g := approval_grant row ttl uses now r in
  (t < gp_not_after g)%Z → narrowed row m k r id (new_grant_row gid id t g).
Proof.
  intros Httl Hnow Huses g Hlive. constructor; try done; cbn.
  - split; [done|]. pose proof (as_i64_le ttl).
    destruct (cap_at_le (ar_policy_not_after row) (now + seconds (as_i64 ttl))) as [H1 _].
    destruct (cap_at_le (rel_cap r) (cap_at (ar_policy_not_after row) (now + seconds (as_i64 ttl))))
      as [H2 _]. unfold seconds, second in *. lia.
  - destruct (cap_at_le (ar_policy_not_after row) (now + seconds (as_i64 ttl))) as [_ H1].
    destruct (cap_at_le (rel_cap r) (cap_at (ar_policy_not_after row) (now + seconds (as_i64 ttl))))
      as [H2 H3]. intros cap [Hc|Hc]; [specialize (H1 _ Hc); lia|by apply H3].
Qed.


(** ** An approval *)
Module ApproveExample.
Import ApiExample RequestExample HumanExample CsrfExample.
#[export] Existing Instance HumanExample.jose.
#[export] Existing Instance CsrfExample.forms.
#[export] Instance origin_lib : OriginLib := {|
  url_scheme := λ _, "https";
  url_username := λ _, "";
  url_password := λ _, None;
  port_or_known_default := λ u, Some (default 443%Z (HttpExample.u_port u))
|}.

Definition bounds : Constraints := mkConstraints [] [] [] 600 (Some 1%Z).
Definition before : list (DateTime * op) :=
  [(seconds 5, OpReconcileClients (λ n, (500 + N.of_nat n)%N) [agent]);
   (seconds 10, OpCreateSecretWithVersion 101 stored "alice");
   (seconds 20, OpInsertRequestWithId 10 99
                  (ApiExample.asked "cli-read" (Constraints_to_value bounds)) (Some 3%Z)
                  InitialResolution.Pending None)].
Definition start : World := Eval vm_compute in (seconds 20, Scenario.db_after before).
Lemma start_reachable : world_reachable start.
Proof.
  apply (Scenario.run_reachable before); [|vm_compute; reflexivity].
  cbn. by repeat (apply Forall_cons; split).
Qed.

Definition state : AppState :=
  mkAppState cfg
    (mkHumanAuthConfig HumanAuthMode.Static (Some (mkStaticHumanAuth "746F6B656E" "alice")) None)
    true keyset ephemeral.
Definition visit : Visit :=
  mkVisit [("authorization", "Bearer token"); ("origin", "https://kc")] (seconds 30)
    published ∅.
Definition token : string :=
  issue_token keyset (mkBinding R_APPROVE "10" "alice" "1:1") (seconds 25).
(** Half the lifetime asked for. *)
Definition form : ApproveForm :=
  mkApproveForm token (Some "1:1") (Some " 300 ") None None None None None None None None.
Definition fresh : ApproveFresh := mkApproveFresh 20 2 102 CryptoExample.draw.
Definition run : result UiError UiResponse * St := approve state visit fresh 10 form alone (0, start).
Definition after : St := Eval vm_compute in run.2.
End ApproveExample.

