(* ===== verification/FormText.v ===== *)
(** The text of the operator's forms ([server/src/ui/mod.rs]): splitting a field
    into items and spelling a path prefix so that it reads back. *)

From S2P Require Import Prelude RustStr RustText Paths SigV4.
Open Scope string_scope.

(** [split(|c| c == ',' || c.is_whitespace())] *)
Definition push (a : ascii) (l : list string) : list string :=
  match l with x :: l => String a x :: l | [] => [String a ""] end.
Fixpoint split_fields (s : string) : list string :=
  match s with
  | "" => [""]
  | String a r =>
      if eqb a ","%char || ws1 a then "" :: split_fields r
      else match r with
           | "" => [s]
           | String b r2 =>
               if ws2 a b then "" :: split_fields r2
               else match r2 with
                    | "" => push a (split_fields r)
                    | String c r3 =>
                        if ws3 a b c then "" :: split_fields r3 else push a (split_fields r)
                    end
           end
  end.

(** [join(", ")], [join("\n")] *)
Fixpoint join_with (sep : string) (l : list string) : string :=
  match l with
  | [] => ""
  | [x] => x
  | x :: l => x +:+ (sep +:+ join_with sep l)
  end.

(** A path prefix as the policy form spells it. *)
Fixpoint path_field (canonical : string) : string :=
  match canonical with
  | "" => ""
  | String a r =>
      if eqb a "%"%char || ws1 a then escape_byte a +:+ path_field r
      else match r with
           | "" => canonical
           | String b r2 =>
               if ws2 a b then escape_byte a +:+ (escape_byte b +:+ path_field r2)
               else match r2 with
                    | "" => String a (path_field r)
                    | String c r3 =>
                        if ws3 a b c
                        then escape_byte a +:+ (escape_byte b +:+ (escape_byte c +:+ path_field r3))
                        else String a (path_field r)
                    end
           end
  end.

Lemma escape_low b : all_bytes low (escape_byte b) = true.
Proof. destruct b as [[] [] [] [] [] [] [] []]; by vm_compute. Qed.

Lemma solid_escape b t : solid (escape_byte b +:+ t) = solid t.
Proof. apply solid_app_low, escape_low. Qed.

(** ** Path prefixes *)
Lemma path_field_head a r :
  (∃ t, path_field (String a r) = String "%" t)
  ∨ path_field (String a r) = String a (path_field r).
Proof.
  cbn [path_field]. destruct (eqb a _ || ws1 a); [left; by eexists|].
  destruct r as [|b r2]; [by right|]. destruct (ws2 a b); [left; by eexists|].
  destruct r2 as [|c r3]; [by right|]. destruct (ws3 a b c); [left; by eexists|by right].
Qed.

Lemma path_field_raw a r :
  eqb a "%"%char = false → ws_at (String a r) = false →
  path_field (String a r) = String a (path_field r) ∧ ws_at (String a (path_field r)) = false.
Proof.
  intros Hp Hw. split.
  - cbn in Hw. apply orb_false_iff in Hw as [H1 Hw].
    destruct r as [|b r2]; cbn [path_field]; [by rewrite Hp, H1|].
    apply orb_false_iff in Hw as [H2 Hw].
    destruct r2 as [|c r3]; [by rewrite Hp, H1, H2|by rewrite Hp, H1, H2, Hw].
  - assert (P2 : ∀ x, ws2 x "%" = false).
    { intros x. destruct (ws2 x "%") eqn:E; [|done]. by apply ws_second in E as [_ E]. }
    assert (P3 : ∀ x y, ws3 x "%" y = false ∧ ws3 x y "%" = false).
    { intros x y. split; [destruct (ws3 x "%" y) eqn:E|destruct (ws3 x y "%") eqn:E]; try done;
        by apply ws_third in E as (_ & E & E'). }
    cbn in Hw. apply orb_false_iff in Hw as [H1 Hw]. cbn [ws_at]. rewrite H1. cbn [orb].
    destruct r as [|b r2]; [done|]. apply orb_false_iff in Hw as [H2 Hw].
    destruct (path_field_head b r2) as [[t ->]| ->].
    { rewrite P2. destruct t as [|y t]; [done|]. apply P3. }
    rewrite H2. cbn [orb]. destruct r2 as [|c r3]; [done|].
    destruct (path_field_head c r3) as [[t ->]| ->]; [apply P3|done].
Qed.

(** The field holds no whitespace, and decodes to the prefix. *)
Lemma path_field_spec s :
  solid (path_field s) = true
  ∧ (contains_char "\" s = false → percent_decode (path_field s) = Ok s).
Proof.
  remember (String.length s) as n eqn:Hn. revert s Hn.
  induction n as [n IH] using lt_wf_ind. intros s Hn.
  assert (Hgo : ∀ t, (String.length t < n)%nat → solid (path_field t) = true
    ∧ (contains_char "\" t = false → percent_decode (path_field t) = Ok t))
    by (intros t Ht; by apply (IH _ Ht)). clear IH.
  assert (Hne : ∀ b, (eqb b "%"%char || ws1 b) = true ∨ low b = false →
    b ≠ "/"%char ∧ b ≠ "\"%char) by (intros b Hb; split; intros ->; by destruct Hb).
  destruct s as [|a r]; [done|]. cbn in Hn. rewrite contains_char_cons.
  destruct (eqb a "%"%char || ws1 a) eqn:E1.
  { replace (path_field (String a r)) with (escape_byte a +:+ path_field r)
      by (cbn [path_field]; by rewrite E1).
    destruct (Hgo r ltac:(lia)) as [Hs Hd]. rewrite solid_escape. split; [done|].
    intros [_ Hr]%orb_false_iff. destruct (Hne a (or_introl E1)).
    rewrite percent_decode_escape by done. by rewrite Hd. }
  destruct (ws_at (String a r)) eqn:Ew.
  2:{ apply orb_false_iff in E1 as [E1 _].
      destruct (path_field_raw a r E1 Ew) as [-> Hw]. destruct (Hgo r ltac:(lia)) as [Hs Hd].
      cbn [solid]. rewrite Hw, Hs. split; [done|]. intros [Ha Hr]%orb_false_iff.
      cbn [percent_decode]. rewrite E1. rewrite eqb_sym in Ha. rewrite Ha. by rewrite Hd. }
  cbn in Ew. pose proof E1 as [_ Ew1]%orb_false_iff. rewrite Ew1 in Ew. cbn [orb] in Ew.
  destruct r as [|b r2]; [done|]. cbn in Hn. rewrite contains_char_cons.
  destruct (ws2 a b) eqn:E2.
  { replace (path_field _) with (escape_byte a +:+ (escape_byte b +:+ path_field r2))
      by (cbn [path_field]; by rewrite E1, E2).
    destruct (Hgo r2 ltac:(lia)) as [Hs Hd]. rewrite !solid_escape. split; [done|].
    intros [_ [_ Hr]%orb_false_iff]%orb_false_iff. apply ws_second in E2 as [La Lb].
    destruct (Hne a (or_intror La)), (Hne b (or_intror Lb)).
    rewrite !percent_decode_escape by done. by rewrite Hd. }
  cbn [orb] in Ew. destruct r2 as [|c r3]; [done|]. cbn in Hn. rewrite contains_char_cons.
  replace (path_field _) with
    (escape_byte a +:+ (escape_byte b +:+ (escape_byte c +:+ path_field r3)))
    by (cbn [path_field]; by rewrite E1, E2, Ew).
  destruct (Hgo r3 ltac:(lia)) as [Hs Hd]. rewrite !solid_escape. split; [done|].
  intros [_ [_ [_ Hr]%orb_false_iff]%orb_false_iff]%orb_false_iff.
  apply ws_third in Ew as (La & Lb & Lc).
  destruct (Hne a (or_intror La)), (Hne b (or_intror Lb)), (Hne c (or_intror Lc)).
  rewrite !percent_decode_escape by done. by rewrite Hd.
Qed.

Lemma path_field_canonical s : canonical s → canonicalize (path_field s) = Ok s.
Proof.
  intros Hc. apply canonicalize_Ok. destruct (path_field_spec s) as [_ Hd].
  split; [|split; [apply Hd, can_backslash; done|done]].
  pose proof (can_slash _ Hc) as [t ->]%starts_with_spec.
  change ("/" +:+ t) with (String "/" t).
  destruct (path_field_raw "/" t eq_refl (ws_at_low "/" t eq_refl)) as [-> _].
  apply starts_with_spec. by eexists.
Qed.

(** ** Lists *)

(** Joined by line feeds, the entries read back. *)

(** An entry without whitespace and commas is one field. *)
Lemma split_fields_raw a r :
  eqb a ","%char = false → ws_at (String a r) = false →
  split_fields (String a r) = push a (split_fields r).
Proof.
  intros Hc Hw. cbn in Hw. apply orb_false_iff in Hw as [H1 Hw].
  destruct r as [|b r2]; cbn [split_fields]; [by rewrite Hc, H1|].
  apply orb_false_iff in Hw as [H2 Hw]. destruct r2 as [|c r3]; [by rewrite Hc, H1, H2|].
  by rewrite Hc, H1, H2, Hw.
Qed.

Lemma ws_at_app s t a : low a = true → s ≠ "" → ws_at (s +:+ String a t) = ws_at s.
Proof.
  intros Ha Hs. destruct s as [|x [|y [|z s]]]; try done; cbn.
  - f_equal. destruct (ws2 x a) eqn:E; [apply ws_second in E as [_ ?]; congruence|].
    cbn. destruct t as [|b t]; [done|]. destruct (ws3 x a b) eqn:E3; [|done].
    apply ws_third in E3 as (_ & ? & _). congruence.
  - do 2 f_equal. destruct (ws3 x y a) eqn:E3; [|done].
    apply ws_third in E3 as (_ & _ & ?). congruence.
Qed.

Lemma ws_at_prefix s t : ws_at (s +:+ t) = false → ws_at s = false.
Proof.
  destruct s as [|a [|b [|c s]]]; [done| | |]; cbn; rewrite !orb_false_iff; tauto.
Qed.

(** Every field is free of whitespace and commas. *)
Lemma split_fields_cases s :
  s = "" ∨ (∃ r, split_fields s = "" :: split_fields r ∧ (String.length r < String.length s)%nat)
  ∨ ∃ a r, s = String a r ∧ eqb a ","%char = false ∧ ws_at s = false
      ∧ split_fields s = push a (split_fields r).
Proof.
  destruct s as [|a r]; [by left|right]. destruct (eqb a ","%char || ws1 a) eqn:E1.
  { left. exists r. split; [by cbn; rewrite E1|cbn; lia]. }
  apply orb_false_iff in E1 as [Ec E1]. destruct (ws_at (String a r)) eqn:Ew.
  - left. cbn in Ew. rewrite E1 in Ew. cbn in Ew. destruct r as [|b r2]; [done|].
    destruct (ws2 a b) eqn:E2.
    { exists r2. split; [cbn [split_fields]; by rewrite Ec, E1, E2|cbn; lia]. }
    cbn in Ew. destruct r2 as [|c r3]; [done|]. exists r3.
    split; [cbn [split_fields]; by rewrite Ec, E1, E2, Ew|cbn; lia].
  - right. exists a, r. split_and!; try done. by apply split_fields_raw.
Qed.
Lemma split_fields_items s :
  (∃ x l t, split_fields s = x :: l ∧ s = x +:+ t)
  ∧ ∀ x, x ∈ split_fields s → solid x = true ∧ contains_char "," x = false.
Proof.
  remember (String.length s) as n eqn:Hn. revert s Hn.
  induction n as [n IH] using lt_wf_ind. intros s ->.
  destruct (split_fields_cases s) as [->|[(r & E & Hl)|(a & r & -> & Hc & Hw & E)]].
  - split; [by exists "", [], ""|]. intros x ->%list_elem_of_singleton. done.
  - destruct (IH _ Hl r eq_refl) as [_ Hx]. rewrite E. split; [by exists "", (split_fields r), s|].
    intros x [->|Hin]%elem_of_cons; [done|]. by apply Hx.
  - destruct (IH (String.length r) ltac:(cbn; lia) r eq_refl) as [(x & l & t & E' & Hr) Hx].
    rewrite E, E' in *. cbn [push].
    destruct (Hx x ltac:(by left)) as [Hs Hn].
    assert (Hwx : ws_at (String a x) = false)
      by (apply (ws_at_prefix _ t); by rewrite Hr in Hw).
    split; [exists (String a x), l, t; by rewrite Hr|].
    intros y [->|Hin]%elem_of_cons; [|apply Hx; by right].
    cbn [solid]. rewrite Hwx, Hs, contains_char_cons, Hn, eqb_sym, Hc. done.
Qed.

Lemma split_fields_item s t :
  solid s = true → contains_char "," s = false →
  split_fields (s +:+ String "," t) = s :: split_fields t ∧ split_fields s = [s].
Proof.
  induction s as [|a s IH]; [done|]. rewrite contains_char_cons. cbn [solid].
  intros [Hw Hs]%andb_true_iff [Hc Hn]%orb_false_iff. apply negb_true_iff in Hw.
  rewrite eqb_sym in Hc. destruct (IH Hs Hn) as [E1 E2]. split.
  - cbn [String.append]. rewrite split_fields_raw, E1; [done|done|].
    change (String a (s +:+ String "," t)) with (String a s +:+ String "," t).
    by rewrite ws_at_app.
  - by rewrite split_fields_raw, E2.
Qed.

Lemma split_fields_join l :
  (∀ x, x ∈ l → solid x = true ∧ contains_char "," x = false ∧ x ≠ "") →
  List.filter (λ x, negb (eqb x "")) (split_fields (join_with ", " l)) = l.
Proof.
  assert (Hne : ∀ x, x ≠ "" → negb (eqb x "") = true).
  { intros x Hx. unfold eqb. by rewrite bool_decide_eq_false_2. }
  induction l as [|x l IH]; [done|]. intros Hl. destruct (Hl x ltac:(by left)) as (Hs & Hc & Hx).
  assert (Hl' : ∀ y, y ∈ l → solid y = true ∧ contains_char "," y = false ∧ y ≠ "")
    by (intros y Hy; apply Hl; by right). specialize (IH Hl').
  destruct l as [|y l].
  - cbn [join_with]. rewrite (proj2 (split_fields_item x "" Hs Hc)). cbn. by rewrite Hne.
  - change (join_with ", " (x :: y :: l))
      with (x +:+ String "," (String " " (join_with ", " (y :: l)))).
    rewrite (proj1 (split_fields_item x _ Hs Hc)). cbn [List.filter]. rewrite Hne by done. f_equal.
    change (split_fields (String " " (join_with ", " (y :: l))))
      with ("" :: split_fields (join_with ", " (y :: l))). exact IH.
Qed.
