(* ===== verification/UiPolicies.v ===== *)
(** [server/src/ui/mod.rs]: the standing-policy form: how it renders a row, how
    a submission is validated into one, and the handlers that write it. *)

From S2P Require Import Prelude RustStr Types Paths Json Crypto Examples SigV4 Http Injection Store.
From S2P Require Import Requests Policies Lifecycle Refinement Safety Api ApiRequests Csrf Human Ui RustText FormText.
From S2P Require Policy.
Open Scope string_scope.

Record PolicyForm := mkPolicyForm {
  pf_csrf_token : string;
  pf_client_name : option string;
  pf_secret_name : option string;
  pf_secret_tag : option string;
  pf_mechanism : string;
  pf_outcome : string;
  pf_priority : option string;
  pf_origins : option string;
  pf_methods : option string;
  pf_path_prefixes : option string;
  pf_max_ttl_seconds : option string;
  pf_max_uses : option string;
  pf_not_after : option string
}.

Definition POLICY_OUTCOMES : list string :=
  ["require-approval"; "notify-only"; "auto-approve"; "deny"].
Definition MANAGED_POLICY : string :=
  "this policy is provisioned from Keychute's config (GitOps): change or remove it there. An edit here would be reverted on the next restart.".

(** [chrono]'s two spellings of an instant, and what the form relies on: for
    instants of the years 1970 to 9999, each reads back, and the one with
    seconds is refused by the parser without. *)
Definition calendar (t : DateTime) : Prop := (0 ≤ t < seconds 253402300800)%Z.
Class DateTimeText := {
  format_minutes : DateTime → string;
  format_seconds : DateTime → string;
  parse_minutes : string → option DateTime;
  parse_seconds : string → option DateTime;
  format_minutes_solid : ∀ t, calendar t → solid (format_minutes t) = true ∧ format_minutes t ≠ "";
  format_seconds_solid : ∀ t, calendar t → solid (format_seconds t) = true ∧ format_seconds t ≠ "";
  minutes_read : ∀ t, calendar t → (t mod seconds 60 = 0)%Z →
    parse_minutes (format_minutes t) = Some t;
  seconds_read : ∀ t, calendar t → (t mod second = 0)%Z →
    parse_seconds (format_seconds t) = Some t;
  seconds_not_minutes : ∀ t, calendar t → parse_minutes (format_seconds t) = None
}.

(** The non-blank lines or items of a field. *)
Definition entries (parts : list string) : list string :=
  List.filter (λ x, negb (eqb x "")) (map trim parts).

Definition parse_methods_field (raw : string) : result UiError (list string) :=
  try_map (λ m,
    fail_if negb (Policy.is_valid_http_method m) with bad_request "invalid HTTP method";
    Ok (to_ascii_uppercase m)) (entries (split_fields raw)).

(** An optional number that must parse and be positive. *)
Definition positive (parse : string → option Z) (what : string) (v : option string)
  : result UiError (option Z) :=
  match non_empty v with
  | None => Ok None
  | Some raw =>
      match parse raw with
      | Some n => fail_if (n <=? 0)%Z with bad_request ("invalid " +:+ what); Ok (Some n)
      | None => Err (bad_request ("invalid " +:+ what))
      end
  end.

Section PolicyForm.
Context `{UrlLib, DateTimeText}.

Definition parse_policy_form (form : PolicyForm) (created_by : string)
  : result UiError NewPolicy :=
  let secret_name := non_empty (pf_secret_name form) in
  let secret_tag := non_empty (pf_secret_tag form) in
  fail_if is_some secret_name && is_some secret_tag
    with bad_request "set at most one of secret name / secret tag";
  mechanism ← ok_or (Mechanism.from_str_opt (trim (pf_mechanism form)))
                (bad_request "invalid mechanism");
  let outcome := trim (pf_outcome form) in
  fail_if negb (contains POLICY_OUTCOMES outcome) with bad_request "invalid outcome";
  priority ← match non_empty (pf_priority form) with
             | None => Ok 0%Z
             | Some raw => ok_or (parse_i32 raw) (bad_request "invalid priority")
             end;
  origins ← try_map (λ line, map_err (λ _, bad_request "bad origin") (Origin_parse url_host_str line))
              (entries (lines (default "" (pf_origins form))));
  fail_if eqb mechanism Mechanism.Brokered && is_empty origins
          && contains ["auto-approve"; "notify-only"] outcome
    with bad_request "a brokered auto-approve/notify-only policy must name at least one origin: without one it would release the credential to any host the client asks for";
  methods ← parse_methods_field (default "" (pf_methods form));
  path_prefixes ← try_map (λ line, map_err (λ e, bad_request ("bad path prefix: " +:+ e))
                                     (canonicalize line))
                    (entries (lines (default "" (pf_path_prefixes form))));
  max_ttl_seconds ← positive parse_i64 "max_ttl_seconds" (pf_max_ttl_seconds form);
  max_uses ← positive parse_i32 "max_uses" (pf_max_uses form);
  not_after ← match non_empty (pf_not_after form) with
              | None => Ok None
              | Some raw =>
                  match parse_minutes raw with
                  | Some t => Ok (Some t)
                  | None => t ← ok_or (parse_seconds raw) (bad_request "invalid not_after datetime");
                            Ok (Some t)
                  end
              end;
  Ok (mkNewPolicy (non_empty (pf_client_name form)) secret_name secret_tag
        (Mechanism.as_str mechanism) outcome priority (Array (map Origin_to_value origins))
        methods path_prefixes max_ttl_seconds max_uses not_after created_by).

(** ** Rendering *)
Record PolicyFormValues := mkPolicyFormValues {
  pv_client : option string;
  pv_secret : option string;
  pv_tag : option string;
  pv_mechanism : option Mechanism.t;
  pv_outcome : option string;
  pv_priority : string;
  pv_origins : string;
  pv_methods : string;
  pv_paths : string;
  pv_max_ttl : string;
  pv_max_uses : string;
  pv_not_after : string
}.

Definition origin_field (o : Origin) : string :=
  match port o with
  | Some p => host o +:+ ":" +:+ Z_to_string p
  | None => host o
  end.
Definition datetime_local_value (t : DateTime) : string :=
  if (t / second mod 60 =? 0)%Z then format_minutes t else format_seconds t.
Definition opt_text {A} (f : A → string) (v : option A) : string :=
  match v with Some x => f x | None => "" end.

Definition from_row (p : PolicyRow) : PolicyFormValues :=
  mkPolicyFormValues (po_client_name p) (po_secret_name p) (po_secret_tag p)
    (Mechanism.from_str_opt (po_mechanism p)) (Some (po_outcome p)) (Z_to_string (po_priority p))
    (match Origins_of_value url_host_str (po_origins p) with
     | Some os => join LF (map origin_field os)
     | None => ""
     end)
    (join_with ", " (po_methods p))
    (join LF (map path_field (po_path_prefixes p)))
    (opt_text Z_to_string (po_max_ttl_seconds p)) (opt_text Z_to_string (po_max_uses p))
    (opt_text datetime_local_value (po_not_after p)).

(** What a browser submits of the rendered [policy_form], nothing changed: a
    picker's empty option for an absent value, the first option of a select when
    none is selected, and the lines of a text area ended by CR LF. *)
Fixpoint textarea (s : string) : string :=
  match s with
  | "" => ""
  | String a r => if eqb a LF then String CR (String LF (textarea r)) else String a (textarea r)
  end.
Definition policy_form (csrf_token : string) (v : PolicyFormValues) : PolicyForm :=
  mkPolicyForm csrf_token (Some (default "" (pv_client v))) (Some (default "" (pv_secret v)))
    (Some (default "" (pv_tag v)))
    (Mechanism.as_str (default Mechanism.Brokered (pv_mechanism v)))
    (default "require-approval" (pv_outcome v)) (Some (pv_priority v))
    (Some (textarea (pv_origins v))) (Some (pv_methods v)) (Some (textarea (pv_paths v)))
    (Some (pv_max_ttl v)) (Some (pv_max_uses v)) (Some (pv_not_after v)).
End PolicyForm.

(** ** Handlers *)
Section Handlers.
Context `{UuidText, Primitives, !FormLib, JoseLib, HttpLib, UrlLib, !OriginLib, SigText, DateTimeText}.

(** [POST /ui/policies]; [id] is the row's generated id. *)
Definition create_policy (st : AppState) (v : Visit) (id : Uuid) (form : PolicyForm)
  : Handler UiError UiResponse :=
  op ← lift (guard_post st v R_POLICY_CREATE "" "" (pf_csrf_token form));
  policy ← lift (parse_policy_form form (subject op));
  _ ← transact (λ now d, insert_policy_audited now id policy (subject op) d);
  mret (Redirect "/ui/policies").

(** [POST /ui/policies/{id}] *)
Definition update_policy (st : AppState) (v : Visit) (id : Uuid) (form : PolicyForm)
  : Handler UiError UiResponse :=
  op ← lift (guard_post st v R_POLICY_UPDATE (uuid_display id) "" (pf_csrf_token form));
  policy ← lift (parse_policy_form form (subject op));
  outcome ← transact (λ now d, update_policy_audited now id policy (subject op) d);
  match outcome with
  | UpdatePolicyOutcome.Updated => mret (Redirect "/ui/policies")
  | UpdatePolicyOutcome.Managed => throw (mkUiError CONFLICT MANAGED_POLICY)
  | UpdatePolicyOutcome.NotFound => throw (mkUiError CONFLICT "policy no longer exists")
  end.

(** [POST /ui/policies/{id}/delete] *)
Definition delete_policy (st : AppState) (v : Visit) (id : Uuid) (csrf_token : string)
  : Handler UiError UiResponse :=
  op ← lift (guard_post st v R_POLICY_DELETE (uuid_display id) "" csrf_token);
  policies ← query (λ _ d, list_policies d);
  if existsb (λ p, eqb (po_id p) id && po_managed_by_config p) policies
  then throw (mkUiError CONFLICT MANAGED_POLICY)
  else
    deleted ← transact (λ now d, delete_policy_audited now id (subject op) d);
    if (deleted : bool) then mret (Redirect "/ui/policies")
    else throw (mkUiError CONFLICT "policy no longer exists").
End Handlers.

(** ** What a form can write *)

(** An optional text column a form fills: trimmed and not empty. *)
Definition plain (v : option string) : Prop := ∀ s, v = Some s → trim s = s ∧ s ≠ "".
Definition in_type (max : Z) (v : option Z) : Prop := ∀ n, v = Some n → (0 < n ≤ max)%Z.

Lemma non_empty_plain v : plain (non_empty v).
Proof.
  unfold plain, non_empty. intros s. destruct v as [x|]; cbn; [|done].
  destruct (eqb (trim x) "") eqn:E; [done|]. intros [= <-]. kbool. split; [apply trim_idemp|done].
Qed.
Lemma plain_field v : plain v → non_empty (Some (default "" v)) = v.
Proof.
  unfold plain, non_empty. intros Hv. destruct v as [s|]; [|done]. cbn -[trim].
  destruct (Hv s eq_refl) as [-> Hne]. unfold eqb. by rewrite bool_decide_eq_false_2.
Qed.
Lemma plain_some s : plain (Some s) → non_empty (Some s) = Some s.
Proof. apply (plain_field (Some s)). Qed.
Lemma solid_field s : solid s = true → s ≠ "" → non_empty (Some s) = Some s.
Proof.
  intros Hs Hne. unfold non_empty. cbn -[trim]. rewrite solid_trim by done. unfold eqb.
  by rewrite bool_decide_eq_false_2.
Qed.

Lemma low_digit c : is_ascii_digit c = true → low c = true.
Proof.
  intros Hc. assert (HH : ∀ c, implb (is_ascii_digit c) (low c) = true)
    by (apply ascii_all; by vm_compute). specialize (HH c). by rewrite Hc in HH.
Qed.
Lemma Z_to_string_low z : all_bytes low (Z_to_string z) = true ∧ Z_to_string z ≠ "".
Proof.
  unfold Z_to_string. destruct (z <? 0)%Z.
  - split; [|done]. cbn [all_bytes]. apply andb_true_iff. split; [done|].
    eapply all_bytes_mono; [|apply N_to_string_digits]. apply low_digit.
  - split; [eapply all_bytes_mono; [|apply N_to_string_digits]; apply low_digit|].
    by destruct (N_to_string_head (Z.to_N z)) as (c & r & -> & _).
Qed.
Lemma parse_int_Z_to_string min max z :
  (min ≤ z ≤ max)%Z → parse_int min max (Z_to_string z) = Some z.
Proof.
  intros Hz. unfold parse_int.
  assert (Hin : (if (min <=? z)%Z && (z <=? max)%Z then Some z else None) = Some z).
  { rewrite (proj2 (Z.leb_le _ _)), (proj2 (Z.leb_le _ _)) by lia. done. }
  unfold Z_to_string. destruct (Z.ltb_spec z 0).
  - pose proof (parse_N_to_string (Z.abs_N z)) as Hp.
    destruct (N_to_string_head (Z.abs_N z)) as (c & r & E & _). rewrite E in Hp |- *.
    cbn [list_ascii_of_string is_empty]. rewrite Hp. cbn.
    replace (- Z.of_N (Z.abs_N z))%Z with z by lia. exact Hin.
  - pose proof (parse_N_to_string (Z.to_N z)) as Hp.
    destruct (N_to_string_head (Z.to_N z)) as (c & r & E & Hc). rewrite E in Hp |- *.
    assert (Hd : ∀ x : option Z, x = Some z →
      (n ← x; if (min <=? n)%Z && (n <=? max)%Z then Some n else None) = Some z)
      by (intros x ->; exact Hin).
    rewrite Z2N.id in Hp by lia.
    destruct c as [[] [] [] [] [] [] [] []]; try discriminate Hc; by apply Hd.
Qed.

Lemma positive_Ok parse what v n max :
  (∀ s k, parse s = Some k → (k ≤ max)%Z) → positive parse what v = Ok n → in_type max n.
Proof.
  intros Hp. unfold positive, in_type. destruct (non_empty v) as [raw|]; [|by intros [= <-]].
  destruct (parse raw) as [k|] eqn:E; [|done]. destruct (Z.leb_spec k 0); [done|].
  intros [= <-] n' [= <-]. specialize (Hp _ _ E). lia.
Qed.
Lemma positive_text parse what v max :
  (∀ z, (0 < z ≤ max)%Z → parse (Z_to_string z) = Some z) → in_type max v →
  positive parse what (Some (opt_text Z_to_string v)) = Ok v.
Proof.
  intros Hp Hv. unfold positive, opt_text. destruct v as [n|]; [|done].
  destruct (Z_to_string_low n) as [Hl Hne]. rewrite solid_field; [|by apply solid_all_low|done].
  specialize (Hv n eq_refl). rewrite Hp by done. destruct (Z.leb_spec n 0); [lia|done].
Qed.
Lemma parse_int_max min max s k : parse_int min max s = Some k → (min ≤ k ≤ max)%Z.
Proof.
  unfold parse_int. intros (n & _ & HH)%bind_Some.
  destruct (_ && _) eqn:E; [|done]. injection HH as <-. apply andb_true_iff in E. lia.
Qed.

(** Methods: valid ones stay valid in upper case, and hold no separator. *)
Lemma tchar_upper s : all_bytes Policy.tchar s = true →
  all_bytes Policy.tchar (to_ascii_uppercase s) = true.
Proof.
  assert (HH : ∀ c, implb (Policy.tchar c) (Policy.tchar (upper_byte c)) = true)
    by (apply ascii_all; by vm_compute).
  induction s as [|c s IH]; [done|]. cbn. intros [Hc Hs]%andb_true_iff.
  specialize (HH c). rewrite Hc in HH. cbn in HH. rewrite HH. by apply IH.
Qed.
Lemma valid_method_upper m :
  Policy.is_valid_http_method m = true → Policy.is_valid_http_method (to_ascii_uppercase m) = true.
Proof.
  unfold Policy.is_valid_http_method. rewrite !andb_true_iff. intros [[Hne Hl] Ht].
  rewrite len_upper. split; [split; [|done]|by apply tchar_upper]. by destruct m.
Qed.
Lemma valid_method_item m : Policy.is_valid_http_method m = true →
  solid m = true ∧ contains_char "," m = false ∧ m ≠ "".
Proof.
  unfold Policy.is_valid_http_method. rewrite !andb_true_iff. intros [[Hne _] Ht].
  assert (HH : ∀ c, implb (Policy.tchar c) (low c && negb (eqb ","%char c)) = true)
    by (apply ascii_all; by vm_compute).
  assert (Hb : all_bytes (λ c, low c && negb (eqb ","%char c)) m = true).
  { revert Ht. apply all_bytes_mono. intros c Hc. specialize (HH c). by rewrite Hc in HH. }
  split; [|split].
  - apply solid_all_low. revert Hb. apply all_bytes_mono. by intros c [? _]%andb_true_iff.
  - by apply (contains_char_excluded (λ c, low c && negb (eqb ","%char c))).
  - intros ->. done.
Qed.

(** Lines of a submitted text area. *)
Lemma textarea_app s t : textarea (s +:+ t) = textarea s +:+ textarea t.
Proof. induction s as [|a s IH]; cbn; [done|]. by destruct (eqb a LF); cbn; rewrite IH. Qed.
Lemma textarea_id s : contains_char LF s = false → textarea s = s.
Proof.
  induction s as [|a s IH]; [done|]. rewrite contains_char_cons. intros [Ha Hs]%orb_false_iff.
  cbn. rewrite eqb_sym, Ha. by rewrite IH.
Qed.
Lemma textarea_lines l :
  (∀ x, x ∈ l → solid x = true ∧ x ≠ "") → lines (textarea (join LF l)) = l.
Proof.
  intros Hl.
  assert (Hlf : ∀ x, x ∈ l → contains_char LF x = false)
    by (intros x Hx; apply solid_excludes; [done|by apply Hl]).
  assert (Hsp : ∀ x, contains_char LF x = false → split LF x = [x]).
  { intros x Hx. apply (split_join_lf [x]); [done|]. by intros y ->%list_elem_of_singleton. }
  unfold lines. induction l as [|x l IH]; [done|].
  destruct l as [|y l].
  - cbn [join]. rewrite textarea_id by (apply Hlf; by left).
    rewrite Hsp by (apply Hlf; by left). by apply line_list_solid.
  - change (join LF (x :: y :: l)) with (x +:+ String LF (join LF (y :: l))).
    rewrite textarea_app. change (textarea (String LF (join LF (y :: l))))
      with (String CR (String LF (textarea (join LF (y :: l))))).
    rewrite textarea_id by (apply Hlf; by left).
    change (String CR (String LF (textarea (join LF (y :: l)))))
      with (String CR "" +:+ String LF (textarea (join LF (y :: l)))).
    rewrite <-string_app_assoc, split_app, Hsp.
    2:{ rewrite contains_char_app, Hlf by by left. done. }
    change ([x +:+ String CR ""] ++ split LF (textarea (join LF (y :: l))))%list
      with ((x +:+ String CR "") :: split LF (textarea (join LF (y :: l)))).
    assert (IH' : line_list (split LF (textarea (join LF (y :: l)))) = y :: l).
    { apply IH; intros z Hz; [apply Hl|apply Hlf]; by right. }
    destruct (split LF (textarea (join LF (y :: l)))) as [|u us] eqn:E; [done|].
    change (line_list ((x +:+ String CR "") :: u :: us))
      with (strip_cr (x +:+ String CR "") :: line_list (u :: us)).
    rewrite IH'. f_equal. unfold strip_cr.
    rewrite rsplit_once_app by done. done.
Qed.
Lemma entries_solid l :
  (∀ x, x ∈ l → solid x = true ∧ x ≠ "") → entries l = l.
Proof.
  unfold entries. induction l as [|x l IH]; [done|]. intros Hl. cbn [map List.filter].
  destruct (Hl x ltac:(by left)) as [Hs Hne]. rewrite solid_trim by done. unfold eqb at 1.
  rewrite bool_decide_eq_false_2 by done. cbn [negb]. f_equal. apply IH. intros y Hy. apply Hl.
  by right.
Qed.

Section Roundtrip.
Context `{UrlLib, DateTimeText}.

Record form_policy (p : NewPolicy) : Prop := mk_form_policy {
  fp_client : plain (np_client_name p);
  fp_secret : plain (np_secret_name p);
  fp_tag : plain (np_secret_tag p);
  fp_one : is_some (np_secret_name p) && is_some (np_secret_tag p) = false;
  fp_outcome : np_outcome p ∈ POLICY_OUTCOMES;
  fp_priority : (- i32_MAX - 1 ≤ np_priority p ≤ i32_MAX)%Z;
  fp_scope : ∃ m os, np_mechanism p = Mechanism.as_str m
    ∧ np_origins p = Array (map Origin_to_value os) ∧ Forall (origin_valid url_host_str) os
    ∧ eqb m Mechanism.Brokered && is_empty os
      && contains ["auto-approve"; "notify-only"] (np_outcome p) = false;
  fp_methods : ∀ m, m ∈ np_methods p →
    Policy.is_valid_http_method m = true ∧ to_ascii_uppercase m = m;
  fp_prefixes : ∀ x, x ∈ np_path_prefixes p → canonical x;
  fp_ttl : in_type i64_MAX (np_max_ttl_seconds p);
  fp_uses : in_type i32_MAX (np_max_uses p)
}.

Lemma parse_policy_form_sound form by_ p :
  parse_policy_form form by_ = Ok p → form_policy p ∧ np_created_by p = by_.
Proof.
  unfold parse_policy_form. intros HH.
  destruct (is_some _ && is_some _) eqn:Eone; [done|].
  apply bind_Ok in HH as (m & Hm & HH). destruct (contains POLICY_OUTCOMES _) eqn:Eo; [|done].
  cbn [negb] in HH. apply bind_Ok in HH as (prio & Hprio & HH).
  apply bind_Ok in HH as (os & Hos & HH).
  destruct (eqb m Mechanism.Brokered && is_empty os && _) eqn:Esc; [done|].
  apply bind_Ok in HH as (ms & Hms & HH). apply bind_Ok in HH as (ps & Hps & HH).
  apply bind_Ok in HH as (mt & Hmt & HH). apply bind_Ok in HH as (mu & Hmu & HH).
  apply bind_Ok in HH as (na & _ & [= <-]). split; [|done].
  constructor; cbn; try apply non_empty_plain; try done.
  - by kbool.
  - destruct (non_empty (pf_priority form)); [|injection Hprio as <-; unfold i32_MAX; lia].
    apply ok_or_Ok in Hprio. by apply parse_int_max in Hprio.
  - exists m, os. split; [done|]. split; [done|]. split; [|done].
    apply try_map_Ok in Hos. apply Forall_forall. intros o Ho.
    apply list_elem_of_lookup in Ho as [i Hi].
    destruct (Forall2_lookup_r _ _ _ _ _ Hos Hi) as (line & _ & Hl).
    apply map_err_Ok in Hl. by eapply Origin_parse_Ok_valid.
  - intros x Hx. unfold parse_methods_field in Hms. apply try_map_Ok in Hms.
    apply list_elem_of_lookup in Hx as [i Hi].
    destruct (Forall2_lookup_r _ _ _ _ _ Hms Hi) as (y & _ & Hy).
    destruct (Policy.is_valid_http_method y) eqn:Ey; [|done]. injection Hy as <-.
    split; [by apply valid_method_upper|apply to_upper_idemp].
  - intros x Hx. apply try_map_Ok in Hps. apply list_elem_of_lookup in Hx as [i Hi].
    destruct (Forall2_lookup_r _ _ _ _ _ Hps Hi) as (y & _ & Hy).
    apply map_err_Ok, canonicalize_Ok in Hy as (_ & _ & ?). done.
  - eapply positive_Ok; [|exact Hmt]. intros s k Hk. by apply parse_int_max in Hk as [_ Hk].
  - eapply positive_Ok; [|exact Hmu]. intros s k Hk. by apply parse_int_max in Hk as [_ Hk].
Qed.

Lemma fields_entries ms :
  (∀ x, x ∈ ms → solid x = true ∧ contains_char "," x = false ∧ x ≠ "") →
  entries (split_fields (join_with ", " ms)) = ms.
Proof.
  intros Hall. pose proof (split_fields_join ms Hall) as Hs. unfold entries. rewrite <-Hs at 2.
  assert (Ht : ∀ x, x ∈ split_fields (join_with ", " ms) → trim x = x).
  { intros x Hx. destruct (eqb x "") eqn:E; [by kbool; subst|].
    apply solid_trim, Hall. rewrite <-Hs. apply list_elem_of_In, filter_In.
    rewrite E. split; [by apply list_elem_of_In|done]. }
  revert Ht. generalize (split_fields (join_with ", " ms)) as l. clear.
  induction l as [|x l IH]; [done|]. intros Ht. cbn [map List.filter].
  rewrite (Ht x) by by left. rewrite IH by (intros y Hy; apply Ht; by right). done.
Qed.
Lemma methods_text ms :
  (∀ m, m ∈ ms → Policy.is_valid_http_method m = true ∧ to_ascii_uppercase m = m) →
  parse_methods_field (join_with ", " ms) = Ok ms.
Proof.
  intros Hms. unfold parse_methods_field.
  rewrite fields_entries by (intros x Hx; by apply valid_method_item, Hms).
  induction ms as [|m ms IH]; [done|]. cbn [try_map].
  destruct (Hms m ltac:(by left)) as [-> ->]. cbn. rewrite IH; [done|].
  intros y Hy. apply Hms. by right.
Qed.

Lemma try_map_text {A} (f : string → result UiError A) (g : A → string) l :
  (∀ x, x ∈ l → f (g x) = Ok x) → try_map f (map g l) = Ok l.
Proof.
  induction l as [|x l IH]; [done|]. intros Hl. cbn. rewrite (Hl x) by by left. cbn.
  rewrite IH; [done|]. intros y Hy. apply Hl. by right.
Qed.
Lemma lines_text {A} (f : string → result UiError A) (g : A → string) l :
  (∀ x, x ∈ l → f (g x) = Ok x ∧ solid (g x) = true ∧ g x ≠ "") →
  try_map f (entries (lines (textarea (join LF (map g l))))) = Ok l.
Proof.
  intros Hl. assert (Hs : ∀ y, y ∈ map g l → solid y = true ∧ y ≠ "").
  { intros y (x & -> & Hx)%list_elem_of_fmap. by apply Hl. }
  rewrite textarea_lines, entries_solid by done. apply try_map_text. intros x Hx. by apply Hl.
Qed.

Lemma origin_text o :
  origin_valid url_host_str o →
  Origin_parse url_host_str (origin_field o) = Ok o ∧ solid (origin_field o) = true
  ∧ origin_field o ≠ "".
Proof.
  intros Hv. split; [by apply Origin_parse_authority|].
  destruct o as [h p]. destruct Hv as (Hne & Hc & _). cbn in Hne, Hc.
  assert (Hh : all_bytes low h = true).
  { revert Hc. apply all_bytes_mono. intros c Hc.
    assert (HH : ∀ c, implb (origin_host_char c) (low c) = true)
      by (apply ascii_all; by vm_compute). specialize (HH c). by rewrite Hc in HH. }
  unfold origin_field. cbn [host port]. destruct p as [p|].
  - split; [|by destruct h]. apply solid_all_low. rewrite all_bytes_app, Hh. cbn.
    by destruct (Z_to_string_low p) as [-> _].
  - split; [by apply solid_all_low|done].
Qed.

Lemma prefix_text x :
  canonical x → map_err (λ e, bad_request ("bad path prefix: " +:+ e)) (canonicalize (path_field x))
                = Ok x ∧ solid (path_field x) = true ∧ path_field x ≠ "".
Proof.
  intros Hc. pose proof (path_field_canonical _ Hc) as Hp. split; [by rewrite Hp|].
  split; [apply path_field_spec|]. intros E. by rewrite E in Hp.
Qed.

Lemma datetime_text v :
  (∀ t, v = Some t → calendar t ∧ (t mod second = 0)%Z) →
  match non_empty (Some (opt_text datetime_local_value v)) with
  | None => Ok None
  | Some raw =>
      match parse_minutes raw with
      | Some t => Ok (Some t)
      | None => t ← ok_or (parse_seconds raw) (bad_request "invalid not_after datetime"); Ok (Some t)
      end
  end = Ok v.
Proof.
  intros Hv. destruct v as [t|]; [|done]. destruct (Hv t eq_refl) as [Hc Hw]. cbn [opt_text].
  unfold datetime_local_value. destruct (Z.eqb_spec (t / second mod 60) 0) as [Hm|Hm].
  - destruct (format_minutes_solid t Hc) as [Hs Hne]. rewrite solid_field by done.
    rewrite minutes_read; [done|done|]. unfold seconds, second in *.
    rewrite (Z.mul_comm 60), Z.rem_mul_r by lia. rewrite Hw, Hm. lia.
  - destruct (format_seconds_solid t Hc) as [Hs Hne]. rewrite solid_field by done.
    rewrite seconds_not_minutes, seconds_read by done. done.
Qed.

Lemma render_roundtrip p token id now owner managed :
  form_policy p →
  (∀ t, np_not_after p = Some t → calendar t ∧ (t mod second = 0)%Z) →
  parse_policy_form (policy_form token (from_row (policy_row id now p owner managed)))
    (np_created_by p) = Ok p.
Proof.
  intros [Hcl Hsec Htag Hone Hout Hprio (m & os & Hm & Hos & Hv & Hsc) Hms Hps Httl Huses] Hna.
  unfold parse_policy_form, policy_form, from_row. cbn -[lines trim entries non_empty].
  rewrite !plain_field by done. rewrite Hone, Hm, Mechanism.from_as_str.
  cbn [default from_option Datatypes.id ok_or].
  assert (Ht : trim (Mechanism.as_str m) = Mechanism.as_str m) by by destruct m.
  rewrite Ht, Mechanism.from_as_str. cbn [mbind result_bind ok_or].
  assert (Ho : trim (np_outcome p) = np_outcome p).
  { revert Hout. unfold POLICY_OUTCOMES. generalize (np_outcome p) as o.
    intros o Ho. repeat (apply elem_of_cons in Ho as [->|Ho]; [done|]). by apply elem_of_nil in Ho. }
  rewrite Ho. unfold contains at 1. rewrite bool_decide_eq_true_2 by done. cbn [negb].
  destruct (Z_to_string_low (np_priority p)) as [Hpl Hpn].
  rewrite (solid_field (Z_to_string (np_priority p))); [|by apply solid_all_low|done].
  assert (Hi : parse_i32 (Z_to_string (np_priority p)) = Some (np_priority p))
    by by apply parse_int_Z_to_string.
  rewrite Hi. cbn [ok_or mbind result_bind].
  rewrite Hos, Origins_of_to_value by done.
  rewrite (lines_text _ origin_field os).
  2:{ intros o Ho'. rewrite Forall_forall in Hv. destruct (origin_text o (Hv _ Ho')) as (-> & ? & ?).
      done. }
  cbn [mbind result_bind]. rewrite Hsc, methods_text by done. cbn [mbind result_bind].
  rewrite (lines_text _ path_field (np_path_prefixes p)) by (intros x Hx; by apply prefix_text, Hps).
  cbn [mbind result_bind].
  rewrite (positive_text parse_i64 _ _ i64_MAX); [|intros z Hz; apply parse_int_Z_to_string;
    unfold i64_MAX in *; lia|done]. cbn [mbind result_bind].
  rewrite (positive_text parse_i32 _ _ i32_MAX); [|intros z Hz; apply parse_int_Z_to_string;
    unfold i32_MAX in *; lia|done]. cbn [mbind result_bind].
  rewrite datetime_text by done. cbn. rewrite <-Hm, <-Hos. by destruct p.
Qed.
End Roundtrip.

(** C37: editing a rule without changing it writes the same rule.  Any policy a
    form submission was accepted as, read from its row, rendered into the edit
    page and submitted unchanged (text areas with the browser's CR LF line ends)
    is accepted as the same policy, percent signs and whitespace in its path
    prefixes included. *)
Theorem policy_edit_roundtrip `{UrlLib, DateTimeText} form by_ p token id now owner managed :
  parse_policy_form form by_ = Ok p →
  (∀ t, np_not_after p = Some t → calendar t ∧ (t mod second = 0)%Z) →
  parse_policy_form (policy_form token (from_row (policy_row id now p owner managed))) by_ = Ok p.
Proof.
  intros Hp Hna. apply parse_policy_form_sound in Hp as [Hp <-]. by apply render_roundtrip.
Qed.

(** ** An instance *)
Module PolicyFormExample.
Definition stamp (c : ascii) (t : DateTime) : string := String c (Z_to_string t).
Definition unstamp (c : ascii) (s : string) : option DateTime :=
  match s with
  | String a r => if eqb a c then parse_int 0 (seconds 253402300800) r else None
  | "" => None
  end.
Lemma stamp_solid c t : low c = true → solid (stamp c t) = true ∧ stamp c t ≠ "".
Proof.
  intros Hc. split; [|done]. apply solid_all_low. cbn. rewrite Hc.
  apply (Z_to_string_low t).
Qed.
Lemma stamp_read c t : calendar t → unstamp c (stamp c t) = Some t.
Proof.
  intros Ht. unfold unstamp, stamp. rewrite eqb_refl. apply parse_int_Z_to_string.
  unfold calendar in Ht. lia.
Qed.
Definition dates : DateTimeText := {|
  format_minutes := stamp "m";
  format_seconds := stamp "s";
  parse_minutes := unstamp "m";
  parse_seconds := unstamp "s";
  format_minutes_solid := λ t _, stamp_solid "m" t eq_refl;
  format_seconds_solid := λ t _, stamp_solid "s" t eq_refl;
  minutes_read := λ t Ht _, stamp_read "m" t Ht;
  seconds_read := λ t Ht _, stamp_read "s" t Ht;
  seconds_not_minutes := λ t _, eq_refl
|}.
Definition form : PolicyForm :=
  mkPolicyForm "token" (Some " agent ") (Some "") None "brokered" "auto-approve" (Some "-5")
    (Some "api.example.com") (Some "get, post") (Some "/100%25
/v1/a%20b") (Some "600") None (Some "m1800000000000000000").
Definition parsed : NewPolicy :=
  mkNewPolicy (Some "agent") None None "brokered" "auto-approve" (-5)
    (Array (map Origin_to_value [mkOrigin "api.example.com" None])) ["GET"; "POST"]
    ["/100%"; "/v1/a b"] (Some 600%Z) None (Some 1800000000000000000%Z) "alice".
End PolicyFormExample.

Lemma policy_edit_roundtrip_witness :
  @parse_policy_form HttpExample.url PolicyFormExample.dates
    (policy_form "t" (@from_row HttpExample.url PolicyFormExample.dates
       (policy_row 7 0 PolicyFormExample.parsed "alice" false))) "alice"
  = Ok PolicyFormExample.parsed.
Proof.
  apply (@policy_edit_roundtrip HttpExample.url PolicyFormExample.dates PolicyFormExample.form).
  - vm_compute. reflexivity.
  - intros t [= <-]. split; [split; vm_compute; [discriminate|reflexivity]|vm_compute; reflexivity].
Defined.

(** What the form stores the policy engine decodes once more ([policy_inputs]):
    a prefix saved as [/a%2541] is stored as [/a%41] and evaluated as [/aA], and
    one saved as [/100%25] can no longer be read, so every request the rule
    applies to is refused. *)
Definition prefix_form (field : string) : PolicyForm :=
  mkPolicyForm "token" (Some "agent") None None "brokered" "auto-approve" None
    (Some "api.example.com") None (Some field) None None None.
Definition stored_prefixes (field : string) : option (list string) :=
  np_path_prefixes <$> ok (@parse_policy_form HttpExample.url PolicyFormExample.dates
                             (prefix_form field) "alice").
Definition evaluated_prefixes (field : string) : option (list string) :=
  p ← ok (@parse_policy_form HttpExample.url PolicyFormExample.dates (prefix_form field) "alice");
  Policy.p_path_prefixes <$> @parse_policy HttpExample.url (policy_row 7 0 p "alice" false).
Example prefix_decoded_twice :
  stored_prefixes "/a%2541" = Some ["/a%41"] ∧ evaluated_prefixes "/a%2541" = Some ["/aA"]
  ∧ stored_prefixes "/100%25" = Some ["/100%"] ∧ evaluated_prefixes "/100%25" = None.
Proof. split_and!; vm_compute; reflexivity. Qed.
