(* ===== verification/ConfigPolicy.v ===== *)
(** The two ways a standing policy is written, the configuration file
    ([PolicyConfig::to_new_policy], server/src/config.rs) and the operator's form
    ([parse_policy_form], server/src/ui/mod.rs), accept the same rules. *)

From S2P Require Import Prelude RustStr Types Paths Json Crypto Examples SigV4 Http Injection Store.
From S2P Require Import Requests Grants ApiExt Secrets UiExt Policies Clients Provision Notify Lifecycle.
From S2P Require Import Refinement Safety Api ApiRequests Csrf Human Config Ui RustText FormText UiPolicies.
From S2P Require Policy.
Open Scope string_scope.

(** ** Results up to the text of their errors *)
Lemma ok_bind {E A B} (r : result E A) (f : A → result E B) :
  ok (r ≫= f) = (ok r ≫= λ a, ok (f a)).
Proof. by destruct r. Qed.
Lemma ok_bind_eq {E F A B} (r : result E A) (r' : result F A) (f : A → result E B)
    (g : A → result F B) :
  ok r = ok r' → (∀ a, r = Ok a → ok (f a) = ok (g a)) → ok (r ≫= f) = ok (r' ≫= g).
Proof.
  destruct r as [a|e], r' as [a'|e']; cbn; intros E1 Hf; try discriminate E1; [|done].
  injection E1 as <-. by apply Hf.
Qed.
Lemma ok_map_err {E F G A} (f : E → F) (g : E → G) (r : result E A) :
  ok (map_err f r) = ok (map_err g r).
Proof. by destruct r. Qed.
Lemma ok_try_map {E F A B} (f : A → result E B) (g : A → result F B) l :
  (∀ x, x ∈ l → ok (f x) = ok (g x)) → ok (try_map f l) = ok (try_map g l).
Proof.
  induction l as [|x l IH]; [done|]. intros Hl. cbn.
  apply ok_bind_eq; [apply Hl; by left|]. intros y _.
  apply ok_bind_eq; [|done]. apply IH. intros z Hz. apply Hl. by right.
Qed.

(** ** A rule of the file, typed into the form *)
Section Form.
Context `{UrlLib, DateTimeText}.

Definition as_form (token : string) (p : PolicyConfig) : PolicyForm :=
  mkPolicyForm token (pc_client p) (pc_secret p) (pc_secret_tag p)
    (Mechanism.as_str (pc_mechanism p)) (pc_outcome p) (Some (Z_to_string (pc_priority p)))
    (Some (textarea (join LF (pc_origins p)))) (Some (join_with ", " (pc_methods p)))
    (Some (textarea (join LF (pc_path_prefixes p))))
    (Some (opt_text Z_to_string (pc_max_ttl_seconds p)))
    (Some (opt_text Z_to_string (pc_max_uses p)))
    (Some (opt_text datetime_local_value (pc_not_after p))).

(** What the form's fields can carry: trimmed names, entries without whitespace
    (and, for methods, commas), numbers of the columns' types, whole seconds. *)
Definition entry (x : string) : Prop := solid x = true ∧ x ≠ "".
Record expressible (p : PolicyConfig) : Prop := mk_expressible {
  ex_client : plain (pc_client p);
  ex_secret : plain (pc_secret p);
  ex_tag : plain (pc_secret_tag p);
  ex_outcome : trim (pc_outcome p) = pc_outcome p;
  ex_priority : (- i32_MAX - 1 ≤ pc_priority p ≤ i32_MAX)%Z;
  ex_origins : ∀ x, x ∈ pc_origins p → entry x;
  ex_methods : ∀ x, x ∈ pc_methods p → entry x ∧ contains_char "," x = false;
  ex_prefixes : ∀ x, x ∈ pc_path_prefixes p → entry x;
  ex_ttl : ∀ n, pc_max_ttl_seconds p = Some n → (- i64_MAX - 1 ≤ n ≤ i64_MAX)%Z;
  ex_uses : ∀ n, pc_max_uses p = Some n → (- i32_MAX - 1 ≤ n ≤ i32_MAX)%Z;
  ex_until : ∀ t, pc_not_after p = Some t → calendar t ∧ (t mod second = 0)%Z
}.

Lemma plain_id v : plain v → non_empty v = v.
Proof. destruct v as [s|]; [|done]. apply plain_some. Qed.
Lemma lines_entries l : (∀ x, x ∈ l → entry x) → entries (lines (textarea (join LF l))) = l.
Proof. intros Hl. by rewrite textarea_lines, entries_solid. Qed.

(** A number the file writes, positive or refused. *)
Lemma positive_same {B} parse what min max (v : option Z) (e : ConfigError)
    (k : result ConfigError B) (k' : option Z → result UiError B) :
  (∀ z, (min ≤ z ≤ max)%Z → parse (Z_to_string z) = Some z) →
  (∀ n, v = Some n → (min ≤ n ≤ max)%Z) → ok k = ok (k' v) →
  ok (fail_if not_positive v with e; k)
  = ok (n ← positive parse what (Some (opt_text Z_to_string v)); k' n).
Proof.
  intros Hp Hv Hk. unfold positive, not_positive, opt_text. destruct v as [n|]; [|done].
  destruct (Z_to_string_low n) as [Hl Hne]. rewrite solid_field; [|by apply solid_all_low|done].
  rewrite Hp by by apply Hv. destruct (n <=? 0)%Z; [done|]. exact Hk.
Qed.

(** A rule means the same in the configuration file and in the operator's
    form.  Any rule of the file the form's fields can carry is accepted by the
    one exactly when it is by the other, and as the same row: the same names,
    canonical origins and path prefixes, methods in upper case and bounds. *)
Theorem config_policy_as_form token p :
  expressible p →
  ok (to_new_policy p) = ok (parse_policy_form (as_form token p) CONFIG_ACTOR).
Proof.
  intros [Hcl Hsec Htag Hout Hprio Hos Hms Hps Httl Huses Hna].
  unfold to_new_policy, parse_policy_form, as_form. cbn -[lines trim entries non_empty].
  rewrite !plain_id by done.
  destruct (is_some (pc_secret p) && _); [done|].
  assert (Ht : trim (Mechanism.as_str (pc_mechanism p)) = Mechanism.as_str (pc_mechanism p))
    by by destruct (pc_mechanism p).
  rewrite Ht, Mechanism.from_as_str, Hout. cbn [mbind result_bind ok_or].
  assert (Hoc : contains ["auto-approve"; "notify-only"; "require-approval"; "deny"] (pc_outcome p)
                = contains POLICY_OUTCOMES (pc_outcome p)).
  { unfold contains, POLICY_OUTCOMES. apply bool_decide_ext. rewrite !elem_of_cons, elem_of_nil.
    tauto. }
  rewrite Hoc. destruct (negb (contains POLICY_OUTCOMES _)); [done|].
  destruct (Z_to_string_low (pc_priority p)) as [Hpl Hpn].
  rewrite (solid_field (Z_to_string (pc_priority p))); [|by apply solid_all_low|done].
  assert (Hi : parse_i32 (Z_to_string (pc_priority p)) = Some (pc_priority p))
    by by apply parse_int_Z_to_string.
  rewrite Hi. cbn [ok_or mbind result_bind]. rewrite !lines_entries by done.
  apply ok_bind_eq; [apply ok_try_map; intros x _; apply ok_map_err|]. intros os _.
  destruct (eqb _ _ && _ && _); [done|]. unfold parse_methods_field.
  rewrite fields_entries by (intros x Hx; destruct (Hms x Hx) as [[? ?] ?]; done).
  apply ok_bind_eq; [apply ok_try_map; intros x _; unfold check_method; by destruct (negb _)|].
  intros ms _. apply ok_bind_eq; [apply ok_try_map; intros x _; apply ok_map_err|]. intros ps _.
  eapply (positive_same parse_i64 _ (- i64_MAX - 1) i64_MAX);
    [intros z Hz; by apply parse_int_Z_to_string|exact Httl|].
  eapply (positive_same parse_i32 _ (- i32_MAX - 1) i32_MAX);
    [intros z Hz; by apply parse_int_Z_to_string|exact Huses|].
  rewrite datetime_text by done. done.
Qed.
End Form.

(** The rule of the example configuration, typed into the form, is the row the
    configuration writes. *)
Lemma config_policy_as_form_witness :
  (np_methods <$> ok (@parse_policy_form HttpExample.url PolicyFormExample.dates
      (@as_form PolicyFormExample.dates "t" ConfigExample.rule) CONFIG_ACTOR)) = Some ["GET"].
Proof.
  rewrite <-(@config_policy_as_form HttpExample.url PolicyFormExample.dates "t" ConfigExample.rule).
  - vm_compute. reflexivity.
  - constructor; cbn.
    + intros s [= <-]. split; [vm_compute; reflexivity|discriminate].
    + intros s E. discriminate E.
    + intros s E. discriminate E.
    + vm_compute. reflexivity.
    + unfold i32_MAX. lia.
    + intros x ->%list_elem_of_singleton. split; [vm_compute; reflexivity|discriminate].
    + intros x ->%list_elem_of_singleton. split; [split; [vm_compute; reflexivity|discriminate]|].
      vm_compute. reflexivity.
    + intros x ->%list_elem_of_singleton. split; [vm_compute; reflexivity|discriminate].
    + intros n [= <-]. unfold i64_MAX. lia.
    + intros n E. discriminate E.
    + intros t E. discriminate E.
Defined.
