(* ===== verification/UiSecrets.v ===== *)
(** [server/src/ui/mod.rs]: the secret pages: save (create or rotate), edit,
    rotate, review and vet a client's deposit, delete. *)

From S2P Require Import Prelude RustStr Types Json Crypto Examples SigV4 Http Injection Store Requests.
From S2P Require Import Grants ApiExt Secrets UiExt Policies Clients Provision Lifecycle Refinement.
From S2P Require Import Safety StoreProps Api ApiRequests Csrf Human Ui RustText FormText UiPolicies UiApprove.
From S2P Require Policy.
Open Scope string_scope.

Record SecretForm := mkSecretForm {
  sf_csrf_token : string;
  sf_name : string;
  sf_secret_value : option string;
  sf_description : option string;
  sf_max_tier : option string;
  sf_injection_kind : option string;
  sf_injection_header : option string;
  sf_injection_scope : option string
}.
Record SecretSettingsForm := mkSecretSettingsForm {
  ssf_csrf_token : string;
  ssf_description : option string;
  ssf_max_tier : string;
  ssf_injection_kind : string;
  ssf_injection_header : option string;
  ssf_injection_scope : option string;
  ssf_tags : option string;
  ssf_enabled : option string
}.

Definition MANAGED_SECRET : string :=
  "this secret is provisioned from Keychute's config (GitOps): change or remove it there. An edit here would be reverted on the next restart.".

(** ** Fields *)
Definition parse_tags_field (raw : string) : result UiError (list string) :=
  tags ← try_map (λ t,
           fail_if (128 <? len t)%Z || any_control t with bad_request "invalid tag"; Ok t)
         (List.filter (λ t, negb (eqb t "")) (split_fields raw));
  Ok (dedup (sort_by_key bytes_key tags)).

(** A stored injection template as the form spells it: kind, header field, scope. *)
Definition injection_form_fields (s : SecretRow) : string * string * string :=
  let header := default "" (sr_injection_header s) in
  let username := sr_injection_username s in
  let kind := sr_injection_kind s in
  if eqb kind "header" then ("header", header, "")
  else if eqb kind "basic" || eqb kind "basic-password" then ("basic", default header username, "")
  else if eqb kind "aws-sigv4" then ("aws-sigv4", default "" username, header)
  else ("bearer", "", "").

(** ** Standing policies and a secret *)
Definition selects (secret_name : string) (tags : list string) (p : PolicyRow) : bool :=
  match po_secret_name p, po_secret_tag p with
  | Some name, _ => eqb name secret_name
  | None, Some tag => contains tags tag
  | None, None => true
  end.
Definition policies_selecting_secret (policies : list PolicyRow) (secret_name : string)
    (tags : list string) : list PolicyRow :=
  List.filter (selects secret_name tags) policies.
Definition policies_activated_by_vetting (policies : list PolicyRow) (secret_name : string)
    (tags : list string) (now : DateTime) : list PolicyRow :=
  List.filter (selects secret_name tags)
    (List.filter (λ p, match po_not_after p with Some t => (now <? t)%Z | None => true end)
       (List.filter (λ p, contains ["auto-approve"; "notify-only"] (po_outcome p)) policies)).

(** ** Handlers *)
Section Handlers.
Context `{UuidText, Primitives, !FormLib, JoseLib, HttpLib, UrlLib, !OriginLib, SigText, WireLib}.

(** A row of the listing by its id. *)
Definition secret_by_id (id : Uuid) : Handler UiError SecretRow :=
  secrets ← query (λ _ d, list_secrets d);
  lift (ok_or (List.find (λ s, eqb (sr_id s) id) secrets) (mkUiError NOT_FOUND "no such secret")).
Definition editable_secret (id : Uuid) : Handler UiError SecretRow :=
  secret ← secret_by_id id;
  if sr_managed_by_config secret then throw (mkUiError CONFLICT MANAGED_SECRET) else mret secret.

(** What the decision page for a deposit shows: the row and version it is about,
    the depositing client, the policies vetting would activate and, when asked
    for, the bytes ([true] for base64). *)
Record ReviewPage := mkReviewPage {
  rv_secret : SecretRow;
  rv_version : SecretVersionRow;
  rv_origin : option (string * DateTime);
  rv_activated : list PolicyRow;
  rv_revealed : option (string * bool);
  rv_vet_token : string
}.
Definition revealed_event (name : string) (version_id : Uuid) (actor : string) : AuditEvent :=
  mkAuditEvent kinds.SECRET_REVEALED None None None (Some name) (Some version_id) (Some actor)
    None None None None None.

(** [POST /ui/secrets/{id}/review] *)
Definition review_secret (st : AppState) (v : Visit) (id : Uuid) (csrf_token : string)
    (reveal : option string) : Handler UiError ReviewPage :=
  op ← lift (guard_post st v R_SECRET_REVEAL (uuid_display id) "" csrf_token);
  secret ← secret_by_id id;
  _ ← lift (fail_if sr_operator_vetted secret
              with mkUiError CONFLICT "that secret is already marked reviewed"; Ok tt);
  version ← query (λ _ d, get_secret_version (sr_id secret) (sr_current_version secret) d);
  version ← lift (ok_or version (mkUiError NOT_FOUND "no stored version to review"));
  origin ← query (λ _ d, client_deposit_origin (sr_name secret) d);
  tags ← query (λ _ d, get_tags_for_secret (sr_id secret) d);
  policies ← query (λ _ d, list_policies d);
  revealed ←
    (if eqb reveal (Some "1") then
       plaintext ← lift (map_err (λ _, mkUiError INTERNAL_SERVER_ERROR
                                          "that secret's stored value could not be decrypted")
                           (Keyset_open (st_keyset st) (sv_ciphertext version) (sv_nonce version)
                              (sv_wrapped_dek version) (sv_kek_id version)
                              (SecretVersion (sr_id secret) (sv_version version))));
       _ ← transact (λ now d, Ok (tt, insert_audit now
                       (revealed_event (sr_name secret) (sv_id version) (subject op)) d));
       mret (Some (if is_some (utf8_decode plaintext) then (plaintext, false)
                   else (base64_encode plaintext, true)))
     else mret None);
  mret (mkReviewPage secret version origin
          (policies_activated_by_vetting policies (sr_name secret) tags (v_wall v)) revealed
          (issue_token (st_keyset st)
             (mkBinding R_SECRET_VET (uuid_display id) (subject op)
                (Z_to_string (sv_version version))) (v_wall v))).

(** [POST /ui/secrets/{id}/reviewed] *)
Definition mark_reviewed (st : AppState) (v : Visit) (id : Uuid)
    (csrf_token reviewed_version : string) : Handler UiError UiResponse :=
  op ← lift (guard_post st v R_SECRET_VET (uuid_display id) reviewed_version csrf_token);
  version ← lift (ok_or (parse_i32 reviewed_version) (bad_request "invalid reviewed version"));
  vetted ← transact (λ now d, mark_secret_vetted now id version (subject op) d);
  if (vetted : bool) then mret (Redirect "/ui/secrets")
  else throw (mkUiError CONFLICT "that secret is already reviewed, no longer exists, or has been rotated since you looked at it — open it again to review the current value").

(** What the confirmation of a deletion shows. *)
Record DeletePage := mkDeletePage {
  dp_secret : SecretRow;
  dp_policies : list PolicyRow;
  dp_grants : list GrantRow;
  dp_pending : list AccessRequestRow;
  dp_confirm_token : string
}.
(** [POST /ui/secrets/{id}/delete] *)
Definition delete_secret_page (st : AppState) (v : Visit) (id : Uuid) (csrf_token : string)
  : Handler UiError DeletePage :=
  op ← lift (guard_post st v R_SECRET_DELETE (uuid_display id) "" csrf_token);
  secret ← editable_secret id;
  tags ← query (λ _ d, get_tags_for_secret (sr_id secret) d);
  policies ← query (λ _ d, list_policies d);
  grants ← query (λ now d, list_active_grants now
                    (replay_window_seconds (limits (st_config st))) d);
  pending ← query (λ _ d, list_pending d);
  mret (mkDeletePage secret (policies_selecting_secret policies (sr_name secret) tags)
          (List.filter (λ g, eqb (g_secret_name g) (sr_name secret)
                             && negb (g_passthrough_ephemeral g)) grants)
          (List.filter (λ r, eqb (ar_secret_name r) (sr_name secret)) pending)
          (issue_token (st_keyset st)
             (mkBinding R_SECRET_DELETE_CONFIRM (uuid_display id) (subject op)
                (Z_to_string (sr_current_version secret))) (v_wall v))).

(** [POST /ui/secrets/{id}/deleted] *)
Definition delete_secret (st : AppState) (v : Visit) (id : Uuid)
    (csrf_token current_version : string) : Handler UiError UiResponse :=
  op ← lift (guard_post st v R_SECRET_DELETE_CONFIRM (uuid_display id) current_version csrf_token);
  version ← lift (ok_or (parse_i32 current_version) (bad_request "invalid version"));
  secrets ← query (λ _ d, list_secrets d);
  if existsb (λ s, eqb (sr_id s) id && sr_managed_by_config s) secrets
  then throw (mkUiError CONFLICT MANAGED_SECRET)
  else
    outcome ← transact (λ now d, delete_secret_audited now id version (subject op) d);
    match outcome with
    | DeleteSecretOutcome.Stale =>
        throw (mkUiError CONFLICT "that secret no longer exists, or has been rotated since you opened the confirmation — open it again to delete the current value")
    | DeleteSecretOutcome.Deleted _ => mret (Redirect "/ui/secrets")
    end.

(** [POST /ui/secrets/{id}] *)
Definition parse_settings (form : SecretSettingsForm) : result UiError SecretSettings :=
  max_tier ← ok_or (tier_from_str (trim (ssf_max_tier form))) (bad_request "invalid max_tier");
  '(kind, header, username) ←
    validate_injection (trim (ssf_injection_kind form)) (non_empty (ssf_injection_header form))
      (non_empty (ssf_injection_scope form));
  tags ← parse_tags_field (default "" (ssf_tags form));
  Ok (mkSecretSettings (trim (default "" (ssf_description form))) (Tier.as_int max_tier) kind
        header username (is_some (ssf_enabled form)) tags).
Definition update_secret (st : AppState) (v : Visit) (id : Uuid) (form : SecretSettingsForm)
  : Handler UiError UiResponse :=
  op ← lift (guard_post st v R_SECRET_UPDATE (uuid_display id) "" (ssf_csrf_token form));
  settings ← lift (parse_settings form);
  outcome ← transact (λ now d, update_secret_settings_audited now id settings (subject op) d);
  match outcome with
  | UpdateSecretOutcome.Updated => mret (Redirect "/ui/secrets")
  | UpdateSecretOutcome.Managed => throw (mkUiError CONFLICT MANAGED_SECRET)
  | UpdateSecretOutcome.NotFound =>
      throw (mkUiError CONFLICT "that secret was deleted while you were editing it")
  end.

(** A new version of an existing secret, sealed in the transaction. *)
Definition rotate_to (st : AppState) (draw : Draw) (version_id : Uuid) (secret : SecretRow)
    (actor value conflict : string) : Handler UiError UiResponse :=
  rotated ← transact (λ now d, rotate_secret_version now version_id (sr_id secret)
              (sr_name secret) actor
              (λ version, Keyset_seal (st_keyset st) draw value
                            (SecretVersion (sr_id secret) version)) d);
  if is_some rotated then mret (Redirect "/ui/secrets") else throw (mkUiError CONFLICT conflict).

(** [POST /ui/secrets/{id}/rotate] *)
Definition rotate_secret (st : AppState) (v : Visit) (draw : Draw) (version_id id : Uuid)
    (csrf_token : string) (secret_value : option string) : Handler UiError UiResponse :=
  op ← lift (guard_post st v R_SECRET_ROTATE (uuid_display id) "" csrf_token);
  value ← lift (ok_or (take_secret_value secret_value) (bad_request "secret value is required"));
  secret ← editable_secret id;
  rotate_to st draw version_id secret (subject op) value
    "that secret was deleted while you were editing it; nothing was stored".

(** The secret a submission of a free name creates. *)
Definition new_secret_params (st : AppState) (draw : Draw) (secret_id : Uuid) (form : SecretForm)
    (name value : string) : result UiError StoreSecretParams :=
  max_tier ← match non_empty (sf_max_tier form) with
             | None => Ok Tier.Brokered
             | Some raw => ok_or (tier_from_str raw) (bad_request "invalid max_tier")
             end;
  '(kind, header, username) ←
    validate_injection (default "bearer" (non_empty (sf_injection_kind form)))
      (non_empty (sf_injection_header form)) (non_empty (sf_injection_scope form));
  Ok (mkStoreSecretParams secret_id name (default "" (non_empty (sf_description form)))
        (Tier.as_int max_tier) kind header username
        (Keyset_seal (st_keyset st) draw value (SecretVersion secret_id 1))).

(** [POST /ui/secrets] *)
Definition save_secret (st : AppState) (v : Visit) (draw : Draw) (secret_id version_id : Uuid)
    (form : SecretForm) : Handler UiError UiResponse :=
  op ← lift (guard_post st v R_SECRET_SAVE "" "" (sf_csrf_token form));
  let name := trim (sf_name form) in
  _ ← lift (fail_if eqb name "" with bad_request "secret name is required"; Ok tt);
  value ← lift (ok_or (take_secret_value (sf_secret_value form))
                  (bad_request "secret value is required"));
  found ← query (λ _ d, get_secret_by_name name d);
  match found with
  | Some existing =>
      if sr_managed_by_config existing then throw (mkUiError CONFLICT MANAGED_SECRET)
      else rotate_to st draw version_id existing (subject op) value
             "that secret was deleted while you were editing it. Reload the page: submitting again would CREATE it, not rotate it."
  | None =>
      store ← lift (new_secret_params st draw secret_id form name value);
      created ← transact (λ now d, create_secret_with_version now version_id store (subject op) d);
      if (created : bool) then mret (Redirect "/ui/secrets")
      else throw (mkUiError CONFLICT "a secret with that name was just created by someone else. Reload the page: submitting again would ROTATE it, not create it.")
  end.
End Handlers.

(** ** What the handlers commit *)
Section Saved.
Context `{UuidText, Primitives}.
Context (env : Env) (Henv : env_ok env).

(** [s] is the row [prev] with one version more, reviewed by its operator;
    every setting is the one [prev] had. *)
Definition rotated_from (prev s : SecretRow) (now : DateTime) : Prop :=
  s = set_version (sr_current_version prev + 1) true now prev.

Lemma rotate_to_stores st draw vid secret actor value conflict n w to n' w' :
  world_reachable w → draw_ok draw →
  rotate_to st draw vid secret actor value conflict env (n, w) = (Ok (Redirect to), (n', w')) →
  ∃ s prev wt, later w wt ∧ secrets wt.2 !! sr_id secret = Some prev ∧ rotated_from prev s wt.1
    ∧ holds_value (st_keyset st) vid s value w'.2.
Proof.
  intros Hw Hd. unfold rotate_to. intros HH.
  apply Api_bind_Ok in HH as (rotated & [n1 w1] & Htx & HH).
  eapply transact_later in Htx as (wt & d' & Hl & Hr & ->); [|exact Henv].
  destruct rotated as [row|]; [|done]. apply ret_Ok in HH as [_ [= -> ->]].
  apply rotate_commits in Hr as (prev & Hprev & Hold);
    [|by apply (world_inv wt); eapply reachable_later|done].
  by exists (set_version (sr_current_version prev + 1) true wt.1 prev), prev, wt.
Qed.
End Saved.

(** What an operator saves is what is stored.  A submission of the secret
    form that succeeds came from an authenticated operator with a token for it;
    the current version of the secret then opens, under its own row and version,
    to exactly the bytes typed; the secret counts as reviewed; and it is either
    the one stored under the submitted name and not owned by the configuration,
    with its settings unchanged and one version more, or a new secret of that
    name, when there was none. *)
Theorem saved_secret_holds_value
    `{UuidText, Primitives, !FormLib, JoseLib, HttpLib, UrlLib, !OriginLib, SigText}
    env st v draw sid vid form n w to n' w' :
  env_ok env → world_reachable w → draw_ok draw →
  save_secret st v draw sid vid form env (n, w) = (Ok (Redirect to), (n', w')) →
  let name := trim (sf_name form) in
  ∃ op value s wq, guard_post st v R_SECRET_SAVE "" "" (sf_csrf_token form) = Ok op
    ∧ name ≠ "" ∧ sf_secret_value form = Some value ∧ value ≠ ""
    ∧ later w wq ∧ holds_value (st_keyset st) vid s value w'.2 ∧ sr_operator_vetted s = true
    ∧ match get_secret_by_name name wq.2 with
      | Some found => sr_managed_by_config found = false
          ∧ ∃ prev wt, later wq wt ∧ secrets wt.2 !! sr_id found = Some prev
              ∧ rotated_from prev s wt.1
      | None => sr_id s = sid ∧ sr_name s = name ∧ sr_current_version s = 1%Z
          ∧ sr_managed_by_config s = false
      end.
Proof.
  intros Henv Hw Hd. unfold save_secret. cbv zeta. intros HH.
  api_lift HH oper Hop. api_check HH Hname. destruct (eqb _ "") eqn:En; [done|]. kbool.
  api_lift HH typed Hv. apply ok_or_Ok in Hv.
  assert (Htyped : typed ≠ "").
  { unfold take_secret_value in Hv. destruct (sf_secret_value form) as [x|]; [|done]. cbn in Hv.
    destruct (eqb x "") eqn:Ex; [done|]. kbool. congruence. }
  apply take_secret_value_Some in Hv. api_query HH Henv found wq Hlq.
  destruct (get_secret_by_name (trim (sf_name form)) wq.2) as [found|] eqn:Ef.
  - destruct (sr_managed_by_config found) eqn:Em; [done|].
    eapply rotate_to_stores in HH as (s & prev & wt & Hlt & Hprev & Hrot & Hold);
      [|exact Henv|by eapply reachable_later|done].
    exists oper, typed, s, wq. rewrite Ef. repeat (split; [done|]).
    split; [by rewrite Hrot|]. split; [done|]. by exists prev, wt.
  - api_lift HH store Hst. apply Api_bind_Ok in HH as (created & [n1 w1] & Htx & HH).
    eapply transact_later in Htx as (wt & d' & Hlt & Hc & ->); [|exact Henv].
    destruct created; [|done]. apply ret_Ok in HH as [_ [= -> ->]].
    unfold new_secret_params in Hst. apply bind_Ok in Hst as (tier & _ & Hst).
    apply bind_Ok in Hst as ([[kind header] username] & _ & [= <-]).
    eapply create_commits in Hc as [_ Hold]; [|done|done].
    match type of Hold with holds_value _ _ ?s _ _ => exists oper, typed, s, wq end.
    rewrite Ef. by repeat (split; [done|]).
Qed.

(** C36: vetting and deletion act on the version that was looked at.  Either
    succeeds only with a form token bound to a version number, and only when
    that is the secret's current version at the moment it commits; vetting then
    changes nothing but the review flag, and deletion leaves no row of it. *)
Theorem reviewed_version_only
    `{UuidText, Primitives, !FormLib, JoseLib, HttpLib, UrlLib, !OriginLib, SigText}
    env st v id token shown n w to n' w' :
  env_ok env → world_reachable w →
  let bound route op version :=
    guard_post st v route (uuid_display id) shown token = Ok op ∧ parse_i32 shown = Some version in
  (mark_reviewed st v id token shown env (n, w) = (Ok (Redirect to), (n', w')) →
   ∃ op version wt s, bound R_SECRET_VET op version ∧ later w wt ∧ secrets wt.2 !! id = Some s
     ∧ sr_operator_vetted s = false ∧ sr_current_version s = version
     ∧ secrets w'.2 = <[id := set_vetted wt.1 s]> (secrets wt.2)
     ∧ secret_versions w'.2 = secret_versions wt.2)
  ∧ (delete_secret st v id token shown env (n, w) = (Ok (Redirect to), (n', w')) →
     ∃ op version wt s, bound R_SECRET_DELETE_CONFIRM op version ∧ later w wt
       ∧ secrets wt.2 !! id = Some s ∧ sr_current_version s = version
       ∧ secrets w'.2 = delete id (secrets wt.2)
       ∧ ∀ k ver, secret_versions w'.2 !! k = Some ver → sv_secret_id ver ≠ id).
Proof.
  intros Henv Hw bound. split; intros HH.
  - unfold mark_reviewed in HH. api_lift HH oper Hop. api_lift HH version Hv. apply ok_or_Ok in Hv.
    apply Api_bind_Ok in HH as (vetted & [n1 w1] & Htx & HH).
    eapply transact_later in Htx as (wt & d' & Hl & Hm & ->); [|exact Henv].
    destruct vetted; [|done]. apply ret_Ok in HH as [_ [= -> ->]].
    unfold mark_secret_vetted in Hm. destruct (secrets wt.2 !! id) as [s|] eqn:Es; [|done].
    destruct (negb _ && _) eqn:Ec; [|done]. injection Hm as <-.
    apply andb_true_iff in Ec as [Ev Ec]. apply negb_true_iff in Ev. apply Z.eqb_eq in Ec.
    assert (Hid : sr_id s = id).
    { eapply secret_at; [|exact Es]. apply (world_inv wt). by eapply reachable_later. }
    exists oper, version, wt, s. repeat (split; [done|]). cbn. rewrite Hid. done.
  - unfold delete_secret in HH. api_lift HH oper Hop. api_lift HH version Hv. apply ok_or_Ok in Hv.
    api_query HH Henv listed wq Hlq. destruct (existsb _ _); [done|].
    apply Api_bind_Ok in HH as (outcome & [n1 w1] & Htx & HH).
    eapply transact_later in Htx as (wt & d' & Hl & Hm & ->); [|exact Henv].
    destruct outcome as [revoked|]; [|done]. apply ret_Ok in HH as [_ [= -> ->]].
    assert (HH : ∃ s, secrets wt.2 !! id = Some s ∧ sr_current_version s = version).
    { unfold delete_secret_audited in Hm. destruct (secrets wt.2 !! id) as [s|]; [|done].
      destruct (negb _) eqn:Ec; [done|]. apply negb_false_iff, Z.eqb_eq in Ec. by exists s. }
    destruct HH as (s & Hs & Hver).
    pose proof (delete_secret_tables _ _ _ _ _ _ _ _ Hs Hm) as (Hsec & Hvs & _).
    exists oper, version, wt, s. split; [done|]. split; [by etrans|]. split; [done|].
    split; [done|]. split; [done|]. cbn. rewrite Hvs. intros k ver Hk.
    apply lookup_delete_rows in Hk as [_ Hk]. by kbool.
Qed.

(** ** The injection template of a secret, edited *)

(** Decide the comparisons of literals. *)
Ltac literal_eqb :=
  repeat match goal with
  | |- context [@eqb string ?i ?x ?y] =>
      let b := eval vm_compute in (@eqb string i x y) in
      lazymatch b with
      | true => change (@eqb string i x y) with true
      | false => change (@eqb string i x y) with false
      end
  end.

(** A template that was validated from trimmed fields reads back from the form
    as it was: saving unchanged writes the same columns. *)
Lemma injection_edit_roundtrip kind header scope k h u s :
  plain header → plain scope →
  validate_injection kind header scope = Ok (k, h, u) →
  sr_injection_kind s = k → sr_injection_header s = h → sr_injection_username s = u →
  let '(kind', header', scope') := injection_form_fields s in
  validate_injection kind' (non_empty (Some header')) (non_empty (Some scope')) = Ok (k, h, u).
Proof.
  intros Hh Hsc. unfold validate_injection. intros HH%map_err_Ok <- <- <-. revert HH.
  unfold Injection.validate_injection at 1. destruct (is_some scope && _) eqn:Escope; [done|].
  assert (Hnone : non_empty (Some "") = None) by done.
  destruct (eqb kind "bearer").
  { intros [= Ek Eh Eu]. unfold injection_form_fields. by rewrite <-Ek, <-Eh, <-Eu. }
  destruct (eqb kind "header") eqn:E1.
  { intros (name & ->%ok_or_Ok & HH)%bind_Ok.
    destruct (_ <? _)%Z eqn:E2; [done|]. destruct (negb (token name)) eqn:E3; [done|].
    destruct (contains _ _ || _) eqn:E4; [done|]. injection HH as Ek Eh Eu.
    unfold injection_form_fields. rewrite <-Ek, <-Eh, <-Eu. literal_eqb.
    cbv iota beta zeta. cbn [default from_option Datatypes.id].
    rewrite (plain_some name Hh), Hnone. unfold Injection.validate_injection. literal_eqb.
    cbn [is_some negb andb orb ok_or mbind result_bind]. by rewrite E2, E3, E4. }
  destruct (eqb kind "basic" || eqb kind "basic-password") eqn:E5.
  { intros (name & ->%ok_or_Ok & HH)%bind_Ok.
    destruct (_ <? _)%Z eqn:E2; [done|]. destruct (contains_char _ _ || _) eqn:E3; [done|].
    injection HH as Ek Eh Eu. unfold injection_form_fields. rewrite <-Ek, <-Eh, <-Eu. literal_eqb.
    cbn [orb]. cbv iota beta zeta. cbn [default from_option Datatypes.id].
    rewrite (plain_some name Hh), Hnone. unfold Injection.validate_injection. literal_eqb.
    cbn [is_some negb andb orb ok_or mbind result_bind]. by rewrite E2, E3. }
  destruct (eqb kind "aws-sigv4") eqn:E6; [|done].
  intros (key & ->%ok_or_Ok & HH)%bind_Ok. apply bind_Ok in HH as (x & Hx & HH).
  apply bind_Ok in HH as (sc & ->%ok_or_Ok & HH). apply bind_Ok in HH as (y & Hy & [= Ek Eh Eu]).
  unfold injection_form_fields. rewrite <-Ek, <-Eh, <-Eu. literal_eqb. cbn [orb].
  cbv iota beta zeta. cbn [default from_option Datatypes.id].
  rewrite (plain_some key Hh), (plain_some sc Hsc). unfold Injection.validate_injection. literal_eqb.
  cbn [is_some negb andb orb ok_or mbind result_bind]. rewrite Hx. cbn [mbind result_bind].
  by rewrite Hy.
Qed.

(** A deposit's user name is not trimmed, so for one with a space at an end the
    form is not the inverse: saving unchanged drops the space. *)
Example injection_edit_trims :
  Injection.validate_injection "basic" (Some "bob ") None = Ok ("basic", None, Some "bob ")
  ∧ validate_injection "basic" (non_empty (Some "bob ")) None = Ok ("basic", None, Some "bob").
Proof. split; vm_compute; reflexivity. Qed.

(** ** Scenarios *)
Module SecretsExample.
Import ApiExample RequestExample ApproveExample.
Definition visit : Visit :=
  mkVisit [("authorization", "Bearer token"); ("origin", "https://kc")] (seconds 30)
    HumanExample.published ∅.
Definition csrf (route action form_state : string) : string :=
  issue_token keyset (mkBinding route action "alice" form_state) (seconds 25).
Definition form : SecretForm :=
  mkSecretForm (csrf R_SECRET_SAVE "" "") " example-api-token " (Some "hunter3 ") None None None
    None None.
Definition draw : Draw := CryptoExample.draw.
Definition saved : result UiError UiResponse * St :=
  save_secret state visit draw 2 102 form alone (0, start).
Definition after_save : St := Eval vm_compute in saved.2.
(** A deposit waiting for review. *)
Definition deposits : list (DateTime * op) :=
  [(seconds 10, OpDeposit 101 stored "agent" (mkDepositRate 20 1))].
Definition deposited : World := Eval vm_compute in (seconds 10, Scenario.db_after deposits).
Lemma deposited_reachable : world_reachable deposited.
Proof.
  apply (Scenario.run_reachable deposits); [|vm_compute; reflexivity].
  cbn. by repeat (apply Forall_cons; split).
Qed.
Definition vetted : result UiError UiResponse * St :=
  mark_reviewed state visit 1 (csrf R_SECRET_VET "1" "1") "1" alone (0, deposited).
Definition after_vet : St := Eval vm_compute in vetted.2.
End SecretsExample.

Lemma saved_secret_holds_value_witness :
  ∃ s, @holds_value uuid_text_example CryptoExample.primitives ApiExample.keyset 102 s "hunter3 "
         SecretsExample.after_save.2.2.
Proof.
  destruct (@saved_secret_holds_value uuid_text_example CryptoExample.primitives CsrfExample.forms
    HumanExample.jose HttpExample.http HttpExample.url ApproveExample.origin_lib SigExample.text
    alone ApproveExample.state SecretsExample.visit SecretsExample.draw 2%N 102%N
    SecretsExample.form 0 ApproveExample.start "/ui/secrets" SecretsExample.after_save.1
    SecretsExample.after_save.2) as (op & value & s & wq & _ & _ & Hv & _ & _ & Hold & _).
  - apply alone_ok.
  - exact ApproveExample.start_reachable.
  - repeat split.
  - vm_compute. reflexivity.
  - exists s. cbn in Hv. injection Hv as <-. exact Hold.
Defined.

Lemma reviewed_version_only_witness :
  ∃ wt s, secrets wt.2 !! 1%N = Some s ∧ sr_operator_vetted s = false
    ∧ secrets SecretsExample.after_vet.2.2 = <[1%N := set_vetted wt.1 s]> (secrets wt.2).
Proof.
  destruct (@reviewed_version_only uuid_text_example CryptoExample.primitives CsrfExample.forms
    HumanExample.jose HttpExample.http HttpExample.url ApproveExample.origin_lib SigExample.text
    alone ApproveExample.state SecretsExample.visit 1%N
    (SecretsExample.csrf R_SECRET_VET "1" "1") "1" 0 SecretsExample.deposited "/ui/secrets"
    SecretsExample.after_vet.1 SecretsExample.after_vet.2) as [Hvet _].
  - apply alone_ok.
  - exact SecretsExample.deposited_reachable.
  - destruct Hvet as (op & version & wt & s & _ & _ & Hs & Hun & _ & Hsec & _).
    + vm_compute. reflexivity.
    + exists wt, s. split; [exact Hs|]. split; [exact Hun|exact Hsec].
Defined.
