(* ===== verification/ApiSecrets.v ===== *)
(** [server/src/api/secrets.rs]: [POST /v1/secrets], a client's deposit of a new
    secret. *)

From S2P Require Import Prelude RustStr Types Json Crypto Examples SigV4 Http Injection Store Requests.
From S2P Require Import Grants ApiExt Secrets UiExt Policies Clients Provision Notify Lifecycle.
From S2P Require Import Refinement Safety StoreProps Api Push ApiRequests.
Open Scope string_scope.

Record StoreSecretRequest := mkStoreSecretRequest {
  dq_name : string;
  dq_value : string;
  dq_encoding : SecretEncoding.t;
  dq_description : string;
  dq_max_tier : option Tier.t;
  dq_injection_kind : option string;
  dq_injection_header : option string
}.
Record StoreSecretResponse := mkStoreSecretResponse {
  sp_secret_id : Uuid;
  sp_name : string;
  sp_version : Z
}.

Definition MAX_NAME_BYTES : Z := 128.
Definition MAX_DESCRIPTION_BYTES : Z := 1024.
Definition MAX_VALUE_BYTES : Z := 64 * 1024.
Definition MAX_ENCODED_VALUE_BYTES : Z := 4 * MAX_VALUE_BYTES / 3 + 4096.
Definition DEPOSIT_RATE_WINDOW_HOURS : Z := 1.

Definition name_char (b : ascii) : bool :=
  is_ascii_alphanumeric b || eqb b "-"%char || eqb b "_"%char || eqb b "."%char.
Definition validate_name (name : string) : result ApiFailure unit :=
  fail_if eqb name "" with InvalidRequest "name is required";
  fail_if (MAX_NAME_BYTES <? len name)%Z with RequestTooLarge "name too long";
  fail_if negb (all_bytes name_char name && negb (starts_with "." name))
    with InvalidRequest "name must be ASCII letters, digits, '-', '_' or '.'";
  Ok tt.

Section Deposit.
Context `{UuidText, Primitives, HttpLib, SigText, WireLib}.

(** The bytes deposited, within bounds. *)
Definition deposited_bytes (encoding : SecretEncoding.t) (value_field : string)
  : result ApiFailure string :=
  fail_if eqb value_field "" with InvalidRequest "value is required";
  fail_if (MAX_ENCODED_VALUE_BYTES <? len value_field)%Z with RequestTooLarge "value too large";
  plaintext ← match encoding with
              | SecretEncoding.Utf8 => Ok value_field
              | SecretEncoding.Base64 =>
                  ok_or (base64_decode value_field) (InvalidRequest "value is not valid base64")
              end;
  fail_if (MAX_VALUE_BYTES <? len plaintext)%Z with RequestTooLarge "value too large";
  fail_if eqb plaintext "" with InvalidRequest "value is required";
  Ok plaintext.

Definition deposit_notification (external_url client_name secret_name : string)
    (max_tier : Tier.t) : Notification :=
  mkNotification "Keychute secret stored"
    (client_name +:+ " stored a new secret " +:+ secret_name +:+ " with maximum tier "
     +:+ Tier.as_str max_tier +:+ " — " +:+ Tier.human_label max_tier
     +:+ ". No approval was needed; releasing it still is.")
    (Some (trim_end_matches "/" external_url +:+ "/ui/secrets")) (Some "Review secrets").

(** A validated deposit: the row's parameters, and its tier. *)
Definition deposit_params (keyset : Keyset) (draw : Draw) (secret_id : Uuid)
    (req : StoreSecretRequest) : result ApiFailure (StoreSecretParams * Tier.t) :=
  let name := trim (dq_name req) in
  _ ← validate_name name;
  fail_if (MAX_DESCRIPTION_BYTES <? len (dq_description req))%Z
    with RequestTooLarge "description too long";
  value ← deposited_bytes (dq_encoding req) (dq_value req);
  let max_tier := default Tier.Brokered (dq_max_tier req) in
  '(kind, header, username) ←
    map_err InvalidRequest
      (validate_injection (default "bearer" (dq_injection_kind req))
         (h ← dq_injection_header req; if eqb h "" then None else Some h) None);
  Ok (mkStoreSecretParams secret_id name (trim (dq_description req)) (Tier.as_int max_tier)
        kind header username (Keyset_seal keyset draw value (SecretVersion secret_id 1)), max_tier).

Definition store_inner (config : Config) (keyset : Keyset) (notifier : Notifier) (draw : Draw)
    (secret_id version_id : Uuid) (client : ClientRow) (req : StoreSecretRequest)
  : Api (list Notification * (Z * StoreSecretResponse)) :=
  _ ← lift (fail_if negb (cl_may_store_secrets client)
              with PolicyDenied "client is not permitted to store secrets"; Ok tt);
  '(params, max_tier) ← lift (deposit_params keyset draw secret_id req);
  stored ← transact (λ now d, create_secret_from_client now version_id params (cl_name client)
              (mkDepositRate (max_deposits_per_hour_per_client (limits config))
                 DEPOSIT_RATE_WINDOW_HOURS) d);
  match stored with
  | DepositOutcome.NameTaken => throw SecretExists
  | DepositOutcome.RateLimited => throw TooManyDeposits
  | DepositOutcome.Created id =>
      let n := deposit_notification (external_url config) (cl_name client) (ss_name params) max_tier in
      mret ((if is_real notifier && send notifier n then [n] else []),
            (201%Z, mkStoreSecretResponse id (ss_name params) 1))
  end.

(** [POST /v1/secrets]; [body] is an error when it cannot be read, [None] when it
    does not parse.  Wiping the credential's bytes is not modelled. *)
Definition store (config : Config) (keyset : Keyset) (notifier : Notifier) (draw : Draw)
    (secret_id version_id : Uuid) (headers : HeaderMap)
    (body : result ApiFailure (option StoreSecretRequest))
  : Api (list Notification * (Z * StoreSecretResponse)) :=
  body ← lift body;
  client ← authenticate_client config headers;
  req ← lift (ok_or body (InvalidRequest "malformed request body"));
  store_inner config keyset notifier draw secret_id version_id client req.
End Deposit.

(** ** Lemmas *)
Lemma deposit_params_Ok `{UuidText, Primitives} keyset draw sid req params tier :
  deposit_params keyset draw sid req = Ok (params, tier) →
  ∃ value, deposited_bytes (dq_encoding req) (dq_value req) = Ok value
    ∧ validate_name (trim (dq_name req)) = Ok tt
    ∧ ss_secret_id params = sid ∧ ss_name params = trim (dq_name req)
    ∧ ss_description params = trim (dq_description req)
    ∧ tier = default Tier.Brokered (dq_max_tier req) ∧ ss_max_tier params = Tier.as_int tier
    ∧ valid_injection_kind (ss_injection_kind params) = true
    ∧ ss_seal params = Keyset_seal keyset draw value (SecretVersion sid 1).
Proof.
  unfold deposit_params. intros ([] & Hname & HH)%bind_Ok. destruct (_ <? _)%Z; [done|].
  apply bind_Ok in HH as (value & Hv & HH).
  apply bind_Ok in HH as ([[kind header] username] & Hk%map_err_Ok & [= <- <-]).
  exists value. repeat (split; [done|]). split; [|done]. by eapply validate_injection_kind.
Qed.

(** What an accepted deposit is.  It came from an authenticated, enabled
    client the operator allowed to deposit; the name was a plain identifier and
    free; exactly the decoded bytes are stored, as version 1 of a new secret
    under that name at the tier asked for (the tightest by default), which no
    operator has vetted, so that no standing policy releases it; no other secret
    changed; the client is within its hourly rate; and the push, if any, says
    the client, the secret's name and its tier. *)
Theorem deposit_accepted `{UuidText, Primitives, HttpLib, SigText, WireLib}
    env config keyset notifier draw sid vid headers req n w sent code resp n' w' :
  env_ok env → world_reachable w → draw_ok draw →
  store config keyset notifier draw sid vid headers (Ok (Some req)) env (n, w)
    = (Ok (sent, (code, resp)), (n', w')) →
  let name := trim (dq_name req) in
  let tier := default Tier.Brokered (dq_max_tier req) in
  ∃ client value s wt,
    cl_enabled client = true ∧ cl_may_store_secrets client = true
    ∧ (∃ token, bearer_token headers = Some token)
    ∧ validate_name name = Ok tt ∧ deposited_bytes (dq_encoding req) (dq_value req) = Ok value
    ∧ later w wt ∧ get_secret_by_name name wt.2 = None
    ∧ code = 201%Z ∧ resp = mkStoreSecretResponse sid name 1
    ∧ s = new_secret_row wt.1 (mkStoreSecretParams sid name (trim (dq_description req)) (Tier.as_int tier)
            (sr_injection_kind s) (sr_injection_header s) (sr_injection_username s)
            (Keyset_seal keyset draw value (SecretVersion sid 1))) false
    ∧ holds_value keyset vid s value w'.2
    ∧ (∀ k s', secrets wt.2 !! k = Some s' → secrets w'.2 !! k = Some s')
    ∧ (recent_deposits wt.1 (cl_name client) DEPOSIT_RATE_WINDOW_HOURS w'.2
       ≤ max_deposits_per_hour_per_client (limits config))%Z
    ∧ ∀ x, x ∈ sent → x = deposit_notification (external_url config) (cl_name client) name tier.
Proof.
  intros Henv Hw Hd HH name tier. unfold store in HH.
  api_lift HH parsed Hb. injection Hb as <-.
  apply Api_bind_Ok in HH as (client & [n1 w1] & Ha & HH).
  eapply authenticate_client_Ok in Ha as (Hl1 & Hen & tok & Htok & _); [|exact Henv].
  api_lift HH asked Hr. injection Hr as <-.
  unfold store_inner in HH. api_check HH Hmay. destruct (cl_may_store_secrets client) eqn:Em; [|done].
  api_lift HH decided Hp. destruct decided as [params t].
  apply deposit_params_Ok in Hp as (value & Hv & Hname & Hsid & Hn & Hdesc & -> & Htier & Hkind & Hseal).
  apply Api_bind_Ok in HH as (outcome & [n2 w2] & Htx & HH).
  eapply transact_later in Htx as (wt & d' & Hl2 & Hc & ->); [|exact Henv].
  assert (Hlt : later w wt) by by etrans.
  assert (Hwf : db_wf wt.2) by (apply (world_inv wt); by eapply reachable_later).
  apply deposit_correct in Hc; [|done|done|done]. destruct outcome as [id| |]; [|done..].
  destruct Hc as (-> & Hfree & (sealed & Hs & _ & ->) & Hkeep & Hrate).
  apply ret_Ok in HH as [[= -> -> ->] [= -> ->]]. rewrite Hsid, Hn in *.
  exists client, value, (new_secret_row wt.1 params false), wt. fold name in Hname, Hn, Hfree.
  do 8 (split; [by try eexists|]). split; [done|]. split.
  { unfold new_secret_row. cbn. by rewrite Hsid, Hn, Hdesc, Htier. }
  split; [|split; [exact Hkeep|split; [exact Hrate|]]].
  - split; cbn; rewrite Hsid, lookup_insert_eq; [done|].
    eexists. split; [done|]. cbn. split; [done|]. split; [done|]. unfold opens. cbn.
    apply (keyset_sealed_opens _ draw); [done|]. congruence.
  - intros x. destruct (_ && _); [by intros ->%list_elem_of_singleton|by intros ?%elem_of_nil].
Qed.

(** ** A deposit *)
Module DepositExample.
Import ApiExample.
Definition depositor : ClientConfig :=
  mkClientConfig "agent" Tier.Direct [Mechanism.CliRead]
    (mkClientAuthConfig (Some "746f6b656e") None) true.
Definition setup : list (DateTime * op) :=
  [(seconds 5, OpReconcileClients (λ n, (500 + N.of_nat n)%N) [depositor])].
Definition start : World := Eval vm_compute in (seconds 5, Scenario.db_after setup).
Lemma depositor_start_reachable : world_reachable start.
Proof.
  apply (Scenario.run_reachable setup); [|vm_compute; reflexivity].
  cbn. by repeat (apply Forall_cons; split).
Qed.
Definition req : StoreSecretRequest :=
  mkStoreSecretRequest " example-api-token" "hunter2" SecretEncoding.Utf8 "" None None (Some "").
Definition notifier : Notifier := mkNotifier true (λ _, true).
Definition run : result ApiFailure (list Notification * (Z * StoreSecretResponse)) * St :=
  store cfg keyset notifier CryptoExample.draw 1 101 headers (Ok (Some req)) alone (0, start).
Definition after : St := Eval vm_compute in run.2.
Definition push : Notification :=
  deposit_notification "https://kc" "agent" "example-api-token" Tier.Brokered.
End DepositExample.

Lemma deposit_accepted_witness :
  ∃ s, sr_operator_vetted s = false
    ∧ @holds_value uuid_text_example CryptoExample.primitives ApiExample.keyset 101 s "hunter2"
        DepositExample.after.2.2.
Proof.
  destruct (@deposit_accepted uuid_text_example CryptoExample.primitives HttpExample.http
    SigExample.text ApiExample.wire alone ApiExample.cfg ApiExample.keyset DepositExample.notifier
    CryptoExample.draw 1%N 101%N ApiExample.headers DepositExample.req 0 DepositExample.start
    [DepositExample.push] 201%Z (mkStoreSecretResponse 1 "example-api-token" 1)
    DepositExample.after.1 DepositExample.after.2)
    as (client & value & s & wt & _ & _ & _ & _ & Hv & _ & _ & _ & _ & Hs & Hold & _).
  - apply alone_ok.
  - exact DepositExample.depositor_start_reachable.
  - repeat split.
  - vm_compute. reflexivity.
  - exists s. split; [rewrite Hs; reflexivity|]. injection Hv as <-. exact Hold.
Defined.
