(* ===== verification/Refusals.v ===== *)
(** What a refused operation leaves behind: the POST handlers of the operator's
    pages and the client's deposit write nothing unless they succeed. *)

From S2P Require Import Prelude RustStr Types Json Crypto Examples SigV4 Http Injection Store Requests.
From S2P Require Import Grants ApiExt Secrets UiExt Policies Clients Provision Notify Lifecycle.
From S2P Require Import Refinement Safety StoreProps Api Push ApiRequests Csrf Human Ui UiApprove.
From S2P Require Import RustText FormText UiPolicies UiSecrets ApiSecrets.
From S2P Require Policy.
Open Scope string_scope.

(** ** Handlers that write nothing

    From [s] to [s'] only other handlers ran: every call of the handler found
    what they left, or failed. *)
Inductive drifts (env : Env) : St → St → Prop :=
| drifts_refl s : drifts env s s
| drifts_call n w w' s : env n w = Some w' → drifts env (S n, w') s → drifts env (n, w) s
| drifts_fail n w s : env n w = None → drifts env (S n, w) s → drifts env (n, w) s.

Lemma drifts_trans env s1 s2 s3 : drifts env s1 s2 → drifts env s2 s3 → drifts env s1 s3.
Proof.
  induction 1 as [|n w w' s Hw _ IH|n w s Hw _ IH]; intros HH; [done|..].
  - eapply drifts_call; [exact Hw|by apply IH].
  - eapply drifts_fail; [exact Hw|by apply IH].
Qed.
(** Where no other handler runs, nothing changed at all. *)
Lemma drifts_alone s s' : drifts alone s s' → s'.2 = s.2.
Proof. induction 1 as [|n w w' s [= <-] _ IH|n w s Hw _ IH]; done. Qed.

(** A handler that never writes; one that does not unless its answer is [ok]. *)
Definition silent {E A} (m : Handler E A) : Prop :=
  ∀ env s r s', m env s = (r, s') → drifts env s s'.
Definition refuses {E A} (ok : A → Prop) (m : Handler E A) : Prop :=
  ∀ env s r s', m env s = (r, s') → (∀ a, r = Ok a → ¬ ok a) → drifts env s s'.

Section Combinators.
Context {E : Type} `{DbFailure E}.

Lemma silent_lift {A} (r : result E A) : silent (lift r).
Proof. intros env s r' s' [= _ <-]. apply drifts_refl. Qed.
Lemma silent_throw {A} (e : E) : silent (throw e : Handler E A).
Proof. intros env s r s' [= _ <-]. apply drifts_refl. Qed.
Lemma silent_ret {A} (a : A) : silent (mret a : Handler E A).
Proof. intros env s r s' [= _ <-]. apply drifts_refl. Qed.
Lemma silent_query {A} (f : DateTime → Db → A) : silent (query f : Handler E A).
Proof.
  intros env [n w] r s'. unfold query. destruct (env n w) as [w'|] eqn:Ew; intros [= _ <-].
  - eapply drifts_call; [exact Ew|apply drifts_refl].
  - eapply drifts_fail; [exact Ew|apply drifts_refl].
Qed.
Lemma silent_bind {A B} (m : Handler E A) (f : A → Handler E B) :
  silent m → (∀ a, silent (f a)) → silent (m ≫= f).
Proof.
  intros Hm Hf env s r s'. unfold mbind, Handler_bind.
  destruct (m env s) as [[a|e] s1] eqn:Em; apply Hm in Em.
  - intros HH%Hf. by eapply drifts_trans.
  - by intros [= _ <-].
Qed.

Lemma silent_refuses {A} (ok : A → Prop) (m : Handler E A) : silent m → refuses ok m.
Proof. intros Hm env s r s' HH _. by eapply Hm. Qed.
Lemma refuses_bind {A B} (ok : B → Prop) (m : Handler E A) (f : A → Handler E B) :
  silent m → (∀ a, refuses ok (f a)) → refuses ok (m ≫= f).
Proof.
  intros Hm Hf env s r s'. unfold mbind, Handler_bind.
  destruct (m env s) as [[a|e] s1] eqn:Em; apply Hm in Em.
  - intros HH Hr. eapply drifts_trans; [exact Em|]. by eapply Hf.
  - by intros [= _ <-].
Qed.
(** A transaction followed by its answer: each outcome left the rows as they
    were, or is answered with success. *)
Lemma refuses_transact {A B} (ok : B → Prop) (f : DateTime → Db → result DbError (A * Db))
    (g : A → Handler E B) :
  (∀ now d a d', f now d = Ok (a, d') →
     d' = d ∧ silent (g a) ∨ ∀ env s, ∃ b, g a env s = (Ok b, s) ∧ ok b) →
  refuses ok (transact f ≫= g).
Proof.
  intros Hf env [n w] r s'. unfold mbind, Handler_bind, transact.
  destruct (env n w) as [w'|] eqn:Ew.
  2:{ intros [= _ <-] _. eapply drifts_fail; [exact Ew|apply drifts_refl]. }
  destruct (f w'.1 w'.2) as [[a d]|e] eqn:Ef.
  2:{ intros [= _ <-] _. eapply drifts_call; [exact Ew|apply drifts_refl]. }
  destruct (Hf _ _ _ _ Ef) as [[-> Hg]|Hg].
  - intros HH _. eapply drifts_call; [exact Ew|]. rewrite <-surjective_pairing in HH. by eapply Hg.
  - destruct (Hg env (S n, (w'.1, d))) as (b & -> & Hb). intros [= <- <-] Hr. by destruct (Hr b).
Qed.
End Combinators.
#[export] Hint Resolve silent_lift silent_throw silent_ret silent_query : keychute.

(** Handlers step by step, branching where they do; a transaction is left. *)
Ltac silent :=
  repeat match goal with
  | |- silent (mbind _ _) => apply silent_bind; [|intros ?]
  | |- silent (match ?x with _ => _ end) => destruct x
  end; auto with keychute.
Ltac refuses :=
  repeat match goal with
  | |- refuses _ (mbind _ (transact _)) => apply refuses_transact; intros ???? Htx
  | |- refuses _ (mbind _ _) => apply refuses_bind; [solve [silent]|intros ?]
  | |- refuses _ (match ?x with _ => _ end) => destruct x
  | |- refuses _ _ => apply silent_refuses; solve [silent]
  end.
(** The outcome of a transaction, and which of the two it is. *)
Ltac answered := right; intros; eexists; split; [reflexivity|by eexists].
Ltac kept := left; split; [done|silent].

Ltac outcomes H :=
  repeat match type of H with
  | Ok _ = Ok _ => injection H as <- <-
  | Err _ = Ok _ => discriminate H
  | match ?x with _ => _ end = Ok _ => destruct x
  | mbind _ _ = Ok _ => apply bind_Ok in H as (? & _ & H)
  end; first [kept|answered].

(** ** The operator's handlers *)
Definition redirects (r : UiResponse) : Prop := ∃ to, r = Redirect to.

Section Operator.
Context `{UuidText, Primitives, !FormLib, JoseLib, HttpLib, UrlLib, !OriginLib, SigText}.
Context (st : AppState) (v : Visit).

Lemma choose_release_silent `{JsonBytes} fresh form row m k now secret :
  silent (choose_release st fresh form row m k now secret).
Proof.
  unfold choose_release. apply silent_bind; [auto with keychute|intros _].
  destruct secret; [silent|]. destruct (non_empty _); [|silent].
  unfold substitute_release, evaluate_substitution. silent.
Qed.

Lemma approve_refuses `{JsonBytes} fresh id form : refuses redirects (approve st v fresh id form).
Proof.
  unfold approve. refuses.
  apply refuses_bind; [apply choose_release_silent|intros r]. refuses.
  unfold approve_request in Htx. outcomes Htx.
Qed.
Lemma deny_refuses id token : refuses redirects (deny st v id token).
Proof. unfold deny. refuses. unfold resolve_deny in Htx. outcomes Htx. Qed.
Lemma revoke_refuses id token : refuses redirects (revoke st v id token).
Proof. unfold revoke. refuses. unfold revoke_grant in Htx. outcomes Htx. Qed.

Lemma create_policy_refuses `{DateTimeText} id form : refuses redirects (create_policy st v id form).
Proof. unfold create_policy. refuses. unfold insert_policy_audited in Htx. outcomes Htx. Qed.
Lemma update_policy_refuses `{DateTimeText} id form : refuses redirects (update_policy st v id form).
Proof. unfold update_policy. refuses. unfold update_policy_audited in Htx. outcomes Htx. Qed.
Lemma delete_policy_refuses id token : refuses redirects (delete_policy st v id token).
Proof. unfold delete_policy. refuses. unfold delete_policy_audited in Htx. outcomes Htx. Qed.

Lemma mark_reviewed_refuses id token shown : refuses redirects (mark_reviewed st v id token shown).
Proof. unfold mark_reviewed. refuses. unfold mark_secret_vetted in Htx. outcomes Htx. Qed.
Lemma delete_secret_refuses id token shown : refuses redirects (delete_secret st v id token shown).
Proof. unfold delete_secret. refuses. unfold delete_secret_audited in Htx. outcomes Htx. Qed.
Lemma update_secret_refuses id form : refuses redirects (update_secret st v id form).
Proof. unfold update_secret. refuses. unfold update_secret_settings_audited in Htx. outcomes Htx. Qed.
Lemma rotate_to_refuses draw vid secret actor value conflict :
  refuses redirects (rotate_to st draw vid secret actor value conflict).
Proof. unfold rotate_to. refuses. unfold rotate_secret_version in Htx. outcomes Htx. Qed.
Lemma rotate_secret_refuses draw vid id token value :
  refuses redirects (rotate_secret st v draw vid id token value).
Proof.
  unfold rotate_secret, editable_secret, secret_by_id. refuses. apply rotate_to_refuses.
Qed.
Lemma save_secret_refuses draw sid vid form : refuses redirects (save_secret st v draw sid vid form).
Proof.
  unfold save_secret. refuses; [apply rotate_to_refuses|].
  unfold create_secret_with_version in Htx. outcomes Htx.
Qed.
End Operator.

(** ** The client's deposit *)
Section Deposit.
Context `{UuidText, Primitives, HttpLib, SigText, WireLib}.

Lemma authenticate_client_silent config headers : silent (authenticate_client config headers).
Proof. unfold authenticate_client, tokenreview_authenticate. silent. Qed.

Lemma store_refuses config keyset notifier draw sid vid headers body :
  refuses (λ _, True) (ApiSecrets.store config keyset notifier draw sid vid headers body).
Proof.
  unfold ApiSecrets.store, store_inner. refuses.
  apply refuses_bind; [apply authenticate_client_silent|intros client]. refuses.
  unfold create_secret_from_client in Htx. outcomes Htx.
Qed.
End Deposit.

(** ** What a refusal leaves *)

(** The operator's POST handlers, one constructor per route that redirects. *)
Section Posts.
Context `{UuidText, Primitives, !FormLib, JoseLib, HttpLib, UrlLib, !OriginLib, SigText}.
Context `{JsonBytes, DateTimeText}.
Context (st : AppState) (v : Visit).

Inductive posts : Handler UiError UiResponse → Prop :=
| posts_approve fresh id form : posts (approve st v fresh id form)
| posts_deny id token : posts (deny st v id token)
| posts_revoke id token : posts (revoke st v id token)
| posts_create_policy id form : posts (create_policy st v id form)
| posts_update_policy id form : posts (update_policy st v id form)
| posts_delete_policy id token : posts (delete_policy st v id token)
| posts_save_secret draw sid vid form : posts (save_secret st v draw sid vid form)
| posts_update_secret id form : posts (update_secret st v id form)
| posts_rotate_secret draw vid id token value : posts (rotate_secret st v draw vid id token value)
| posts_mark_reviewed id token shown : posts (mark_reviewed st v id token shown)
| posts_delete_secret id token shown : posts (delete_secret st v id token shown).

Lemma posts_refuse h : posts h → refuses redirects h.
Proof.
  destruct 1; [apply approve_refuses|apply deny_refuses|apply revoke_refuses
    |apply create_policy_refuses|apply update_policy_refuses|apply delete_policy_refuses
    |apply save_secret_refuses|apply update_secret_refuses|apply rotate_secret_refuses
    |apply mark_reviewed_refuses|apply delete_secret_refuses].
Qed.
End Posts.

(** C14: what is refused writes nothing.  Whichever handler the operator's form
    goes to, and whatever other handlers do meanwhile, unless the answer is the
    redirect of a success the handler itself left every table as it was: an
    error at any step, a failed or lost transaction and a page rendered again
    included.  The same holds of a client's deposit that is not answered with
    the created secret. *)
Theorem refusals_write_nothing
    `{UuidText, Primitives, !FormLib, JoseLib, HttpLib, UrlLib, !OriginLib, SigText}
    `{JsonBytes, DateTimeText, WireLib} env s :
  (∀ st v h r s', posts st v h → h env s = (r, s') →
     (∃ to, r = Ok (Redirect to)) ∨ drifts env s s')
  ∧ (∀ config keyset notifier draw sid vid headers body r s',
       ApiSecrets.store config keyset notifier draw sid vid headers body env s = (r, s') →
       (∃ answer, r = Ok answer) ∨ drifts env s s').
Proof.
  split.
  - intros st v h r s' Hp%posts_refuse HH. destruct r as [[to|notice]|e].
    + left. by exists to.
    + right. eapply Hp; [exact HH|]. intros a [= <-] [to E]. discriminate E.
    + right. by eapply Hp.
  - intros config keyset notifier draw sid vid headers body r s' HH. destruct r as [x|e].
    + left. by exists x.
    + right. by eapply store_refuses.
Qed.

(** Vetting a version that is not the current one. *)
Module RefusalExample.
Import ApiExample RequestExample ApproveExample SecretsExample.
#[export] Existing Instance PolicyFormExample.dates.
Definition stale : Handler UiError UiResponse :=
  mark_reviewed state SecretsExample.visit 1 (csrf R_SECRET_VET "1" "2") "2".
Definition outcome : result UiError UiResponse * St := stale alone (0, deposited).
Definition after : St := Eval vm_compute in outcome.2.
End RefusalExample.

Lemma refusals_write_nothing_witness :
  RefusalExample.after.2 = SecretsExample.deposited.
Proof.
  destruct (@refusals_write_nothing uuid_text_example CryptoExample.primitives CsrfExample.forms
    HumanExample.jose HttpExample.http HttpExample.url ApproveExample.origin_lib SigExample.text
    RequestExample.bytes PolicyFormExample.dates ApiExample.wire alone
    (0, SecretsExample.deposited)) as [HH _].
  destruct (HH ApproveExample.state SecretsExample.visit RefusalExample.stale
    (Err (mkUiError CONFLICT "that secret is already reviewed, no longer exists, or has been rotated since you looked at it — open it again to review the current value"))
    RefusalExample.after) as [[to Hto]|Hd].
  - apply posts_mark_reviewed.
  - vm_compute. reflexivity.
  - discriminate Hto.
  - exact (drifts_alone _ _ Hd).
Defined.
