(* ===== verification/Pipeline.v ===== *)
(** [cli/src/pipeline.rs]: the best-effort capture of the shell pipeline a
    request is made from: [ps] output, the walk up the parents, the peers. *)

From S2P Require Import Prelude RustStr RustText SigV4.
Open Scope string_scope.

Record PsRow := mkPsRow { ps_ppid : Z; ps_pgid : Z; ps_command : string }.
Notation PsTable := (gmap Z PsRow).
Definition u32_MAX : Z := 2 ^ 32 - 1.

(** The text before the first whitespace, and from it on. *)
Fixpoint cut_ws (s : string) : option (string * string) :=
  match s with
  | "" => None
  | String a r =>
      if ws_at s then Some ("", s)
      else '(word, rest) ← cut_ws r; Some (String a word, rest)
  end.
Definition split_field (s : string) : option (string * string) :=
  '(word, rest) ← cut_ws (trim_start s); Some (word, trim_start rest).

(** One line: its pid and row. *)
Definition parse_ps_line (line : string) : option (Z * PsRow) :=
  '(pid_s, rest) ← split_field line;
  '(ppid_s, rest) ← split_field rest;
  '(pgid_s, command) ← split_field rest;
  pid ← parse_uint u32_MAX pid_s;
  ppid ← parse_uint u32_MAX ppid_s;
  pgid ← parse_uint u32_MAX pgid_s;
  let command := trim_end command in
  if eqb command "" then None else Some (pid, mkPsRow ppid pgid command).
Definition insert_line (table : PsTable) (line : string) : PsTable :=
  match parse_ps_line line with
  | Some (pid, row) => <[pid := row]> table
  | None => table
  end.
Definition parse_ps (text : string) : PsTable := fold_left insert_line (lines text) ∅.

(** The walk up the parents, guarded against cycles. *)
Fixpoint walk_from (table : PsTable) (seen : list Z) (pid : Z) (levels : nat)
  : list (Z * string) :=
  match levels with
  | O => []
  | S levels =>
      if contains seen pid then []
      else match table !! pid with
           | None => []
           | Some row =>
               (pid, ps_command row)
               :: (if (ps_ppid row =? 0)%Z || (ps_ppid row =? pid)%Z then []
                   else walk_from table (pid :: seen) (ps_ppid row) levels)
           end
  end.
Definition walk_pids (table : PsTable) (start : Z) (max_levels : nat) : list (Z * string) :=
  walk_from table [] start max_levels.
Definition walk (table : PsTable) (start : Z) (max_levels : nat) : list string :=
  map snd (walk_pids table start max_levels).

Definition SHELLS : list string :=
  ["sh"; "bash"; "zsh"; "ksh"; "dash"; "ash"; "csh"; "tcsh"; "fish"].
Fixpoint trim_start_matches (c : ascii) (s : string) : string :=
  match s with
  | String a r => if eqb a c then trim_start_matches c r else s
  | "" => ""
  end.
Definition looks_like_shell (command : string) : bool :=
  let first := default "" (head (split_whitespace command "")) in
  let base := match rsplit_once "/" first with Some (_, b) => b | None => first end in
  contains SHELLS (trim_start_matches "-" base).

Record Capture := mkCapture { ancestors : list string; siblings : list string }.

Definition is_shell (table : PsTable) (pid : Z) : bool :=
  match table !! pid with Some r => looks_like_shell (ps_command r) | None => false end.
(** A child of the shell in our own process group, not one of our ancestors. *)
Definition is_peer (shell pgid : Z) (chain : list Z) (row : Z * PsRow) : bool :=
  (ps_ppid row.2 =? shell)%Z && (ps_pgid row.2 =? pgid)%Z && negb (contains chain row.1).

Definition analyze (table : PsTable) (start : Z) (max_levels : nat) : option Capture :=
  let chain := walk_pids table start max_levels in
  if is_empty chain then None
  else
    let chain_pids := map fst chain in
    let own_pgid := ps_pgid <$> table !! start in
    let shell_pid := List.find (is_shell table) (tail chain_pids) in
    let siblings :=
      match shell_pid, own_pgid with
      | Some shell, Some pgid =>
          map (λ row, (row.1, ps_command row.2))
            (List.filter (is_peer shell pgid chain_pids) (map_to_list table))
      | _, _ => []
      end in
    Some (mkCapture (map snd chain)
            (map snd (sort_by_key (λ s, s.1 :: bytes_key s.2) siblings))).

(** [capture], given whether [ps] ran and succeeded and what it printed. *)
Definition capture (ps : option string) (pid : Z) : option Capture :=
  text ← ps; analyze (parse_ps text) pid 5.

(** The output the source's own tests are written against. *)
Module PsExample.
Definition text : string :=
  "    1     0     1 /sbin/launchd
  400     1   400 /usr/bin/login -f agent
  456   400   456 -zsh
  789   456   789 keychute request my-service-api-key --reason seal
  790   456   789 kubeseal --format yaml
  791   456   791 curl -H secret-header https://internal
  bad   456   456 not-a-pid
  801       
".
Example captured :
  capture (Some text) 789
  = Some (mkCapture
            ["keychute request my-service-api-key --reason seal"; "-zsh";
             "/usr/bin/login -f agent"; "/sbin/launchd"] ["kubeseal --format yaml"]).
Proof. vm_compute. reflexivity. Qed.
Definition table : PsTable := Eval vm_compute in parse_ps text.
End PsExample.

(** ** What a capture is *)
Section Captures.
Context (table : PsTable).

(** A parent chain, upwards, without repeats. *)
Inductive parents : Z → list Z → Prop :=
| parents_top pid row : table !! pid = Some row → parents pid [pid]
| parents_up pid row chain :
    table !! pid = Some row → ps_ppid row ≠ 0%Z → parents (ps_ppid row) chain → pid ∉ chain →
    parents pid (pid :: chain).
Definition commands : list Z → list string → Prop :=
  Forall2 (λ pid command, ps_command <$> table !! pid = Some command).
(** Nothing further up is left out: the last process has no other parent in the
    table. *)
Definition tops_out (chain : list Z) : Prop :=
  ∀ pid row, last chain = Some pid → table !! pid = Some row →
    ps_ppid row = 0%Z ∨ ps_ppid row ∈ chain ∨ table !! ps_ppid row = None.

(** The walk stopped before its first process. *)
Ltac nothing := cbn; split_and!; [by intros p Hp%elem_of_nil|constructor|done|lia|auto|by right].

Lemma walk_from_spec seen pid levels chain :
  map fst (walk_from table seen pid levels) = chain →
  (∀ p, p ∈ chain → p ∉ seen)
  ∧ commands chain (map snd (walk_from table seen pid levels))
  ∧ (chain ≠ [] → parents pid chain)
  ∧ (length chain ≤ levels)%nat
  ∧ (chain = [] → levels = 0%nat ∨ pid ∈ seen ∨ table !! pid = None)
  ∧ (length chain = levels ∨ ∀ p row, last chain = Some p → table !! p = Some row →
       ps_ppid row = 0%Z ∨ ps_ppid row = p ∨ ps_ppid row ∈ seen ∨ ps_ppid row ∈ chain
       ∨ table !! ps_ppid row = None).
Proof.
  intros <-. revert seen pid. induction levels as [|levels IH]; intros seen pid; cbn [walk_from].
  { by nothing. }
  destruct (contains seen pid) eqn:Es.
  { kbool. by nothing. }
  kbool. destruct (table !! pid) as [row|] eqn:Er.
  2:{ by nothing. }
  cbn [map fst snd].
  destruct ((ps_ppid row =? 0)%Z || (ps_ppid row =? pid)%Z) eqn:Etop.
  - cbn [map length]. split_and!; try done.
    + by intros p ->%list_elem_of_singleton.
    + constructor; [by rewrite Er|constructor].
    + intros _. by eapply parents_top.
    + lia.
    + right. intros p row' [= <-]. rewrite Er. intros [= <-]. apply orb_true_iff in Etop as [E|E];
        apply Z.eqb_eq in E; auto.
  - apply orb_false_iff in Etop as [E0 Ep]. apply Z.eqb_neq in E0, Ep.
    destruct (IH (pid :: seen) (ps_ppid row)) as (Hseen & Hcmd & Hpar & Hlen & Hnil & Htop).
    remember (map fst (walk_from table (pid :: seen) (ps_ppid row) levels)) as rest eqn:Erest.
    clear Erest.
    cbn [length]. split_and!; [| | | |done|].
    + intros p [->|Hp]%elem_of_cons; [done|]. intros Hin. apply (Hseen p Hp). by right.
    + constructor; [by rewrite Er|done].
    + intros _. destruct rest as [|r rest']; [by eapply parents_top|].
      eapply parents_up; [done|done|by apply Hpar|]. intros Hin. apply (Hseen pid Hin). by left.
    + lia.
    + destruct Htop as [Hl|Htop]; [left; lia|]. destruct rest as [|r rest'].
      * destruct (Hnil eq_refl) as [->|Hup]; [by left|right].
        intros p row' [= <-]. rewrite Er. intros [= <-].
        destruct Hup as [[?|?]%elem_of_cons|?]; [done|auto..].
      * right. intros p row' Hl Hr. change (last (pid :: r :: rest')) with (last (r :: rest')) in Hl.
        destruct (Htop p row' Hl Hr) as [?|[?|[[?|?]%elem_of_cons|[?|?]]]]; auto.
        -- do 3 right. left. rewrite elem_of_cons. by left.
        -- do 3 right. left. rewrite elem_of_cons. by right.
Qed.

Lemma walk_pids_spec start n chain :
  map fst (walk_pids table start n) = chain →
  commands chain (map snd (walk_pids table start n))
  ∧ (chain ≠ [] → parents start chain) ∧ (length chain ≤ n)%nat
  ∧ (chain = [] → n = 0%nat ∨ table !! start = None) ∧ (length chain = n ∨ tops_out chain).
Proof.
  intros E. destruct (walk_from_spec [] start n chain E) as (_ & Hc & Hp & Hl & Hn & Ht).
  split_and!; try done.
  - intros E'. destruct (Hn E') as [?|[[]%elem_of_nil|?]]; auto.
  - destruct Ht as [?|Ht]; [by left|right]. intros p row Hlast Hr.
    destruct (Ht p row Hlast Hr) as [?|[Eq|[[]%elem_of_nil|[?|?]]]]; auto.
    right. left. rewrite Eq. by apply last_Some_elem_of.
Qed.
End Captures.

(** ** The peers *)
Lemma commands_of (table : PsTable) (s : list (Z * string)) :
  (∀ x, x ∈ s → ps_command <$> table !! x.1 = Some x.2) → commands table (map fst s) (map snd s).
Proof.
  induction s as [|x s IH]; intros Hs; [constructor|]. constructor; [apply Hs; by left|].
  apply IH. intros y Hy. apply Hs. by right.
Qed.
Lemma peers_sorted (l : list (Z * PsRow)) :
  NoDup (map fst l) →
  let s := sort_by_key (λ s : Z * string, s.1 :: bytes_key s.2)
             (map (λ row, (row.1, ps_command row.2)) l) in
  StronglySorted Z.lt (map fst s)
  ∧ (∀ p c, (p, c) ∈ s ↔ ∃ row, (p, row) ∈ l ∧ c = ps_command row).
Proof.
  intros Hnd s.
  assert (Hperm : s ≡ₚ map (λ row, (row.1, ps_command row.2)) l) by apply sort_by_key_perm.
  split.
  - pose proof (sort_by_key_sorted (λ s : Z * string, s.1 :: bytes_key s.2)
      (map (λ row, (row.1, ps_command row.2)) l)) as Hs. fold s in Hs.
    assert (Hnd' : NoDup (map fst s)).
    { rewrite (Permutation_map fst Hperm), map_map. exact Hnd. }
    clear Hperm. induction Hs as [|x l' Hs IH Hall]; cbn; [constructor|].
    apply NoDup_cons in Hnd' as [Hx Hnd']. constructor; [by apply IH|].
    apply Forall_forall. intros p Hp. pose proof Hp as Hp'.
    apply list_elem_of_fmap in Hp as (y & -> & Hy). rewrite Forall_forall in Hall.
    specialize (Hall y Hy). unfold key_le in Hall. cbn in Hall.
    destruct (Z.compare_spec x.1 y.1) as [E|E|E]; [|done|done]. by rewrite <-E in Hp'.
  - intros p c. rewrite Hperm, list_elem_of_fmap. split.
    + intros ([p' row] & [= -> ->] & Hin). by exists row.
    + intros (row & Hin & ->). by exists (p, row).
Qed.

Lemma peer_rows (table : PsTable) chain shell pgid :
  let l := List.filter (is_peer shell pgid chain) (map_to_list table) in
  NoDup (map fst l)
  ∧ ∀ p row, (p, row) ∈ l ↔
      table !! p = Some row ∧ ps_ppid row = shell ∧ ps_pgid row = pgid ∧ p ∉ chain.
Proof.
  intros l. split.
  - assert (Hf : NoDup (map fst (map_to_list table))) by apply NoDup_fst_map_to_list.
    unfold l. clear l. induction (map_to_list table) as [|y m IH]; [constructor|].
    apply NoDup_cons in Hf as [Hy Hf]. cbn [List.filter]. destruct (is_peer _ _ _ y); [|by apply IH].
    cbn. apply NoDup_cons. split; [|by apply IH]. intros (z & E & Hz)%list_elem_of_fmap.
    apply Hy. apply list_elem_of_In, filter_In in Hz as [Hz _]. rewrite E.
    apply list_elem_of_fmap_2. by apply list_elem_of_In.
  - intros p row. unfold l.
    rewrite list_elem_of_In, filter_In, <-list_elem_of_In, elem_of_map_to_list.
    unfold is_peer. cbn. split.
    + intros [Hp Hb]. kbool. rewrite !Z.eqb_eq in *. done.
    + intros (Hp & -> & -> & Hni). rewrite !Z.eqb_refl. cbn. split; [done|].
      apply negb_true_iff, bool_decide_eq_false. done.
Qed.

(** A capture is the pipeline and nothing else.  Its ancestors are the
    commands of the parent chain from the process itself, without repeats, at
    most as long as asked and otherwise complete; its siblings, in the order of
    their pids, are the commands of exactly the processes that are children of
    the first shell among those ancestors and belong to the process's own group
    without being ancestors: no other job of that shell, and nothing when no
    ancestor is a shell.  And something is captured whenever the process is in
    the table. *)
Theorem capture_is_pipeline (table : PsTable) start n :
  (analyze table start n = None ↔ n = 0%nat ∨ table !! start = None)
  ∧ ∀ c, analyze table start n = Some c →
    ∃ chain peers, parents table start chain ∧ (length chain ≤ n)%nat
      ∧ (length chain = n ∨ tops_out table chain)
      ∧ commands table chain (ancestors c)
      ∧ StronglySorted Z.lt peers ∧ commands table peers (siblings c)
      ∧ ∀ p, p ∈ peers ↔ ∃ shell own row,
          List.find (is_shell table) (tail chain) = Some shell ∧ table !! start = Some own
          ∧ table !! p = Some row ∧ ps_ppid row = shell ∧ ps_pgid row = ps_pgid own ∧ p ∉ chain.
Proof.
  destruct (walk_pids_spec table start n _ eq_refl) as (Hcmd & Hpar & Hlen & Hnil & Htop).
  unfold analyze. remember (walk_pids table start n) as w eqn:Ew. clear Ew.
  destruct (is_empty w) eqn:Ee.
  { apply is_empty_true in Ee as ->. split; [|done]. split; [auto|done]. }
  apply is_empty_false in Ee.
  assert (Hne : map fst w ≠ []) by by destruct w. specialize (Hpar Hne).
  assert (Hown : ∃ own, table !! start = Some own) by (inversion Hpar; eauto).
  destruct Hown as [own Hown]. split.
  { split; [done|]. intros [->|E]; [|congruence]. destruct w; [done|cbn in Hlen; lia]. }
  intros c [= <-]. cbn [ancestors siblings]. rewrite Hown. cbn [fmap option_fmap option_map].
  exists (map fst w).
  destruct (List.find (is_shell table) (tail (map fst w))) as [shell|] eqn:Es.
  - destruct (peer_rows table (map fst w) shell (ps_pgid own)) as [Hnd Hl].
    destruct (peers_sorted _ Hnd) as [Hsort Hmem].
    match goal with |- context [sort_by_key ?k ?m] => set (s := sort_by_key k m) in * end.
    exists (map fst s). split_and!; try done.
    + apply commands_of. intros [p cmd] Hin.
      apply Hmem in Hin as (row & Hr & ->). apply Hl in Hr as [Hr _]. cbn. by rewrite Hr.
    + intros p. split.
      * intros ([p' cmd] & -> & Hin)%list_elem_of_fmap. apply Hmem in Hin as (row & Hr & _).
        apply Hl in Hr as (? & ? & ? & ?). by exists shell, own, row.
      * intros (shell' & own' & row & [= <-] & Ho & Hr & Hpp & Hpg & Hni). injection Ho as <-.
        apply list_elem_of_fmap. exists (p, ps_command row). split; [done|].
        apply Hmem. exists row. split; [by apply Hl|done].
  - exists []. split_and!; try done; [constructor..|].
    intros p. split; [intros Hp; by apply elem_of_nil in Hp|]. by intros (shell & ? & ? & ? & _).
Qed.

(** In the example output the shell's background job, in a group of its own, is
    not captured. *)
Lemma capture_is_pipeline_witness :
  ∃ chain peers, parents PsExample.table 789 chain
    ∧ commands PsExample.table peers ["kubeseal --format yaml"] ∧ 791%Z ∉ peers.
Proof.
  destruct (capture_is_pipeline PsExample.table 789 5) as [_ HH].
  destruct (HH (mkCapture
            ["keychute request my-service-api-key --reason seal"; "-zsh";
             "/usr/bin/login -f agent"; "/sbin/launchd"] ["kubeseal --format yaml"]))
    as (chain & peers & Hpar & _ & _ & _ & _ & Hp & Hiff).
  - vm_compute. reflexivity.
  - exists chain, peers. split; [exact Hpar|]. split; [exact Hp|].
    intros Hin. apply Hiff in Hin as (shell & own & row & _ & Ho & Hr & _ & Hg & _).
    vm_compute in Ho. vm_compute in Hr. injection Ho as <-. injection Hr as <-. discriminate Hg.
Defined.
