(* ===== verification/Cli.v ===== *)
(** [cli/src/main.rs]: exit codes and failures, the environment, the replies of
    the server and how they are read, and the context an access request is made
    with; the platform the commands run on. *)

From S2P Require Import Prelude RustStr RustText NetAddr Types Json Examples Crypto Http Csrf ApiRequests Pipeline.
Open Scope string_scope.

(** ** Failures *)
Definition EXIT_OTHER : Z := 1.
Definition EXIT_CONFIG : Z := 2.
Definition EXIT_DENIED : Z := 3.
Definition EXIT_TIMEOUT : Z := 4.
Definition EXIT_PAYLOAD_LOST : Z := 5.

Record Failure := mkFailure { code : Z; message : string; keychute_refusal : bool }.
Notation CliResult := (result Failure).
Definition failure (code : Z) (message : string) : Failure := mkFailure code message false.
Definition refused_by_keychute (f : Failure) : Failure := mkFailure (code f) (message f) true.

(** [serde_json::from_str] on a text, and [StatusCode]'s [Display]. *)
Class ReplyText := {
  json_from_str : string → option Value;
  status_display : Z → string
}.

(** ** The platform

    What a command does to the outside: it sends a request and gets an answer or
    none, reads a file, the clock, standard input, and writes.  [S] is the state
    of everything outside the process. *)
Inductive Payload := NoBody | Json (v : Value) | Bytes (bytes : string).
Record Sent := mkSent {
  sn_method : string;
  sn_url : string;
  sn_bearer : string;
  sn_headers : list (string * string);
  sn_body : Payload;
  sn_default_agent : bool            (* the client fills in its own User-Agent *)
}.
(** A response: its status and headers, the chunks of its body that arrive and
    whether the body then ends as it should. *)
Record Reply := mkReply {
  rp_status : Z;
  rp_headers : list (string * string);
  rp_chunks : list string;
  rp_complete : bool
}.
Class Platform (S : Type) := {
  send : Sent → S → option Reply * S;
  now : S → Z * S;                              (* [Instant::now], nanoseconds *)
  sleep : Z → S → S;
  read_file : string → S → option string * S;
  print : string → S → bool * S;                (* standard output *)
  eprint : string → S → S;                      (* standard error *)
  is_tty : S → bool                             (* is standard output a terminal *)
}.

(** What [keychute curl] does with files besides: handles of opened files, reads
    of at most so many bytes ([None] is an I/O error), writes that may fail. *)
Class Files (S : Type) := {
  open_in : string → S → option nat * S;
  read_in : nat → Z → S → option string * S;
  read_stdin : Z → S → option string * S;
  open_out : string → S → option nat * S;       (* created, not truncated *)
  is_regular : nat → S → option bool;           (* [metadata().is_file()] *)
  empty_file : nat → S → bool * S;              (* [set_len(0)] *)
  write_file : nat → string → S → bool * S;
  same_file : string → string → S → bool;
  is_terminal : option nat → S → bool           (* of a file, or of standard input *)
}.

Definition Cli (S A : Type) : Type := S → CliResult A * S.
#[export] Instance Cli_ret S : MRet (Cli S) := λ A a s, (Ok a, s).
#[export] Instance Cli_bind S : MBind (Cli S) := λ A B f m s,
  match m s with
  | (Ok a, s') => f a s'
  | (Err e, s') => (Err e, s')
  end.
Definition bail {S A} (f : Failure) : Cli S A := λ s, (Err f, s).
Definition cli_lift {S A} (r : CliResult A) : Cli S A := λ s, (r, s).
(** An operation of the platform, which gives its answer and does not fail. *)
Definition run_op {S A} (f : S → A * S) : Cli S A := λ s, (Ok (f s).1, (f s).2).
Definition effect {S} (f : S → S) : Cli S unit := λ s, (Ok tt, f s).

(** [resp.text()] *)
Definition body_text (r : Reply) : option string :=
  if rp_complete r then Some (String.concat "" (rp_chunks r)) else None.

(** ** Replies *)
Record StatusResponse := mkStatusResponse {
  sr_request_id : Uuid;
  sr_state : RequestState.t;
  sr_grant_id : option Uuid;
  sr_deny_reason : option string;
  sr_granted_secret_name : option string;
  sr_auto_approved : bool
}.
Definition as_bool (v : Value) : option bool := match v with Bool b => Some b | _ => None end.

Section Replies.
Context `{UuidText, ReplyText}.

Definition as_uuid (v : Value) : option Uuid := as_str v ≫= uuid_parse.
Definition StatusResponse_of_value (v : Value) : option StatusResponse :=
  m ← as_object v;
  id ← map_get m "request_id" ≫= as_uuid;
  state ← (map_get m "state" ≫= as_str) ≫= RequestState.from_str_opt;
  grant ← opt_of as_uuid (map_get m "grant_id");
  reason ← opt_of as_str (map_get m "deny_reason");
  granted ← opt_of as_str (map_get m "granted_secret_name");
  auto ← default_of false as_bool (map_get m "auto_approved");
  Some (mkStatusResponse id state grant reason granted auto).

(** [ApiError]: its code and message. *)
Definition ApiError_of_value (v : Value) : option (string * string) :=
  m ← as_object v;
  e ← map_get m "error" ≫= as_object;
  c ← map_get e "code" ≫= as_str;
  msg ← map_get e "message" ≫= as_str;
  Some (c, msg).
Definition ApiError_from_str (body : string) : option (string * string) :=
  json_from_str body ≫= ApiError_of_value.

Definition api_error_message (status : Z) (body : string) : string :=
  match ApiError_from_str body with
  | Some (c, msg) => msg +:+ " (" +:+ c +:+ ")"
  | None => "server returned " +:+ status_display status
  end.

Definition classify_gone (body : string) : Failure :=
  let c := fst <$> ApiError_from_str body in
  if eqb c (Some "payload-lost") then
    failure EXIT_PAYLOAD_LOST
      "the grant's payload was lost (server restarted before the read); submit a new request for re-approval"
  else if eqb c (Some "grant-expired") then
    failure EXIT_TIMEOUT
      "the grant has expired or was revoked before the read; submit a new request for re-approval"
  else if eqb c (Some "grant-exhausted") then
    failure EXIT_OTHER
      "the grant has no uses remaining (the secret was already released); submit a new request if you need it again"
  else failure EXIT_OTHER ("grant is no longer usable: " +:+ api_error_message 410 body).

(** The exit code of a refusal. *)
Definition refusal_code (status : Z) : Z :=
  if (status =? 401)%Z then EXIT_CONFIG
  else if (status =? 403)%Z then EXIT_DENIED
  else EXIT_OTHER.
End Replies.

(** ** Idempotency keys *)
Definition MAX_REQUEST_IDEM_KEY_BYTES : Z := 124.
Definition read_idempotency_key (request_key : string) : string := "cli-" +:+ request_key.
Definition validate_idempotency_key (key : string) : result string unit :=
  fail_if eqb key "" with "idempotency key must not be empty";
  fail_if (MAX_REQUEST_IDEM_KEY_BYTES <? len key)%Z with "idempotency key too long";
  Ok tt.

(** ** The environment *)
Record CliConfig := mkCliConfig {
  cli_url : string;
  cli_external_url : string;
  cli_token : option string;
  cli_token_file : option string;
  cli_ca_bundle : option string
}.

Section Environment.
Context `{UrlLib, !OriginLib}.

(** The host of an IPv6 URL is bracketed. *)
Definition bare_host (h : string) : string :=
  trim_end_matches "]" (trim_start_matches "[" h).
Definition validate_api_url (url : string) (allow_insecure : bool) : result string unit :=
  parsed ← ok_or (url_parse url) "invalid KEYCHUTE_URL";
  if eqb (url_scheme parsed) "https" then Ok tt
  else if eqb (url_scheme parsed) "http" then
    let loopback :=
      match host_str parsed with
      | Some h =>
          eq_ignore_ascii_case (bare_host h) "localhost"
          || default false (is_loopback <$> parse_ip_addr (bare_host h))
      | None => false
      end in
    fail_if negb (loopback || allow_insecure)
      with "refusing plaintext http:// KEYCHUTE_URL to non-loopback host";
    Ok tt
  else Err "unsupported KEYCHUTE_URL scheme".

Definition set (keep : string → bool) (v : option string) : option string :=
  s ← v; if keep s then Some s else None.
Definition not_blank (s : string) : bool := negb (eqb (trim s) "").
Definition not_empty (s : string) : bool := negb (eqb s "").
(** [env] is [std::env::var(_).ok()]. *)
Definition from_env (env : string → option string) : CliResult CliConfig :=
  url ← ok_or (set not_blank (env "KEYCHUTE_URL")) (failure EXIT_CONFIG "KEYCHUTE_URL is not set");
  let url := trim_end_matches "/" (trim url) in
  let allow_insecure :=
    match env "KEYCHUTE_INSECURE_HTTP" with
    | Some v => eqb v "1" || eq_ignore_ascii_case v "true"
    | None => false
    end in
  _ ← map_err (failure EXIT_CONFIG) (validate_api_url url allow_insecure);
  let external_url :=
    default url ((λ s, trim_end_matches "/" (trim s))
                   <$> set not_blank (env "KEYCHUTE_EXTERNAL_URL")) in
  let token := set not_empty (env "KEYCHUTE_TOKEN") in
  let token_file := set not_empty (env "KEYCHUTE_TOKEN_FILE") in
  fail_if is_none token && is_none token_file
    with failure EXIT_CONFIG "no credentials: set KEYCHUTE_TOKEN or KEYCHUTE_TOKEN_FILE";
  Ok (mkCliConfig url external_url token token_file (set not_empty (env "KEYCHUTE_CA_BUNDLE"))).
End Environment.

(** The bearer token of one request; the file is read each time. *)
Definition bearer {S} `{Platform S} (cfg : CliConfig) : Cli S string :=
  match cli_token cfg with
  | Some t => mret t
  | None =>
      raw ← run_op (read_file (default "" (cli_token_file cfg)));
      raw ← cli_lift (ok_or raw (failure EXIT_CONFIG "cannot read KEYCHUTE_TOKEN_FILE"));
      let tok := trim raw in
      if eqb tok "" then bail (failure EXIT_CONFIG "KEYCHUTE_TOKEN_FILE is empty") else mret tok
  end.

(** ** The context of a request *)
Definition MAX_STRUCTURED_COMMAND_CHARS : nat := 400.

(** Characters of a UTF-8 text: the bytes that do not continue one. *)
Fixpoint char_count (s : string) : nat :=
  match s with
  | "" => 0
  | String c r => if cont c then char_count r else S (char_count r)
  end.
Fixpoint take_chars (n : nat) (s : string) : string :=
  match s with
  | "" => ""
  | String c r =>
      if cont c then String c (take_chars n r)
      else match n with O => "" | S n => String c (take_chars n r) end
  end.
(** U+2026 in UTF-8 *)
Definition ellipsis : string := String "226" (String "128" (String "166" "")).
Definition clip_command (cmd : string) : string :=
  if (char_count cmd <=? MAX_STRUCTURED_COMMAND_CHARS)%nat then cmd
  else take_chars MAX_STRUCTURED_COMMAND_CHARS cmd +:+ ellipsis.

Notation JsonMap := (list (string * Value)).
Definition map_insert (k : string) (v : Value) (m : JsonMap) : JsonMap :=
  sort_entries ((k, v) :: map_remove m k).

Section Context_.
Context `{JsonBytes}.

Definition json_len (m : JsonMap) : Z := len (value_to_vec (Object m)).
Fixpoint shed (sections : list string) (m : JsonMap) : JsonMap :=
  match sections with
  | [] => m
  | section :: sections =>
      if (json_len m <=? MAX_STRUCTURED_BYTES)%Z then m
      else if is_some (map_get m section) then
        shed sections (map_insert (section +:+ "_omitted") (Bool true) (map_remove m section))
      else shed sections m
  end.
Definition shed_structured_to_fit : JsonMap → JsonMap := shed ["pipeline_siblings"; "pipeline"].

(** Given what was captured and [KEYCHUTE_CONTEXT]. *)
Definition captured_map (captured : option Capture) : JsonMap :=
  match captured with
  | None => []
  | Some c =>
      let m := map_insert "pipeline" (strs (map clip_command (ancestors c))) [] in
      let m := if is_empty (siblings c) then m
               else map_insert "pipeline_siblings" (strs (map clip_command (siblings c))) m in
      shed_structured_to_fit m
  end.
Definition build_structured_context (captured : option Capture) (extra : option string)
  : option Value :=
  let m := captured_map captured in
  let m := match extra with Some e => map_insert "extra" (Str e) m | None => m end in
  if is_empty m then None else Some (Object m).
End Context_.
