(* ===== verification/CliTrace.v ===== *)
(** What a command does, as a trace: the platform that records what is sent with
    what came back and what is written, and the rules by which the traces of a
    command follow from those of its parts. *)

From S2P Require Import Prelude RustStr Types Json Crypto Http Csrf ApiRequests Pipeline Cli.
Open Scope string_scope.

Inductive Event :=
| Exchanged (request : Sent) (reply : option Reply)
| Wrote (bytes : string)
| Emptied (file : nat)
| Filed (file : nat) (bytes : string).
Notation Trace := (list Event).

Section Traced.
Context {S : Type} `{!Platform S}.

(** The platform, with what passes recorded. *)
#[export] Instance traced : Platform (S * Trace) := {|
  send := λ q '(s, tr), let '(r, s) := send q s in (r, (s, (tr ++ [Exchanged q r])%list));
  now := λ '(s, tr), let '(t, s) := now s in (t, (s, tr));
  sleep := λ d '(s, tr), (sleep d s, tr);
  read_file := λ f '(s, tr), let '(x, s) := read_file f s in (x, (s, tr));
  print := λ b '(s, tr), let '(x, s) := print b s in (x, (s, (tr ++ [Wrote b])%list));
  eprint := λ m '(s, tr), (eprint m s, tr);
  is_tty := λ '(s, tr), is_tty s
|}.
#[export] Instance traced_files `{!Files S} : Files (S * Trace) := {|
  open_in := λ f '(s, tr), let '(h, s) := open_in f s in (h, (s, tr));
  read_in := λ h n '(s, tr), let '(b, s) := read_in h n s in (b, (s, tr));
  read_stdin := λ n '(s, tr), let '(b, s) := read_stdin n s in (b, (s, tr));
  open_out := λ f '(s, tr), let '(h, s) := open_out f s in (h, (s, tr));
  is_regular := λ h '(s, tr), is_regular h s;
  empty_file := λ h '(s, tr), let '(b, s) := empty_file h s in (b, (s, (tr ++ [Emptied h])%list));
  write_file := λ h x '(s, tr), let '(b, s) := write_file h x s in (b, (s, (tr ++ [Filed h x])%list));
  same_file := λ a b '(s, tr), same_file a b s;
  is_terminal := λ h '(s, tr), is_terminal h s
|}.
Notation Run := (Cli (S * Trace)).

(** Every run of [m] ends with a result and adds a trace that [P] relates. *)
Definition does {A} (m : Run A) (P : CliResult A → Trace → Prop) : Prop :=
  ∀ s tr r s' tr', m (s, tr) = (r, (s', tr')) → ∃ new, tr' = (tr ++ new)%list ∧ P r new.

Lemma does_weaken {A} (m : Run A) (P Q : CliResult A → Trace → Prop) :
  does m P → (∀ r new, P r new → Q r new) → does m Q.
Proof. intros Hm HPQ s tr r s' tr' E. destruct (Hm _ _ _ _ _ E) as (new & -> & HP). eauto. Qed.

Lemma does_bind {A B} (m : Run A) (f : A → Run B) (P : CliResult A → Trace → Prop)
    (Q : A → CliResult B → Trace → Prop) :
  does m P → (∀ a, does (f a) (Q a)) →
  does (m ≫= f) (λ r new,
    (∃ a n1 n2, new = (n1 ++ n2)%list ∧ P (Ok a) n1 ∧ Q a r n2) ∨ (∃ e, r = Err e ∧ P (Err e) new)).
Proof.
  intros Hm Hf s tr r s' tr'. unfold mbind, Cli_bind.
  destruct (m (s, tr)) as [[a|e] [s1 tr1]] eqn:E; destruct (Hm _ _ _ _ _ E) as (n1 & -> & H1).
  - intros E2. destruct (Hf a _ _ _ _ _ E2) as (n2 & -> & H2).
    exists (n1 ++ n2)%list. rewrite app_assoc. split; [done|]. left. by exists a, n1, n2.
  - intros [= <- <- <-]. exists n1. split; [done|]. right. by exists e.
Qed.

(** Parts that neither send nor write, and what their result may be. *)
Definition silent {A} (m : Run A) (P : CliResult A → Prop) : Prop :=
  does m (λ r new, new = [] ∧ P r).

Lemma silent_mret {A} (a : A) : silent (mret a) (λ r, r = Ok a).
Proof. intros s tr r s' tr' [= <- <- <-]. exists []. by rewrite app_nil_r. Qed.
Lemma silent_of {A} (x : CliResult A) : silent (cli_lift x) (λ r, r = x).
Proof. intros s tr r s' tr' [= <- <- <-]. exists []. by rewrite app_nil_r. Qed.
Lemma silent_bail {A} (f : Failure) : silent (bail f : Run A) (λ r, r = Err f).
Proof. apply silent_of. Qed.
Lemma silent_effect (f : S * Trace → S * Trace) :
  (∀ s tr, (f (s, tr)).2 = tr) → silent (effect f) (λ r, r = Ok tt).
Proof.
  intros Hf s tr r s' tr'. unfold effect. intros [= <- E].
  specialize (Hf s tr). rewrite E in Hf. cbn in Hf. subst tr'. exists []. by rewrite app_nil_r.
Qed.
Lemma silent_op {A} (f : S * Trace → A * (S * Trace)) :
  (∀ s tr, (f (s, tr)).2.2 = tr) → silent (run_op f) (λ r, is_ok r = true).
Proof.
  intros Hf s tr r s' tr'. unfold run_op. intros [= <- E].
  specialize (Hf s tr). rewrite E in Hf. cbn in Hf. subst tr'. exists []. by rewrite app_nil_r.
Qed.
Lemma silent_any {A} (m : Run A) P : silent m P → silent m (λ _, True).
Proof. intros Hm. eapply does_weaken; [exact Hm|]. by intros r new [-> _]. Qed.

(** A silent part before another. *)
Lemma silent_then {A B} (m : Run A) (f : A → Run B) P (Q : CliResult B → Trace → Prop) :
  silent m P → (∀ a, P (Ok a) → does (f a) Q) → (∀ e, P (Err e) → Q (Err e) []) → does (m ≫= f) Q.
Proof.
  intros Hm Hf He s tr r s' tr'. unfold mbind, Cli_bind.
  destruct (m (s, tr)) as [[a|e] [s1 tr1]] eqn:E; destruct (Hm _ _ _ _ _ E) as (n1 & -> & -> & H1);
    rewrite app_nil_r.
  - by apply Hf.
  - intros [= <- <- <-]. exists []. rewrite app_nil_r. split; [done|]. by apply He.
Qed.
(** A silent part that cannot fail. *)
Lemma skip {A B} (m : Run A) (f : A → Run B) (Q : CliResult B → Trace → Prop) :
  silent m (λ r, is_ok r = true) → (∀ a, does (f a) Q) → does (m ≫= f) Q.
Proof. intros Hm Hf. by eapply silent_then; [exact Hm| |]. Qed.

Lemma silent_now : silent (run_op now) (λ r, is_ok r = true).
Proof. apply silent_op. intros s tr. cbn. by destruct (now s). Qed.
Lemma silent_read_file f : silent (run_op (read_file f)) (λ r, is_ok r = true).
Proof. apply silent_op. intros s tr. cbn. by destruct (read_file f s). Qed.
Lemma silent_tty : silent (run_op (λ s, (is_tty s, s))) (λ r, is_ok r = true).
Proof. by apply silent_op. Qed.
Lemma silent_eprint m : silent (effect (eprint m)) (λ r, is_ok r = true).
Proof. eapply does_weaken; [by apply silent_effect|]. by intros r new [-> ->]. Qed.
Lemma silent_sleep d : silent (effect (sleep d)) (λ r, is_ok r = true).
Proof. eapply does_weaken; [by apply silent_effect|]. by intros r new [-> ->]. Qed.
Lemma silent_ok_ret {A} (a : A) : silent (mret a) (λ r, is_ok r = true).
Proof. eapply does_weaken; [apply silent_mret|]. by intros r new [-> ->]. Qed.

Lemma does_send q : does (run_op (send q)) (λ r new, ∃ rp, r = Ok rp ∧ new = [Exchanged q rp]).
Proof.
  intros s tr r s' tr'. unfold run_op. cbn. destruct (send q s) as [rp s1]. cbn.
  intros [= <- <- <-]. eauto.
Qed.
Lemma does_print b : does (run_op (print b)) (λ r new, is_ok r = true ∧ new = [Wrote b]).
Proof.
  intros s tr r s' tr'. unfold run_op. cbn. destruct (print b s) as [rp s1]. cbn.
  intros [= <- <- <-]. eauto.
Qed.

Lemma bearer_silent cfg : silent (bearer cfg) (λ _, True).
Proof.
  unfold bearer. destruct (cli_token cfg) as [t|]; [by eapply silent_any, silent_mret|].
  apply skip; [apply silent_read_file|]. intros raw.
  eapply silent_then; [apply silent_of| |done]. intros t _. cbn.
  destruct (eqb (trim t) ""); eapply silent_any; [apply silent_bail|apply silent_mret].
Qed.

(** Parts that pass nothing on, whatever their result. *)
Definition mute {A} (m : Run A) : Prop := silent m (λ _, True).
Lemma mute_of {A} (m : Run A) P : silent m P → mute m.
Proof. apply silent_any. Qed.
Lemma mute_bind {A B} (m : Run A) (f : A → Run B) : mute m → (∀ a, mute (f a)) → mute (m ≫= f).
Proof. intros Hm Hf. unfold mute, silent. by eapply silent_then; [exact Hm|intros a _; apply Hf|]. Qed.
Lemma mute_ret {A} (a : A) : mute (mret a).
Proof. eapply mute_of, silent_mret. Qed.
Lemma mute_lift {A} (x : CliResult A) : mute (cli_lift x).
Proof. eapply mute_of, silent_of. Qed.
Lemma mute_bail {A} (f : Failure) : mute (bail f : Run A).
Proof. eapply mute_of, silent_bail. Qed.
Lemma mute_op {A} (f : S * Trace → A * (S * Trace)) :
  (∀ s tr, (f (s, tr)).2.2 = tr) → mute (run_op f).
Proof. intros Hf. by eapply mute_of, silent_op. Qed.
Lemma mute_read_file f : mute (run_op (read_file f)).
Proof. eapply mute_of, silent_read_file. Qed.
Lemma mute_eprint m : mute (effect (eprint m)).
Proof. eapply mute_of, silent_eprint. Qed.
Lemma mute_tty : mute (run_op (λ s, (is_tty s, s))).
Proof. eapply mute_of, silent_tty. Qed.
Lemma mute_bearer cfg : mute (bearer cfg).
Proof. apply bearer_silent. Qed.

Section FileOps.
Context `{!Files S}.
Lemma mute_open_in f : mute (run_op (open_in f)).
Proof. apply mute_op. intros s tr. cbn. by destruct (open_in f s). Qed.
Lemma mute_read_in h n : mute (run_op (read_in h n)).
Proof. apply mute_op. intros s tr. cbn. by destruct (read_in h n s). Qed.
Lemma mute_read_stdin n : mute (run_op (read_stdin n)).
Proof. apply mute_op. intros s tr. cbn. by destruct (read_stdin n s). Qed.
Lemma mute_open_out f : mute (run_op (open_out f)).
Proof. apply mute_op. intros s tr. cbn. by destruct (open_out f s). Qed.
Lemma mute_same_file a b : mute (run_op (λ s, (same_file a b s, s))).
Proof. by apply mute_op. Qed.
Lemma mute_is_terminal h : mute (run_op (λ s, (is_terminal h s, s))).
Proof. by apply mute_op. Qed.
Lemma mute_is_regular h : mute (run_op (λ s, (is_regular h s, s))).
Proof. by apply mute_op. Qed.
Lemma does_empty_file h : does (run_op (empty_file h)) (λ r new, is_ok r = true ∧ new = [Emptied h]).
Proof.
  intros s tr r s' tr'. unfold run_op. cbn. destruct (empty_file h s) as [b s1]. cbn.
  intros [= <- <- <-]. eauto.
Qed.
Lemma does_write_file h x :
  does (run_op (write_file h x)) (λ r new, is_ok r = true ∧ new = [Filed h x]).
Proof.
  intros s tr r s' tr'. unfold run_op. cbn. destruct (write_file h x s) as [b s1]. cbn.
  intros [= <- <- <-]. eauto.
Qed.
End FileOps.
End Traced.
#[export] Hint Resolve mute_bind mute_ret mute_lift mute_bail mute_read_file mute_eprint mute_tty
  mute_bearer mute_open_in mute_read_in mute_read_stdin mute_open_out mute_same_file mute_is_regular mute_is_terminal
  : keychute.
#[export] Hint Resolve silent_now silent_read_file silent_tty silent_eprint silent_sleep silent_ok_ret
  bearer_silent : keychute.

(** ** A scripted platform: the replies come from a list, each after a second;
    for the examples. *)
Module Script.
Record t := mk {
  clock : Z;
  replies : list (option Reply);
  files : string → option string;
  tty : bool
}.
Definition next (s : t) : option Reply * t :=
  match replies s with
  | r :: rest => (r, mk (clock s + second) rest (files s) (tty s))
  | [] => (None, mk (clock s + second) [] (files s) (tty s))
  end.
#[export] Instance platform : Platform t := {|
  send := λ _ s, next s;
  now := λ s, (clock s, s);
  sleep := λ d s, mk (clock s + Z.max 0 d) (replies s) (files s) (tty s);
  read_file := λ f s, (files s f, s);
  print := λ _ s, (true, s);
  eprint := λ _ s, s;
  is_tty := tty
|}.
#[export] Instance no_files : Files t := {|
  open_in := λ _ s, (None, s);
  read_in := λ _ _ s, (None, s);
  read_stdin := λ _ s, (Some "typed", s);
  open_out := λ _ s, (None, s);
  is_regular := λ _ _, None;
  empty_file := λ _ s, (true, s);
  write_file := λ _ _ s, (true, s);
  same_file := λ _ _ _, false;
  is_terminal := λ _ _, false
|}.
Definition start (replies : list (option Reply)) : t := mk 0 replies (λ _, None) false.
(** A reply whose text is the given name of a value. *)
Definition reply (status : Z) (text : string) : option Reply := Some (mkReply status [] [text] true).
Definition cfg : CliConfig :=
  mkCliConfig "https://keychute.example" "https://keychute.example" (Some "token") None None.
End Script.
