(* ===== verification/CliRequest.v ===== *)
(** [cli/src/main.rs]: [keychute request], step by step: create the request,
    wait for its resolution, read the grant, write the secret; and [keychute
    status]. *)

From S2P Require Import Prelude RustStr Types Json Examples Crypto Http ApiRequests ApiGrants ApiSecrets Pipeline Cli CliTrace.
Open Scope string_scope.

Definition WAIT_POLL_SECONDS : Z := 60.
Definition READ_ATTEMPTS : nat := 3.
Definition CREATE_ATTEMPTS : nat := 3.
Definition RETRY_BACKOFF_SECONDS : Z := 1.
Definition MAX_WAIT_NETWORK_ERRORS : Z := 5.

Record RequestArgs := mkRequestArgs {
  ra_secret_name : string;
  ra_reason : string;
  ra_ttl : Z;                       (* u64 *)
  ra_mechanism : string;
  ra_timeout : Z;                   (* u64 *)
  ra_idempotency_key : option string;
  ra_newline : bool
}.

(** [Instant + Duration]: an [Instant] counts its seconds in an [i64] and the
    addition panics past it, which ends the process with status 101. *)
Definition EXIT_PANIC : Z := 101.
Definition add_instant (instant secs : Z) : CliResult Z :=
  fail_if (2 ^ 63 - 1 <? instant / second + secs)%Z
    with failure EXIT_PANIC "overflow when adding duration to instant";
  Ok (instant + seconds secs)%Z.

(** What one poll of the wait endpoint says. *)
Module Poll.
Inductive t :=
| Resolved (st : StatusResponse) | StillPending | Transient (msg : string) | Fatal (f : Failure).
End Poll.

Section Commands.
Context {S : Type} `{!Platform S, UuidText, Primitives, ReplyText, JsonBytes}.

(** ** One attempt, and its retries

    An attempt is definitive ([Ok]) or transient ([Err], with the message of
    what went wrong). *)
Definition attempt {A} (cfg : CliConfig) (request : string → Sent)
    (reading : option Reply → result string (CliResult A)) : Cli S (result string (CliResult A)) :=
  λ s, match bearer cfg s with
       | (Err f, s) => (Ok (Ok (Err f)), s)
       | (Ok token, s) => let '(r, s) := send (request token) s in (Ok (reading r), s)
       end.
Fixpoint retry {A} (what : string) (one : Cli S (result string (CliResult A)))
    (more : nat) (first : bool) (last_err : string) : Cli S A :=
  match more with
  | O => bail (failure EXIT_OTHER (what +:+ " failed after 3 attempts: " +:+ last_err))
  | Datatypes.S more =>
      _ ← (if first then mret tt else effect (sleep (seconds RETRY_BACKOFF_SECONDS)));
      r ← one;
      match r with
      | Ok definitive => cli_lift definitive
      | Err msg =>
          _ ← effect (eprint ("keychute: " +:+ what +:+ " attempt failed: " +:+ msg));
          retry what one more false msg
      end
  end.

(** ** Creation *)
Definition reading_create (r : option Reply) : result string (CliResult StatusResponse) :=
  r ← ok_or r "send failed";
  text ← ok_or (body_text r) "failed reading server response";
  let status := rp_status r in
  let rejected := "access request rejected: " +:+ api_error_message status text in
  if is_client_error status then Ok (Err (failure (refusal_code status) rejected))
  else if negb (is_success status) then Err rejected
  else match json_from_str text ≫= StatusResponse_of_value with
       | Some st => Ok (Ok st)
       | None => Err "unexpected create response from server"
       end.
Definition create_sent (cfg : CliConfig) (body : CreateAccessRequest) (token : string) : Sent :=
  mkSent "POST" (cli_url cfg +:+ "/v1/access-requests") token []
    (Json (CreateAccessRequest_to_value body)) true.
Definition create_access_request (cfg : CliConfig) (body : CreateAccessRequest)
  : Cli S StatusResponse :=
  retry "request creation" (attempt cfg (create_sent cfg body) reading_create)
    CREATE_ATTEMPTS true "".

(** ** Waiting *)
Definition reading_wait (r : option Reply) : Poll.t :=
  match r with
  | None => Poll.Transient "send failed"
  | Some r =>
      match body_text r with
      | None => Poll.Transient "failed reading wait response"
      | Some text =>
          let status := rp_status r in
          let msg := api_error_message status text in
          if negb (is_success status) then
            if is_server_error status || (status =? 429)%Z then Poll.Transient msg
            else Poll.Fatal (failure (refusal_code status) ("wait failed: " +:+ msg))
          else
            match json_from_str text ≫= StatusResponse_of_value with
            | None => Poll.Transient "unexpected wait response"
            | Some st =>
                if eqb (sr_state st) RequestState.Pending then Poll.StillPending
                else Poll.Resolved st
            end
      end
  end.
Definition wait_sent (cfg : CliConfig) (id : Uuid) (poll : Z) (token : string) : Sent :=
  mkSent "GET"
    (cli_url cfg +:+ "/v1/access-requests/" +:+ uuid_display id +:+ "/wait?timeout_seconds="
     +:+ Z_to_string poll) token [] NoBody true.

(** The loop; [None] when the rounds allowed here run out. *)
Fixpoint wait_loop (cfg : CliConfig) (id : Uuid) (deadline : Z) (rounds : nat) (network_errors : Z)
  : Cli S (option StatusResponse) :=
  match rounds with
  | O => mret None
  | Datatypes.S rounds =>
      t ← run_op now;
      let remaining := Z.max 0 (deadline - t) in
      if (remaining =? 0)%Z
      then bail (failure EXIT_TIMEOUT
                   "timed out waiting for approval (request may still be pending server-side)")
      else
        let poll := Z.min WAIT_POLL_SECONDS (Z.max (remaining / second) 1) in
        token ← bearer cfg;
        r ← run_op (send (wait_sent cfg id poll token));
        match reading_wait r with
        | Poll.Resolved st => mret (Some st)
        | Poll.StillPending => wait_loop cfg id deadline rounds 0
        | Poll.Fatal f => bail f
        | Poll.Transient msg =>
            let network_errors := (network_errors + 1)%Z in
            if (MAX_WAIT_NETWORK_ERRORS <=? network_errors)%Z
            then bail (failure EXIT_OTHER ("wait failed repeatedly: " +:+ msg))
            else
              _ ← effect (eprint ("keychute: transient error while waiting, retrying: " +:+ msg));
              _ ← effect (sleep (seconds 2));
              wait_loop cfg id deadline rounds network_errors
        end
  end.
Definition wait_for_resolution (cfg : CliConfig) (id : Uuid) (deadline : Z) (rounds : nat)
  : Cli S (option StatusResponse) := wait_loop cfg id deadline rounds 0.

(** ** Reading the grant *)
Definition encoding_of_str (s : string) : option SecretEncoding.t :=
  if eqb s "utf8" then Some SecretEncoding.Utf8
  else if eqb s "base64" then Some SecretEncoding.Base64 else None.
Definition ReadGrantResponse_of_value (v : Value) : option ReadGrantResponse :=
  m ← as_object v;
  secret ← map_get m "secret" ≫= as_str;
  encoding ← (map_get m "encoding" ≫= as_str) ≫= encoding_of_str;
  version ← map_get m "secret_version_id" ≫= as_uuid;
  Some (mkReadGrantResponse secret encoding version).

Definition reading_read (r : option Reply) : result string (CliResult ReadGrantResponse) :=
  r ← ok_or r "send failed";
  text ← ok_or (body_text r) "failed reading response body";
  let status := rp_status r in
  let failed := "grant read failed: " +:+ api_error_message status text in
  if (status =? 410)%Z then Ok (Err (classify_gone text))
  else if is_client_error status then Ok (Err (failure (refusal_code status) failed))
  else if negb (is_success status) then Err failed
  else match json_from_str text ≫= ReadGrantResponse_of_value with
       | Some released => Ok (Ok released)
       | None => Err "unexpected read response from server"
       end.
Definition read_sent (cfg : CliConfig) (grant_id : Uuid) (idem_key token : string) : Sent :=
  mkSent "POST" (cli_url cfg +:+ "/v1/grants/" +:+ uuid_display grant_id +:+ "/read") token []
    (Json (obj [("idempotency_key", Str idem_key)])) true.
Definition read_grant (cfg : CliConfig) (grant_id : Uuid) (idem_key : string)
  : Cli S ReadGrantResponse :=
  retry "grant read" (attempt cfg (read_sent cfg grant_id idem_key) reading_read)
    READ_ATTEMPTS true "".

(** ** Output *)
Definition released_bytes (released : ReadGrantResponse) : CliResult string :=
  match rr_encoding released with
  | SecretEncoding.Utf8 => Ok (rr_secret released)
  | SecretEncoding.Base64 =>
      ok_or (base64_decode (rr_secret released))
        (failure EXIT_OTHER "server sent invalid base64 payload")
  end.
Definition write_out (bytes : string) : Cli S unit :=
  done ← run_op (print bytes);
  if (done : bool) then mret tt else bail (failure EXIT_OTHER "failed writing to stdout").
Definition write_secret (released : ReadGrantResponse) (force_newline : bool) : Cli S unit :=
  bytes ← cli_lift (released_bytes released);
  _ ← write_out bytes;
  tty ← run_op (λ s, (is_tty s, s));
  if force_newline || tty then write_out (String LF "") else mret tt.

(** ** The command *)
Definition report_resolution (requested_secret : string) (st : StatusResponse) : Cli S unit :=
  _ ← match sr_granted_secret_name st with
      | Some granted =>
          if eqb granted requested_secret then mret tt
          else effect (eprint ("keychute: no secret is stored as " +:+ requested_secret
                               +:+ "; the operator released " +:+ granted +:+ " in its place"))
      | None => mret tt
      end;
  if sr_auto_approved st
  then effect (eprint "keychute: approved automatically by a standing policy")
  else mret tt.

(** What the resolution of a request leaves to exercise. *)
Definition grant_of_resolution (st : StatusResponse) : CliResult Uuid :=
  match sr_state st with
  | RequestState.Approved =>
      ok_or (sr_grant_id st)
        (failure EXIT_OTHER "server reported approval but returned no grant id")
  | RequestState.Denied =>
      Err (failure EXIT_DENIED
             ("request denied" +:+ match sr_deny_reason st with
                                   | Some r => if eqb r "" then "" else ": " +:+ r
                                   | None => ""
                                   end))
  | RequestState.Expired => Err (failure EXIT_TIMEOUT "request expired before approval")
  | RequestState.Pending => Err (failure EXIT_TIMEOUT "timed out waiting for approval")
  end.
Definition report_then_grant (requested_secret : string) (st : StatusResponse) : Cli S Uuid :=
  _ ← (if eqb (sr_state st) RequestState.Approved then report_resolution requested_secret st
       else mret tt);
  cli_lift (grant_of_resolution st).

(** Create, and wait unless it is resolved at once. *)
Definition resolve_request (cfg : CliConfig) (body : CreateAccessRequest) (timeout : Z)
    (rounds : nat) : Cli S (option StatusResponse) :=
  t ← run_op now;
  deadline ← cli_lift (add_instant t timeout);
  st ← create_access_request cfg body;
  if eqb (sr_state st) RequestState.Pending then
    _ ← effect (eprint ("Waiting for approval: " +:+ cli_external_url cfg +:+ "/ui/requests/"
                        +:+ uuid_display (sr_request_id st)));
    wait_for_resolution cfg (sr_request_id st) deadline rounds
  else mret (Some st).

(** [fresh] is the random key, [captured] and [extra] what the context is made of. *)
Definition request_body (args : RequestArgs) (fresh : string) (captured : option Capture)
    (extra : option string) : CliResult CreateAccessRequest :=
  mechanism ← ok_or (Mechanism.from_str_opt (ra_mechanism args))
                (failure EXIT_CONFIG "unknown mechanism");
  fail_if negb (Mechanism.is_releasing mechanism)
    with failure EXIT_CONFIG "the mechanism releases no plaintext";
  let idem_key := default fresh (ra_idempotency_key args) in
  _ ← map_err (failure EXIT_CONFIG) (validate_idempotency_key idem_key);
  Ok (mkCreateAccessRequest idem_key (ra_secret_name args) mechanism
        (mkConstraints [] [] [] (ra_ttl args) (Some 1%Z))
        (mkRequestContext (ra_reason args) (build_structured_context captured extra))).
Definition run_request (cfg : CliConfig) (args : RequestArgs) (fresh : string)
    (captured : option Capture) (extra : option string) (rounds : nat) : Cli S (option unit) :=
  body ← cli_lift (request_body args fresh captured extra);
  st ← resolve_request cfg body (ra_timeout args) rounds;
  match st with
  | None => mret None
  | Some st =>
      grant_id ← report_then_grant (secret_name body) st;
      released ← read_grant cfg grant_id (read_idempotency_key (idempotency_key body));
      _ ← write_secret released (ra_newline args);
      mret (Some tt)
  end.

Definition status_sent (cfg : CliConfig) (id : Uuid) (token : string) : Sent :=
  mkSent "GET" (cli_url cfg +:+ "/v1/access-requests/" +:+ uuid_display id) token [] NoBody true.
Definition run_status (cfg : CliConfig) (request_id : string) : Cli S unit :=
  id ← cli_lift (ok_or (uuid_parse request_id) (failure EXIT_CONFIG "invalid request id"));
  token ← bearer cfg;
  r ← run_op (send (status_sent cfg id token));
  r ← cli_lift (ok_or r (failure EXIT_OTHER "status request failed"));
  text ← cli_lift (ok_or (body_text r) (failure EXIT_OTHER "failed reading status response"));
  if negb (is_success (rp_status r))
  then bail (failure EXIT_OTHER ("status failed: " +:+ api_error_message (rp_status r) text))
  else write_out (trim_end text +:+ String LF "").
End Commands.

(** ** The trace of the command *)
Section Traces.
Context {S : Type} `{!Platform S, UuidText, Primitives, ReplyText, JsonBytes}.
Notation Run := (Cli (S * Trace)).

(** The exchanges of a retried step: requests of one shape, all but the last
    answered by something transient. *)
Definition exchanged_by (shape : Sent → Prop) (e : Event) : Prop :=
  ∃ q rp, e = Exchanged q rp ∧ shape q.
Definition transient {A} (reading : option Reply → result string (CliResult A)) (e : Event) : Prop :=
  ∃ q rp msg, e = Exchanged q rp ∧ reading rp = Err msg.
Definition last_reply (tr : Trace) : option (option Reply) :=
  match last tr with Some (Exchanged _ rp) => Some rp | _ => None end.
Definition retried {A} (request : string → Sent) (reading : option Reply → result string (CliResult A))
    (n : nat) (r : CliResult A) (tr : Trace) : Prop :=
  (length tr ≤ n)%nat
  ∧ Forall (exchanged_by (λ q, ∃ token, q = request token)) tr
  ∧ Forall (transient reading) (removelast tr)
  ∧ ∀ a, r = Ok a → ∃ rp, last_reply tr = Some rp ∧ reading rp = Ok (Ok a).

Lemma does_attempt {A} cfg request (reading : option Reply → result string (CliResult A)) :
  does (attempt cfg request reading : Run _) (λ r new,
    (new = [] ∧ ∃ f, r = Ok (Ok (Err f)))
    ∨ ∃ token rp, new = [Exchanged (request token) rp] ∧ r = Ok (reading rp)).
Proof.
  intros s tr r s' tr'. unfold attempt.
  destruct (bearer cfg (s, tr)) as [[token|f] [s1 tr1]] eqn:E;
    destruct (bearer_silent _ _ _ _ _ _ E) as (n & -> & -> & _); rewrite app_nil_r.
  - cbn. destruct (send (request token) s1) as [rp s2]. intros [= <- <- <-].
    exists [Exchanged (request token) rp]. split; [done|]. right. by exists token, rp.
  - intros [= <- <- <-]. exists []. rewrite app_nil_r. split; [done|]. left. split; [done|]. by exists f.
Qed.

Lemma retried_cons {A} request (reading : option Reply → result string (CliResult A)) n r token rp msg tr :
  reading rp = Err msg → retried request reading n r tr →
  retried request reading (Datatypes.S n) r (Exchanged (request token) rp :: tr).
Proof.
  intros Hm (Hl & Hs & Ht & Hr). split_and!.
  - cbn. lia.
  - constructor; [|done]. by exists (request token), rp; split; [|exists token].
  - destruct tr as [|e tr]; [constructor|]. constructor; [|done]. by exists (request token), rp, msg.
  - intros a Ha. destruct (Hr a Ha) as (rp' & Hl' & E). exists rp'. split; [|done].
    destruct tr as [|e tr]; [done|]. exact Hl'.
Qed.

Lemma does_retry {A} what cfg request (reading : option Reply → result string (CliResult A)) n first msg :
  does (retry what (attempt cfg request reading) n first msg : Run A) (retried request reading n).
Proof.
  revert first msg. induction n as [|n IH]; intros first msg; cbn [retry].
  { eapply does_weaken; [apply silent_bail|]. intros r new [-> ->]. split_and!; by try constructor. }
  apply skip. { destruct first; auto with keychute. }
  intros _. eapply does_weaken.
  { apply (does_bind _ _ _ (λ a r new, match a with
                                       | Ok d => new = [] ∧ r = d
                                       | Err _ => retried request reading n r new
                                       end) (does_attempt cfg request reading)).
    intros [definitive|m]; cbv beta iota; [apply silent_of|].
    apply skip; [auto with keychute|]. intros _. apply IH. }
  cbn. intros r new [(a & n1 & n2 & -> & Ha & Hn)|(e & -> & [[_ [f [=]]]|(token & rp & _ & [=])])].
  destruct Ha as [[-> [f Ea]]|(token & rp & En & Ea)]; injection Ea as ->;
    [|rewrite En].
  - destruct Hn as [-> ->]. split_and!; cbn; [lia|constructor|constructor|done].
  - destruct (reading rp) as [d|m] eqn:Em.
    + destruct Hn as [-> ->]. split_and!; cbn; [lia| |constructor|].
      * constructor; [|done]. by exists (request token), rp; split; [|exists token].
      * intros a ->. by exists rp.
    + eapply retried_cons; [exact Em|exact Hn].
Qed.

Definition is_wait (cfg : CliConfig) (id : Uuid) (q : Sent) : Prop :=
  ∃ poll token, q = wait_sent cfg id poll token.
Definition waited (cfg : CliConfig) (id : Uuid) (r : CliResult (option StatusResponse)) (tr : Trace)
  : Prop :=
  Forall (exchanged_by (is_wait cfg id)) tr
  ∧ ∀ st, r = Ok (Some st) → ∃ rp, last_reply tr = Some rp ∧ reading_wait rp = Poll.Resolved st.

Lemma waited_end cfg id r token poll rp :
  (∀ st, r = Ok (Some st) → reading_wait rp = Poll.Resolved st) →
  waited cfg id r [Exchanged (wait_sent cfg id poll token) rp].
Proof.
  intros Hr. split; [|intros st Hst; exists rp; auto].
  constructor; [|done]. eexists _, rp. split; [done|]. by exists poll, token.
Qed.
Lemma waited_cons cfg id r token poll rp tr :
  (∀ st, reading_wait rp ≠ Poll.Resolved st) → waited cfg id r tr →
  waited cfg id r (Exchanged (wait_sent cfg id poll token) rp :: tr).
Proof.
  intros Hrp [Hf Hr]. split.
  - constructor; [|done]. eexists _, rp. split; [done|]. by exists poll, token.
  - intros st Hst. destruct (Hr st Hst) as (rp' & Hl & E). exists rp'.
    by destruct tr as [|e tr].
Qed.

(** One exchange, then what its reply decides. *)
Lemma does_exchange {A} q (f : option Reply → Run A) (Q : CliResult A → Trace → Prop) :
  (∀ rp, does (f rp) (λ r new, Q r (Exchanged q rp :: new))) → does (run_op (send q) ≫= f) Q.
Proof.
  intros Hf s tr r s' tr'. unfold mbind, Cli_bind.
  destruct (run_op (send q) (s, tr)) as [[rp|e] [s1 tr1]] eqn:E;
    destruct (does_send q _ _ _ _ _ E) as (n1 & -> & rp' & [=] & ->); subst.
  intros E2. destruct (Hf _ _ _ _ _ _ E2) as (n2 & -> & HQ).
  exists (Exchanged q rp' :: n2). by rewrite <-app_assoc.
Qed.

Lemma does_wait_loop cfg id deadline rounds errors :
  does (wait_loop cfg id deadline rounds errors : Run _) (waited cfg id).
Proof.
  revert errors. induction rounds as [|rounds IH]; intros errors; cbn [wait_loop].
  { eapply does_weaken; [apply silent_mret|]. intros r new [-> ->]. by split. }
  apply skip; [auto with keychute|]. intros t. cbv zeta.
  destruct (Z.max 0 (deadline - t) =? 0)%Z.
  { eapply does_weaken; [apply silent_bail|]. intros r new [-> ->]. by split. }
  eapply silent_then; [apply bearer_silent| |by split]. intros token _.
  apply does_exchange. intros rp. destruct (reading_wait rp) as [st| |msg|f] eqn:E.
  - eapply does_weaken; [apply silent_mret|]. intros r new [-> ->]. apply waited_end.
    by intros st' [= <-].
  - eapply does_weaken; [apply IH|]. intros r new HP. apply waited_cons; [|done].
    intros st. rewrite E. discriminate.
  - destruct (MAX_WAIT_NETWORK_ERRORS <=? errors + 1)%Z.
    { eapply does_weaken; [apply silent_bail|]. intros r new [-> ->]. by apply waited_end. }
    do 2 (apply skip; [auto with keychute|]; intros _).
    eapply does_weaken; [apply IH|]. intros r new HP. apply waited_cons; [|done].
    intros st. rewrite E. discriminate.
  - eapply does_weaken; [apply silent_bail|]. intros r new [-> ->]. by apply waited_end.
Qed.

(** Where a resolution comes from. *)
Definition answered_by (st : StatusResponse) (tr : Trace) : Prop :=
  ∃ rp, last_reply tr = Some rp
    ∧ (reading_create rp = Ok (Ok st) ∨ reading_wait rp = Poll.Resolved st).
Definition resolving (cfg : CliConfig) (body : CreateAccessRequest)
    (r : CliResult (option StatusResponse)) (tr : Trace) : Prop :=
  ∃ creates waits, tr = (creates ++ waits)%list
    ∧ (length creates ≤ CREATE_ATTEMPTS)%nat
    ∧ Forall (exchanged_by (λ q, ∃ token, q = create_sent cfg body token)) creates
    ∧ Forall (transient reading_create) (removelast creates)
    ∧ Forall (exchanged_by (λ q, ∃ id, is_wait cfg id q)) waits
    ∧ ∀ st, r = Ok (Some st) → answered_by st tr.

Lemma exchanged_by_mono (P Q : Sent → Prop) tr :
  (∀ q, P q → Q q) → Forall (exchanged_by P) tr → Forall (exchanged_by Q) tr.
Proof.
  intros HPQ Hf. eapply Forall_impl; [exact Hf|]. intros e (q & rp & -> & Hq). exists q, rp. split; [done|auto].
Qed.
Lemma last_reply_app tr tr' rp : last_reply tr' = Some rp → last_reply (tr ++ tr') = Some rp.
Proof.
  unfold last_reply. destruct (last tr') as [e|] eqn:E; [|done]. rewrite last_app, E. done.
Qed.
Lemma waited_answer cfg id r tr st : waited cfg id r tr → r = Ok (Some st) → answered_by st tr.
Proof. intros [_ Hr] ->. destruct (Hr st eq_refl) as (rp & Hl & E). exists rp. auto. Qed.

Lemma does_resolve cfg body timeout rounds :
  does (resolve_request cfg body timeout rounds : Run _) (resolving cfg body).
Proof.
  unfold resolve_request. apply skip; [auto with keychute|]. intros t.
  eapply silent_then; [apply silent_of| |].
  2:{ intros e _. exists [], []. split_and!; [done|cbn; lia|constructor..|done]. }
  intros deadline _. eapply does_weaken.
  { eapply (does_bind _ _ _ (λ st r new,
      Forall (exchanged_by (λ q, ∃ id, is_wait cfg id q)) new
      ∧ ∀ st', r = Ok (Some st') → (new = [] ∧ st' = st) ∨ answered_by st' new));
      [apply does_retry|].
    intros st. destruct (eqb (sr_state st) RequestState.Pending).
    - apply skip; [auto with keychute|]. intros _. eapply does_weaken; [apply does_wait_loop|].
      intros r new Hw. split; [|intros st' ->; right; by eapply waited_answer].
      destruct Hw as [Hw _]. eapply exchanged_by_mono; [|exact Hw]. intros q Hq.
      by exists (sr_request_id st).
    - eapply does_weaken; [apply silent_mret|]. intros r new [-> ->]. split; [done|].
      intros st' [= <-]. by left. }
  intros r new [(st & n1 & n2 & -> & (Hlen & Hc & Ht & Hr) & Hw & Ha)|(e & -> & Hlen & Hc & Ht & _)].
  - exists n1, n2. split_and!; try done. intros st' Hst'.
    destruct (Ha st' Hst') as [[-> ->]|(rp & Hl & E)].
    + rewrite app_nil_r. destruct (Hr st eq_refl) as (rp & Hl & E). exists rp. auto.
    + exists rp. split; [by apply last_reply_app|done].
  - exists new, []. rewrite app_nil_r. by split_and!.
Qed.

Lemma does_write_out b : does (write_out b : Run _) (λ r new, new = [Wrote b]).
Proof.
  eapply does_weaken.
  { apply (does_bind _ _ _ (λ _ r new, new = []) (does_print b)). intros [].
    - eapply does_weaken; [apply silent_mret|]. by intros r new [-> _].
    - eapply does_weaken; [apply silent_bail|]. by intros r new [-> _]. }
  intros r new [(a & n1 & n2 & -> & [_ ->] & ->)|(e & -> & _ & ->)]; [|done]. by rewrite app_nil_r.
Qed.

(** The bytes of a released secret, and a newline at most. *)
Definition written (released : ReadGrantResponse) (tr : Trace) : Prop :=
  ∃ bytes, released_bytes released = Ok bytes
    ∧ (tr = [Wrote bytes] ∨ tr = [Wrote bytes; Wrote (String LF "")]).
Lemma does_write_secret released newline :
  does (write_secret released newline : Run _)
    (λ r new, (new = [] ∧ r ≠ Ok tt) ∨ written released new).
Proof.
  unfold write_secret. eapply silent_then; [apply silent_of| |by left].
  intros bytes Hb. eapply does_weaken.
  { apply (does_bind _ _ _ (λ _ _ new, new = [] ∨ new = [Wrote (String LF "")])
             (does_write_out bytes)).
    intros _. apply skip; [auto with keychute|]. intros tty. destruct (newline || tty).
    - eapply does_weaken; [apply does_write_out|]. by right.
    - eapply does_weaken; [apply silent_mret|]. intros r new [-> _]. by left. }
  intros r new [(a & n1 & n2 & -> & -> & Hn)|(e & -> & ->)]; right; exists bytes; split; try done;
    [destruct Hn as [->| ->]|]; auto.
Qed.

Definition is_read (cfg : CliConfig) (grant_id : Uuid) (key : string) (q : Sent) : Prop :=
  ∃ token, q = read_sent cfg grant_id key token.

(** An approval that names the grant. *)
Definition approving (st : StatusResponse) (grant_id : Uuid) : Prop :=
  sr_state st = RequestState.Approved ∧ sr_grant_id st = Some grant_id.
Lemma grant_of_approval st grant_id : grant_of_resolution st = Ok grant_id → approving st grant_id.
Proof. unfold grant_of_resolution, approving. destruct (sr_state st); try done. by intros ->%ok_or_Ok. Qed.

(** What follows a resolution: reads of its grant, then the secret. *)
Definition releasing (cfg : CliConfig) (body : CreateAccessRequest) (st : StatusResponse)
    (r : CliResult (option unit)) (tr : Trace) : Prop :=
  ∃ reads outs, tr = (reads ++ outs)%list ∧ (length reads ≤ READ_ATTEMPTS)%nat
    ∧ Forall (transient reading_read) (removelast reads)
    ∧ (reads ≠ [] → ∃ grant_id, approving st grant_id
         ∧ Forall (exchanged_by (is_read cfg grant_id (read_idempotency_key (idempotency_key body))))
             reads)
    ∧ (outs ≠ [] → ∃ released rp, last_reply reads = Some rp
         ∧ reading_read rp = Ok (Ok released) ∧ written released outs)
    ∧ (r = Ok (Some tt) → outs ≠ []).

Lemma releasing_nothing cfg body st f : releasing cfg body st (Err f) [].
Proof. exists [], []. split_and!; [done|cbn; lia|constructor|done..]. Qed.

Lemma does_report requested st :
  silent (report_then_grant requested st : Run Uuid) (λ r, r = grant_of_resolution st).
Proof.
  unfold report_then_grant. apply skip; [|intros _; apply silent_of].
  destruct (eqb _ _); [|auto with keychute]. unfold report_resolution. apply skip.
  { destruct (sr_granted_secret_name st); [destruct (eqb _ _)|]; auto with keychute. }
  intros _. destruct (sr_auto_approved st); [apply silent_eprint|apply silent_ok_ret].
Qed.

Lemma does_release cfg body st newline :
  does (grant_id ← report_then_grant (secret_name body) st;
        released ← read_grant cfg grant_id (read_idempotency_key (idempotency_key body));
        _ ← write_secret released newline;
        mret (Some tt) : Run (option unit)) (releasing cfg body st).
Proof.
  eapply silent_then; [apply does_report| |intros e _; apply releasing_nothing].
  intros g Hg. eapply does_weaken.
  { apply (does_bind _ _ _ (λ released r new,
      (new = [] ∧ r ≠ Ok (Some tt)) ∨ written released new) (does_retry _ _ _ _ _ _ _)).
    intros released. eapply does_weaken.
    { apply (does_bind _ _ _ (λ _ r new, new = [] ∧ r = Ok (Some tt))
               (does_write_secret released newline)). intros _. apply silent_mret. }
    intros r new [(a & n1 & n2 & -> & Hn & -> & ->)|(e & -> & Hn)].
    - rewrite app_nil_r. destruct Hn as [[_ Ha]|Hn]; [by destruct a|by right].
    - destruct Hn as [[-> _]|Hn]; [by left|by right]. }
  intros r new [(rel & n1 & n2 & -> & (Hlen & Hc & Ht & Hr) & Hn)|(e & -> & Hlen & Hc & Ht & _)].
  - destruct (Hr rel eq_refl) as (rp & Hl & E). exists n1, n2. split_and!; try done.
    + intros _. exists g. split; [by apply grant_of_approval|done].
    + intros Hne. destruct Hn as [[-> _]|Hn]; [done|]. by exists rel, rp.
    + intros ->. destruct Hn as [[_ Hn]|(b & _ & [->| ->])]; done.
  - exists new, []. rewrite app_nil_r. split_and!; try done. intros _. exists g. split; [by apply grant_of_approval|done].
Qed.

(** C12: [keychute request] prints what was released to it and nothing else.
    Whatever the network and the server do, what a run sends and writes is: at
    most three creations of one and the same request, each but the last answered
    by something transient; polls of the wait endpoint; at most three reads of
    one grant under one idempotency key, only when the resolution was an approval
    that names that grant; and then, only when the last read answered with a
    release, exactly the bytes released, followed by at most a newline.  A run
    that succeeds wrote them; a usage error sends and writes nothing. *)
Theorem request_prints_only_the_release cfg args fresh captured extra rounds s r s' tr :
  (run_request cfg args fresh captured extra rounds : Run (option unit)) (s, []) = (r, (s', tr)) →
  match request_body args fresh captured extra with
  | Err f => r = Err f ∧ tr = []
  | Ok body =>
      ∃ resolved released, tr = (resolved ++ released)%list
        ∧ resolving cfg body (match r with Err f => Err f | Ok _ => Ok None end) resolved
        ∧ (released ≠ [] ∨ r = Ok (Some tt) →
           ∃ st, answered_by st resolved ∧ releasing cfg body st r released)
  end.
Proof.
  intros E. unfold run_request, mbind, Cli_bind, cli_lift in E.
  destruct (request_body args fresh captured extra) as [body|f].
  2:{ by injection E as <- _ <-. }
  destruct (resolve_request cfg body (ra_timeout args) rounds (s, [])) as [x [s1 tr1]] eqn:Er.
  destruct (does_resolve _ _ _ _ _ _ _ _ _ Er) as (n1 & -> & Hr). cbn [app] in *.
  assert (Hmono : ∀ y, (∀ st, y ≠ Ok (Some st)) → resolving cfg body y n1).
  { intros y Hy. destruct Hr as (c & w & Htr & Hl & Hc & Ht & Hw & _).
    exists c, w. split_and!; try done. intros st Hst. by destruct (Hy st). }
  destruct x as [[st|]|f].
  - destruct (does_release cfg body st (ra_newline args) _ _ _ _ _ E) as (n2 & -> & Hrel).
    exists n1, n2. split; [done|]. split; [apply Hmono; by destruct r|]. intros _. exists st.
    split; [|done]. destruct Hr as (c & w & _ & _ & _ & _ & _ & Ha). by apply Ha.
  - injection E as <- _ <-. exists n1, []. rewrite app_nil_r. split; [done|].
    split; [by apply Hmono|]. by intros [|[=]].
  - injection E as <- _ <-. exists n1, []. rewrite app_nil_r. split; [done|].
    split; [by apply Hmono|]. by intros [|[=]].
Qed.
End Traces.

(** ** Termination of the wait *)
Section Termination.
Context {S : Type} `{!Platform S, UuidText, Primitives, ReplyText, JsonBytes}.

(** A clock that does not run backwards, and an exchange that takes at least
    [least]. *)
Record timed (clock : S → Z) (least : Z) : Prop := mk_timed {
  timed_now : ∀ s, (now s).1 = clock s ∧ (clock s ≤ clock (now s).2)%Z;
  timed_send : ∀ q s, (clock s + least ≤ clock (send q s).2)%Z;
  timed_sleep : ∀ d s, (clock s ≤ clock (sleep d s))%Z;
  timed_file : ∀ f s, (clock s ≤ clock (read_file f s).2)%Z;
  timed_eprint : ∀ m s, (clock s ≤ clock (eprint m s))%Z
}.

Lemma bearer_time clock least cfg s :
  timed clock least → (clock s ≤ clock (bearer cfg s).2)%Z.
Proof.
  intros Ht. unfold bearer. destruct (cli_token cfg); [done|].
  pose proof (timed_file _ _ Ht (default "" (cli_token_file cfg)) s) as Hf.
  unfold mbind, Cli_bind, run_op, cli_lift. destruct (read_file _ s) as [[t|] s1]; [|done].
  cbn [ok_or fst snd] in *. destruct (eqb (trim t) ""); exact Hf.
Qed.

(** Waiting for an approval ends.  When the clock does not run backwards and
    every exchange takes at least some positive time, the wait loop returns
    within one round more than such exchanges fit before the deadline: with a
    resolution, a definitive refusal, five failures in a row, or the time-out. *)
Theorem wait_for_resolution_returns clock least cfg id deadline rounds s :
  timed clock least → (0 < least)%Z →
  (deadline - clock s ≤ least * Z.of_nat rounds)%Z →
  (wait_for_resolution cfg id deadline (Datatypes.S rounds) s).1 ≠ Ok None.
Proof.
  intros Ht Hl. unfold wait_for_resolution. generalize 0%Z as errors. revert s.
  induction rounds as [|rounds IH]; intros s errors Hd; [|set (more := Datatypes.S rounds) in *];
    cbn [wait_loop]; unfold mbind, Cli_bind, run_op at 1;
    destruct (timed_now _ _ Ht s) as [Hn Hn2]; destruct (now s) as [t s1]; cbn [fst snd] in *; subst t;
    destruct (Z.eqb_spec (Z.max 0 (deadline - clock s)) 0) as [E|E]; try done; [lia|].
  unfold more in Hd. rewrite Nat2Z.inj_succ, Z.mul_succ_r in Hd.
  pose proof (bearer_time _ _ cfg s1 Ht) as Hb. destruct (bearer cfg s1) as [[token|f] s2]; [|done].
  cbn [snd] in Hb. unfold run_op. set (q := wait_sent _ _ _ _).
  pose proof (timed_send _ _ Ht q s2) as Hs. destruct (send q s2) as [rp s3]. cbn [fst snd] in *.
  assert (Hnext : ∀ s4 errors', (clock s3 ≤ clock s4)%Z →
            (wait_loop cfg id deadline more errors' s4).1 ≠ Ok None).
  { intros s4 errors' H4. apply IH. lia. }
  destruct (reading_wait rp) as [st| |msg|f]; [done|by apply Hnext| |done].
  destruct (MAX_WAIT_NETWORK_ERRORS <=? errors + 1)%Z; [done|]. unfold effect. apply Hnext.
  pose proof (timed_eprint _ _ Ht ("keychute: transient error while waiting, retrying: " +:+ msg) s3).
  pose proof (timed_sleep _ _ Ht (seconds 2)
    (eprint ("keychute: transient error while waiting, retrying: " +:+ msg) s3)). lia.
Qed.
End Termination.

(** ** Witness: a lost answer, a wait, a read *)
Module RequestRun.
#[export] Existing Instance Script.platform.
#[export] Existing Instance uuid_text_example.
#[export] Existing Instance CryptoExample.primitives.
Definition values (text : string) : option Value :=
  if eqb text "pending" then Some (obj [("request_id", Str "7"); ("state", Str "pending")])
  else if eqb text "approved" then
    Some (obj [("request_id", Str "7"); ("state", Str "approved"); ("grant_id", Str "9")])
  else if eqb text "secret" then
    Some (obj [("secret", Str "hunter2"); ("encoding", Str "utf8"); ("secret_version_id", Str "3")])
  else None.
#[export] Instance text : ReplyText := {| json_from_str := values; status_display := Z_to_string |}.
#[export] Instance bytes : JsonBytes := {|
  value_to_vec := λ _, "value"; context_to_vec := reason; MAX_UTC := 0
|}.
Definition args : RequestArgs := mkRequestArgs "deploy-key" "deploy" 3600 "cli-read" 900 (Some "k") false.
Definition start : Script.t :=
  Script.start [None; Script.reply 201 "pending"; Script.reply 200 "pending";
                Script.reply 200 "approved"; Script.reply 502 ""; Script.reply 200 "secret"].
Definition run : CliResult (option unit) * (Script.t * Trace) :=
  run_request Script.cfg args "fresh" None None 10 (start, []).
Definition trace : Trace := Eval vm_compute in run.2.2.
Definition ended : Script.t := Eval vm_compute in run.2.1.
Example waited_then_written :
  run.1 = Ok (Some tt) ∧ length trace = 7%nat ∧ last trace = Some (Wrote "hunter2").
Proof. vm_compute. done. Qed.
End RequestRun.

Import RequestRun.
Lemma request_prints_only_the_release_witness :
  ∃ resolved released st, RequestRun.trace = (resolved ++ released)%list
    ∧ answered_by st resolved
    ∧ releasing Script.cfg
        (mkCreateAccessRequest "k" "deploy-key" Mechanism.CliRead
           (mkConstraints [] [] [] 3600 (Some 1%Z)) (mkRequestContext "deploy" None))
        st (Ok (Some tt)) released.
Proof.
  pose proof (request_prints_only_the_release Script.cfg RequestRun.args "fresh" None None 10
    RequestRun.start (Ok (Some tt)) RequestRun.ended RequestRun.trace) as HH.
  destruct HH as (resolved & released & E & _ & Hrel); [vm_compute; reflexivity|].
  destruct Hrel as (st & Ha & Hr); [by right|]. by exists resolved, released, st.
Defined.


Lemma script_timed : timed (λ s : Script.t, Script.clock s) second.
Proof. split; intros; cbn; try done; try lia. by destruct s as [c [|r l] f t]. Qed.

(** The replies of the run above. *)
Lemma wait_for_resolution_returns_witness :
  (wait_for_resolution Script.cfg 7 (seconds 900) 901 RequestRun.start).1 ≠ Ok None.
Proof.
  apply (wait_for_resolution_returns (λ s : Script.t, Script.clock s) second);
    [apply script_timed|done|]. vm_compute. discriminate.
Defined.
