(* ===== verification/CurlCall.v ===== *)
(** [cli/src/curl.rs]: what a [keychute curl] invocation means before anything
    is sent: its target, method and headers, the constraints it asks for, the key
    it asks under, and the checks made of its arguments. *)

From Stdlib Require Import QArith.
From S2P Require Import Prelude RustStr Types Paths Json Crypto Examples SigV4 Http Csrf ApiRequests Pipeline Cli.
Close Scope Q_scope.
Open Scope string_scope.

Definition MAX_TTL_SECONDS : Z := 30 * 24 * 3600.
Definition MAX_SERVER_USES : Z := i32_MAX.
Definition MAX_SECRET_NAME_BYTES : Z := 256.
Definition MAX_REASON_BYTES : Z := 4 * 1024.
Definition MAX_CONSTRAINT_ENTRIES : Z := 32.
Definition MAX_METHOD_BYTES : Z := 64.
Definition MAX_APPROVAL_WAIT_SECONDS : Z := MAX_TTL_SECONDS.
Definition STRIPPED_HEADERS : list string :=
  ["host"; "authorization"; "proxy-authorization"; "cookie"; "set-cookie"; "forwarded";
   "x-real-ip"; "x-http-method-override"; "x-method-override"; "x-original-url";
   "x-rewrite-url"; "x-original-method"; "connection"; "keep-alive"; "proxy-connection"; "te";
   "trailer"; "transfer-encoding"; "upgrade"; "content-length"; "expect"].
Definition CALL_BINDING_HEX_CHARS : nat := 32.
Definition MAX_CURL_USER_KEY_BYTES : Z := 124 - (Z.of_nat CALL_BINDING_HEX_CHARS + 1).

(** [max_time] is an [f64]: [None] when it is infinite or no number. *)
Record CurlArgs := mkCurlArgs {
  ca_url : string;
  ca_secret : option string;
  ca_method : option string;
  ca_headers : list string;
  ca_data : list string;
  ca_data_raw : list string;
  ca_data_binary : list string;
  ca_output : option string;
  ca_include : bool;
  ca_fail : bool;
  ca_reason : string;
  ca_ttl : Z;                        (* u64 *)
  ca_max_uses : Z;                   (* u32 *)
  ca_timeout : Z;                    (* u64 *)
  ca_max_time : option Q;
  ca_idempotency_key : option string;
  ca_grant_id : option string;
  ca_path_prefixes : list string;
  ca_allow_methods : list string
}.

Record Target := mkTarget {
  tg_origin : Origin;
  tg_path : string;
  tg_query : option string
}.
Definition target_text (path : string) (query : option string) : string :=
  path +:+ match query with Some q => "?" +:+ q | None => "" end.
Definition display (t : Target) : string :=
  to_display (tg_origin t) +:+ target_text (tg_path t) (tg_query t).

(** What the sources use of [reqwest]: the fragment of a URL, and the tokens
    [Method::from_bytes] accepts. *)
Class CallLib `{UrlLib} := {
  url_fragment : Url → option string;
  method_from_bytes : string → bool;
  method_from_bytes_token : ∀ m, method_from_bytes m = true → token m = true
}.

(** ** The target *)
Definition is_ascii_control (c : ascii) : bool := (byte_of c <? 32)%N || (byte_of c =? 127)%N.
Definition is_ascii (c : ascii) : bool := (byte_of c <? 128)%N.
Definition PATH_RESPELLED : list ascii := ["034"; "<"; ">"; "`"; "{"; "}"]%char.
Definition QUERY_RESPELLED : list ascii := ["034"; "'"; "<"; ">"]%char.
Definition respelled (l : list ascii) (c : ascii) : bool := negb (is_ascii c) || contains l c.

(** The text after the first occurrence, and from the first of some characters. *)
Fixpoint after_str (p s : string) : option string :=
  match strip_prefix p s with
  | Some rest => Some rest
  | None => match s with String _ r => after_str p r | "" => None end
  end.
Fixpoint from_any (l : list ascii) (s : string) : string :=
  match s with
  | "" => ""
  | String c r => if contains l c then s else from_any l r
  end.
Definition before_char (c : ascii) (s : string) : string := default s (head (split c s)).
Definition raw_path_and_query (raw : string) : string * option string :=
  let after_scheme := default raw (after_str "://" raw) in
  let rest := from_any ["/"; "?"; "#"]%char after_scheme in
  let '(path_part, query_part) :=
    match split_once "?" rest with
    | Some (p, q) => (p, Some (before_char "#" q))
    | None => (before_char "#" rest, None)
    end in
  (if eqb path_part "" then "/" else path_part, query_part).

Section Target.
Context `{UrlLib, !OriginLib, !CallLib}.

Definition parse_target (raw : string) : result string Target :=
  url ← ok_or (url_parse raw) "invalid URL";
  fail_if eqb (url_scheme url) "http" with "refusing plaintext http:// target";
  fail_if negb (eqb (url_scheme url) "https") with "unsupported URL scheme";
  fail_if negb (eqb (url_username url) "") || is_some (url_password url)
    with "refusing URL with embedded credentials";
  fail_if any_byte is_ascii_control raw with "refusing URL containing a control character";
  fail_if contains_char " " raw with "refusing URL containing a space";
  fail_if contains_char "\" raw with "refusing URL with a backslash";
  fail_if is_some (url_fragment url) with "URL fragment is never sent to a server";
  host ← ok_or (host_str url) "URL has no host";
  let authority := match url_port url with
                   | Some p => host +:+ ":" +:+ Z_to_string p
                   | None => host
                   end in
  origin ← map_err (λ _, "invalid origin") (Origin_parse url_host_str authority);
  let '(path, query) := raw_path_and_query raw in
  fail_if any_byte (respelled PATH_RESPELLED) path with "refusing URL: respelled";
  fail_if any_byte (respelled QUERY_RESPELLED) (default "" query) with "refusing URL: respelled";
  Ok (mkTarget origin path query).

(** ** Method and headers *)
Definition normalize_method (m : string) : result string string :=
  let upper := to_ascii_uppercase (trim m) in
  fail_if negb (method_from_bytes upper) with "invalid HTTP method";
  fail_if (MAX_METHOD_BYTES <? len upper)%Z with "HTTP method too long";
  fail_if eqb upper "CONNECT" with "CONNECT cannot be brokered";
  fail_if eqb upper "TRACE" with "TRACE is never proxied";
  Ok upper.
End Target.

Definition ows (c : ascii) : bool := eqb c " "%char || eqb c TAB.
Fixpoint trim_start_ows (s : string) : string :=
  match s with
  | String c r => if ows c then trim_start_ows r else s
  | "" => ""
  end.
Fixpoint trim_end_ows (s : string) : string :=
  match s with
  | String c r =>
      let r := trim_end_ows r in if ows c && eqb r "" then "" else String c r
  | "" => ""
  end.
Definition trim_ows (s : string) : string := trim_end_ows (trim_start_ows s).
Fixpoint strip_suffix (c : ascii) (s : string) : option string :=
  match s with
  | "" => None
  | String a "" => if eqb a c then Some "" else None
  | String a r => String a <$> strip_suffix c r
  end.

Section Headers.
Context `{HttpLib}.

(** [None] is a removal. *)
Definition parse_header (line : string) : result string (option (string * string)) :=
  '(name, value) ← match split_once ":" line with
                   | Some (name, value) => Ok (name, Some value)
                   | None => match strip_suffix ";" (trim_end_ows line) with
                             | Some name => Ok (name, None)
                             | None => Err "header is not in `Name: value` form"
                             end
                   end;
  let name := trim_ows name in
  fail_if eqb name "" with "header has an empty name";
  fail_if is_none (header_name name) with "invalid header name";
  let value := match value with Some v => trim_start_ows v | None => "" end in
  if is_some (split_once ":" line) && eqb value "" then Ok None
  else
    fail_if is_none (header_value value) with "invalid header value";
    Ok (Some (to_ascii_lowercase name, value)).
End Headers.

Definition unremovable_header (name : string) (has_body : bool) : bool :=
  eqb name "host" || (eqb name "content-length" && has_body).
Definition is_stripped_header (name : string) : bool :=
  let n := to_ascii_lowercase name in
  contains STRIPPED_HEADERS n || starts_with "x-forwarded-" n.
Definition connection_nominated (headers : list (string * string)) : list string :=
  List.filter (λ t, negb (eqb t ""))
    (map (λ t, to_ascii_lowercase (trim t))
       (flat_map (λ h, split "," h.2) (List.filter (λ h, eqb h.1 "connection") headers))).

(** ** The grant asked for *)
Definition canonical_path (raw : string) : option string := ok (canonicalize raw).
Definition path_covered (prefix path : string) : bool := prefix_matches prefix path.

Section Grant.
Context `{UrlLib, !OriginLib, !CallLib}.

(** The methods of the grant: the call's own, then each other once. *)
Fixpoint add_methods (methods : list string) (extra : list string) : result string (list string) :=
  match extra with
  | [] => Ok methods
  | m :: extra =>
      m ← normalize_method m;
      add_methods (if contains methods m then methods else methods ++ [m])%list extra
  end.
Definition prefixes_for (target : Target) (path_prefixes : list string)
  : result string (list string) :=
  match path_prefixes with
  | [] => Ok [tg_path target]
  | _ =>
      fail_if negb (forallb (starts_with "/") path_prefixes) with "path prefix must start with '/'";
      fail_if existsb (λ p, is_none (canonical_path p)) path_prefixes
        with "--path-prefix is one the broker refuses";
      fail_if match canonical_path (tg_path target) with
              | Some canonical_target =>
                  let canonical_prefixes := omap canonical_path path_prefixes in
                  negb (is_empty canonical_prefixes)
                  && negb (existsb (λ p, path_covered p canonical_target) canonical_prefixes)
              | None => false
              end
        with "--path-prefix does not cover the call";
      Ok path_prefixes
  end.
Definition constraints_for (target : Target) (method : string)
    (extra_methods path_prefixes : list string) (ttl max_uses : Z) : result string Constraints :=
  methods ← add_methods [method] extra_methods;
  prefixes ← prefixes_for target path_prefixes;
  Ok (mkConstraints [tg_origin target] methods prefixes ttl
        (if (0 <? max_uses)%Z then Some max_uses else None)).
End Grant.

(** ** The idempotency key *)
Definition field (s : string) : string := be_bytes 8 (len s) +:+ s.
Definition opt_bytes (s : option string) : string :=
  match s with None => String "000" "" | Some s => String "001" (field s) end.
Definition header_fields (headers : list (string * string)) : string :=
  String.concat "" (map (λ h, field h.1 +:+ field h.2) headers).
(** What is hashed, in the order it is fed to the hash. *)
Definition call_text (method : string) (target : Target) (headers : list (string * string))
    (body : option string) (suppress_user_agent : bool) : string :=
  field method +:+ field (to_display (tg_origin target)) +:+ field (tg_path target)
  +:+ opt_bytes (tg_query target)
  +:+ be_bytes 8 (Z.of_nat (length headers)) +:+ header_fields headers
  +:+ opt_bytes body
  +:+ String (if suppress_user_agent then "001" else "000")%char "".
Definition call_bound_idempotency_key `{SigText} (user_key method : string) (target : Target)
    (headers : list (string * string)) (body : option string) (suppress_user_agent : bool) : string :=
  user_key +:+ "-" +:+ String.substring 0 CALL_BINDING_HEX_CHARS
    (sha256_hex (call_text method target headers body suppress_user_agent)).

(** ** Checks of the arguments *)
Module Selector.
Inductive t := Grant (id : Uuid) | Secret (name : string).
End Selector.
Definition credential_selector `{UuidText} (args : CurlArgs) : CliResult Selector.t :=
  match ca_grant_id args with
  | Some g => id ← ok_or (uuid_parse g) (failure EXIT_CONFIG "invalid grant id");
              Ok (Selector.Grant id)
  | None => ok_or (Selector.Secret <$> ca_secret args)
              (failure EXIT_CONFIG "--secret <name> is required (or --grant-id to reuse an approved grant)")
  end.
Definition body_is_supplied (args : CurlArgs) : bool :=
  negb (is_empty (ca_data args)) || negb (is_empty (ca_data_raw args))
  || negb (is_empty (ca_data_binary args)).

Section Validate.
Context `{UrlLib, !OriginLib, !CallLib, HttpLib}.
Notation usage := (failure EXIT_CONFIG).

Definition call_method (args : CurlArgs) : CliResult string :=
  match ca_method args with
  | Some m => map_err usage (normalize_method m)
  | None => Ok (if body_is_supplied args then "POST" else "GET")
  end.

(** The headers given and whether [User-Agent] is suppressed. *)
Fixpoint parse_headers (has_body : bool) (lines : list string)
  : CliResult (list (string * string) * bool) :=
  match lines with
  | [] => Ok ([], false)
  | line :: lines =>
      h ← map_err usage (parse_header line);
      match h with
      | Some h => '(parsed, suppress) ← parse_headers has_body lines; Ok (h :: parsed, suppress)
      | None =>
          let name := to_ascii_lowercase (trim (before_char ":" line)) in
          fail_if unremovable_header name has_body with usage "cannot honour the header removal";
          '(parsed, suppress) ← parse_headers has_body lines;
          Ok (parsed, eqb name "user-agent" || suppress)
      end
  end.
(** The headers that are sent. *)
Definition sent_headers (parsed : list (string * string)) : list (string * string) :=
  let nominated := connection_nominated parsed in
  List.filter (λ h, negb (is_stripped_header h.1) && negb (contains nominated h.1)) parsed.
Definition suppresses_user_agent (parsed : list (string * string)) (removed : bool) : bool :=
  removed || contains (connection_nominated parsed) "user-agent".

Definition max_time_ok (max_time : option Q) : bool :=
  match max_time with
  | Some t => Qle_bool 0 t && Qle_bool t (inject_Z MAX_APPROVAL_WAIT_SECONDS)
  | None => false
  end.
Definition validate_grant_options (args : CurlArgs) (target : Target) (method : string)
  : CliResult unit :=
  fail_if is_none (canonical_path (tg_path target)) with usage "the path is one the broker refuses";
  fail_if negb (max_time_ok (ca_max_time args)) with usage "--max-time out of range";
  if is_some (ca_grant_id args) then Ok tt
  else
    fail_if eqb (ca_idempotency_key args) (Some "") with usage "--idempotency-key is empty";
    fail_if (MAX_CURL_USER_KEY_BYTES <? len (default "" (ca_idempotency_key args)))%Z
      with usage "--idempotency-key too long";
    fail_if (ca_ttl args <? 1)%Z || (MAX_TTL_SECONDS <? ca_ttl args)%Z with usage "--ttl out of range";
    fail_if (MAX_SERVER_USES <? ca_max_uses args)%Z with usage "--max-uses too large";
    fail_if (MAX_APPROVAL_WAIT_SECONDS <? ca_timeout args)%Z with usage "--timeout too large";
    fail_if match ca_secret args with
            | Some name => eqb name "" || (MAX_SECRET_NAME_BYTES <? len name)%Z
            | None => false
            end with usage "--secret must be 1 to 256 bytes";
    fail_if (MAX_REASON_BYTES <? len (ca_reason args))%Z with usage "--reason too long";
    distinct ← map_err usage (add_methods [method] (ca_allow_methods args));
    fail_if (MAX_CONSTRAINT_ENTRIES <? Z.of_nat (length distinct))%Z
      with usage "too many distinct methods";
    fail_if (MAX_CONSTRAINT_ENTRIES <? Z.of_nat (length (ca_path_prefixes args)))%Z
      with usage "too many --path-prefix values";
    if negb (is_empty (ca_path_prefixes args)) then
      _ ← map_err usage (constraints_for target method [] (ca_path_prefixes args) (ca_ttl args)
                           (ca_max_uses args));
      Ok tt
    else Ok tt.
End Validate.

(** The context of the request: the target is shown whole or not at all. *)
Definition build_request_context `{JsonBytes} (captured : option Capture) (extra : option string)
    (target : Target) (method : string) : CliResult Value :=
  match default (Object []) (build_structured_context captured extra) with
  | Object m =>
      let m := shed_structured_to_fit
                 (map_insert "target" (Str (method +:+ " " +:+ display target)) m) in
      fail_if (MAX_STRUCTURED_BYTES <? json_len m)%Z
        with failure EXIT_CONFIG "the approval context is over the server's limit";
      Ok (Object m)
  | v => Ok v
  end.

(** The request [acquire_grant] makes, given the random key. *)
Definition grant_request `{UrlLib, !OriginLib, !CallLib, SigText} (args : CurlArgs) (fresh : string)
    (target : Target) (method secret_name : string) (structured : Value)
    (headers : list (string * string)) (body : option string) (suppress_user_agent : bool)
  : CliResult CreateAccessRequest :=
  let user_key := default fresh (ca_idempotency_key args) in
  fail_if (MAX_CURL_USER_KEY_BYTES <? len user_key)%Z
    with failure EXIT_CONFIG "--idempotency-key too long";
  let idem_key := call_bound_idempotency_key user_key method target headers body suppress_user_agent in
  _ ← map_err (failure EXIT_CONFIG) (validate_idempotency_key idem_key);
  k ← map_err (failure EXIT_CONFIG)
        (constraints_for target method (ca_allow_methods args) (ca_path_prefixes args) (ca_ttl args)
           (ca_max_uses args));
  Ok (mkCreateAccessRequest idem_key secret_name Mechanism.Brokered k
        (mkRequestContext (ca_reason args) (Some structured))).

(** [check_grant_covers], given the grant's description and the local clock. *)
Definition grant_covers (info : GrantInfo) (local : DateTime) (target : Target) (method : string)
  : CliResult unit :=
  fail_if negb (eqb (gi_mechanism info) Mechanism.Brokered)
    with failure EXIT_CONFIG "the grant is not a brokered one";
  let now := default local (gi_server_time info) in
  fail_if gi_revoked info with failure EXIT_TIMEOUT "the grant has been revoked";
  fail_if (gi_not_after info <=? now)%Z with failure EXIT_TIMEOUT "the grant expired";
  fail_if match gi_max_uses info with
          | Some max => (max <=? gi_use_count info)%Z
          | None => false
          end with failure EXIT_OTHER "the grant is exhausted";
  let k := gi_constraints info in
  _ ← match origins k with
      | [approved] =>
          fail_if negb (same_target approved (tg_origin target))
            with failure EXIT_CONFIG "the grant was approved for another origin";
          Ok tt
      | _ => Err (failure EXIT_OTHER "the grant does not name exactly one origin")
      end;
  fail_if negb (is_empty (methods k))
          && negb (existsb (λ m, eq_ignore_ascii_case m method) (methods k))
    with failure EXIT_CONFIG "the grant does not cover this method";
  fail_if match canonical_path (tg_path target) with
          | Some canonical =>
              negb (is_empty (path_prefixes k))
              && negb (existsb (λ p, path_covered p canonical) (path_prefixes k))
          | None => false
          end with failure EXIT_CONFIG "the grant does not cover this path";
  Ok tt.
