(* ===== verification/CurlKey.v ===== *)
(** [keychute curl]'s target and key: a target is the URL as it was written, and
    the idempotency key is bound to everything the call sends. *)

From S2P Require Import Prelude RustStr Types Paths Json Crypto Examples SigV4 Http Csrf ApiRequests Pipeline Cli CurlCall.
Open Scope string_scope.

(** ** The target *)
Lemma from_any_skip l a s :
  all_bytes (λ c, negb (contains l c)) a = true →
  match s with "" => True | String c _ => contains l c = true end → from_any l (a +:+ s) = s.
Proof.
  intros Ha Hs. induction a as [|c a IH].
  - destruct s as [|c s]; [done|]. cbn. by rewrite Hs.
  - cbn in *. apply andb_true_iff in Ha as [Hc%negb_true_iff Ha]. rewrite Hc. by apply IH.
Qed.
Lemma before_char_free c s : contains_char c s = false → before_char c s = s.
Proof.
  unfold before_char. induction s as [|a s IH]; [done|]. rewrite contains_char_cons.
  intros [Ha Hs]%orb_false_iff. cbn [split]. rewrite eqb_sym in Ha. rewrite Ha.
  specialize (IH Hs). destruct (split c s) as [|x l] eqn:E; [by apply split_not_nil in E|].
  cbn in *. by rewrite IH.
Qed.
Lemma split_once_free c s : contains_char c s = false → split_once c s = None.
Proof.
  induction s as [|a s IH]; [done|]. rewrite contains_char_cons. intros [Ha Hs]%orb_false_iff.
  cbn. rewrite eqb_sym in Ha. by rewrite Ha, IH.
Qed.

Lemma split_once_first c s t :
  contains_char c s = false → split_once c (s +:+ String c t) = Some (s, t).
Proof.
  induction s as [|a s IH]; cbn; [by rewrite eqb_refl|].
  rewrite contains_char_cons. intros [Ha Hs]%orb_false_iff.
  rewrite eqb_sym, Ha, IH by done. done.
Qed.

Lemma substring_length n s : (String.length (String.substring 0 n s) ≤ n)%nat.
Proof.
  revert s. induction n as [|n IH]; intros [|a r]; cbn; try lia. specialize (IH r). lia.
Qed.
Lemma after_str_cons p a r :
  starts_with p (String a r) = false → after_str p (String a r) = after_str p r.
Proof. intros E. cbn [after_str]. unfold strip_prefix. by rewrite E. Qed.
Lemma after_scheme s : after_str "://" ("https://" +:+ s) = Some s.
Proof.
  change ("https://" +:+ s) with ("https" +:+ "://" +:+ s). cbn [String.append].
  do 5 (rewrite after_str_cons by done).
  change (String ":" (String "/" (String "/" s))) with ("://" +:+ s).
  cbn [after_str]. pose proof (strip_prefix_app "://" s) as E.
  unfold after_str. destruct ("://" +:+ s) eqn:Es; rewrite E; done.
Qed.

Lemma raw_path_and_query_written a p q :
  all_bytes (λ c, negb (contains ["/"; "?"; "#"]%char c)) a = true →
  p = "" ∨ starts_with "/" p = true →
  contains_char "?" p = false → contains_char "#" p = false →
  contains_char "#" (default "" q) = false →
  raw_path_and_query ("https://" +:+ a +:+ target_text p q) = (if eqb p "" then "/" else p, q).
Proof.
  intros Ha Hp Hp1 Hp2 Hq. unfold raw_path_and_query.
  rewrite after_scheme.
  cbn [default from_option id]. rewrite (from_any_skip _ a (target_text p q)); [|done|].
  2:{ unfold target_text. destruct Hp as [->|(r & ->)%starts_with_spec]; [|done]. by destruct q. }
  unfold target_text. destruct q as [q|]; cbn [default] in Hq.
  - change ("?" +:+ q) with (String "?" q). rewrite split_once_first by done.
    by rewrite before_char_free.
  - rewrite string_app_nil_r, split_once_free by done. by rewrite before_char_free.
Qed.

(** A byte that every parser leaves as it is. *)
Definition kept (l : list ascii) (c : ascii) : bool :=
  in_range "!" "~" c && negb (contains l c) && negb (eqb c "\"%char).
Lemma kept_byte l c :
  is_ascii_control c = false → eqb " "%char c = false → eqb "\"%char c = false → respelled l c = false →
  kept l c = true.
Proof.
  unfold respelled, kept. intros Hc Hs Hb [Ha Hl]%orb_false_iff. rewrite Hl, (eqb_sym c), Hb. cbn.
  rewrite !andb_true_r.
  assert (HH : ∀ c, is_ascii_control c || eqb " "%char c || negb (is_ascii c) || in_range "!" "~" c = true)
    by (apply ascii_all; vm_compute; done).
  specialize (HH c). rewrite Hc, Hs, Ha in HH. exact HH.
Qed.

Section TargetFacts.
Context `{UrlLib, !OriginLib, !CallLib}.

Lemma any_byte_app f s t : any_byte f (s +:+ t) = any_byte f s || any_byte f t.
Proof. unfold any_byte. by rewrite all_bytes_app, negb_andb. Qed.
Lemma kept_bytes l s :
  any_byte is_ascii_control s = false → contains_char " " s = false → contains_char "\" s = false →
  any_byte (respelled l) s = false → all_bytes (kept l) s = true.
Proof.
  unfold contains_char, any_byte. induction s as [|c s IH]; [done|]. cbn [all_bytes].
  rewrite !negb_false_iff, !andb_true_iff, !negb_true_iff. intros [? ?] [? ?] [? ?] [? ?].
  split; [by apply kept_byte|]. apply IH; by apply negb_false_iff.
Qed.

Lemma parse_target_Ok raw t :
  parse_target raw = Ok t →
  any_byte is_ascii_control raw = false ∧ contains_char " " raw = false
  ∧ contains_char "\" raw = false ∧ origin_valid url_host_str (tg_origin t)
  ∧ raw_path_and_query raw = (tg_path t, tg_query t)
  ∧ any_byte (respelled PATH_RESPELLED) (tg_path t) = false
  ∧ any_byte (respelled QUERY_RESPELLED) (default "" (tg_query t)) = false.
Proof.
  unfold parse_target. intros (url & _ & HH)%bind_Ok.
  do 3 (destruct (_ : bool); [done|]). destruct (any_byte is_ascii_control raw); [done|].
  destruct (contains_char " " raw); [done|]. destruct (contains_char "\" raw); [done|].
  destruct (is_some (url_fragment url)); [done|].
  apply bind_Ok in HH as (h & _ & HH). apply bind_Ok in HH as (o & Ho%map_err_Ok & HH).
  apply Origin_parse_Ok_valid in Ho. destruct (raw_path_and_query raw) as [p q].
  destruct (any_byte (respelled PATH_RESPELLED) p) eqn:Ep; [done|].
  destruct (any_byte (respelled QUERY_RESPELLED) _) eqn:Eq; [done|]. by injection HH as <-.
Qed.

(** What the operator approves and what is sent is the URL as it was written.
    For a URL with an authority, a path and a query, a target that is accepted
    has exactly that path ("/" for none) and that query, none of whose bytes a
    URL parser deletes, moves or spells otherwise, and an origin that parses
    back to itself. *)
Theorem target_as_written authority p q t :
  all_bytes (λ c, negb (contains ["/"; "?"; "#"]%char c)) authority = true →
  p = "" ∨ starts_with "/" p = true →
  contains_char "?" p = false → contains_char "#" p = false →
  contains_char "#" (default "" q) = false →
  parse_target ("https://" +:+ authority +:+ target_text p q) = Ok t →
  tg_path t = (if eqb p "" then "/" else p) ∧ tg_query t = q
  ∧ all_bytes (kept PATH_RESPELLED) (tg_path t) = true
  ∧ all_bytes (kept QUERY_RESPELLED) (default "" q) = true
  ∧ Origin_parse url_host_str (Types.authority (tg_origin t)) = Ok (tg_origin t).
Proof.
  intros Ha Hp Hp1 Hp2 Hq (Hc & Hs & Hb & Ho & Hraw & Hpr & Hqr)%parse_target_Ok.
  rewrite raw_path_and_query_written in Hraw by done. injection Hraw as Ep Eq.
  rewrite <-Ep, <-Eq in *. unfold target_text in Hc, Hs, Hb.
  rewrite !any_byte_app in Hc. rewrite !contains_char_app in Hs, Hb.
  repeat match goal with E : _ || _ = false |- _ => apply orb_false_iff in E as [? E] end.
  split; [done|]. split; [done|]. split; [|split; [|by apply Origin_parse_authority]].
  - destruct (eqb p ""); [by vm_compute|]. by apply kept_bytes.
  - destruct q as [q|]; [|done]. cbn [default from_option id] in *.
    rewrite any_byte_app in Hc. rewrite !contains_char_app in Hs, Hb.
    repeat match goal with E : _ || _ = false |- _ => apply orb_false_iff in E as [? E] end.
    by apply kept_bytes.
Qed.
End TargetFacts.

(** ** The key *)
Definition usize (n : Z) : Prop := (0 ≤ n < 2 ^ 64)%Z.

Lemma app_len_inj s t x y :
  String.length s = String.length t → s +:+ x = t +:+ y → s = t ∧ x = y.
Proof.
  revert t. induction s as [|a s IH]; intros [|b t]; cbn; try done.
  intros [= Hl] [= -> E]. by destruct (IH t Hl E) as [-> ->].
Qed.
Lemma be_bytes_inj n m x y :
  usize n → usize m → be_bytes 8 n +:+ x = be_bytes 8 m +:+ y → n = m ∧ x = y.
Proof.
  intros Hn Hm E. apply app_len_inj in E as [E ->]; [|by rewrite !be_bytes_length].
  split; [|done]. apply (f_equal of_be_bytes) in E. rewrite !of_be_bytes_be in E.
  unfold usize in *. change (256 ^ Z.of_nat 8)%Z with (2 ^ 64)%Z in E. by rewrite !Z.mod_small in E.
Qed.
Lemma String_tail a b s t : String a s = String b t → a = b ∧ s = t.
Proof. by intros [= -> ->]. Qed.

(** A length-prefixed field ends where it says. *)
Lemma field_inj s t x y :
  usize (len s) → usize (len t) → field s +:+ x = field t +:+ y → s = t ∧ x = y.
Proof.
  unfold field. intros Hs Ht E. rewrite !string_app_assoc in E.
  apply be_bytes_inj in E as [El E]; [|done..]. unfold len in El. apply app_len_inj in E; [done|lia].
Qed.
Lemma opt_bytes_inj s t x y :
  usize (len (default "" s)) → usize (len (default "" t)) →
  opt_bytes s +:+ x = opt_bytes t +:+ y → s = t ∧ x = y.
Proof.
  destruct s as [s|], t as [t|]; cbn [opt_bytes default from_option id String.append];
    intros Hs Ht E; apply String_tail in E as [Et E]; try discriminate Et; [|done].
  by apply field_inj in E as [-> ->].
Qed.

Definition fields_fit (headers : list (string * string)) : Prop :=
  Forall (λ h, usize (len h.1) ∧ usize (len h.2)) headers.
Lemma header_fields_inj l k x y :
  length l = length k → fields_fit l → fields_fit k →
  header_fields l +:+ x = header_fields k +:+ y → l = k ∧ x = y.
Proof.
  unfold header_fields. intros Hl Hf Hk. revert k Hl Hk.
  assert (Hc : ∀ (f : string * string → string) h r,
    String.concat "" (map f (h :: r)) = f h +:+ String.concat "" (map f r)).
  { intros f h [|h' r]; cbn; [by rewrite string_app_nil_r|done]. }
  induction Hf as [|[n v] l [Hn Hv] Hf IH]; intros [|[n' v'] k]; try done.
  intros [= Hl] [[Hn' Hv'] Hk]%Forall_cons E. rewrite !Hc, !string_app_assoc in E. cbn [fst snd] in *.
  apply field_inj in E as [-> E]; [|done..]. apply field_inj in E as [-> E]; [|done..].
  destruct (IH k Hl Hk E) as [-> ->]. done.
Qed.

(** Everything of a call that reaches the upstream. *)
Record Call := mkCall {
  c_method : string;
  c_target : Target;
  c_headers : list (string * string);
  c_body : option string;
  c_suppress_user_agent : bool
}.
Definition text_of (c : Call) : string :=
  call_text (c_method c) (c_target c) (c_headers c) (c_body c) (c_suppress_user_agent c).
Definition key_of `{SigText} (user_key : string) (c : Call) : string :=
  call_bound_idempotency_key user_key (c_method c) (c_target c) (c_headers c) (c_body c)
    (c_suppress_user_agent c).

(** A call that fits in memory, with an origin [Origin::parse] made. *)
Record call_ok `{UrlLib} (c : Call) : Prop := mk_call_ok {
  ok_method : usize (len (c_method c));
  ok_origin : usize (len (to_display (tg_origin (c_target c))));
  ok_valid : origin_valid url_host_str (tg_origin (c_target c));
  ok_path : usize (len (tg_path (c_target c)));
  ok_query : usize (len (default "" (tg_query (c_target c))));
  ok_count : usize (Z.of_nat (length (c_headers c)));
  ok_headers : fields_fit (c_headers c);
  ok_body : usize (len (default "" (c_body c)))
}.

Section Key.
Context `{UrlLib, SigText}.


Lemma text_of_inj c c' : call_ok c → call_ok c' → text_of c = text_of c' → c = c'.
Proof.
  destruct c as [m [o p q] hs b ua], c' as [m' [o' p' q'] hs' b' ua']. intros [] [].
  unfold text_of, call_text. cbn [c_method c_target c_headers c_body c_suppress_user_agent
    tg_origin tg_path tg_query] in *. intros E.
  apply field_inj in E as [-> E]; [|done..]. apply field_inj in E as [Eo E]; [|done..].
  apply (to_display_inj url_host_str) in Eo as ->; [|done..]. apply field_inj in E as [-> E]; [|done..].
  apply opt_bytes_inj in E as [-> E]; [|done..].
  apply be_bytes_inj in E as [Ec E]; [|done..]. apply Nat2Z.inj in Ec.
  apply header_fields_inj in E as [-> E]; [|done..]. apply opt_bytes_inj in E as [-> E]; [|done..].
  by destruct ua, ua'.
Qed.

(** C11: the same idempotency key means the same call.  Under one caller's key,
    two calls get the same derived key exactly when their method, origin, path,
    query, forwarded headers in order, body and User-Agent suppression are all
    the same, an absent query or body being different from an empty one; unless
    the truncated SHA-256 collides on these two calls. *)
Theorem key_binds_call user_key c c' :
  call_ok c → call_ok c' →
  (String.substring 0 CALL_BINDING_HEX_CHARS (sha256_hex (text_of c))
   = String.substring 0 CALL_BINDING_HEX_CHARS (sha256_hex (text_of c')) → text_of c = text_of c') →
  key_of user_key c = key_of user_key c' ↔ c = c'.
Proof.
  intros Hc Hc' Hinj. split; [|by intros ->]. intros E. apply text_of_inj; [done..|]. apply Hinj.
  unfold key_of, call_bound_idempotency_key in E. apply string_app_inv_head in E.
  by apply (string_app_inv_head "-") in E.
Qed.
End Key.

(** ** Witnesses *)
Module CurlExample.
Fixpoint authority_text (s : string) : string :=
  match s with
  | "" => ""
  | String c r => if contains ["/"; "?"; "#"]%char c then "" else String c (authority_text r)
  end.
Definition parse (s : string) : option HttpExample.url_record :=
  rest ← strip_prefix "https://" s; HttpExample.parse ("https://" +:+ authority_text rest).
#[export] Instance url : UrlLib := {|
  Url := HttpExample.url_record;
  url_parse := parse;
  set_path := HttpExample.with_path;
  set_query := HttpExample.with_query;
  url_path := HttpExample.u_path;
  url_query := HttpExample.u_query;
  host_str := λ u, Some (HttpExample.u_host u);
  url_port := HttpExample.u_port;
  set_path_decodes := λ p s u _ Hd _, Hd;
  set_path_slash := λ p u Hs, Hs;
  set_path_wire := λ p s u _ _ _ _, eq_refl;
  set_query_path := λ q u, eq_refl;
  set_query_query := λ q u Hq, Hq;
  set_path_host := λ p u, eq_refl;
  set_query_host := λ q u, eq_refl;
  set_path_port := λ p u, eq_refl;
  set_query_port := λ q u, eq_refl
|}.
#[export] Instance origin_lib : @OriginLib url := {|
  url_scheme := λ _, "https"; url_username := λ _, ""; url_password := λ _, None;
  port_or_known_default := λ u, Some (default 443%Z (HttpExample.u_port u))
|}.
#[export] Instance call_lib : @CallLib url := {|
  url_fragment := λ _, None; method_from_bytes := token; method_from_bytes_token := λ m Hm, Hm
|}.
(** A hash that tells these calls apart: the length of the text. *)
Lemma length_line m : contains_char LF (N_to_string (N.of_nat (String.length m))) = false.
Proof. apply (contains_char_excluded is_ascii_digit); [done|]. apply N_to_string_digits. Qed.
#[export] Instance sig_text : SigText := {|
  sha256_hex := λ m, N_to_string (N.of_nat (String.length m));
  hex_encode := λ s, s; format_datetime := λ _, ""; format_date := λ _, "";
  sha256_hex_line := length_line; format_datetime_line := λ _, eq_refl
|}.
Definition target : Target :=
  mkTarget (mkOrigin "api.example.com" None) "/v1/things" (Some "limit=10").
Definition call (body : option string) : Call :=
  mkCall "POST" target [("accept", "*/*")] body false.
Lemma call_fits body : usize (len (default "" body)) → call_ok (call body).
Proof. intros Hb. split; try done. by repeat constructor. Qed.
End CurlExample.

Import CurlExample.

(** The URL parser takes any number of slashes after [https:]; the text is cut at
    the first [://], so here the host is taken for the start of the path. *)
Example authority_in_path :
  raw_path_and_query "https:///api.example.com/v1" = ("/api.example.com/v1", None)
  ∧ raw_path_and_query "https:/api.example.com/v1" = ("/api.example.com/v1", None).
Proof. done. Qed.

Lemma target_as_written_witness :
  parse_target "https://api.example.com/v1/things?limit=10" = Ok target
  ∧ tg_path target = "/v1/things".
Proof.
  assert (E : parse_target ("https://" +:+ "api.example.com" +:+ target_text "/v1/things" (Some "limit=10"))
              = Ok target) by (vm_compute; reflexivity).
  split; [exact E|].
  apply (target_as_written "api.example.com" "/v1/things" (Some "limit=10") target);
    [done|by right|done|done|done|exact E].
Defined.

(** An absent body and an empty one are different calls. *)
Lemma key_binds_call_witness : key_of "k" (call None) ≠ key_of "k" (call (Some "")).
Proof.
  intros E. apply (key_binds_call "k" (call None) (call (Some ""))) in E; [done|..].
  - by apply call_fits.
  - by apply call_fits.
  - vm_compute. intros HH. discriminate HH.
Defined.
