(* ===== verification/Curl.v ===== *)
(** [cli/src/curl.rs]: [keychute curl] as it runs: the body and its files, the
    grant looked up or asked for, the proxied call, where its answer goes. *)

From S2P Require Import Prelude RustStr Types Paths Json Crypto Examples SigV4 Http Csrf ApiRequests Pipeline.
From S2P Require Import Cli CliTrace CliRequest CurlCall.
Open Scope string_scope.

Definition DEFAULT_MAX_BODY_BYTES : Z := 10 * 1024 * 1024.
Definition KEYCHUTE_ERROR_HEADER : string := "x-keychute-error".
Definition usize_MAX : Z := u64_MAX.

(** [chrono]'s text of an instant, and [reqwest]'s reading of a PEM bundle. *)
Class ClientLib := {
  datetime_from_str : string → option DateTime;
  pem_bundle_ok : string → bool
}.

(** ** The body *)
Definition parse_max_body (raw : option string) : CliResult Z :=
  match raw with
  | None => Ok DEFAULT_MAX_BODY_BYTES
  | Some raw =>
      match parse_uint usize_MAX (trim raw) with
      | Some n => fail_if negb ((0 <? n)%Z && (n <? usize_MAX)%Z)
                    with failure EXIT_CONFIG "KEYCHUTE_MAX_BODY_BYTES must be a positive byte count";
                  Ok n
      | None => Err (failure EXIT_CONFIG "KEYCHUTE_MAX_BODY_BYTES must be a positive byte count")
      end
  end.

(** The pieces, whether [@] names a source, and whether a source's lines are stripped. *)
Definition body_pieces (args : CurlArgs) : option (list string * bool * bool) :=
  if negb (is_empty (ca_data_raw args)) then Some (ca_data_raw args, false, false)
  else if negb (is_empty (ca_data args)) then Some (ca_data args, true, true)
  else if negb (is_empty (ca_data_binary args)) then Some (ca_data_binary args, true, false)
  else None.

Fixpoint until_cut (s : string) : string :=
  match s with
  | "" => ""
  | String c r => if eqb c CR || eqb c NUL then "" else String c (until_cut r)
  end.
Definition strip_like_curl (buf : string) : string :=
  String.concat "" (map until_cut (split LF buf)).

(** What a piece names: [None] a literal. *)
Definition piece_source (reads_at : bool) (piece : string) : option string :=
  if reads_at then strip_prefix "@" piece else None.

Section Body.
Context {S : Type} `{!Platform S, !Files S}.

Definition open_source (reads_at : bool) (piece : string) : Cli S (option nat) :=
  match piece_source reads_at piece with
  | Some src =>
      if eqb src "-" then mret None
      else
        h ← run_op (open_in src);
        match h with
        | Some h => mret (Some h)
        | None => bail (failure EXIT_CONFIG "cannot read body file")
        end
  | None => mret None
  end.
Fixpoint open_sources (reads_at : bool) (pieces : list string) : Cli S (list (option nat)) :=
  match pieces with
  | [] => mret []
  | piece :: pieces =>
      h ← open_source reads_at piece;
      hs ← open_sources reads_at pieces;
      mret (h :: hs)
  end.
Definition open_body_sources (args : CurlArgs) : Cli S (list (option nat)) :=
  match body_pieces args with
  | Some (pieces, reads_at, _) => open_sources reads_at pieces
  | None => mret []
  end.

(** At most [limit] bytes; one more is asked for, to tell the bound from over it. *)
Definition read_bounded (source : Z → S → option string * S) (limit : Z) : Cli S string :=
  buf ← run_op (source (limit + 1)%Z);
  match buf with
  | Some buf =>
      if (limit <? len buf)%Z
      then bail (failure EXIT_CONFIG "request body exceeds the local read bound")
      else mret buf
  | None => bail (failure EXIT_CONFIG "cannot read the body")
  end.
Definition piece_bytes (reads_at strip : bool) (limit : Z) (piece : string) (source : option nat)
    (out : string) : Cli S string :=
  match piece_source reads_at piece with
  | None => mret piece
  | Some _ =>
      let remaining := Z.max 0 (limit - len out) in
      buf ← read_bounded (match source with Some h => read_in h | None => read_stdin end) remaining;
      mret (if strip then strip_like_curl buf else buf)
  end.
Fixpoint read_pieces (reads_at strip : bool) (limit : Z) (first : bool)
    (pieces : list (string * option nat)) (out : string) : Cli S string :=
  match pieces with
  | [] => mret out
  | (piece, source) :: pieces =>
      let out := if first then out else out +:+ "&" in
      buf ← piece_bytes reads_at strip limit piece source out;
      read_pieces reads_at strip limit false pieces (out +:+ buf)
  end.
Definition read_body_with (args : CurlArgs) (limit : Z) (sources : list (option nat))
  : Cli S (option string) :=
  match body_pieces args with
  | None => mret None
  | Some (pieces, reads_at, strip) =>
      out ← read_pieces reads_at strip limit true (zip pieces sources) "";
      if (limit <? len out)%Z
      then bail (failure EXIT_CONFIG "assembled request body is over the local bound")
      else mret (Some out)
  end.

(** ** The output *)
Definition open_output (args : CurlArgs) : Cli S (option nat) :=
  match ca_output args with
  | None => mret None
  | Some path =>
      if eqb path "-" then mret None
      else
        h ← run_op (open_out path);
        match h with
        | Some h => mret (Some h)
        | None => bail (failure EXIT_CONFIG "cannot write --output")
        end
  end.
Definition refuse_output_over_token_file (cfg : CliConfig) (args : CurlArgs) : Cli S unit :=
  if is_some (cli_token cfg) then mret tt
  else
    match ca_output args, cli_token_file cfg with
    | Some out, Some token_file =>
        if eqb out "-" then mret tt
        else
          same ← run_op (λ s, (same_file out token_file s, s));
          if (same : bool) then bail (failure EXIT_CONFIG "--output names the token file") else mret tt
    | _, _ => mret tt
    end.

(** Standard output, or a file emptied at its first byte; whether it was. *)
Notation Sink := (option nat).
Definition sink_failed {A} : Cli S A := bail (failure EXIT_OTHER "failed writing the response").
Definition empty_once (sink : Sink) (truncated : bool) : Cli S bool :=
  match sink with
  | None => mret true
  | Some h =>
      if truncated then mret true
      else
        regular ← run_op (λ s, (is_regular h s, s));
        if default true regular then
          done ← run_op (empty_file h);
          if (done : bool) then mret true else sink_failed
        else mret true
  end.
Definition sink_write (sink : Sink) (truncated : bool) (bytes : string) : Cli S bool :=
  if eqb bytes "" then mret truncated
  else
    truncated ← empty_once sink truncated;
    done ← match sink with
           | None => run_op (print bytes)
           | Some h => run_op (write_file h bytes)
           end;
    if (done : bool) then mret truncated else sink_failed.
Fixpoint write_chunks (sink : Sink) (truncated : bool) (chunks : list string) : Cli S unit :=
  match chunks with
  | [] => mret tt
  | chunk :: chunks =>
      truncated ← sink_write sink truncated chunk; write_chunks sink truncated chunks
  end.
End Body.

(** ** The grant *)
(** What is said of a grant's budget after the call. *)
Module Budget.
Inductive t := RefusedAgain | Reusable | Revoked | Expired | Spent.
End Budget.

Section Grants.
Context {S : Type} `{!Platform S, !Files S}.
Context `{UuidText, UrlLib, !OriginLib, !CallLib, HttpLib, SigText, JsonBytes, ReplyText, ClientLib}.

Definition as_datetime (v : Value) : option DateTime := as_str v ≫= datetime_from_str.
Definition GrantInfo_of_value (v : Value) : option GrantInfo :=
  m ← as_object v;
  id ← map_get m "grant_id" ≫= as_uuid;
  mechanism ← (map_get m "mechanism" ≫= as_str) ≫= Mechanism.from_str_opt;
  k ← map_get m "constraints" ≫= Constraints_of_value url_host_str;
  not_after ← map_get m "not_after" ≫= as_datetime;
  uses ← opt_of (as_uint u32_MAX) (map_get m "max_uses");
  count ← map_get m "use_count" ≫= as_uint u32_MAX;
  revoked ← map_get m "revoked" ≫= as_bool;
  server ← opt_of as_datetime (map_get m "server_time");
  Some (mkGrantInfo id mechanism k not_after uses count revoked server).

Definition grant_sent (cfg : CliConfig) (grant_id : Uuid) (token : string) : Sent :=
  mkSent "GET" (cli_url cfg +:+ "/v1/grants/" +:+ uuid_display grant_id) token [] NoBody true.
Definition reading_grant (r : option Reply) : CliResult GrantInfo :=
  r ← ok_or r (failure EXIT_OTHER "grant lookup failed");
  text ← ok_or (body_text r) (failure EXIT_OTHER "failed reading grant lookup");
  let status := rp_status r in
  if negb (is_success status) then
    Err (failure (if contains [401; 403; 404]%Z status then EXIT_CONFIG else EXIT_OTHER)
           ("grant lookup failed: " +:+ api_error_message status text))
  else ok_or (json_from_str text ≫= GrantInfo_of_value)
         (failure EXIT_OTHER "unexpected grant lookup response").
Definition fetch_grant (cfg : CliConfig) (grant_id : Uuid) : Cli S GrantInfo :=
  token ← bearer cfg;
  r ← run_op (send (grant_sent cfg grant_id token));
  cli_lift (reading_grant r).
Definition check_grant_covers (cfg : CliConfig) (local : DateTime) (grant_id : Uuid)
    (target : Target) (method : string) : Cli S unit :=
  info ← fetch_grant cfg grant_id;
  cli_lift (grant_covers info local target method).

Definition acquire_grant (cfg : CliConfig) (args : CurlArgs) (fresh : string) (target : Target)
    (method secret_name : string) (structured : Value) (headers : list (string * string))
    (body : option string) (suppress : bool) (rounds : nat) : Cli S (option Uuid) :=
  req ← cli_lift (grant_request args fresh target method secret_name structured headers body suppress);
  st ← resolve_request cfg req (ca_timeout args) rounds;
  match st with
  | None => mret None
  | Some st => id ← report_then_grant secret_name st; mret (Some id)
  end.

Definition reuse_budget (info : GrantInfo) (local : DateTime) (refused : bool) : Budget.t :=
  let remaining := match gi_max_uses info with
                   | Some max => Z.max 0 (max - gi_use_count info)
                   | None => u32_MAX
                   end in
  let spent := gi_revoked info || (gi_not_after info <=? default local (gi_server_time info))%Z in
  if (0 <? remaining)%Z && negb spent then
    if refused then Budget.RefusedAgain else Budget.Reusable
  else if gi_revoked info then Budget.Revoked
  else if spent then Budget.Expired
  else Budget.Spent.
Definition budget_message (b : Budget.t) : string :=
  match b with
  | Budget.RefusedAgain => "still shows uses remaining, but Keychute refused this call itself"
  | Budget.Reusable => "good for further calls"
  | Budget.Revoked => "has been revoked; it cannot be reused"
  | Budget.Expired => "its TTL ran out during this call"
  | Budget.Spent => "was approved for a single use, and this call spent it"
  end.
Definition report_reuse_budget (cfg : CliConfig) (local : DateTime) (grant_id : Uuid)
    (refused : bool) : Cli S unit := λ s,
  let '(r, s) := fetch_grant cfg grant_id s in
  let text := match r with
              | Ok info => budget_message (reuse_budget info local refused)
              | Err _ => "could not read back the granted limits"
              end in
  effect (eprint ("keychute: grant " +:+ uuid_display grant_id +:+ " " +:+ text)) s.

(** ** The call *)
Definition classify_proxy_error (status : Z) (body : string) : Failure :=
  if (status =? 410)%Z then refused_by_keychute (classify_gone body)
  else
    let c := if (status =? 401)%Z then EXIT_CONFIG
             else if (status =? 403)%Z then EXIT_DENIED
             else if contains [400; 405; 413]%Z status then EXIT_CONFIG
             else EXIT_OTHER in
    let f := failure c ("brokered request rejected by Keychute: " +:+ api_error_message status body) in
    if (status <? 500)%Z then refused_by_keychute f else f.

Definition proxy_sent (cfg : CliConfig) (target : Target) (method : string)
    (headers : list (string * string)) (body : option string) (suppress : bool) (grant_id : Uuid)
    (token : string) : Sent :=
  mkSent method
    (cli_url cfg +:+ "/v1/grants/" +:+ uuid_display grant_id +:+ "/proxy"
     +:+ target_text (tg_path target) (tg_query target))
    token headers (match body with Some b => Bytes b | None => NoBody end) (negb suppress).

Definition response_head (r : Reply) : string :=
  "HTTP/1.1 " +:+ status_display (rp_status r) +:+ String CR (String LF "")
  +:+ String.concat "" (map (λ h, h.1 +:+ ": " +:+ h.2 +:+ String CR (String LF "")) (rp_headers r))
  +:+ String CR (String LF "").
(** The last byte of the last chunk that has any. *)
Definition last_byte (s : string) : option ascii := String.get (String.length s - 1) s.

Definition write_response (args : CurlArgs) (output : option nat) (r : Reply) : Cli S unit :=
  truncated ← (if ca_include args then sink_write output false (response_head r) else mret false);
  if ca_fail args && (400 <=? rp_status r)%Z
  then bail (failure EXIT_OTHER "the upstream answered with an error (--fail)")
  else
    truncated ← empty_once output truncated;
    _ ← write_chunks output truncated (rp_chunks r);
    if negb (rp_complete r)
    then bail (failure EXIT_OTHER "reading the upstream response failed")
    else
      tty ← run_op (λ s, (is_tty s, s));
      let newline := match last_byte (String.concat "" (rp_chunks r)) with
                     | Some b => is_none output && tty && negb (eqb b LF)
                     | None => false
                     end in
      if newline then (_ ← run_op (print (String LF "")); mret tt) else mret tt.

Definition proxy_call (cfg : CliConfig) (args : CurlArgs) (target : Target) (method : string)
    (headers : list (string * string)) (body : option string) (suppress : bool) (grant_id : Uuid)
    (output : option nat) : Cli S unit :=
  token ← bearer cfg;
  r ← run_op (send (proxy_sent cfg target method headers body suppress grant_id token));
  r ← cli_lift (ok_or r (failure EXIT_OTHER "brokered request failed"));
  if existsb (λ h, eqb h.1 KEYCHUTE_ERROR_HEADER) (rp_headers r)
  then bail (classify_proxy_error (rp_status r) (default "" (body_text r)))
  else
    _ ← (if is_redirection (rp_status r)
         then effect (eprint "keychute: redirects are never followed") else mret tt);
    _ ← write_response args output r;
    effect (eprint ("keychute: " +:+ method +:+ " " +:+ display target)).

(** [build_http_client_with]: the CA bundle is read each time. *)
Definition build_http_client (cfg : CliConfig) : Cli S unit :=
  match cli_ca_bundle cfg with
  | None => mret tt
  | Some path =>
      pem ← run_op (read_file path);
      pem ← cli_lift (ok_or pem (failure EXIT_CONFIG "cannot read KEYCHUTE_CA_BUNDLE"));
      if pem_bundle_ok pem then mret tt
      else bail (failure EXIT_CONFIG "invalid PEM in KEYCHUTE_CA_BUNDLE")
  end.

(** ** The command

    What it is given besides its arguments: a random key, what [ps] showed, the
    environment's context and body bound, the local clock, and the rounds its
    wait may take. *)
Record Given := mkGiven {
  gv_fresh : string;
  gv_captured : option Capture;
  gv_extra : option string;
  gv_max_body : option string;
  gv_local : DateTime;
  gv_rounds : nat
}.

(** Everything settled before the body is read: the target, the selector, the
    method, the headers sent, whether [User-Agent] is suppressed, the context of
    a new request. *)
Record Prepared := mkPrepared {
  pp_target : Target;
  pp_selector : Selector.t;
  pp_method : string;
  pp_parsed : list (string * string);
  pp_removed_agent : bool;
  pp_structured : option Value
}.
Definition pp_headers (p : Prepared) : list (string * string) := sent_headers (pp_parsed p).
Definition pp_suppress (p : Prepared) : bool :=
  suppresses_user_agent (pp_parsed p) (pp_removed_agent p).

Definition prepare (cfg : CliConfig) (args : CurlArgs) (gv : Given) : Cli S Prepared :=
  target ← cli_lift (map_err (failure EXIT_CONFIG) (parse_target (ca_url args)));
  selector ← cli_lift (credential_selector args);
  _ ← refuse_output_over_token_file cfg args;
  _ ← bearer cfg;
  method ← cli_lift (call_method args);
  headers ← cli_lift (parse_headers (body_is_supplied args) (ca_headers args));
  _ ← cli_lift (validate_grant_options args target method);
  structured ← match selector with
               | Selector.Grant id =>
                   _ ← check_grant_covers cfg (gv_local gv) id target method; mret None
               | Selector.Secret _ =>
                   v ← cli_lift (build_request_context (gv_captured gv) (gv_extra gv) target method);
                   mret (Some v)
               end;
  mret (mkPrepared target selector method headers.1 headers.2 structured).

Definition obtain_grant (cfg : CliConfig) (args : CurlArgs) (gv : Given) (p : Prepared)
    (body : option string) : Cli S (option Uuid) :=
  match pp_selector p with
  | Selector.Grant id => mret (Some id)
  | Selector.Secret name =>
      acquire_grant cfg args (gv_fresh gv) (pp_target p) (pp_method p) name
        (default (Object []) (pp_structured p)) (pp_headers p) body (pp_suppress p) (gv_rounds gv)
  end.
Definition freshly_approved (p : Prepared) : bool :=
  match pp_selector p with Selector.Secret _ => true | Selector.Grant _ => false end.

Definition call_and_report (cfg : CliConfig) (args : CurlArgs) (gv : Given) (p : Prepared)
    (body : option string) (output : option nat) (grant_id : Uuid) : Cli S unit := λ s,
  let '(result, s) := proxy_call cfg args (pp_target p) (pp_method p) (pp_headers p) body
                        (pp_suppress p) grant_id output s in
  let refused := match result with Err f => keychute_refusal f | Ok _ => false end in
  if freshly_approved p && (negb (ca_max_uses args =? 1)%Z || negb (is_ok result))
  then (result, (report_reuse_budget cfg (gv_local gv) grant_id refused s).2)
  else (result, s).

Definition run_curl (cfg : CliConfig) (args : CurlArgs) (gv : Given) : Cli S (option unit) :=
  p ← prepare cfg args gv;
  sources ← open_body_sources args;
  output ← open_output args;
  limit ← cli_lift (parse_max_body (gv_max_body gv));
  body ← read_body_with args limit sources;
  _ ← (if pp_suppress p then build_http_client cfg else mret tt);
  id ← obtain_grant cfg args gv p body;
  match id with
  | None => mret None
  | Some id => _ ← call_and_report cfg args gv p body output id; mret (Some tt)
  end.
End Grants.
