(* ===== verification/CurlTrace.v ===== *)
(** The trace of [keychute curl]: one call, under an approval, as it was given. *)

From S2P Require Import Prelude RustStr Types Paths Json Crypto Examples SigV4 Http Csrf ApiRequests Pipeline.
From S2P Require Import Cli CliTrace CliRequest CurlCall CurlKey Curl.
Open Scope string_scope.

(** ** What passes nothing on *)
Section Mute.
Context {S : Type} `{!Platform S, !Files S, !ClientLib}.
Notation Run := (Cli (S * Trace)).

Lemma mute_if {A} (b : bool) (m k : Run A) : mute m → mute k → mute (if b then m else k).
Proof. by destruct b. Qed.
Hint Resolve mute_if : keychute.

Lemma mute_open_sources at_ pieces : mute (open_sources at_ pieces : Run _).
Proof.
  induction pieces as [|p pieces IH]; cbn [open_sources]; [auto with keychute|].
  apply mute_bind; [|auto with keychute]. unfold open_source.
  destruct (piece_source at_ p); [|auto with keychute]. apply mute_if; [auto with keychute|].
  apply mute_bind; [auto with keychute|]. intros [h|]; auto with keychute.
Qed.
Lemma mute_open_body args : mute (open_body_sources args : Run _).
Proof.
  unfold open_body_sources. destruct (body_pieces args) as [[[pieces at_] ?]|];
    [apply mute_open_sources|auto with keychute].
Qed.
Lemma mute_open_output args : mute (open_output args : Run _).
Proof.
  unfold open_output. destruct (ca_output args); [|auto with keychute].
  apply mute_if; [auto with keychute|]. apply mute_bind; [auto with keychute|].
  intros [h|]; auto with keychute.
Qed.
Lemma mute_refuse cfg args : mute (refuse_output_over_token_file cfg args : Run _).
Proof.
  unfold refuse_output_over_token_file. apply mute_if; [auto with keychute|].
  destruct (ca_output args), (cli_token_file cfg); auto with keychute.
Qed.
Lemma mute_read_bounded source limit :
  (∀ n, mute (run_op (source n) : Run _)) → mute (read_bounded source limit : Run _).
Proof.
  intros Hs. unfold read_bounded. apply mute_bind; [apply Hs|]. intros [b|]; auto with keychute.
Qed.
Lemma mute_read_pieces at_ strip limit first pieces out :
  mute (read_pieces at_ strip limit first pieces out : Run _).
Proof.
  revert first out. induction pieces as [|[p src] pieces IH]; intros first out;
    cbn [read_pieces]; [auto with keychute|].
  apply mute_bind; [|intros buf; apply IH]. unfold piece_bytes.
  destruct (piece_source at_ p); [|auto with keychute].
  apply mute_bind; [|auto with keychute]. apply mute_read_bounded. intros n.
  destruct src; auto with keychute.
Qed.
Lemma mute_read_body args limit sources : mute (read_body_with args limit sources : Run _).
Proof.
  unfold read_body_with. destruct (body_pieces args) as [[[pieces at_] strip]|];
    [|auto with keychute]. apply mute_bind; [apply mute_read_pieces|auto with keychute].
Qed.
Lemma mute_client cfg : mute (build_http_client cfg : Run _).
Proof. unfold build_http_client. destruct (cli_ca_bundle cfg); auto with keychute. Qed.
End Mute.
#[export] Hint Resolve mute_open_body mute_open_output mute_refuse mute_read_body mute_client : keychute.

(** ** Where the answer goes *)
Definition is_output (output : option nat) (e : Event) : Prop :=
  match e with
  | Exchanged _ _ => False
  | Wrote _ => output = None
  | Emptied h | Filed h _ => output = Some h
  end.
Definition event_bytes (e : Event) : string :=
  match e with Wrote b | Filed _ b => b | _ => "" end.
Fixpoint output_bytes (tr : Trace) : string :=
  match tr with [] => "" | e :: tr => event_bytes e +:+ output_bytes tr end.
Lemma output_bytes_app tr tr' : output_bytes (tr ++ tr') = output_bytes tr +:+ output_bytes tr'.
Proof. induction tr as [|e tr IH]; cbn; [done|]. by rewrite IH, string_app_assoc. Qed.

(** Only the output is touched, and a part that succeeds put these bytes there. *)
Definition puts {A} (output : option nat) (bytes : string) (r : CliResult A) (tr : Trace) : Prop :=
  Forall (is_output output) tr ∧ (is_ok r = true → output_bytes tr = bytes).

Section Output.
Context {S : Type} `{!Platform S, !Files S}.
Notation Run := (Cli (S * Trace)).

Lemma puts_bind {A B} output b1 b2 (m : Run A) (f : A → Run B) :
  does m (puts output b1) → (∀ a, does (f a) (puts output b2)) →
  does (m ≫= f) (puts output (b1 +:+ b2)).
Proof.
  intros Hm Hf. eapply does_weaken; [by apply (does_bind _ _ (puts output b1) (λ _, puts output b2))|].
  intros r new [(a & n1 & n2 & -> & [H1 E1] & [H2 E2])|(e & -> & [H1 _])]; split; try done.
  - by apply Forall_app.
  - intros Hr. by rewrite output_bytes_app, E1, E2.
Qed.
Lemma puts_mute {A} output (m : Run A) : mute m → does m (puts output "").
Proof. intros Hm. eapply does_weaken; [exact Hm|]. by intros r new [-> _]. Qed.
Lemma puts_then {A B} output b (m : Run A) (f : A → Run B) :
  mute m → (∀ a, does (f a) (puts output b)) → does (m ≫= f) (puts output b).
Proof. intros Hm Hf. by apply (puts_bind output "" b); [apply puts_mute|]. Qed.
(** A part that puts nothing and fails puts anything when it succeeds. *)
Lemma puts_bail {A} output b f : does (bail f : Run A) (puts output b).
Proof. eapply does_weaken; [apply silent_bail|]. by intros r new [-> ->]. Qed.

Lemma puts_empty_once output truncated : does (empty_once output truncated : Run bool) (puts output "").
Proof.
  unfold empty_once. destruct output as [h|]; [|apply puts_mute; auto with keychute].
  destruct truncated; [apply puts_mute; auto with keychute|].
  apply puts_then; [auto with keychute|]. intros regular. destruct (default true regular);
    [|apply puts_mute; auto with keychute].
  apply (puts_bind _ "" ""); [|intros []; [apply puts_mute; auto with keychute|apply puts_bail]].
  eapply does_weaken; [apply does_empty_file|]. intros r new [_ ->]. by repeat constructor.
Qed.
Lemma puts_sink_write output truncated bytes :
  does (sink_write output truncated bytes : Run bool) (puts output bytes).
Proof.
  unfold sink_write. destruct (eqb bytes "") eqn:E; kbool.
  { subst. apply puts_mute. auto with keychute. }
  apply (puts_bind _ "" bytes); [apply puts_empty_once|]. intros t.
  eapply does_weaken; [apply (puts_bind output bytes "")|by intros r new; rewrite string_app_nil_r].
  2:{ intros []; [apply puts_mute; auto with keychute|apply puts_bail]. }
  destruct output as [h|]; (eapply does_weaken; [apply does_write_file||apply does_print|]);
    intros r new [_ ->]; (split; [by repeat constructor|]); intros _; cbn; by rewrite string_app_nil_r.
Qed.
Lemma concat_cons x l : String.concat "" (x :: l) = x +:+ String.concat "" l.
Proof. destruct l; cbn; [by rewrite string_app_nil_r|done]. Qed.
Lemma puts_chunks output truncated chunks :
  does (write_chunks output truncated chunks : Run unit) (puts output (String.concat "" chunks)).
Proof.
  revert truncated. induction chunks as [|c chunks IH]; intros t; cbn [write_chunks].
  - apply puts_mute. auto with keychute.
  - rewrite concat_cons. apply puts_bind; [apply puts_sink_write|apply IH].
Qed.
End Output.

(** ** The call *)
Section Call.
Context {S : Type} `{!Platform S, !Files S}.
Context `{UuidText, UrlLib, !OriginLib, !CallLib, HttpLib, SigText, JsonBytes, ReplyText, ClientLib}.
Notation Run := (Cli (S * Trace)).

(** What the answer leaves: nothing but the output is touched; a success put the
    whole answer there, with at most a newline added on standard output; and a
    failing status under [--fail] without [--include] touches nothing. *)
Definition answer_text (args : CurlArgs) (rp : Reply) : string :=
  (if ca_include args then response_head rp else "") +:+ String.concat "" (rp_chunks rp).
Definition answered (args : CurlArgs) (output : option nat) (rp : Reply) (r : CliResult unit)
    (tr : Trace) : Prop :=
  Forall (is_output output) tr
  ∧ (r = Ok tt → rp_complete rp = true
       ∧ (output_bytes tr = answer_text args rp
          ∨ (output = None ∧ output_bytes tr = answer_text args rp +:+ String LF "")))
  ∧ (ca_fail args = true → (400 ≤ rp_status rp)%Z → ca_include args = false → tr = []).

(** The end of a response, after its chunks. *)
Definition finish (output : option nat) (rp : Reply) : Cli (S * Trace) unit :=
  if negb (rp_complete rp)
  then bail (failure EXIT_OTHER "reading the upstream response failed")
  else
    tty ← run_op (λ s, (is_tty s, s));
    let newline := match last_byte (String.concat "" (rp_chunks rp)) with
                   | Some b => is_none output && tty && negb (eqb b LF)
                   | None => false
                   end in
    if newline then (_ ← run_op (print (String LF "")); mret tt) else mret tt.
(** What is put before the end of the response, then at most a newline. *)
Definition ends (output : option nat) (rp : Reply) (text : string) (r : CliResult unit) (tr : Trace)
  : Prop :=
  Forall (is_output output) tr
  ∧ (r = Ok tt → rp_complete rp = true
       ∧ (output_bytes tr = text ∨ (output = None ∧ output_bytes tr = text +:+ String LF ""))).

Lemma does_finish output rp : does (finish output rp : Run unit) (ends output rp "").
Proof.
  unfold finish. destruct (rp_complete rp) eqn:Ec; cbn [negb].
  2:{ eapply does_weaken; [apply silent_bail|]. by intros r new [-> ->]. }
  apply skip; [auto with keychute|]. intros tty. cbv zeta.
  destruct (match last_byte _ with Some _ => _ | None => _ end) eqn:E.
  - assert (output = None) as ->.
    { destruct (last_byte _); [|done]. by destruct output. }
    eapply does_weaken; [apply (does_bind _ _ _ (λ _ r new, new = [] ∧ r = Ok tt) (does_print _))|].
    { intros _. apply silent_mret. }
    intros r new [(a & n1 & n2 & -> & [_ ->] & -> & ->)|(e & -> & [[=] _])].
    split; [by repeat constructor|]. intros _. split; [done|]. by right.
  - eapply does_weaken; [apply silent_mret|]. intros r new [-> ->]. split; [done|]. auto.
Qed.
Lemma ends_after {A} output rp b text (m : Run A) (f : A → Run unit) :
  does m (puts output b) → (∀ a, does (f a) (ends output rp text)) →
  does (m ≫= f) (ends output rp (b +:+ text)).
Proof.
  intros Hm Hf. eapply does_weaken; [by apply (does_bind _ _ _ (λ _, ends output rp text) Hm)|].
  intros r new [(a & n1 & n2 & -> & [Ho E] & Ho2 & Hc)|(e & -> & Ho & _)]; [|by split].
  split; [by apply Forall_app|]. intros Hr. destruct (Hc Hr) as [Hcomp Hb]. split; [done|].
  rewrite output_bytes_app, E by done. destruct Hb as [->|[? ->]]; [by left|right].
  by rewrite string_app_assoc.
Qed.

Lemma does_head args output rp :
  does (if ca_include args then sink_write output false (response_head rp) else mret false : Run bool)
    (puts output (if ca_include args then response_head rp else "")).
Proof. destruct (ca_include args); [apply puts_sink_write|apply puts_mute; auto with keychute]. Qed.

(** A failing status under [--fail]: the head at most. *)
Lemma does_failing args output rp f :
  does (_ ← (if ca_include args then sink_write output false (response_head rp) else mret false);
        bail f : Run unit)
    (λ r new, Forall (is_output output) new ∧ r ≠ Ok tt ∧ (ca_include args = false → new = [])).
Proof.
  destruct (ca_include args) eqn:Ei.
  - eapply does_weaken; [apply (does_bind _ _ _ (λ _ r new, new = [] ∧ r = Err f)
                                  (puts_sink_write output false (response_head rp)));
                         intros t; apply silent_bail|].
    intros r new [(a & n1 & n2 & -> & [Ho _] & -> & ->)|(e & -> & Ho & _)];
      [rewrite app_nil_r|]; by split_and!.
  - apply skip; [auto with keychute|]. intros _. eapply does_weaken; [apply silent_bail|].
    intros r new [-> ->]. by split_and!.
Qed.

Lemma does_write_response args output rp :
  does (write_response args output rp : Run unit) (answered args output rp).
Proof.
  unfold write_response. fold (finish output rp).
  destruct (ca_fail args && (400 <=? rp_status rp)%Z) eqn:Ef.
  - eapply does_weaken; [apply does_failing|]. intros r new (Ho & Hne & Hi). by split_and!.
  - eapply does_weaken.
    { apply (ends_after output rp _ (String.concat "" (rp_chunks rp)) _ _ (does_head args output rp)).
      intros t. apply (ends_after output rp "" _ _ _ (puts_empty_once output t)). intros t'.
      eapply does_weaken; [apply (ends_after output rp _ "" _ _ (puts_chunks output t' (rp_chunks rp)));
                           intros _; apply does_finish|].
      intros r new. by rewrite string_app_nil_r. }
    intros r new [Ho Hr]. split_and!; [done..|]. intros Hf Hs. apply Z.leb_le in Hs.
    by rewrite Hf, Hs in Ef.
Qed.

(** ** Before the call *)
Definition asking (cfg : CliConfig) (q : Sent) : Prop :=
  (∃ id token, q = grant_sent cfg id token) ∨ (∃ req token, q = create_sent cfg req token)
  ∨ (∃ id, is_wait cfg id q).
Notation asked cfg := (Forall (exchanged_by (asking cfg))).

Lemma does_fetch cfg id :
  does (fetch_grant cfg id : Run _) (λ r new,
    asked cfg new
    ∧ ∀ info, r = Ok info → ∃ token rp, new = [Exchanged (grant_sent cfg id token) rp]
        ∧ reading_grant rp = Ok info).
Proof.
  unfold fetch_grant. eapply silent_then; [apply bearer_silent| |by split].
  intros token _. apply does_exchange. intros rp. eapply does_weaken; [apply silent_of|].
  intros r new [-> ->]. split.
  - constructor; [|done]. eexists _, rp. split; [done|]. left. by exists id, token.
  - intros info Hi. by exists token, rp.
Qed.

Definition covered (cfg : CliConfig) (gv : Given) (p : Prepared) (id : Uuid) (tr : Trace) : Prop :=
  ∃ token rp info, Exchanged (grant_sent cfg id token) rp ∈ tr ∧ reading_grant rp = Ok info
    ∧ grant_covers info (gv_local gv) (pp_target p) (pp_method p) = Ok tt.
Record prepared_for (args : CurlArgs) (gv : Given) (p : Prepared) : Prop := mk_prepared_for {
  pf_target : parse_target (ca_url args) = Ok (pp_target p);
  pf_selector : credential_selector args = Ok (pp_selector p);
  pf_method : call_method args = Ok (pp_method p);
  pf_headers : parse_headers (body_is_supplied args) (ca_headers args)
               = Ok (pp_parsed p, pp_removed_agent p);
  pf_options : validate_grant_options args (pp_target p) (pp_method p) = Ok tt
}.

Lemma does_map {A B} (m : Run A) (g : A → B) P :
  does m P → does (m ≫= λ a, mret (g a)) (λ r new, ∃ r0, P r0 new
    ∧ r = match r0 with Ok a => Ok (g a) | Err e => Err e end).
Proof.
  intros Hm. eapply does_weaken; [apply (does_bind _ _ _ (λ a r new, new = [] ∧ r = Ok (g a)) Hm);
                                  intros a; apply silent_mret|].
  intros r new [(a & n1 & n2 & -> & HP & -> & ->)|(e & -> & HP)].
  - rewrite app_nil_r. by exists (Ok a).
  - by exists (Err e).
Qed.
Lemma does_check cfg local id target method :
  does (check_grant_covers cfg local id target method : Run unit) (λ r new,
    asked cfg new
    ∧ (r = Ok tt → ∃ token rp info, Exchanged (grant_sent cfg id token) rp ∈ new
         ∧ reading_grant rp = Ok info ∧ grant_covers info local target method = Ok tt)).
Proof.
  eapply does_weaken; [apply (does_bind _ _ _ (λ info r new,
    new = [] ∧ r = grant_covers info local target method) (does_fetch cfg id));
    intros info; apply silent_of|].
  intros r new [(info & n1 & n2 & -> & [Ha Hi] & -> & ->)|(e & -> & Ha & _)]; [|by split].
  rewrite app_nil_r. split; [done|]. intros Hr. destruct (Hi info eq_refl) as (token & rp & -> & Hrp).
  exists token, rp, info. split; [by apply list_elem_of_singleton|done].
Qed.

Lemma does_prepare cfg args gv :
  does (prepare cfg args gv : Run Prepared) (λ r new,
    asked cfg new
    ∧ ∀ p, r = Ok p → prepared_for args gv p
        ∧ ∀ id, pp_selector p = Selector.Grant id → covered cfg gv p id new).
Proof.
  unfold prepare.
  eapply silent_then; [apply silent_of| |by split]. intros target Ht.
  eapply silent_then; [apply silent_of| |by split]. intros selector Hs.
  eapply silent_then; [apply mute_refuse| |by split]. intros _ _.
  eapply silent_then; [apply bearer_silent| |by split]. intros _ _.
  eapply silent_then; [apply silent_of| |by split]. intros method Hm.
  eapply silent_then; [apply silent_of| |by split]. intros [parsed removed] Hh.
  eapply silent_then; [apply silent_of| |by split]. intros [] Hv.
  cbv beta in *. symmetry in Ht. apply map_err_Ok in Ht. cbn [fst snd].
  assert (Hp : ∀ st, prepared_for args gv (mkPrepared target selector method parsed removed st))
    by (by split).
  destruct selector as [id|name].
  - eapply does_weaken; [apply does_map, does_map, does_check|].
    intros r new (r1 & (r0 & [Ha Hc] & ->) & ->). split; [done|]. intros p Hr.
    destruct r0 as [[]|e]; [|done]. injection Hr as <-. split; [apply Hp|].
    intros id' [= <-]. by apply Hc.
  - eapply does_weaken; [apply does_map, does_map, silent_of|].
    intros r new (r1 & (r0 & [-> _] & ->) & ->). split; [done|]. intros p Hr.
    destruct r0 as [v|e]; [|done]. injection Hr as <-. split; [apply Hp|]. by intros id [=].
Qed.

(** ** The grant *)
Definition granted (cfg : CliConfig) (args : CurlArgs) (gv : Given) (p : Prepared)
    (body : option string) (id : Uuid) (tr : Trace) : Prop :=
  match pp_selector p with
  | Selector.Grant id' => id = id'
  | Selector.Secret name =>
      ∃ structured req st,
        grant_request args (gv_fresh gv) (pp_target p) (pp_method p) name structured (pp_headers p)
          body (pp_suppress p) = Ok req
        ∧ resolving cfg req (Ok (Some st)) tr ∧ approving st id
  end.
Lemma resolving_asks cfg req r tr : resolving cfg req r tr → asked cfg tr.
Proof.
  intros (c & w & -> & _ & Hc & _ & Hw & _). apply Forall_app. split.
  - eapply exchanged_by_mono; [|exact Hc]. intros q (token & ->). right. left. by exists req, token.
  - eapply exchanged_by_mono; [|exact Hw]. intros q Hq. by right; right.
Qed.

Lemma does_obtain cfg args gv p body :
  does (obtain_grant cfg args gv p body : Run _) (λ r new,
    asked cfg new ∧ ∀ id, r = Ok (Some id) → granted cfg args gv p body id new).
Proof.
  unfold obtain_grant, granted. destruct (pp_selector p) as [id|name].
  - eapply does_weaken; [apply silent_mret|]. intros r new [-> ->]. split; [done|]. by intros id' [= <-].
  - eapply silent_then; [apply silent_of| |by split]. intros req Hreq. eapply does_weaken.
    { apply (does_bind _ _ _ (λ st r new, new = [] ∧ ∀ id, r = Ok (Some id) →
        ∃ st', st = Some st' ∧ approving st' id)
        (does_resolve cfg req (ca_timeout args) (gv_rounds gv))).
      intros [st|].
      - eapply does_weaken; [apply does_map, does_report|]. intros r new (r0 & [-> ->] & ->).
        split; [done|]. intros id Hr. exists st. split; [done|].
        destruct (grant_of_resolution st) eqn:E; [injection Hr as ->; by apply grant_of_approval|done].
      - eapply does_weaken; [apply silent_mret|]. intros r new [-> ->]. by split. }
    intros r new [(st & n1 & n2 & -> & Hres & -> & Hid)|(e & -> & Hres)].
    + rewrite app_nil_r. split; [by eapply resolving_asks|]. intros id Hr.
      destruct (Hid id Hr) as (st' & -> & Hg). eexists _, req, st'.
      split; [exact (eq_sym Hreq)|done].
    + split; [by eapply resolving_asks|done].
Qed.

(** ** The call *)
Definition marked (rp : Reply) : bool := existsb (λ h, eqb h.1 KEYCHUTE_ERROR_HEADER) (rp_headers rp).
(** One proxied exchange, and what is done with its answer. *)
Definition called (cfg : CliConfig) (args : CurlArgs) (p : Prepared) (body : option string)
    (output : option nat) (id : Uuid) (r : CliResult unit) (tr : Trace) : Prop :=
  ∃ token rp outs, tr = Exchanged (proxy_sent cfg (pp_target p) (pp_method p) (pp_headers p) body
                                     (pp_suppress p) id token) rp :: outs
    ∧ match rp with
      | Some rp => if marked rp then outs = [] ∧ r ≠ Ok tt else answered args output rp r outs
      | None => outs = [] ∧ r ≠ Ok tt
      end.

Lemma does_proxy_call cfg args p body output id :
  does (proxy_call cfg args (pp_target p) (pp_method p) (pp_headers p) body (pp_suppress p) id output
        : Run unit)
    (λ r new, (new = [] ∧ r ≠ Ok tt) ∨ called cfg args p body output id r new).
Proof.
  unfold proxy_call. eapply silent_then; [apply bearer_silent| |by left].
  intros token _. apply does_exchange. intros [rp|]; cbn [ok_or].
  2:{ eapply silent_then; [apply silent_of| |].
      - intros rp [=].
      - intros e _. right. by exists token, None, []. }
  eapply silent_then; [apply silent_of|intros rp' [= ->]|intros e [=]].
  destruct (existsb _ (rp_headers rp)) eqn:Em.
  { eapply does_weaken; [apply silent_bail|]. intros r new [-> ->]. right.
    exists token, (Some rp), []. split; [done|]. unfold marked. by rewrite Em. }
  apply skip. { destruct (is_redirection _); auto with keychute. }
  intros _. eapply does_weaken; [apply (does_bind _ _ _ (λ _ r new, new = [] ∧ r = Ok tt)
                                          (does_write_response args output rp))|].
  { intros []. eapply does_weaken; [by apply silent_effect|]. by intros r new [-> ->]. }
  intros r new Hr. right. exists token, (Some rp), new. split; [done|]. unfold marked. rewrite Em.
  destruct Hr as [([] & n1 & n2 & -> & Ha & -> & ->)|(e & -> & Ha)]; [by rewrite app_nil_r|done].
Qed.

(** The call, then at most one look at what is left of the grant. *)
Lemma does_call_and_report cfg args gv p body output id :
  does (call_and_report cfg args gv p body output id : Run unit) (λ r new,
    (asked cfg new ∧ r ≠ Ok tt)
    ∨ ∃ call look, new = (call ++ look)%list ∧ called cfg args p body output id r call
        ∧ asked cfg look).
Proof.
  intros s tr r s' tr' E. unfold call_and_report in E.
  destruct (proxy_call _ _ _ _ _ _ _ _ _ (s, tr)) as [result [s1 tr1]] eqn:Ep.
  destruct (does_proxy_call _ _ _ _ _ _ _ _ _ _ _ Ep) as (n1 & -> & Hc).
  assert (Hlook : ∃ look, tr' = ((tr ++ n1) ++ look)%list ∧ asked cfg look ∧ r = result).
  { destruct (_ && _).
    - injection E as <- E. unfold report_reuse_budget in E.
      destruct (fetch_grant cfg id (s1, _)) as [ri [s2 tr2]] eqn:Ef.
      destruct (does_fetch _ _ _ _ _ _ _ Ef) as (n2 & -> & Ha & _).
      cbn in E. injection E as _ <-. by exists n2.
    - injection E as <- _ <-. exists []. by rewrite app_nil_r. }
  destruct Hlook as (look & -> & Ha & ->). exists (n1 ++ look)%list.
  split; [by rewrite app_assoc|]. destruct Hc as [[-> Hr]|Hc]; [by left|right]. by exists n1, look.
Qed.

(** ** The run *)
Definition entitled (cfg : CliConfig) (args : CurlArgs) (gv : Given) (p : Prepared)
    (body : option string) (id : Uuid) (tr : Trace) : Prop :=
  prepared_for args gv p
  ∧ ∃ tr1 tr2, tr = (tr1 ++ tr2)%list
      ∧ (∀ id', pp_selector p = Selector.Grant id' → covered cfg gv p id' tr1)
      ∧ granted cfg args gv p body id tr2.

(** After the preparation. *)
Definition running (cfg : CliConfig) (args : CurlArgs) (gv : Given) (p : Prepared)
    (r : CliResult (option unit)) (tr : Trace) : Prop :=
  (asked cfg tr ∧ r ≠ Ok (Some tt))
  ∨ ∃ body output id r0 before call look, tr = (before ++ call ++ look)%list
      ∧ asked cfg before ∧ granted cfg args gv p body id before
      ∧ called cfg args p body output id r0 call ∧ asked cfg look
      ∧ (r = Ok (Some tt) → r0 = Ok tt).

Lemma does_run cfg args gv p body output :
  does (id ← obtain_grant cfg args gv p body;
        match id with
        | None => mret None
        | Some id => _ ← call_and_report cfg args gv p body output id; mret (Some tt)
        end : Run (option unit)) (running cfg args gv p).
Proof.
  eapply does_weaken.
  { apply (does_bind _ _ _ (λ id r new, match id with
      | None => new = [] ∧ r ≠ Ok (Some tt)
      | Some id => ∃ r0, ((asked cfg new ∧ r0 ≠ Ok tt) ∨ ∃ call look, new = (call ++ look)%list
            ∧ called cfg args p body output id r0 call ∧ asked cfg look)
          ∧ (r = Ok (Some tt) → r0 = Ok tt)
      end) (does_obtain cfg args gv p body)).
    intros [id|].
    - eapply does_weaken; [apply does_map, does_call_and_report|].
      intros r new (r0 & Hr0 & ->). exists r0. split; [exact Hr0|]. by destruct r0 as [[]|].
    - eapply does_weaken; [apply silent_mret|]. by intros r new [-> ->]. }
  intros r new [([id|] & n1 & n2 & -> & [Ha Hg] & Hn)|(e & -> & Ha & _)]; [| |by left].
  - destruct Hn as (r0 & [[Ha2 Hne]|(call & look & -> & Hc & Hl)] & Hr).
    + left. split; [by apply Forall_app|]. intros E. by apply Hne, Hr.
    + right. exists body, output, id, r0, n1, call, look. split_and!; try done. by apply Hg.
  - destruct Hn as [-> Hne]. left. by rewrite app_nil_r.
Qed.

Lemma mute_then {A B} (m : Run A) (f : A → Run B) (Q : CliResult B → Trace → Prop) :
  mute m → (∀ e, Q (Err e) []) → (∀ a, does (f a) Q) → does (m ≫= f) Q.
Proof. intros Hm He Hf. eapply silent_then; [exact Hm|intros a _; apply Hf|intros e _; apply He]. Qed.

Lemma does_curl cfg args gv :
  does (run_curl cfg args gv : Run (option unit)) (λ r new,
    (asked cfg new ∧ r ≠ Ok (Some tt)) ∨ ∃ p tr1 tr2, new = (tr1 ++ tr2)%list ∧ asked cfg tr1
      ∧ prepared_for args gv p ∧ (∀ id, pp_selector p = Selector.Grant id → covered cfg gv p id tr1)
      ∧ running cfg args gv p r tr2).
Proof.
  eapply does_weaken.
  { apply (does_bind _ _ _ (λ p, running cfg args gv p) (does_prepare cfg args gv)). intros p.
    apply mute_then; [auto with keychute|by left|]. intros sources.
    apply mute_then; [auto with keychute|by left|]. intros output.
    apply mute_then; [auto with keychute|by left|]. intros limit.
    apply mute_then; [auto with keychute|by left|]. intros body.
    apply mute_then; [destruct (pp_suppress p); auto with keychute|by left|]. intros _.
    apply (does_run cfg args gv p body output). }
  intros r new [(p & n1 & n2 & -> & [Ha Hp] & Hr)|(e & -> & Ha & _)]; [|by left].
  right. destruct (Hp p eq_refl) as [Hpf Hc]. by exists p, n1, n2.
Qed.

End Call.

(** ** Witness: an approval and the call it was for *)
Module CurlRun.
#[export] Existing Instance Script.platform.
#[export] Existing Instance Script.no_files.
#[export] Existing Instance uuid_text_example.
#[export] Existing Instance HttpExample.http.
#[export] Existing Instance CurlExample.url.
#[export] Existing Instance CurlExample.origin_lib.
#[export] Existing Instance CurlExample.call_lib.
#[export] Existing Instance CurlExample.sig_text.
#[export] Existing Instance RequestRun.text.
#[export] Existing Instance RequestRun.bytes.
#[export] Instance client : ClientLib := {|
  datetime_from_str := λ s, parse_digits s 0; pem_bundle_ok := λ _, true
|}.
Definition args : CurlArgs :=
  mkCurlArgs "https://api.example.com/v1/things?limit=10" (Some "example-api-token") None
    ["Accept: */*"; "Cookie: a=b"; "Connection: x-trace"; "X-Trace: 1"] ["@-"] [] []
    None false true "post a thing" 300 1 900 (Some (QArith_base.inject_Z 120)) None None [] [].
Definition given : Given := mkGiven "0d9bbd56-5bb6-4a5c-9f4b-8d2f0e6a7c11" None None None 0 10.
Definition start : Script.t :=
  Script.start [Script.reply 201 "pending"; Script.reply 200 "approved"; Script.reply 200 "done"].
Definition run : CliResult (option unit) * (Script.t * Trace) := run_curl Script.cfg args given (start, []).
Definition trace : Trace := Eval vm_compute in run.2.2.
Definition ended : Script.t := Eval vm_compute in run.2.1.
(** Only the header that travels does, and standard input is the body. *)
Example called_once :
  run.1 = Ok (Some tt)
  ∧ nth_error trace 2 = Some (Exchanged
      (mkSent "POST" "https://keychute.example/v1/grants/9/proxy/v1/things?limit=10" "token"
         [("accept", "*/*")] (Bytes "typed") true) (Script.reply 200 "done"))
  ∧ nth_error trace 3 = Some (Wrote "done") ∧ length trace = 4%nat.
Proof. vm_compute. done. Qed.
End CurlRun.

Import CurlRun.
