(* ===== verification/CurlGrant.v ===== *)
(** [keychute curl] against the server: a request that passes the client's
    checks is one the server accepts, the grant it leads to admits the call, and
    the key it is made under is bound to the call. *)

From S2P Require Import Prelude RustStr RustText Types Paths Json Crypto Examples SigV4 Http Csrf Api ApiRequests ApiGrants.
From S2P Require Import Store Requests Grants Proxy Pipeline Cli CurlCall CurlKey.
From S2P Require Policy.
Open Scope string_scope.

(** ** Methods *)
Lemma token_char_tchar b : token_char b = true → Policy.tchar b = true.
Proof.
  assert (HH : ∀ b, implb (token_char b) (Policy.tchar b) = true)
    by (apply ascii_all; vm_compute; done).
  specialize (HH b). by destruct (token_char b), (Policy.tchar b).
Qed.
Lemma token_method m :
  token m = true → (len m ≤ MAX_METHOD_BYTES)%Z → Policy.is_valid_http_method m = true.
Proof.
  unfold token, Policy.is_valid_http_method. intros [Hne Ht]%andb_true_iff Hl.
  rewrite Hne. cbn [andb]. apply andb_true_iff. split; [by apply Z.leb_le|].
  revert Ht. apply all_bytes_mono, token_char_tchar.
Qed.

(** A method as the client sends it. *)
Record sendable (m : string) : Prop := mk_sendable {
  sm_valid : Policy.is_valid_http_method m = true;
  sm_upper : to_ascii_uppercase m = m;
  sm_trace : m ≠ "TRACE"
}.

Section Methods.
Context `{UrlLib, !OriginLib, !CallLib, HttpLib}.

Lemma normalize_method_Ok m m' : normalize_method m = Ok m' → sendable m'.
Proof.
  unfold normalize_method. destruct (method_from_bytes _) eqn:Et; [cbn [negb]|done].
  destruct (Z.ltb_spec MAX_METHOD_BYTES (len (to_ascii_uppercase (trim m)))) as [|Hl]; [done|].
  destruct (eqb _ "CONNECT"); [done|]. destruct (eqb _ "TRACE") eqn:E; [done|]. kbool.
  intros [= <-]. split; [|apply to_upper_idemp|done].
  by apply token_method; [apply method_from_bytes_token|].
Qed.
Lemma call_method_Ok args m : call_method args = Ok m → sendable m.
Proof.
  unfold call_method. destruct (ca_method args).
  - intros Hm%map_err_Ok. by eapply normalize_method_Ok.
  - intros [= <-]. destruct (body_is_supplied args); by split.
Qed.
Lemma add_methods_Ok ms extra l :
  add_methods ms extra = Ok l → Forall sendable ms → Forall sendable l ∧ ∀ m, m ∈ ms → m ∈ l.
Proof.
  revert ms. induction extra as [|m extra IH]; intros ms; cbn [add_methods].
  { by intros [= <-] Hf. }
  intros (m' & Hm & HH)%bind_Ok Hf. apply IH in HH as [Hl Hin].
  - split; [done|]. intros x Hx. apply Hin. destruct (contains ms m'); [done|].
    apply elem_of_app. by left.
  - destruct (contains ms m'); [done|]. apply Forall_app. split; [done|].
    constructor; [|done]. by eapply normalize_method_Ok.
Qed.

(** What the server makes of the methods. *)
Lemma server_methods l :
  Forall sendable l →
  try_map (λ m, fail_if negb (Policy.is_valid_http_method m) with InvalidRequest "invalid method";
                Ok (to_ascii_uppercase m)) l = Ok l.
Proof.
  induction 1 as [|m l [Hv Hu _] _ IH]; cbn; [done|]. rewrite Hv. cbn. by rewrite IH, Hu.
Qed.

(** ** Prefixes *)
Definition server_prefixes : list string → result ApiFailure (list string) :=
  try_map (λ p, map_err (λ _, InvalidRequest "invalid path prefix") (canonicalize p)).

Lemma canonical_path_Some raw c : canonical_path raw = Some c ↔ canonicalize raw = Ok c.
Proof. unfold canonical_path. destruct (canonicalize raw); cbn; naive_solver. Qed.

Lemma server_prefixes_Ok l :
  existsb (λ p, is_none (canonical_path p)) l = false →
  server_prefixes l = Ok (omap canonical_path l).
Proof.
  unfold server_prefixes. induction l as [|p l IH]; [done|]. cbn [existsb].
  intros [Hp Hl]%orb_false_iff. cbn [try_map omap list_omap].
  destruct (canonical_path p) as [c|] eqn:Ec; [|done]. apply canonical_path_Some in Ec as E.
  rewrite E. cbn [map_err mbind result_bind]. by rewrite IH.
Qed.

(** A canonical path is under itself, the root too. *)
Lemma covers_itself c : canonical c → prefix_matches c c = true.
Proof.
  intros Hc. destruct (eqb (trim_end_matches "/" c) "") eqn:E; kbool;
    [|by apply prefix_matches_refl].
  destruct (trim_end_matches_spec "/" c) as (t & Ht & Hall). rewrite E in Ht. cbn in Ht. subst t.
  destruct c as [|a [|b r]]; [by pose proof (can_slash _ Hc) as Hs; cbn in Hs| |]; cbn in Hall;
    repeat (apply andb_true_iff in Hall as [?%bool_decide_eq_true Hall]); subst.
  - done.
  - pose proof (can_slashes _ Hc) as Hs. cbn [contains_str] in Hs.
    apply orb_false_iff in Hs as [Hs _].
    assert (Ht : starts_with "//" (String "/" (String "/" r)) = true)
      by (apply starts_with_spec; by exists r). congruence.
Qed.

(** The prefixes asked for are the server's after canonicalisation, and one of
    them covers the call. *)
Lemma prefixes_for_serves target ps l c :
  prefixes_for target ps = Ok l → canonical_path (tg_path target) = Some c →
  ∃ k, server_prefixes l = Ok k ∧ existsb (λ p, prefix_matches p c) k = true
    ∧ (length l ≤ Nat.max 1 (length ps))%nat ∧ (ps = [] → k = [c]).
Proof.
  intros Hp Hc. unfold prefixes_for in Hp. destruct ps as [|p ps].
  - injection Hp as <-. exists [c]. apply canonical_path_Some in Hc as E. cbn. rewrite E. cbn.
    split_and!; [done| |lia|done]. rewrite orb_false_r.
    apply canonicalize_Ok in E as (_ & _ & Hcan). by apply covers_itself.
  - destruct (forallb _ _); [cbn [negb] in Hp|done]. destruct (existsb _ _) eqn:Ee in Hp; [done|].
    rewrite Hc in Hp. destruct (_ && _) eqn:Ec; [done|]. injection Hp as <-.
    exists (omap canonical_path (p :: ps)). rewrite server_prefixes_Ok by done.
    split_and!; [done| |lia|done].
    apply andb_false_iff in Ec as [Ec|Ec]; apply negb_false_iff in Ec; [|done].
    apply is_empty_true in Ec. cbn in Ee, Ec.
    apply orb_false_iff in Ee as [Ee _]. by destruct (canonical_path p).
Qed.
End Methods.

(** ** The request *)
Definition proxy_path `{UuidText} (grant_id : Uuid) (target : Target) : string :=
  "/v1/grants/" +:+ uuid_display grant_id +:+ "/proxy" +:+ tg_path target.

Lemma starts_slash s : starts_with "/" s = true → ∃ r, s = String "/" r.
Proof. intros (r & ->)%starts_with_spec. by exists r. Qed.

(** The path the client sends to reaches the proxy as it is. *)
Lemma proxy_path_suffix `{UuidText} id target :
  starts_with "/" (tg_path target) = true → proxy_suffix (proxy_path id target) = Some (tg_path target).
Proof.
  intros (r & E)%starts_slash. unfold proxy_suffix, proxy_path. rewrite E.
  pose proof (strip_prefix_app "/v1/grants/" (uuid_display id +:+ "/proxy" +:+ String "/" r)) as E1.
  rewrite E1. cbn [mbind option_bind].
  change ("/proxy" +:+ String "/" r) with (String "/" ("proxy" +:+ String "/" r)).
  rewrite split_once_first by by apply uuid_display_excludes.
  cbn [mbind option_bind]. by rewrite (strip_prefix_app "proxy" (String "/" r)).
Qed.

Section Serves.
Context `{UuidText, UrlLib, !OriginLib, !CallLib, HttpLib, SigText, JsonBytes}.

Lemma validated args target method :
  validate_grant_options args target method = Ok tt → ca_grant_id args = None →
  (∃ c, canonical_path (tg_path target) = Some c)
  ∧ (∀ key, ca_idempotency_key args = Some key → key ≠ "" ∧ (len key ≤ MAX_CURL_USER_KEY_BYTES)%Z)
  ∧ (1 ≤ ca_ttl args ≤ MAX_TTL_SECONDS)%Z ∧ (ca_max_uses args ≤ MAX_SERVER_USES)%Z
  ∧ (∀ name, ca_secret args = Some name → name ≠ "" ∧ (len name ≤ MAX_SECRET_NAME_BYTES)%Z)
  ∧ (len (ca_reason args) ≤ MAX_REASON_BYTES)%Z
  ∧ (∃ ms, add_methods [method] (ca_allow_methods args) = Ok ms
       ∧ (Z.of_nat (length ms) ≤ MAX_CONSTRAINT_ENTRIES)%Z)
  ∧ (Z.of_nat (length (ca_path_prefixes args)) ≤ MAX_CONSTRAINT_ENTRIES)%Z
  ∧ ∃ ps, prefixes_for target (ca_path_prefixes args) = Ok ps.
Proof.
  unfold validate_grant_options. intros HH Hg. rewrite Hg in HH. cbn [is_some] in HH.
  destruct (canonical_path (tg_path target)) as [c|]; [cbn [is_none is_some negb] in HH|done].
  split; [by exists c|]. destruct (negb (max_time_ok _)); [done|].
  destruct (eqb (ca_idempotency_key args) _) eqn:Ek; [done|].
  destruct (Z.ltb_spec MAX_CURL_USER_KEY_BYTES (len (default "" (ca_idempotency_key args)))); [done|].
  destruct (_ || _) eqn:Et; [done|]. apply orb_false_iff in Et as [Et1%Z.ltb_ge Et2%Z.ltb_ge].
  destruct (Z.ltb_spec MAX_SERVER_USES (ca_max_uses args)); [done|].
  destruct (MAX_APPROVAL_WAIT_SECONDS <? _)%Z; [done|].
  destruct (match ca_secret args with Some _ => _ | None => _ end) eqn:Es; [done|].
  destruct (Z.ltb_spec MAX_REASON_BYTES (len (ca_reason args))); [done|].
  apply bind_Ok in HH as (ms & Hms%map_err_Ok & HH).
  destruct (Z.ltb_spec MAX_CONSTRAINT_ENTRIES (Z.of_nat (length ms))); [done|].
  destruct (Z.ltb_spec MAX_CONSTRAINT_ENTRIES (Z.of_nat (length (ca_path_prefixes args)))); [done|].
  split_and!; try done.
  - intros key Hkey. rewrite Hkey in *. kbool. split; [congruence|done].
  - intros name Hname. rewrite Hname in Es. apply orb_false_iff in Es as [Es Es2%Z.ltb_ge].
    by kbool.
  - by exists ms.
  - destruct (ca_path_prefixes args) as [|p ps] eqn:Ep; [by exists [tg_path target]|].
    cbn [is_empty negb] in HH. apply bind_Ok in HH as (k & Hk%map_err_Ok & _).
    unfold constraints_for in Hk. apply bind_Ok in Hk as (? & _ & Hk).
    apply bind_Ok in Hk as (l & Hl & _). by exists l.
Qed.

Lemma key_length user_key method target headers body ua :
  user_key ≠ "" → (len user_key ≤ MAX_CURL_USER_KEY_BYTES)%Z →
  let key := call_bound_idempotency_key user_key method target headers body ua in
  key ≠ "" ∧ (len key ≤ MAX_REQUEST_IDEM_KEY_BYTES)%Z.
Proof.
  intros Hne Hl. unfold call_bound_idempotency_key. split; [by destruct user_key|].
  unfold len in *. rewrite !length_append. cbn [String.length].
  set (digest := sha256_hex _). pose proof (substring_length CALL_BINDING_HEX_CHARS digest).
  unfold MAX_CURL_USER_KEY_BYTES, MAX_REQUEST_IDEM_KEY_BYTES, CALL_BINDING_HEX_CHARS in *. lia.
Qed.

Lemma context_fits captured extra target method v :
  build_request_context captured extra target method = Ok v →
  (len (value_to_vec v) ≤ MAX_STRUCTURED_BYTES)%Z.
Proof.
  unfold build_request_context.
  assert (Ho : ∃ m, default (Object []) (build_structured_context captured extra) = Object m).
  { unfold build_structured_context. destruct (is_empty _); cbn; eauto. }
  destruct Ho as [m ->]. destruct (Z.ltb_spec MAX_STRUCTURED_BYTES
    (json_len (shed_structured_to_fit (map_insert "target" (Str (method +:+ " " +:+ display target)) m))));
    [done|]. by intros [= <-].
Qed.

(** A bound the server checks that the client checked. *)
Ltac within_bound :=
  match goal with
  | |- context [(?a <? ?b)%Z] =>
      destruct (Z.ltb_spec a b); [lia|]; cbn [orb mbind result_bind]
  end.

(** What the constraints the client builds become at the server. *)
Lemma server_accepts req target method ms ps c args name :
  add_methods [method] (ca_allow_methods args) = Ok ms → sendable method →
  (Z.of_nat (length ms) ≤ MAX_CONSTRAINT_ENTRIES)%Z →
  prefixes_for target (ca_path_prefixes args) = Ok ps →
  (Z.of_nat (length (ca_path_prefixes args)) ≤ MAX_CONSTRAINT_ENTRIES)%Z →
  canonical_path (tg_path target) = Some c →
  (1 ≤ ca_ttl args ≤ MAX_TTL_SECONDS)%Z → (ca_max_uses args ≤ MAX_SERVER_USES)%Z →
  idempotency_key req ≠ "" → (len (idempotency_key req) ≤ MAX_REQUEST_IDEM_KEY_BYTES)%Z →
  name ≠ "" → (len name ≤ MAX_SECRET_NAME_BYTES)%Z → secret_name req = name →
  (len (ca_reason args) ≤ MAX_REASON_BYTES)%Z → reason (context req) = ca_reason args →
  (∃ v, structured (context req) = Some v ∧ (len (value_to_vec v) ≤ MAX_STRUCTURED_BYTES)%Z) →
  mechanism req = Mechanism.Brokered →
  let uses := if (0 <? ca_max_uses args)%Z then Some (ca_max_uses args) else None in
  constraints req = mkConstraints [tg_origin target] ms ps (ca_ttl args) uses →
  ∃ k, server_prefixes ps = Ok k ∧ existsb (λ p, prefix_matches p c) k = true
    ∧ (ca_path_prefixes args = [] → k = [c])
    ∧ validate_request value_to_vec req
      = Ok (mkConstraints [tg_origin target] ms k (ca_ttl args) uses).
Proof.
  intros Hms Hm Hlm Hps Hlp Hc Ht Hu Hk1 Hk2 Hn1 Hn2 Hn Hr1 Hr (v & Hv & Hlv) Hmech uses Hk.
  destruct (prefixes_for_serves _ _ _ _ Hps Hc) as (k & Hsp & Hcov & Hlen & Hone).
  exists k. split; [done|]. split; [done|]. split; [done|].
  destruct (add_methods_Ok _ _ _ Hms) as [Hall Hin]; [by constructor|].
  unfold validate_request, ApiRequests.validate_idempotency_key, eqb, length_z.
  rewrite Hn, Hr, Hv, Hk. rewrite (bool_decide_eq_false_2 (idempotency_key req = _)) by done.
  rewrite (bool_decide_eq_false_2 (name = _)) by done.
  cbn [origins methods path_prefixes ttl_seconds max_uses].
  change (length [tg_origin target]) with 1%nat.
  unfold MAX_IDEM_KEY_BYTES, MAX_REQUEST_IDEM_KEY_BYTES, MAX_SECRET_NAME_BYTES, MAX_REASON_BYTES,
    ApiRequests.MAX_REASON_BYTES, ApiRequests.MAX_CONSTRAINT_ENTRIES, MAX_CONSTRAINT_ENTRIES,
    ApiRequests.MAX_TTL_SECONDS, MAX_TTL_SECONDS in *.
  repeat within_bound.
  rewrite server_methods by done. cbn [mbind result_bind].
  unfold server_prefixes in Hsp. rewrite Hsp. cbn [mbind result_bind].
  unfold requested_uses. rewrite Hmech, eqb_refl. cbn [origins length_z length max_uses].
  assert (Hne : is_empty ms = false).
  { apply is_empty_false. intros ->. specialize (Hin method). set_solver. }
  rewrite Hne. change (length_z [tg_origin target] =? 1)%Z with true. cbn [negb].
  unfold uses, MAX_USES. unfold MAX_SERVER_USES in Hu.
  destruct (Z.ltb_spec 0 (ca_max_uses args)); [|done].
  destruct (Z.eqb_spec (ca_max_uses args) 0); [lia|]. by within_bound.
Qed.

Lemma method_admitted o ms pk ttl u method :
  sendable method → method ∈ ms → method_allowed (mkConstraints o ms pk ttl u) method = Ok tt.
Proof.
  intros [_ _ Hne] Hin. unfold method_allowed, eqb. rewrite bool_decide_eq_false_2 by done.
  cbn [methods]. rewrite (proj2 (existsb_elem _ _)).
  - by rewrite andb_false_r.
  - exists method. split; [done|]. apply eq_ignore_ascii_case_refl.
Qed.
Lemma path_admitted o ms pk ttl u id target c :
  canonical_path (tg_path target) = Some c → existsb (λ p, prefix_matches p c) pk = true →
  path_allowed (mkConstraints o ms pk ttl u) (proxy_path id target) = Ok c.
Proof.
  intros Hc%canonical_path_Some Hcov. unfold path_allowed. rewrite proxy_path_suffix.
  2:{ by apply canonicalize_Ok in Hc as (? & _). }
  cbn [ok_or mbind result_bind]. rewrite Hc. cbn [map_err mbind result_bind path_prefixes].
  by rewrite Hcov, andb_false_r.
Qed.

(** C10: an approval of a [keychute curl] request serves the call it was made for.
    A request for a new grant that passes the client's checks is never refused
    for its shape: the server's validation accepts it.  A grant with the
    constraints the server stores names the origin of the URL alone, and the
    proxy admits the call's method and its path as the client sends it.  With no
    further method or prefix asked for it admits only that method, and only paths
    under that path. *)
Theorem curl_grant_serves_call args target method name fresh captured extra structured
    headers body ua :
  fresh ≠ "" → (len fresh ≤ MAX_CURL_USER_KEY_BYTES)%Z →
  ca_grant_id args = None → ca_secret args = Some name →
  call_method args = Ok method → validate_grant_options args target method = Ok tt →
  build_request_context captured extra target method = Ok structured →
  ∃ req k c, grant_request args fresh target method name structured headers body ua = Ok req
    ∧ validate_request value_to_vec req = Ok k
    ∧ origins k = [tg_origin target]
    ∧ (∀ id, method_allowed k method = Ok tt ∧ path_allowed k (proxy_path id target) = Ok c)
    ∧ (ca_allow_methods args = [] → ca_path_prefixes args = [] →
       ∀ m p, admitted k m p → eq_ignore_ascii_case method m = true ∧ prefix_matches c p = true).
Proof.
  intros Hf1 Hf2 Hg Hsec Hmeth Hval Hctx.
  destruct (validated _ _ _ Hval Hg) as ((c & Hc) & Hkey & Ht & Hu & Hname & Hr & (ms & Hms & Hlm)
    & Hlp & ps & Hps).
  destruct (Hname _ Hsec) as [Hn1 Hn2]. pose proof (call_method_Ok _ _ Hmeth) as Hm.
  assert (Huk : default fresh (ca_idempotency_key args) ≠ ""
    ∧ (len (default fresh (ca_idempotency_key args)) ≤ MAX_CURL_USER_KEY_BYTES)%Z).
  { destruct (ca_idempotency_key args) as [key|]; [by apply Hkey|done]. }
  destruct Huk as [Huk1 Huk2].
  pose proof (key_length _ method target headers body ua Huk1 Huk2) as [Hik1 Hik2].
  set (idem := call_bound_idempotency_key _ _ _ _ _ _) in *.
  set (k0 := mkConstraints [tg_origin target] ms ps (ca_ttl args)
               (if (0 <? ca_max_uses args)%Z then Some (ca_max_uses args) else None)).
  set (req := mkCreateAccessRequest idem name Mechanism.Brokered k0
                (mkRequestContext (ca_reason args) (Some structured))).
  destruct (server_accepts req target method ms ps c args name) as (pk & Hpk & Hcov & Hone & Hok);
    try done.
  { exists structured. split; [done|]. by eapply context_fits. }
  exists req, (mkConstraints [tg_origin target] ms pk (ca_ttl args) (max_uses k0)), c.
  split_and!; [|exact Hok|done| |].
  - unfold grant_request. destruct (Z.ltb_spec MAX_CURL_USER_KEY_BYTES
      (len (default fresh (ca_idempotency_key args)))); [lia|]. fold idem.
    unfold validate_idempotency_key, eqb. rewrite bool_decide_eq_false_2 by done. within_bound.
    cbn [map_err mbind result_bind]. unfold constraints_for.
    rewrite Hms. cbn [mbind result_bind]. by rewrite Hps.
  - intros id. destruct (add_methods_Ok _ _ _ Hms) as [_ Hin]; [by constructor|].
    split; [|by apply path_admitted]. apply method_admitted; [done|]. apply Hin.
    by apply list_elem_of_singleton.
  - intros Hm0 Hp0. rewrite Hm0 in Hms. injection Hms as <-. rewrite (Hone Hp0).
    intros m p (_ & Hma & _ & Hpa). cbn [methods path_prefixes] in *. split.
    + by destruct Hma as [?|(m' & ->%list_elem_of_singleton & ?)].
    + by destruct Hpa as [?|(p' & ->%list_elem_of_singleton & ?)].
Qed.
End Serves.

(** ** Reuse *)
Section Reuse.
Context `{UuidText, Primitives, UrlLib, !OriginLib, !CallLib, HttpLib, SigText, WireLib}.

Lemma grant_covers_Ok info local target method :
  grant_covers info local target method = Ok tt →
  gi_mechanism info = Mechanism.Brokered ∧ gi_revoked info = false
  ∧ (default local (gi_server_time info) < gi_not_after info)%Z
  ∧ (∀ m, gi_max_uses info = Some m → (gi_use_count info < m)%Z)
  ∧ (∃ o, origins (gi_constraints info) = [o] ∧ same_target o (tg_origin target) = true)
  ∧ negb (is_empty (methods (gi_constraints info)))
    && negb (existsb (λ m, eq_ignore_ascii_case m method) (methods (gi_constraints info))) = false
  ∧ ∀ c, canonical_path (tg_path target) = Some c →
      negb (is_empty (path_prefixes (gi_constraints info)))
      && negb (existsb (λ p, prefix_matches p c) (path_prefixes (gi_constraints info))) = false.
Proof.
  unfold grant_covers. destruct (eqb (gi_mechanism info) _) eqn:Em; [cbn [negb]; kbool|done].
  destruct (gi_revoked info); [done|].
  destruct (Z.leb_spec (gi_not_after info) (default local (gi_server_time info))); [done|].
  destruct (match gi_max_uses info with Some _ => _ | None => _ end) eqn:Eu; [done|].
  intros ([] & Ho & HH)%bind_Ok.
  destruct (origins (gi_constraints info)) as [|o [|]]; [done| |done].
  destruct (same_target o (tg_origin target)) eqn:Es; [|done].
  destruct (_ && _) eqn:Eme; [done|].
  destruct (match canonical_path (tg_path target) with Some _ => _ | None => _ end) eqn:Ep; [done|].
  split_and!; try done.
  - intros m Hmax. rewrite Hmax in Eu. by apply Z.leb_gt in Eu.
  - by exists o.
  - intros c Hc. by rewrite Hc in Ep.
Qed.

(** A grant that passes [--grant-id]'s check serves the call, and serves it
    where the URL says.  When the description the server gives of a grant row
    covers the target and method, the row is live and has uses left at the
    server's clock, the proxy's checks on that row accept the call as the client
    sends it, and the origin the proxy sends to, taken from the grant, is the
    target of the URL. *)
Theorem reused_grant_serves_call config g t info local target method c req body :
  grant_info g t = Ok info → grant_covers info local target method = Ok tt →
  canonical_path (tg_path target) = Some c → sendable method →
  pr_method req = method → pr_path req = proxy_path (g_id g) target →
  read_body (proxy_max_body_bytes (limits config)) (pr_body req) "" = Ok body →
  live t g = true ∧ uses_left g = true
  ∧ ∃ o, check_request config g req = Ok (mkChecked method o body, c)
      ∧ same_target o (tg_origin target) = true.
Proof.
  intros Hi Hcov Hc [Hv Hup Htr] Hm Hp Hb. apply grant_covers_Ok in Hcov as
    (Hmech & Hrev & Hlive & Huse & (o & Ho & Hsame) & Hme & Hpa). specialize (Hpa c Hc).
  unfold grant_info in Hi. apply bind_Ok in Hi as (mech & _ & Hi).
  apply bind_Ok in Hi as (k & Hk & [= <-]).
  cbn [gi_mechanism gi_revoked gi_not_after gi_server_time gi_max_uses gi_use_count gi_constraints
       origins methods path_prefixes default] in *.
  split_and!.
  - unfold live. rewrite Hrev. by apply Z.ltb_lt.
  - unfold uses_left. destruct (g_max_uses g) as [m|]; [|done]. specialize (Huse _ eq_refl).
    apply Z.ltb_lt. lia.
  - exists o. split; [|done]. unfold check_request. rewrite Hk. cbn [mbind result_bind].
    rewrite Hm, Hup. unfold method_allowed, eqb at 1. rewrite bool_decide_eq_false_2 by done.
    rewrite Hme. cbn [mbind result_bind]. unfold path_allowed. rewrite Hp, proxy_path_suffix.
    2:{ apply canonical_path_Some, canonicalize_Ok in Hc as (? & _). done. }
    cbn [ok_or mbind result_bind]. apply canonical_path_Some in Hc. rewrite Hc.
    cbn [map_err mbind result_bind]. rewrite Hpa. cbn [mbind result_bind]. rewrite Ho.
    cbn [mbind result_bind]. by rewrite Hb.
Qed.
End Reuse.

(** ** Witnesses *)
Module GrantExample.
Import CurlExample.
#[export] Existing Instance CurlExample.url.
#[export] Existing Instance CurlExample.origin_lib.
#[export] Existing Instance CurlExample.call_lib.
#[export] Existing Instance CurlExample.sig_text.
#[export] Existing Instance HttpExample.http.
#[export] Existing Instance uuid_text_example.
#[export] Existing Instance CryptoExample.primitives.
#[export] Instance bytes : JsonBytes := {|
  value_to_vec := λ _, "value"; context_to_vec := reason; MAX_UTC := 0
|}.
#[export] Instance wire : WireLib := {|
  hex_decode := Some; base64_encode := λ s, s; token_review := λ _ _, Ok None
|}.
Definition args : CurlArgs :=
  mkCurlArgs "https://api.example.com/v1/things?limit=10" (Some "example-api-token") None [] [] [] []
    None false false "list things" 300 1 900 (Some (QArith_base.inject_Z 120)) None None [] [].
Definition structured : Value := Object [("target", Str "GET https://api.example.com/v1/things?limit=10")].
Definition fresh : string := "0d9bbd56-5bb6-4a5c-9f4b-8d2f0e6a7c11".
Definition limited : Value :=
  Constraints_to_value
    (mkConstraints [mkOrigin "api.example.com" (Some 443%Z)] ["get"] ["/v1"] 300 (Some 2%Z)).
Definition row : GrantRow :=
  mkGrantRow 20 10 "agent" "example-api-token" "brokered" limited (seconds 300) (Some 2%Z) 1 false
    None None None false 0.
Definition described : GrantInfo :=
  mkGrantInfo 20 Mechanism.Brokered
    (mkConstraints [mkOrigin "api.example.com" (Some 443%Z)] ["get"] ["/v1"] 300 (Some 2%Z))
    (seconds 300) (Some 2%Z) 1 false (Some (seconds 60)).
Definition config : Api.Config := mkConfig (mkLimits 3 5 300 900 1024 60 8 20) [] None "https://kc".
Definition sent : ProxyRequest :=
  mkProxyRequest "GET" (proxy_path 20 target) (tg_query target) [] [].
End GrantExample.

Import CurlExample GrantExample.

Lemma curl_grant_serves_call_witness :
  ∃ req k, grant_request args fresh target "GET" "example-api-token" structured [] None false = Ok req
    ∧ validate_request value_to_vec req = Ok k
    ∧ path_allowed k "/v1/grants/20/proxy/v1/things" = Ok "/v1/things"
    ∧ ¬ admitted k "GET" "/v1/other".
Proof.
  destruct (curl_grant_serves_call args target "GET" "example-api-token" fresh None None structured
    [] None false) as (req & k & c & Hreq & Hk & _ & Hserve & Honly);
    [done|by vm_compute|done|done|done|vm_compute; reflexivity|vm_compute; reflexivity|].
  destruct (Hserve 20%N) as [_ Hp].
  assert (Ec : c = "/v1/things").
  { assert (E : grant_request args fresh target "GET" "example-api-token" structured [] None false = Ok req)
      by exact Hreq. clear -Hp Hk E. vm_compute in E. injection E as <-. vm_compute in Hk.
    injection Hk as <-. vm_compute in Hp. by injection Hp as <-. }
  subst c. exists req, k. split; [exact Hreq|]. split; [exact Hk|]. split; [exact Hp|].
  intros Hadm. destruct (Honly eq_refl eq_refl _ _ Hadm) as [_ HH]. vm_compute in HH. discriminate HH.
Defined.

Lemma reused_grant_serves_call_witness :
  live (seconds 60) row = true
  ∧ ∃ o, check_request config row sent = Ok (mkChecked "GET" o "", "/v1/things")
      ∧ same_target o (tg_origin target) = true.
Proof.
  destruct (reused_grant_serves_call config row (seconds 60) described 0 target "GET" "/v1/things"
    sent "") as (Hl & _ & Ho); [vm_compute; reflexivity..|by split|done|done|done|].
  by split.
Defined.
