(* ===== verification/CliErrors.v ===== *)
(** The server's refusals as the command line reads them: the error response
    ([server/src/api/error.rs]) and the exit code each command ends with. *)

From S2P Require Import Prelude RustStr Types Json Examples Crypto Http Csrf Api ApiRequests ApiGrants Pipeline.
From S2P Require Import Cli CliTrace CliRequest CurlCall Curl.
Open Scope string_scope.

(** [impl IntoResponse for ApiFailure] *)
Definition ApiError_to_value (code message : string) : Value :=
  obj [("error", obj [("code", Str code); ("message", Str message)])].
Definition into_response `{JsonBytes} (e : ApiFailure) : Reply :=
  let '(status, code, message) := status_code_message e in
  mkReply status [("content-type", "application/json"); (Curl.KEYCHUTE_ERROR_HEADER, code)]
    [value_to_vec (ApiError_to_value code message)] true.

(** The documented exit codes: 2 for a usage or configuration error, 3 denied, 4
    timeout or expired, 5 payload lost, 1 anything else; [None] is an answer that
    is retried. *)
Definition transient_error (e : ApiFailure) : bool :=
  match e with
  | BadCredentialEncoding | UpstreamUnreachable | UpstreamTimeout | Internal _ => true
  | _ => false
  end.
Definition too_many (e : ApiFailure) : bool :=
  match e with TooManyPending | TooManyWaits | TooManyStreams | TooManyDeposits => true | _ => false end.
Definition exit_code (e : ApiFailure) : Z :=
  match e with
  | Unauthenticated => EXIT_CONFIG
  | PolicyDenied _ | RevalidationFailed => EXIT_DENIED
  | _ => EXIT_OTHER
  end.
Definition read_exit_code (e : ApiFailure) : Z :=
  match e with
  | PayloadLost => EXIT_PAYLOAD_LOST
  | GrantExpired => EXIT_TIMEOUT
  | _ => exit_code e
  end.
(** A brokered call is malformed, too, when the server says so. *)
Definition proxy_exit_code (e : ApiFailure) : Z :=
  match e with
  | InvalidRequest _ | MethodNotAllowed | RequestTooLarge _ | InvalidPath _ | WrongMechanism
  | BodyTooLarge => EXIT_CONFIG
  | _ => read_exit_code e
  end.

(** Definitive with an exit code, or transient. *)
Definition ends_with {A} (code : option Z) (r : result string (CliResult A)) : Prop :=
  match code with
  | Some c => ∃ f, r = Ok (Err f) ∧ Cli.code f = c
  | None => ∃ msg, r = Err msg
  end.

Section Errors.
Context `{UuidText, Primitives, UrlLib, ReplyText, JsonBytes}.

End Errors.

(** ** Witness: an encoding whose error bodies parse back *)
Module ErrorExample.
#[export] Existing Instance uuid_text_example.
#[export] Existing Instance CryptoExample.primitives.
#[export] Existing Instance HttpExample.url.
#[export] Instance bytes : JsonBytes := {|
  value_to_vec := λ v, match v with
    | Object [(_, Object [(_, Str c); (_, Str m)])] => escape c +:+ escape m
    | _ => "value"
    end;
  context_to_vec := reason; MAX_UTC := 0
|}.
#[export] Instance text : ReplyText := {|
  json_from_str := λ s, '(c, r) ← unescape s; '(m, _) ← unescape r; Some (ApiError_to_value c m);
  status_display := Z_to_string
|}.
Lemma parses_back c m :
  json_from_str (value_to_vec (ApiError_to_value c m)) = Some (ApiError_to_value c m).
Proof.
  change (value_to_vec (ApiError_to_value c m)) with (escape c +:+ escape m). cbn [json_from_str text].
  rewrite unescape_escape. cbn [mbind option_bind].
  rewrite <-(string_app_nil_r (escape m)), unescape_escape. done.
Qed.
End ErrorExample.

Import ErrorExample.
