(* ===== verification/CliStore.v ===== *)
(** [cli/src/main.rs]: [keychute store], from the bytes read to the deposit. *)

From S2P Require Import Prelude RustStr Types Json Crypto Examples Http Csrf Api ApiRequests ApiSecrets Pipeline.
From S2P Require Import Cli CliTrace CliRequest.
Open Scope string_scope.

Definition MAX_SECRET_BYTES : Z := 64 * 1024.
Definition HEADROOM : Z := 3.

Record StoreArgs := mkStoreArgs {
  so_secret_name : string;
  so_value_file : option string;
  so_description : string;
  so_max_tier : string;
  so_injection_kind : string;
  so_injection_header : option string;
  so_raw : bool
}.

Definition parse_tier (s : string) : option Tier.t :=
  if eqb s "brokered" then Some Tier.Brokered
  else if eqb s "trusted-client" then Some Tier.TrustedClient
  else if eqb s "cooperating-client" then Some Tier.CooperatingClient
  else if eqb s "direct" then Some Tier.Direct
  else None.

(** The text without its last byte, if that is [c]. *)
Fixpoint pop_byte (c : ascii) (s : string) : option string :=
  match s with
  | "" => None
  | String a "" => if eqb a c then Some "" else None
  | String a r => String a <$> pop_byte c r
  end.
(** What is left, and whether anything was stripped. *)
Definition strip_trailing_newline (buf : string) : string * bool :=
  match pop_byte LF buf with
  | None => (buf, false)
  | Some buf => (default buf (pop_byte CR buf), true)
  end.

(** [StoreSecretRequest] as JSON, and [StoreSecretResponse] from it. *)
Definition encoding_str (e : SecretEncoding.t) : string :=
  match e with SecretEncoding.Utf8 => "utf8" | SecretEncoding.Base64 => "base64" end.
Definition StoreSecretRequest_to_value (r : StoreSecretRequest) : Value :=
  obj ([("name", Str (dq_name r)); ("value", Str (dq_value r));
        ("encoding", Str (encoding_str (dq_encoding r)));
        ("description", Str (dq_description r))]
       ++ opt_field "max_tier" (λ t, Str (Tier.as_str t)) (dq_max_tier r)
       ++ opt_field "injection_kind" Str (dq_injection_kind r)
       ++ opt_field "injection_header" Str (dq_injection_header r)).
Definition StoreSecretRequest_of_value (v : Value) : option StoreSecretRequest :=
  m ← as_object v;
  name ← map_get m "name" ≫= as_str;
  value ← map_get m "value" ≫= as_str;
  encoding ← default_of SecretEncoding.Utf8 (λ v, as_str v ≫= encoding_of_str) (map_get m "encoding");
  description ← default_of "" as_str (map_get m "description");
  tier ← opt_of (λ v, as_str v ≫= parse_tier) (map_get m "max_tier");
  kind ← opt_of as_str (map_get m "injection_kind");
  header ← opt_of as_str (map_get m "injection_header");
  Some (mkStoreSecretRequest name value encoding description tier kind header).

(** A failure whose outcome is not known. *)
Definition MAYBE_STORED : string :=
  ". The secret MAY already have been stored (the request was sent): check the store before retrying or picking another name".
Definition ambiguous (message : string) : string := message +:+ MAYBE_STORED.

Section Store.
Context {S : Type} `{!Platform S, !Files S, UuidText, Primitives, WireLib, ReplyText}.

(** At most the cap, a newline and one byte more, to tell oversize input. *)
Definition read_secret_bounded (source : Z → S → option string * S) : Cli S string :=
  buf ← run_op (source (MAX_SECRET_BYTES + HEADROOM)%Z);
  match buf with
  | Some buf =>
      if (MAX_SECRET_BYTES + HEADROOM - 1 <? len buf)%Z
      then bail (failure EXIT_CONFIG "the secret value exceeds 65536 bytes")
      else mret buf
  | None => bail (failure EXIT_CONFIG "cannot read the secret")
  end.
Definition open_secret (source : option string) : Cli S (option nat) :=
  match source with
  | Some path =>
      if eqb path "-" then mret None
      else
        h ← run_op (open_in path);
        match h with
        | Some h => mret (Some h)
        | None => bail (failure EXIT_CONFIG "cannot read --value-file")
        end
  | None => mret None
  end.
Definition normalize_secret (raw : bool) (buf : string) : CliResult string :=
  let buf := if raw then buf else (strip_trailing_newline buf).1 in
  fail_if (MAX_SECRET_BYTES <? len buf)%Z
    with failure EXIT_CONFIG "the secret value exceeds 65536 bytes";
  fail_if eqb buf "" with failure EXIT_CONFIG "the secret value is empty";
  Ok buf.
Definition read_secret_input (source : option string) (raw : bool) : Cli S string :=
  h ← open_secret source;
  tty ← run_op (λ s, (is_terminal h s, s));
  if (tty : bool) then bail (failure EXIT_CONFIG "refusing to read a secret from a terminal")
  else
    buf ← read_secret_bounded (match h with Some h => read_in h | None => read_stdin end);
    _ ← (if negb raw && (strip_trailing_newline buf).2
         then effect (eprint "keychute: stripped the trailing newline (pass --raw to keep it)")
         else mret tt);
    cli_lift (normalize_secret raw buf).

Definition encode_secret (value : string) : string * SecretEncoding.t :=
  if is_some (utf8_decode value) then (value, SecretEncoding.Utf8)
  else (base64_encode value, SecretEncoding.Base64).
Definition store_request (args : StoreArgs) (tier : Tier.t) (value : string) : StoreSecretRequest :=
  let '(encoded, encoding) := encode_secret value in
  mkStoreSecretRequest (so_secret_name args) encoded encoding (so_description args) (Some tier)
    (Some (so_injection_kind args)) (so_injection_header args).

Definition as_i32 (v : Value) : option Z :=
  match v with
  | Number (NInt z) => if (- i32_MAX - 1 <=? z)%Z && (z <=? i32_MAX)%Z then Some z else None
  | _ => None
  end.
Definition StoreSecretResponse_of_value (v : Value) : option StoreSecretResponse :=
  m ← as_object v;
  id ← map_get m "secret_id" ≫= as_uuid;
  name ← map_get m "name" ≫= as_str;
  version ← map_get m "version" ≫= as_i32;
  Some (mkStoreSecretResponse id name version).
Definition reading_store (r : option Reply) : CliResult StoreSecretResponse :=
  r ← ok_or r (failure EXIT_OTHER (ambiguous "store request failed"));
  text ← ok_or (body_text r) (failure EXIT_OTHER (ambiguous "failed reading store response"));
  let status := rp_status r in
  let failed := "store failed: " +:+ api_error_message status text in
  if negb (is_success status) then
    let c := refusal_code status in
    Err (failure c (if (status =? 409)%Z
                    then failed +:+ ". Keychute never replaces a stored secret from the CLI"
                    else if is_server_error status then ambiguous failed else failed))
  else ok_or (json_from_str text ≫= StoreSecretResponse_of_value)
         (failure EXIT_OTHER (ambiguous "unexpected store response")).

Definition store_sent (cfg : CliConfig) (req : StoreSecretRequest) (token : string) : Sent :=
  mkSent "POST" (cli_url cfg +:+ "/v1/secrets") token [("content-type", "application/json")]
    (Json (StoreSecretRequest_to_value req)) true.
Definition run_store (cfg : CliConfig) (args : StoreArgs) : Cli S unit :=
  tier ← cli_lift (ok_or (parse_tier (so_max_tier args)) (failure EXIT_CONFIG "unknown max-tier"));
  value ← read_secret_input (so_value_file args) (so_raw args);
  token ← bearer cfg;
  r ← run_op (send (store_sent cfg (store_request args tier value) token));
  stored ← cli_lift (reading_store r);
  effect (eprint ("keychute: stored " +:+ sp_name stored)).
End Store.

(** ** What is deposited *)
Section Deposits.
Context {S : Type} `{!Platform S, !Files S, UuidText, Primitives, WireLib, ReplyText}.
Notation Run := (Cli (S * Trace)).

Lemma pop_byte_Some c s t : pop_byte c s = Some t → s = t +:+ String c "".
Proof.
  revert t. induction s as [|a s IH]; intros t; [done|]. cbn [pop_byte]. destruct s as [|b s].
  - destruct (eqb a c) eqn:E; [kbool|done]. subst. by intros [= <-].
  - destruct (pop_byte c (String b s)) as [u|] eqn:E; [|done]. intros [= <-].
    cbn. by rewrite (IH u eq_refl).
Qed.

(** The input, less one newline unless it is taken raw. *)
Definition input_of (raw : bool) (value buf : string) : Prop :=
  if raw then buf = value
  else buf = value ∨ buf = value +:+ String LF "" ∨ buf = value +:+ String CR (String LF "").
Lemma normalize_secret_Ok raw buf value :
  normalize_secret raw buf = Ok value →
  input_of raw value buf ∧ value ≠ "" ∧ (len value ≤ MAX_SECRET_BYTES)%Z.
Proof.
  unfold normalize_secret. set (v := if raw then _ else _).
  destruct (Z.ltb_spec MAX_SECRET_BYTES (len v)); [done|]. destruct (eqb v "") eqn:E; [done|].
  intros [= <-]. kbool. split; [|done]. unfold input_of, v. destruct raw; [done|].
  unfold strip_trailing_newline. destruct (pop_byte LF buf) as [b|] eqn:Eb; [|by left].
  apply pop_byte_Some in Eb as ->. cbn [fst]. destruct (pop_byte CR b) as [b'|] eqn:Ec.
  - apply pop_byte_Some in Ec as ->. cbn. right. right. by rewrite string_app_assoc.
  - cbn. by right; left.
Qed.

Lemma store_request_roundtrip req :
  StoreSecretRequest_of_value (StoreSecretRequest_to_value req) = Some req.
Proof.
  by destruct req as [n v [] d [[]|] [k|] [h|]].
Qed.

(** The bytes one read of the named source gave. *)
Notation reader h := (match h with Some h => read_in h | None => read_stdin end).
Definition read_from (args : StoreArgs) (buf : string) : Prop :=
  ∃ h (s1 s2 : S * Trace), reader h (MAX_SECRET_BYTES + HEADROOM)%Z s1 = (Some buf, s2)
    ∧ (so_value_file args = None → h = None).

Lemma does_read_bounded h :
  does (read_secret_bounded (reader h) : Run string) (λ r new, new = [] ∧ ∀ b, r = Ok b →
    ∃ s1 s2 : S * Trace, reader h (MAX_SECRET_BYTES + HEADROOM)%Z s1 = (Some b, s2)).
Proof.
  intros s tr r s' tr' E.
  assert (Hm : mute (read_secret_bounded (reader h) : Run string)).
  { unfold read_secret_bounded. apply mute_bind; [destruct h; auto with keychute|].
    intros [b|]; [destruct (_ <? _)%Z|]; auto with keychute. }
  destruct (Hm _ _ _ _ _ E) as (new & -> & -> & _). exists []. split; [done|]. split; [done|].
  intros b ->. unfold read_secret_bounded, mbind, Cli_bind, run_op in E.
  destruct (reader h (MAX_SECRET_BYTES + HEADROOM)%Z (s, tr)) as [[buf|] s2] eqn:Er; cbn in E; [|done].
  destruct (_ <? _)%Z; [done|]. injection E as <- _. by exists (s, tr), s2.
Qed.

Lemma mute_open_secret source : mute (open_secret source : Run _).
Proof.
  unfold open_secret. destruct source as [path|]; [|auto with keychute].
  destruct (eqb path "-"); [auto with keychute|].
  apply mute_bind; [auto with keychute|]. intros [h|]; auto with keychute.
Qed.
Lemma does_read_input args :
  does (read_secret_input (so_value_file args) (so_raw args) : Run string) (λ r new,
    new = [] ∧ ∀ value, r = Ok value → ∃ buf, read_from args buf ∧ input_of (so_raw args) value buf
      ∧ value ≠ "" ∧ (len value ≤ MAX_SECRET_BYTES)%Z).
Proof.
  assert (Ho : does (open_secret (so_value_file args) : Run _) (λ r new,
    new = [] ∧ (so_value_file args = None → ∀ h, r = Ok h → h = None))).
  { destruct (so_value_file args) as [path|].
    - eapply does_weaken; [apply (mute_open_secret (Some path))|]. by intros r new [-> _].
    - eapply does_weaken; [apply silent_mret|]. intros r new [-> ->]. split; [done|]. by intros _ h [= <-]. }
  unfold read_secret_input. eapply silent_then; [exact Ho| |by split]. intros h Hh.
  apply skip; [by apply silent_op|]. intros tty. destruct tty.
  { eapply does_weaken; [apply silent_bail|]. by intros r new [-> ->]. }
  eapply silent_then; [apply does_read_bounded| |by split]. intros buf Hb.
  apply skip; [destruct (_ && _); auto with keychute|]. intros _.
  eapply does_weaken; [apply silent_of|]. intros r new [-> ->]. split; [done|].
  intros value Hv. apply normalize_secret_Ok in Hv as (Hi & Hne & Hl). exists buf.
  split; [|done]. destruct (Hb buf eq_refl) as (s1 & s2 & Hr). exists h, s1, s2.
  split; [exact Hr|]. intros Hn. by apply Hh.
Qed.

(** The laws of the [base64] crate's standard engine that are used. *)
Definition base64_law : Prop :=
  ∀ s, base64_decode (base64_encode s) = Some s
       ∧ len (base64_encode s) = (4 * ((len s + 2) / 3))%Z.
Lemma encode_secret_cases value :
  encode_secret value = (value, SecretEncoding.Utf8)
  ∨ encode_secret value = (base64_encode value, SecretEncoding.Base64).
Proof. unfold encode_secret. case_match; [by left|by right]. Qed.
Lemma deposited_within encoding text value :
  match encoding with SecretEncoding.Utf8 => text = value | SecretEncoding.Base64 => base64_decode text = Some value end →
  text ≠ "" → (len text ≤ MAX_ENCODED_VALUE_BYTES)%Z → value ≠ "" → (len value ≤ MAX_SECRET_BYTES)%Z →
  deposited_bytes encoding text = Ok value.
Proof.
  intros Ht Hne Hl Hv Hlv. unfold deposited_bytes, eqb. rewrite bool_decide_eq_false_2 by done.
  destruct (Z.ltb_spec MAX_ENCODED_VALUE_BYTES (len text)); [lia|].
  assert (E : match encoding with
    | SecretEncoding.Utf8 => Ok text
    | SecretEncoding.Base64 => ok_or (base64_decode text) (InvalidRequest "value is not valid base64")
    end = Ok value) by (destruct encoding; by rewrite Ht).
  rewrite E. cbn [mbind result_bind]. change MAX_VALUE_BYTES with MAX_SECRET_BYTES.
  destruct (Z.ltb_spec MAX_SECRET_BYTES (len value)); [lia|]. by rewrite bool_decide_eq_false_2.
Qed.
Lemma deposited_back value :
  base64_law → value ≠ "" → (len value ≤ MAX_SECRET_BYTES)%Z →
  deposited_bytes (encode_secret value).2 (encode_secret value).1 = Ok value.
Proof.
  intros Hb Hne Hl. destruct (Hb value) as [Hd He].
  assert (Hpos : (0 < len value)%Z) by (destruct value; [done|unfold len; cbn; lia]).
  change MAX_SECRET_BYTES with 65536%Z in *.
  pose proof (Z.div_le_lower_bound (len value + 2) 3 1 ltac:(lia) ltac:(lia)).
  pose proof (Z.div_le_upper_bound (len value + 2) 3 21846 ltac:(lia) ltac:(lia)).
  destruct (encode_secret_cases value) as [-> | ->]; apply deposited_within; try done.
  - change MAX_ENCODED_VALUE_BYTES with 91477%Z. cbn [fst]. lia.
  - cbn [fst]. intros E. rewrite E in He. change (len "") with 0%Z in He. lia.
  - change MAX_ENCODED_VALUE_BYTES with 91477%Z. cbn [fst]. rewrite He. lia.
Qed.

(** A reply that does not say whether the deposit was made. *)
Definition undecided (rp : option Reply) : Prop :=
  match rp with
  | Some r => rp_complete r = true → is_server_error (rp_status r) = true
  | None => True
  end.

(** What a run of [keychute store] may have sent. *)
Definition deposits (cfg : CliConfig) (args : StoreArgs) (r : CliResult unit) (tr : Trace) : Prop :=
  (tr = [] ∧ r ≠ Ok tt)
  ∨ ∃ token req value buf rp, tr = [Exchanged (store_sent cfg req token) rp]
      ∧ read_from args buf ∧ input_of (so_raw args) value buf
      ∧ StoreSecretRequest_of_value (StoreSecretRequest_to_value req) = Some req
      ∧ dq_name req = so_secret_name args ∧ Tier.as_str <$> dq_max_tier req = Some (so_max_tier args)
      ∧ deposited_bytes (dq_encoding req) (dq_value req) = Ok value
      ∧ (r = Ok tt → ∃ rp', rp = Some rp' ∧ is_success (rp_status rp') = true)
      ∧ (undecided rp → ∃ f m, r = Err f ∧ message f = m +:+ MAYBE_STORED).

Lemma parse_tier_str s t : parse_tier s = Some t → Tier.as_str t = s.
Proof.
  unfold parse_tier, eqb.
  do 4 (case_bool_decide; [subst; by intros [= <-]|]). done.
Qed.
Lemma store_request_fields args tier value :
  dq_name (store_request args tier value) = so_secret_name args
  ∧ dq_max_tier (store_request args tier value) = Some tier
  ∧ dq_encoding (store_request args tier value) = (encode_secret value).2
  ∧ dq_value (store_request args tier value) = (encode_secret value).1.
Proof. unfold store_request. by destruct (encode_secret value). Qed.

Lemma reading_store_success rp st :
  reading_store rp = Ok st → ∃ r, rp = Some r ∧ is_success (rp_status r) = true.
Proof.
  destruct rp as [r|]; [|done]. unfold reading_store. cbn [ok_or mbind result_bind].
  destruct (body_text r) as [text|]; [|done]. cbn [ok_or mbind result_bind].
  destruct (is_success (rp_status r)) eqn:E; [eauto|done].
Qed.
Lemma server_error_status status :
  is_server_error status = true → is_success status = false ∧ (status =? 409)%Z = false.
Proof. unfold is_server_error, is_success. lia. Qed.
Lemma reading_store_undecided rp :
  undecided rp → ∃ f m, reading_store rp = Err f ∧ message f = m +:+ MAYBE_STORED.
Proof.
  unfold reading_store, ambiguous. destruct rp as [r|]; [|by eexists _, _].
  cbn [ok_or mbind result_bind undecided]. intros Hu. destruct (body_text r) as [text|] eqn:Eb; [|by eexists _, _].
  cbn [ok_or mbind result_bind]. destruct (server_error_status (rp_status r)) as [-> ->].
  { apply Hu. revert Eb. unfold body_text. by destruct (rp_complete r). }
  cbn [negb]. rewrite Hu; [by eexists _, _|]. revert Eb. unfold body_text. by destruct (rp_complete r).
Qed.

Lemma does_store_reply rp :
  does (stored ← cli_lift (reading_store rp);
        effect (eprint ("keychute: stored " +:+ sp_name stored)) : Run unit)
    (λ r new, new = [] ∧ (r = Ok tt → ∃ rp', rp = Some rp' ∧ is_success (rp_status rp') = true)
      ∧ (undecided rp → ∃ f m, r = Err f ∧ message f = m +:+ MAYBE_STORED)).
Proof.
  destruct (reading_store rp) as [st|f] eqn:E.
  - change (does (effect (eprint ("keychute: stored " +:+ sp_name st)) : Run unit)
      (λ r new, new = [] ∧ (r = Ok tt → ∃ rp', rp = Some rp' ∧ is_success (rp_status rp') = true)
        ∧ (undecided rp → ∃ f m, r = Err f ∧ message f = m +:+ MAYBE_STORED))).
    eapply does_weaken; [apply silent_eprint|]. intros r new [-> _]. split; [done|]. split.
    + intros _. by eapply reading_store_success.
    + intros Hu. destruct (reading_store_undecided rp Hu) as (f & m & E' & _). by rewrite E in E'.
  - eapply does_weaken; [apply silent_bail|]. intros r new [-> ->]. split; [done|]. split; [done|].
    intros Hu. destruct (reading_store_undecided rp Hu) as (f' & m & E' & Hm). rewrite E in E'.
    injection E' as <-. eauto.
Qed.

Lemma does_store cfg args :
  base64_law → does (run_store cfg args : Run unit) (deposits cfg args).
Proof.
  intros Hlaw. unfold run_store. eapply silent_then; [apply silent_of| |by left].
  intros tier Ht. eapply silent_then; [apply does_read_input| |by left].
  intros value Hin. destruct (Hin value eq_refl) as (buf & Hbuf & Hval & Hne & Hl).
  eapply silent_then; [apply bearer_silent| |by left]. intros token _.
  apply does_exchange. intros rp.
  eapply does_weaken; [apply (does_store_reply rp)|]. intros r new (-> & Hok & Hun). right.
  destruct (store_request_fields args tier value) as (Hn & Hti & He & Hv).
  exists token, (store_request args tier value), value, buf, rp.
  rewrite Hn, Hti, He, Hv. split_and!; try done; [apply store_request_roundtrip| |by apply deposited_back].
  cbn. f_equal. apply parse_tier_str. revert Ht. by destruct (parse_tier _) as [t|]; cbn; [intros [= ->]|].
Qed.

End Deposits.

(** A scripted deposit, over a tagged text of the length base64 has. *)
Module StoreRun.
#[export] Existing Instance Script.platform.
#[export] Existing Instance Script.no_files.
#[export] Existing Instance uuid_text_example.
Fixpoint encode (s : string) : string :=
  match s with
  | "" => ""
  | String a "" => String "1" (String a "==")
  | String a (String b "") => String "2" (String a (String b "="))
  | String a (String b (String c r)) => String "3" (String a (String b (String c (encode r))))
  end.
Fixpoint decode (s : string) : option string :=
  match s with
  | "" => Some ""
  | String t (String a (String b (String c r))) =>
      if eqb t "1"%char then if eqb r "" then Some (String a "") else None
      else if eqb t "2"%char then if eqb r "" then Some (String a (String b "")) else None
      else (λ x, String a (String b (String c x))) <$> decode r
  | _ => None
  end.
#[export] Instance primitives : Primitives := {|
  aead_encrypt := CryptoExample.encrypt;
  aead_decrypt := CryptoExample.decrypt;
  hmac_sha256 := CryptoExample.tag;
  base64_decode := decode;
  aead_nonempty := CryptoExample.encrypt_nonempty;
  aead_decrypts := CryptoExample.decrypts;
  aead_authentic := CryptoExample.authentic
|}.
#[export] Instance wire : WireLib := {|
  hex_decode := λ _, None; base64_encode := encode; token_review := λ _ _, Ok None
|}.
#[export] Instance text : ReplyText := {|
  json_from_str := λ t, if eqb t "stored"
    then Some (obj [("secret_id", Str "5"); ("name", Str "pat"); ("version", Number (NInt 1))]) else None;
  status_display := Z_to_string
|}.
Definition args : StoreArgs := mkStoreArgs "pat" None "a token" "brokered" "bearer" None false.
Definition start : Script.t := Script.start [Script.reply 201 "stored"].
Definition run : CliResult unit * (Script.t * Trace) := run_store Script.cfg args (start, []).
Definition trace : Trace := Eval vm_compute in run.2.2.
Definition ended : Script.t := Eval vm_compute in run.2.1.
End StoreRun.

Lemma StoreRun_base64_law :
  @base64_law StoreRun.primitives StoreRun.wire.
Proof.
  unfold base64_law. fix IH 1. intros [|a [|b [|c r]]]; [by split..|]. destruct (IH r) as [Hd Hl].
  cbn in Hd, Hl. cbn. split; [by rewrite Hd|]. unfold len in *. cbn [String.length].
  rewrite !Nat2Z.inj_succ, Hl.
  replace (Z.succ (Z.succ (Z.succ (Z.of_nat (String.length r)))) + 2)%Z
    with (Z.of_nat (String.length r) + 2 + 1 * 3)%Z by lia.
  rewrite Z.div_add by lia. lia.
Qed.

Import StoreRun.
