(* ===== verification/ApiRoutes.v ===== *)
(** [server/src/api/mod.rs]: the routes of the client API, what answers a path or
    a method no handler takes, and the calls of the command line that reach
    them. *)

From S2P Require Import Prelude RustStr RustText Types Json Examples Crypto SigV4 Http Csrf Api ApiRequests.
From S2P Require Import ApiGrants Proxy Pipeline Cli CliTrace CliRequest CurlCall CurlKey Curl CurlGrant.
From S2P Require Import CliErrors CliStore.
Open Scope string_scope.

(** ** Readiness *)
Inductive Probe := ProbeAnswered | ProbeFailed | ProbeTimedOut.
(** Status, [cache-control] and body. *)
Definition readyz (probe : Probe) : Z * string * string :=
  match probe with
  | ProbeAnswered => (200, "no-store", "ready" +:+ String LF "")
  | ProbeFailed | ProbeTimedOut => (503, "no-store", "database unavailable" +:+ String LF "")
  end%Z.

(** ** What a handler takes from the request before it runs *)
(** [Path<String>]: the captured segment, percent-decoded, or a rejection. *)
Definition path_param `{UuidText} (decoded : option string) : result ApiFailure Uuid :=
  raw ← ok_or decoded NotFound; path_id raw.
(** [Bytes]: the body, or the status of the extractor's rejection. *)
Definition body_bytes (body : result Z string) : result ApiFailure string :=
  map_err (λ status, if (status =? 413)%Z then BodyTooLarge
                     else InvalidRequest "request body could not be read") body.

(** ** The router *)
Inductive ApiRoute :=
| RHealthz | RReadyz
| RCreate | RStatus (raw : string) | RWait (raw : string)
| RStore
| RInfo (raw : string) | RRead (raw : string)
| RProxyRoot (raw : string) | RProxyPath (raw : string)
| RNoRoute.
(** A segment of a pattern: fixed, [{id}], or a final [{*rest}]. *)
Inductive Pat := PLit (s : string) | PId | PRest.
(** [get] also answers HEAD. *)
Inductive Takes := TGet | TPost | TAny.
Definition takes (t : Takes) (method : string) : bool :=
  match t with
  | TGet => eqb method "GET" || eqb method "HEAD"
  | TPost => eqb method "POST"
  | TAny => true
  end.

Definition api_routes : list (list Pat * Takes * (string → ApiRoute)) :=
  [([PLit "healthz"], TGet, λ _, RHealthz);
   ([PLit "readyz"], TGet, λ _, RReadyz);
   ([PLit "v1"; PLit "access-requests"], TPost, λ _, RCreate);
   ([PLit "v1"; PLit "access-requests"; PId], TGet, RStatus);
   ([PLit "v1"; PLit "access-requests"; PId; PLit "wait"], TGet, RWait);
   ([PLit "v1"; PLit "secrets"], TPost, λ _, RStore);
   ([PLit "v1"; PLit "grants"; PId], TGet, RInfo);
   ([PLit "v1"; PLit "grants"; PId; PLit "read"], TPost, RRead);
   ([PLit "v1"; PLit "grants"; PId; PLit "proxy"], TAny, RProxyRoot);
   ([PLit "v1"; PLit "grants"; PId; PLit "proxy"; PLit ""], TAny, RProxyRoot);
   ([PLit "v1"; PLit "grants"; PId; PLit "proxy"; PRest], TAny, RProxyPath);
   ([PLit "v1"], TAny, λ _, RNoRoute);
   ([PLit "v1"; PLit ""], TAny, λ _, RNoRoute);
   ([PLit "v1"; PRest], TAny, λ _, RNoRoute)].

(** The captured id; [{id}] and [{*rest}] capture no empty text. *)
Fixpoint match_pats (pats : list Pat) (segs : list string) (id : string) : option string :=
  match pats, segs with
  | [], [] => Some id
  | PLit l :: pats, s :: segs => if eqb l s then match_pats pats segs id else None
  | PId :: pats, s :: segs => if eqb s "" then None else match_pats pats segs s
  | [PRest], _ :: _ => if eqb (join "/" segs) "" then None else Some id
  | _, _ => None
  end.
Fixpoint find_route (segs : list string) (l : list (list Pat * Takes * (string → ApiRoute)))
  : option (Takes * ApiRoute) :=
  match l with
  | [] => None
  | (pats, t, r) :: l =>
      match match_pats pats segs "" with
      | Some id => Some (t, r id)
      | None => find_route segs l
      end
  end.

(** What happens to a request: a handler, or an answer of the router; [None] is
    a path of neither, left to the operator's pages. *)
Inductive Dispatch := Handled (r : ApiRoute) | Refused (e : ApiFailure).
Definition dispatch (method path : string) : option Dispatch :=
  match split "/" path with
  | "" :: segs =>
      '(t, r) ← find_route segs api_routes;
      Some (if negb (takes t method) then Refused MethodNotAllowed
            else match r with RNoRoute => Refused NotFound | _ => Handled r end)
  | _ => None
  end.

(** ** Facts *)
Lemma find_route_inv segs l t r :
  find_route segs l = Some (t, r) →
  ∃ pats f id, (pats, t, f) ∈ l ∧ match_pats pats segs "" = Some id ∧ r = f id.
Proof.
  induction l as [|[[pats t'] f] l IH]; [done|]. cbn. destruct (match_pats _ _ _) as [id|] eqn:E.
  - intros [= -> <-]. exists pats, f, id. split; [by left|done].
  - intros (pats' & f' & id & Hin & HH)%IH. exists pats', f', id. split; [by right|done].
Qed.
Lemma find_route_found segs l pats t f id :
  (pats, t, f) ∈ l → match_pats pats segs "" = Some id → ∃ x, find_route segs l = Some x.
Proof.
  intros Hin Hm. induction l as [|[[p' t'] f'] l IH]; [by apply elem_of_nil in Hin|].
  cbn. destruct (match_pats p' segs "") eqn:E; [by eexists|].
  apply elem_of_cons in Hin as [[= -> -> ->]|Hin]; [congruence|by apply IH].
Qed.

Definition in_v1 (path : string) : Prop := path = "/v1" ∨ starts_with "/v1/" path = true.
Lemma v1_split path : in_v1 path → ∃ rest, split "/" path = "" :: "v1" :: rest.
Proof.
  intros [->|(s & ->)%starts_with_spec]; [by exists []|].
  change ("/v1/" +:+ s) with ("/v1" +:+ String "/" s). rewrite split_app. by exists (split "/" s).
Qed.
Lemma nonempty_join s rest : eqb (join "/" (s :: rest)) "" = true ↔ s = "" ∧ rest = [].
Proof.
  split; [|by intros [-> ->]]. intros E. kbool. destruct rest as [|s' rest]; cbn [join] in E; [done|].
  by destruct s.
Qed.
Lemma v1_matched rest : ∃ t r, find_route ("v1" :: rest) api_routes = Some (t, r).
Proof.
  assert (Hin : ∀ n e, api_routes !! n = Some e → e ∈ api_routes)
    by (intros n e; apply list_elem_of_lookup_2).
  assert (∃ x, find_route ("v1" :: rest) api_routes = Some x) as [[t r] E]; [|by exists t, r].
  destruct rest as [|s rest].
  - by eapply (find_route_found _ _ _ _ _ "" (Hin 11 _ eq_refl)).
  - destruct (eqb (join "/" (s :: rest)) "") eqn:E.
    + apply nonempty_join in E as [-> ->].
      by eapply (find_route_found _ _ _ _ _ "" (Hin 12 _ eq_refl)).
    + eapply (find_route_found _ _ _ _ _ "" (Hin 13 _ eq_refl)).
      cbn [match_pats]. rewrite eqb_refl. by rewrite E.
Qed.

(** ** The proxy's paths *)
Definition proxy_route (r : ApiRoute) : option string :=
  match r with RProxyRoot raw | RProxyPath raw => Some raw | _ => None end.

Definition proxy_pats (tail : list Pat) : list Pat :=
  PLit "v1" :: PLit "grants" :: PId :: PLit "proxy" :: tail.
Lemma match_proxy tail segs id x :
  match_pats (proxy_pats tail) segs x = Some id →
  ∃ raw rest, segs = "v1" :: "grants" :: raw :: "proxy" :: rest ∧ raw ≠ ""
    ∧ match_pats tail rest raw = Some id.
Proof.
  unfold proxy_pats. destruct segs as [|s1 [|s2 [|s3 segs]]]; cbn [match_pats]; [done| | |].
  1,2: by repeat case_match.
  destruct (eqb "v1" s1) eqn:E1; [|done]. destruct (eqb "grants" s2) eqn:E2; [|done].
  destruct (eqb s3 "") eqn:E3; [done|]. destruct segs as [|s4 segs]; [done|].
  destruct (eqb "proxy" s4) eqn:E4; [|done]. intros Hm. kbool. subst. by exists s3, segs.
Qed.
Definition rest_text (rest : list string) : string :=
  match rest with [] => "" | _ => String "/" (join "/" rest) end.
Lemma proxy_text raw rest :
  join "/" ("" :: "v1" :: "grants" :: raw :: "proxy" :: rest)
  = "/v1/grants/" +:+ raw +:+ "/proxy" +:+ rest_text rest.
Proof. by destruct rest. Qed.

Lemma proxy_dispatched method path r raw :
  dispatch method path = Some (Handled r) → proxy_route r = Some raw →
  ∃ rest, path = "/v1/grants/" +:+ raw +:+ "/proxy" +:+ rest
    ∧ raw ≠ "" ∧ contains_char "/" raw = false ∧ (rest = "" ∨ starts_with "/" rest = true).
Proof.
  unfold dispatch. destruct (split "/" path) as [|[|? ?] segs] eqn:Es; [done| |done].
  intros HH Hr. apply bind_Some in HH as ([t r'] & Hf & HH).
  assert (r' = r) as -> by (destruct (negb _); [done|]; by destruct r'; try done; injection HH as <-).
  apply find_route_inv in Hf as (pats & f & id & Hin & Hm & ->).
  assert (∃ tail, pats = proxy_pats tail ∧ (∀ rest x y, match_pats tail rest x = Some y → y = x)
            ∧ raw = id) as (tail & -> & Htail & ->).
  { unfold api_routes in Hin. rewrite !elem_of_cons, elem_of_nil in Hin.
    repeat (destruct Hin as [[= -> -> ->]|Hin]; [try discriminate Hr|]); [..|done];
      injection Hr as <-; [exists []|exists [PLit ""]|exists [PRest]]; (split; [done|split; [|done]]);
      intros [|s rest] x y; cbn; repeat case_match; try done; by intros [= <-]. }
  apply match_proxy in Hm as (raw & rest & -> & Hne & Hm). apply Htail in Hm as ->.
  exists (rest_text rest). rewrite <-proxy_text. split; [by rewrite <-Es, join_split|].
  split; [done|]. split; [apply (split_no_sep "/" path); rewrite Es; set_solver|].
  destruct rest; [by left|]. right. apply starts_with_spec. by eexists.
Qed.

Lemma dispatch_segments method segs :
  segs ≠ [] → (∀ x, x ∈ segs → contains_char "/" x = false) →
  dispatch method (join "/" ("" :: segs))
  = '(t, r) ← find_route segs api_routes;
    Some (if negb (takes t method) then Refused MethodNotAllowed
          else match r with RNoRoute => Refused NotFound | _ => Handled r end).
Proof.
  intros Hne Hs. unfold dispatch. rewrite split_path; [done| |done].
  intros x [->|Hx]%elem_of_cons; [done|by apply Hs].
Qed.

Lemma proxy_reached method raw rest :
  raw ≠ "" → contains_char "/" raw = false → (rest = "" ∨ starts_with "/" rest = true) →
  ∃ r, dispatch method ("/v1/grants/" +:+ raw +:+ "/proxy" +:+ rest) = Some (Handled r)
    ∧ proxy_route r = Some raw.
Proof.
  intros Hne Hc Hrest.
  assert (∃ l, rest = rest_text l ∧ ∀ x, x ∈ l → contains_char "/" x = false) as (l & -> & Hl).
  { destruct Hrest as [->|(s & ->)%starts_with_spec]; [by exists []; split; [|intros x ?%elem_of_nil]|].
    exists (split "/" s). split.
    - unfold rest_text. destruct (split "/" s) eqn:E; [by apply split_not_nil in E|].
      by rewrite <-E, join_split.
    - intros x. apply split_no_sep. }
  rewrite <-proxy_text, dispatch_segments; [|done|].
  2:{ intros x. rewrite !elem_of_cons. intros [->|[->|[->|[->|Hx]]]]; [done..|by apply Hl]. }
  assert (Hb : eqb raw "" = false) by by apply bool_decide_eq_false_2.
  destruct l as [|s l].
  - exists (RProxyRoot raw). cbn. by rewrite Hb.
  - destruct (eqb (join "/" (s :: l)) "") eqn:E.
    + apply nonempty_join in E as [-> ->]. exists (RProxyRoot raw). cbn. by rewrite Hb.
    + exists (RProxyPath raw). split; [|done]. cbn -[join]. rewrite Hb, E.
      destruct (eqb "" s) eqn:Es; [|done]. destruct l; [|done]. kbool. by subst.
Qed.

(** What the proxy reads off the raw path. *)
Lemma proxy_path_parsed `{UuidText} raw rest :
  contains_char "/" raw = false →
  let path := "/v1/grants/" +:+ raw +:+ "/proxy" +:+ rest in
  grant_id_from_path path = ok_or (uuid_parse raw) NotFound
  ∧ (rest = "" ∨ starts_with "/" rest = true →
       proxy_suffix path = Some (if eqb rest "" then "/" else rest)).
Proof.
  intros Hc path. unfold path, grant_id_from_path, proxy_suffix.
  pose proof (strip_prefix_app "/v1/grants/" (raw +:+ "/proxy" +:+ rest)) as E1.
  rewrite E1. cbn [ok_or mbind option_bind result_bind].
  change (raw +:+ "/proxy" +:+ rest) with (raw +:+ String "/" ("proxy" +:+ rest)).
  rewrite split_once_first by done. cbn [ok_or mbind option_bind result_bind].
  rewrite (strip_prefix_app "proxy" rest). split; [done|].
  cbn [mbind option_bind]. by intros [->|(s & ->)%starts_with_spec].
Qed.

Lemma dispatch_split method path t r :
  (∃ segs, split "/" path = "" :: segs ∧ find_route segs api_routes = Some (t, r)) →
  dispatch method path = Some (if negb (takes t method) then Refused MethodNotAllowed
                               else match r with RNoRoute => Refused NotFound | _ => Handled r end).
Proof. intros (segs & Es & Hf). unfold dispatch. by rewrite Es, Hf. Qed.

(** ** The API surface *)
Section Surface.
Context `{UuidText, JsonBytes}.

(** The API surface.  Every path under [/v1], whatever the method, is answered
    by a handler of the API or by a refusal of the router, not found or method
    not allowed, that carries the error marker and the code; the router answers
    nothing outside but its two probes.  The proxy's handlers get exactly the
    paths [/v1/grants/{id}/proxy] and those below it, with any method; on those
    its own parsing of the raw path agrees with the router: the id is the
    routed segment, and the rest of the path, taken verbatim and never empty,
    is what is forwarded, so that "route prefix mismatch" is never answered. *)
Theorem v1_surface method path :
  (in_v1 path → ∃ d, dispatch method path = Some d
     ∧ ∀ e, d = Refused e → (e = NotFound ∨ e = MethodNotAllowed)
         ∧ rp_status (into_response e) = (status_code_message e).1.1
         ∧ (Curl.KEYCHUTE_ERROR_HEADER, (status_code_message e).1.2) ∈ rp_headers (into_response e))
  ∧ (∀ d, dispatch method path = Some d → in_v1 path ∨ path = "/healthz" ∨ path = "/readyz")
  ∧ (∀ raw, (∃ r, dispatch method path = Some (Handled r) ∧ proxy_route r = Some raw) ↔
       raw ≠ "" ∧ contains_char "/" raw = false
       ∧ ∃ rest, path = "/v1/grants/" +:+ raw +:+ "/proxy" +:+ rest
           ∧ (rest = "" ∨ starts_with "/" rest = true)
           ∧ grant_id_from_path path = ok_or (uuid_parse raw) NotFound
           ∧ proxy_suffix path = Some (if eqb rest "" then "/" else rest)).
Proof.
  split; [|split].
  - intros Hv. destruct (v1_split _ Hv) as (rest & Es). destruct (v1_matched rest) as (t & r & Hf).
    rewrite (dispatch_split _ _ t r) by eauto. eexists. split; [done|]. intros e.
    destruct (negb _); [intros [= <-]|destruct r; try done; intros [= <-]];
      (split; [by eauto|]); (split; [done|]); right; left.
  - intros d. unfold dispatch. destruct (split "/" path) as [|[|? ?] segs] eqn:Es; [done| |done].
    intros ([t r] & Hf & _)%bind_Some. apply find_route_inv in Hf as (pats & f & id & Hin & Hm & _).
    assert (Hp : path = join "/" ("" :: segs)) by by rewrite <-Es, join_split.
    unfold api_routes in Hin. rewrite !elem_of_cons, elem_of_nil in Hin.
    destruct segs as [|s segs]; cbn [match_pats] in Hm.
    { repeat (destruct Hin as [[= -> ? ?]|Hin]; [done|]); done. }
    assert (Hs : s = "healthz" ∧ segs = [] ∨ s = "readyz" ∧ segs = [] ∨ s = "v1").
    { repeat (destruct Hin as [[= -> ? ?]|Hin];
        [cbn [match_pats] in Hm; case_match; [|done]; kbool; by destruct segs; auto|]); done. }
    destruct Hs as [[-> ->]|[[-> ->]| ->]]; [by right; left|by right; right|left].
    rewrite Hp. destruct segs as [|s' segs]; [by left|right]. apply starts_with_spec. by eexists.
  - intros raw. split.
    + intros (r & Hd & Hr). destruct (proxy_dispatched _ _ _ _ Hd Hr) as (rest & -> & Hne & Hc & Hrest).
      destruct (proxy_path_parsed raw rest Hc) as [Hid Hs].
      split; [done|]. split; [done|]. exists rest. split; [done|]. split; [done|]. split; [done|].
      by apply Hs.
    + intros (Hne & Hc & rest & -> & Hrest & _). by apply proxy_reached.
Qed.
End Surface.

(** ** The calls of the command line *)
(** A call to the server at [base] runs the handler [r]; what follows the path is
    the query. *)
Definition reaches (base : string) (sn : Sent) (path : string) (r : ApiRoute) : Prop :=
  (∃ query, sn_url sn = base +:+ path +:+ query ∧ (query = "" ∨ starts_with "?" query = true))
  ∧ contains_char "?" path = false ∧ dispatch (sn_method sn) path = Some (Handled r).

Section Calls.
Context `{UuidText}.

Lemma id_unasked id : contains_char "?" (uuid_display id) = false.
Proof. by apply uuid_display_excludes. Qed.
Lemma dispatch_at method segs t r :
  segs ≠ [] → Forall (λ x, contains_char "/" x = false) segs →
  find_route segs api_routes = Some (t, r) → takes t method = true → r ≠ RNoRoute →
  dispatch method (join "/" ("" :: segs)) = Some (Handled r).
Proof.
  intros Hne Hs Hf Ht Hr. rewrite dispatch_segments, Hf; [|done|by apply Forall_forall].
  cbn. rewrite Ht. by destruct r.
Qed.
(** The segments of a call: fixed texts and the id's. *)
Ltac dispatched id how :=
  apply dispatch_at with (t := how);
  [done|repeat first [apply Forall_nil_2 | apply Forall_cons_2]; first [done|apply (uuid_segment id)]
  |cbn -[join]; rewrite ?(proj2 (uuid_segment id)); reflexivity|done|done].
Ltac unasked id :=
  repeat (rewrite contains_char_app); rewrite ?(id_unasked id); done.

End Calls.

(** ** Witnesses *)
Module RoutesExample.
#[export] Existing Instance uuid_text_example.
Definition cfg : CliConfig := mkCliConfig "https://kc" "https://kc" (Some "token") None None.
End RoutesExample.
Import RoutesExample.

