(* ===== verification/CliMain.v ===== *)
(** [cli/src/main.rs]: the process, from its environment to its exit status. *)

From S2P Require Import Prelude RustStr Types Paths Json Crypto Examples SigV4 Http Csrf Api ApiRequests ApiGrants ApiSecrets Pipeline.
From S2P Require Import Cli CliTrace CliRequest CurlCall Curl CliStore CurlKey CurlTrace.
Open Scope string_scope.

(** [Cmd], as [clap] parses it. *)
Module Cmd.
Inductive t :=
| Curl (args : CurlArgs)
| Request (args : RequestArgs)
| Store (args : StoreArgs)
| Status (request_id : string).
End Cmd.

Section Main.
Context {S : Type} `{!Platform S, !Files S}.
Context `{UuidText, UrlLib, !OriginLib, !CallLib, HttpLib, SigText, JsonBytes, ReplyText, ClientLib}.
Context `{Primitives, WireLib}.

(** [None] is a wait still going on when the rounds given are over. *)
Definition run_command (cfg : CliConfig) (cmd : Cmd.t) (gv : Given) : Cli S (option unit) :=
  match cmd with
  | Cmd.Curl args => run_curl cfg args gv
  | Cmd.Request args => run_request cfg args (gv_fresh gv) (gv_captured gv) (gv_extra gv) (gv_rounds gv)
  | Cmd.Store args => x ← run_store cfg args; mret (Some x)
  | Cmd.Status id => x ← run_status cfg id; mret (Some x)
  end.
Definition run (env : string → option string) (cmd : Cmd.t) (gv : Given) : Cli S (option unit) :=
  cfg ← cli_lift (from_env env);
  _ ← build_http_client cfg;
  run_command cfg cmd gv.
(** The exit status of the process, and what it leaves behind. *)
Definition main (env : string → option string) (cmd : Cmd.t) (gv : Given) (s : S) : option Z * S :=
  match run env cmd gv s with
  | (Ok (Some tt), s) => (Some 0%Z, s)
  | (Ok None, s) => (None, s)
  | (Err f, s) => (Some (code f), eprint ("keychute: " +:+ message f) s)
  end.
End Main.

(** ** Exit codes *)
Definition documented (c : Z) : Prop := (EXIT_OTHER ≤ c ≤ EXIT_PAYLOAD_LOST)%Z.
(** Every failure has one of the documented codes, or the process panicked, which
    it only does when [late]. *)
Definition coded {A} (late : Prop) (r : CliResult A) : Prop :=
  ∀ f, r = Err f → documented (code f) ∨ (code f = EXIT_PANIC ∧ late).
Definition codes {S A} (late : Prop) (m : Cli S A) : Prop := ∀ s, coded late (m s).1.
Create HintDb codes.

Section Rules.
Context (late : Prop).
Lemma coded_Ok {A} (a : A) : coded late (Ok a).
Proof. by intros f. Qed.
Lemma coded_Err {A} c msg : documented c → coded late (Err (failure c msg) : CliResult A).
Proof. intros Hc f [= <-]. by left. Qed.
Lemma coded_bind {A B} (r : CliResult A) (f : A → CliResult B) :
  coded late r → (∀ a, coded late (f a)) → coded late (r ≫= f).
Proof. intros Hr Hf. destruct r as [a|e]; [apply Hf|]. intros e' [= <-]. by apply (Hr e). Qed.
Lemma coded_ok_or {A} (o : option A) c msg : documented c → coded late (ok_or o (failure c msg)).
Proof. intros Hc. destruct o; [apply coded_Ok|by apply coded_Err]. Qed.
Lemma coded_map_err {A} (r : result string A) c : documented c → coded late (map_err (failure c) r).
Proof. intros Hc. destruct r; [apply coded_Ok|by apply coded_Err]. Qed.

Context {S : Type}.
Lemma codes_ret {A} (a : A) : codes late (mret a : Cli S A).
Proof. intros s. apply coded_Ok. Qed.
Lemma codes_lift {A} (r : CliResult A) : coded late r → codes late (cli_lift r : Cli S A).
Proof. by intros Hr s. Qed.
Lemma codes_bail {A} c msg : documented c → codes late (bail (failure c msg) : Cli S A).
Proof. intros Hc s. by apply coded_Err. Qed.
Lemma codes_op {A} (f : S → A * S) : codes late (run_op f).
Proof. intros s. apply coded_Ok. Qed.
Lemma codes_effect (f : S → S) : codes late (effect f).
Proof. intros s. apply coded_Ok. Qed.
Lemma codes_bind {A B} (m : Cli S A) (f : A → Cli S B) :
  codes late m → (∀ a, codes late (f a)) → codes late (m ≫= f).
Proof.
  intros Hm Hf s. unfold mbind, Cli_bind. specialize (Hm s).
  destruct (m s) as [[a|e] s1]; [apply Hf|]. intros e' [= <-]. by apply (Hm e).
Qed.
End Rules.
#[export] Hint Resolve coded_Ok coded_Err coded_ok_or coded_map_err coded_bind : codes.
#[export] Hint Resolve codes_ret codes_lift codes_bail codes_op codes_effect codes_bind : codes.
#[export] Hint Extern 0 (documented _) => (unfold documented, EXIT_OTHER, EXIT_PAYLOAD_LOST, EXIT_CONFIG, EXIT_DENIED, EXIT_TIMEOUT; lia) : codes.
(** By the shape of the definition, with what is known of its parts. *)
Ltac by_code :=
  repeat first
    [ solve [auto with codes nocore] | progress intros | progress cbv zeta
    | apply codes_bind | apply codes_lift | apply coded_bind | case_match ].

Section Codes.
Context (late : Prop).
Context {S : Type} `{!Platform S, !Files S}.
Context `{UuidText, UrlLib, !OriginLib, !CallLib, HttpLib, SigText, JsonBytes, ReplyText, ClientLib}.
Context `{Primitives, WireLib}.

Lemma documented_refusal status : documented (refusal_code status).
Proof. unfold refusal_code. repeat case_match; auto with codes. Qed.
Lemma coded_gone {A} body : coded late (Err (classify_gone body) : CliResult A).
Proof. unfold classify_gone. repeat case_match; apply coded_Err; auto with codes. Qed.
Hint Resolve documented_refusal coded_gone : codes.

(** An answer that settles the exchange settles it with a documented code. *)
Definition settled_coded {A} (r : result string (CliResult A)) : Prop := ∀ x, r = Ok x → coded late x.
Lemma settled_create rp : settled_coded (reading_create rp).
Proof.
  intros x. unfold reading_create. destruct rp as [r|]; [|done]. cbn [ok_or mbind result_bind].
  destruct (body_text r); [|done]. cbn [ok_or mbind result_bind].
  repeat case_match; try done; intros [= <-]; auto with codes.
Qed.
Lemma settled_read rp : settled_coded (reading_read rp).
Proof.
  intros x. unfold reading_read. destruct rp as [r|]; [|done]. cbn [ok_or mbind result_bind].
  destruct (body_text r); [|done]. cbn [ok_or mbind result_bind].
  repeat case_match; try done; intros [= <-]; auto with codes.
Qed.
Lemma coded_wait rp f : reading_wait rp = Poll.Fatal f → coded late (Err f : CliResult unit).
Proof.
  unfold reading_wait. repeat case_match; try done. intros [= <-]. auto with codes.
Qed.

Lemma codes_bearer cfg : codes late (bearer cfg : Cli S _).
Proof. unfold bearer. by_code. Qed.
Hint Resolve codes_bearer : codes.
Lemma codes_attempt {A} what cfg request (reading : option Reply → result string (CliResult A)) n first msg :
  (∀ rp, settled_coded (reading rp)) →
  codes late (retry what (attempt cfg request reading) n first msg : Cli S A).
Proof.
  intros Hr. revert first msg. induction n as [|n IH]; intros first msg; cbn [retry]; [by_code|].
  apply codes_bind; [by_code|]. intros _ s. unfold mbind at 1, Cli_bind, attempt.
  pose proof (codes_bearer cfg s) as Hb. destruct (bearer cfg s) as [[token|f] s1]; cbn in Hb |- *.
  - destruct (send (request token) s1) as [rp s2]. cbn. destruct (reading rp) as [x|m] eqn:E.
    + apply (codes_lift late x (Hr _ _ E)).
    + apply codes_bind; [by_code|]. intros _. apply IH.
  - intros f' [= <-]. by apply Hb.
Qed.
Lemma codes_create cfg body : codes late (create_access_request cfg body : Cli S _).
Proof. apply codes_attempt, settled_create. Qed.
Lemma codes_read_grant cfg id key : codes late (read_grant cfg id key : Cli S _).
Proof. apply codes_attempt, settled_read. Qed.
Lemma codes_wait_loop cfg id deadline rounds errors : codes late (wait_loop cfg id deadline rounds errors : Cli S _).
Proof.
  revert errors. induction rounds as [|rounds IH]; intros errors; cbn [wait_loop]; [by_code|].
  apply codes_bind; [by_code|]. intros t. cbv zeta. case_match; [by_code|].
  apply codes_bind; [by_code|]. intros token. apply codes_bind; [by_code|]. intros rp.
  destruct (reading_wait rp) as [st| |msg|f] eqn:E; [by_code|apply IH| |].
  - case_match; [by_code|]. apply codes_bind; [by_code|]. intros _. apply codes_bind; [by_code|].
    intros _. apply IH.
  - intros s f' [= <-]. by apply (coded_wait rp f E).
Qed.
(** Some reading of the clock plus so many seconds is past what an [Instant] holds. *)
Definition past_clock (timeout : Z) : Prop :=
  ∃ s : S, (2 ^ 63 - 1 < (now s).1 / second + timeout)%Z.
Lemma codes_resolve cfg body timeout rounds :
  (past_clock timeout → late) → codes late (resolve_request cfg body timeout rounds : Cli S _).
Proof.
  intros Hlate. unfold resolve_request.
  assert (Hgo : ∀ deadline, codes late (st ← create_access_request cfg body;
    if eqb (sr_state st) RequestState.Pending then
      _ ← effect (eprint ("Waiting for approval: " +:+ cli_external_url cfg +:+ "/ui/requests/"
                          +:+ uuid_display (sr_request_id st)));
      wait_for_resolution cfg (sr_request_id st) deadline rounds
    else mret (Some st) : Cli S (option StatusResponse))).
  { intros deadline. apply codes_bind; [apply codes_create|]. intros st.
    case_match; [|by_code]. apply codes_bind; [by_code|]. intros _. apply codes_wait_loop. }
  intros s. unfold mbind at 1, Cli_bind. unfold run_op at 1.
  apply codes_bind; [|exact Hgo]. apply codes_lift. unfold add_instant.
  case_match eqn:E; [|by_code]. intros f [= <-]. right. split; [done|]. apply Hlate.
  exists s. by apply Z.ltb_lt in E.
Qed.
Hint Resolve codes_create codes_read_grant codes_resolve : codes.

Lemma codes_write_out bytes : codes late (write_out bytes : Cli S _).
Proof. unfold write_out. by_code. Qed.
Hint Resolve codes_write_out : codes.
Lemma codes_report name st : codes late (report_then_grant name st : Cli S _).
Proof. unfold report_then_grant, report_resolution, grant_of_resolution. by_code. Qed.
Hint Resolve codes_report : codes.
Lemma codes_request cfg args fresh captured extra rounds :
  (past_clock (ra_timeout args) → late) → codes late (run_request cfg args fresh captured extra rounds : Cli S _).
Proof.
  intros Hl.
  unfold run_request, request_body, write_secret, released_bytes. by_code.
Qed.
Lemma codes_status cfg id : codes late (run_status cfg id : Cli S _).
Proof. unfold run_status. by_code. Qed.
Lemma codes_store cfg args : codes late (run_store cfg args : Cli S _).
Proof.
  unfold run_store, read_secret_input, open_secret, read_secret_bounded, normalize_secret, reading_store.
  by_code.
Qed.
Hint Resolve codes_request codes_status codes_store : codes.

Lemma coded_constraints {A} target method extra prefixes ttl uses (f : _ → CliResult A) :
  (∀ k, coded late (f k)) →
  coded late (map_err (failure EXIT_CONFIG) (constraints_for target method extra prefixes ttl uses) ≫= f).
Proof. intros Hf. apply coded_bind; auto with codes. Qed.
Lemma coded_options args target method : coded late (validate_grant_options args target method).
Proof. unfold validate_grant_options. by_code. Qed.
Lemma coded_headers has_body lines : coded late (parse_headers has_body lines).
Proof. induction lines as [|l lines IH]; cbn [parse_headers]; by_code. Qed.
Lemma coded_covers info local target method : coded late (grant_covers info local target method).
Proof. unfold grant_covers. by_code. Qed.
Lemma coded_context captured extra target method : coded late (build_request_context captured extra target method).
Proof. unfold build_request_context. by_code. Qed.
Lemma coded_grant_request args fresh target method name structured headers body suppress :
  coded late (grant_request args fresh target method name structured headers body suppress).
Proof. unfold grant_request. by_code. Qed.
Hint Resolve coded_options coded_headers coded_covers coded_context coded_grant_request : codes.

Lemma codes_prepare cfg args gv : codes late (prepare cfg args gv : Cli S _).
Proof.
  unfold prepare, credential_selector, refuse_output_over_token_file, call_method, check_grant_covers,
    fetch_grant, reading_grant.
  by_code.
Qed.
Lemma codes_body args limit sources : codes late (read_body_with args limit sources : Cli S _).
Proof.
  unfold read_body_with. case_match; [|by_code]. destruct p as [[pieces reads_at] strip].
  apply codes_bind; [|by_code]. generalize (zip pieces sources) as l, true as first, "" as out.
  induction l as [|[piece source] l IH]; intros first out; cbn [read_pieces]; [by_code|].
  cbv zeta. apply codes_bind; [unfold piece_bytes, read_bounded; by_code|]. intros b. apply IH.
Qed.
Lemma codes_sources args : codes late (open_body_sources args : Cli S _).
Proof.
  unfold open_body_sources. destruct (body_pieces args) as [[[pieces reads_at] strip]|]; [|by_code].
  induction pieces as [|p pieces IH]; cbn [open_sources]; [by_code|].
  apply codes_bind; [unfold open_source; by_code|]. by_code.
Qed.
Lemma codes_sink output truncated bytes : codes late (sink_write output truncated bytes : Cli S _).
Proof. unfold sink_write, empty_once, sink_failed. by_code. Qed.
Lemma codes_chunks output truncated chunks : codes late (write_chunks output truncated chunks : Cli S _).
Proof.
  revert truncated. induction chunks as [|c l IH]; intros truncated; cbn [write_chunks]; [by_code|].
  apply codes_bind; [apply codes_sink|]. intros b. apply IH.
Qed.
Lemma codes_response args output r : codes late (write_response args output r : Cli S _).
Proof.
  unfold write_response. apply codes_bind; [case_match; [apply codes_sink|by_code]|]. intros t.
  case_match; [by_code|]. apply codes_bind; [unfold empty_once, sink_failed; by_code|]. intros t'.
  apply codes_bind; [apply codes_chunks|]. by_code.
Qed.
Lemma coded_refused {A} (f : Failure) :
  coded late (Err f : CliResult A) → coded late (Err (refused_by_keychute f) : CliResult A).
Proof. intros Hf f' [= <-]. exact (Hf f eq_refl). Qed.
Lemma codes_proxy cfg args target method headers body suppress id output :
  codes late (proxy_call cfg args target method headers body suppress id output : Cli S _).
Proof.
  unfold proxy_call. apply codes_bind; [by_code|]. intros token. apply codes_bind; [by_code|].
  intros rp. apply codes_bind; [by_code|]. intros r. case_match.
  - intros s. unfold bail, classify_proxy_error. cbn. repeat case_match;
      first [apply coded_refused; auto with codes | auto with codes].
  - apply codes_bind; [by_code|]. intros _. apply codes_bind; [apply codes_response|]. by_code.
Qed.
Hint Resolve codes_prepare codes_body codes_sources codes_proxy : codes.
Lemma codes_build cfg : codes late (build_http_client cfg : Cli S _).
Proof. unfold build_http_client. by_code. Qed.
Hint Resolve codes_build : codes.
Lemma codes_call cfg args gv p body output id : codes late (call_and_report cfg args gv p body output id : Cli S _).
Proof.
  intros s. unfold call_and_report.
  pose proof (codes_proxy cfg args (pp_target p) (pp_method p) (pp_headers p) body (pp_suppress p) id output s) as Hc.
  destruct (proxy_call _ _ _ _ _ _ _ _ _ s) as [r s1]. by case_match.
Qed.
Hint Resolve codes_call : codes.
Lemma codes_curl cfg args gv :
  (past_clock (ca_timeout args) → late) → codes late (run_curl cfg args gv : Cli S _).
Proof.
  intros Hl. unfold run_curl, open_output, parse_max_body, obtain_grant, acquire_grant. by_code.
Qed.
Hint Resolve codes_curl : codes.

Lemma coded_from_env env : coded late (from_env env).
Proof. unfold from_env. by_code. Qed.
Hint Resolve coded_from_env : codes.
Definition late_for (cmd : Cmd.t) : Prop :=
  match cmd with
  | Cmd.Curl args => past_clock (ca_timeout args)
  | Cmd.Request args => past_clock (ra_timeout args)
  | Cmd.Store _ | Cmd.Status _ => False
  end.
Lemma codes_run env cmd gv : (late_for cmd → late) → codes late (run env cmd gv : Cli S _).
Proof. intros Hl. unfold run, run_command. by_code. Qed.

End Codes.

Section Exit.
Context {S : Type} `{!Platform S, !Files S}.
Context `{UuidText, UrlLib, !OriginLib, !CallLib, HttpLib, SigText, JsonBytes, ReplyText, ClientLib}.
Context `{Primitives, WireLib}.

End Exit.

(** ** Witness: a request the policy denies *)
Module MainRun.
#[export] Existing Instance Script.platform.
#[export] Existing Instance Script.no_files.
#[export] Existing Instance uuid_text_example.
#[export] Existing Instance HttpExample.http.
#[export] Existing Instance CurlKey.CurlExample.url.
#[export] Existing Instance CurlKey.CurlExample.origin_lib.
#[export] Existing Instance CurlKey.CurlExample.call_lib.
#[export] Existing Instance CurlKey.CurlExample.sig_text.
#[export] Existing Instance RequestRun.text.
#[export] Existing Instance RequestRun.bytes.
#[export] Existing Instance CurlTrace.CurlRun.client.
#[export] Existing Instance StoreRun.primitives.
#[export] Existing Instance StoreRun.wire.
Definition env (name : string) : option string :=
  if eqb name "KEYCHUTE_URL" then Some "https://keychute.example/ "
  else if eqb name "KEYCHUTE_TOKEN" then Some "token" else None.
Definition given : Given := mkGiven "fresh" None None None 0 10.
Definition cmd : Cmd.t := Cmd.Request RequestRun.args.
Definition ended : Script.t := Eval vm_compute in (main env cmd given (Script.start [Script.reply 403 ""])).2.
Example denied : (main env cmd given (Script.start [Script.reply 403 ""])).1 = Some EXIT_DENIED.
Proof. vm_compute. done. Qed.
End MainRun.

Import MainRun.
