(* ===== verification/UiPrefill.v ===== *)
(** [server/src/ui/mod.rs]: the policy form pre-filled from a request, and the
    rule that comes of it. *)

From S2P Require Import Prelude RustStr RustText Types Paths Json Crypto Examples SigV4 Http Injection Store.
From S2P Require Import Requests Policies Api ApiRequests Csrf Human Ui FormText UiPolicies.
From S2P Require Policy.
Open Scope string_scope.

(** ** The link from a request to the form *)
Record PolicyPrefill := mkPolicyPrefill {
  px_client : option string;
  px_secret : option string;
  px_mechanism : option string;
  px_origins : option string;
  px_methods : option string;
  px_paths : option string;
  px_max_ttl : option string;
  px_max_uses : option string
}.
(** [url::form_urlencoded] and its inverse. *)
Class FormUrlEncoded := {
  form_encode : list (string * string) → string;
  form_decode : string → list (string * string);
  form_decode_encode : ∀ l, form_decode (form_encode l) = l
}.

Definition prefill_is_empty (p : PolicyPrefill) : bool :=
  forallb (λ v, is_none (non_empty v))
    [px_client p; px_secret p; px_mechanism p; px_origins p; px_methods p; px_paths p;
     px_max_ttl p; px_max_uses p].

Definition pair_unless (empty : bool) (name value : string) : list (string * string) :=
  if empty then [] else [(name, value)].
Definition prefill_pairs (client secret : string) (mechanism : Mechanism.t) (k : Constraints)
  : list (string * string) :=
  [("client", client); ("secret", secret); ("mechanism", Mechanism.as_str mechanism)]
  ++ pair_unless (is_empty (origins k)) "origins" (join LF (map origin_field (origins k)))
  ++ pair_unless (is_empty (methods k)) "methods" (join_with ", " (methods k))
  ++ pair_unless (is_empty (path_prefixes k)) "paths" (join LF (map path_field (path_prefixes k)))
  ++ [("max_ttl", Z_to_string (ttl_seconds k))]
  ++ match max_uses k with Some n => [("max_uses", Z_to_string n)] | None => [] end.
Definition new_policy_href `{FormUrlEncoded} (client secret : string) (mechanism : Mechanism.t)
    (k : Constraints) : string :=
  "/ui/policies?" +:+ form_encode (prefill_pairs client secret mechanism k) +:+ "#new-policy".

(** [Query<PolicyPrefill>]: unknown names are ignored, a repeated one is an error. *)
Definition named (name : string) (l : list (string * string)) : list string :=
  map snd (List.filter (λ p, eqb (fst p) name) l).
Definition one_named (name : string) (l : list (string * string)) : option (option string) :=
  match named name l with [] => Some None | [v] => Some (Some v) | _ => None end.
Definition prefill_of_query `{FormUrlEncoded} (query : string) : option PolicyPrefill :=
  let l := form_decode query in
  client ← one_named "client" l;
  secret ← one_named "secret" l;
  mechanism ← one_named "mechanism" l;
  os ← one_named "origins" l;
  ms ← one_named "methods" l;
  ps ← one_named "paths" l;
  ttl ← one_named "max_ttl" l;
  uses ← one_named "max_uses" l;
  Some (mkPolicyPrefill client secret mechanism os ms ps ttl uses).

(** ** The form's values *)
Definition from_prefill (p : PolicyPrefill) : PolicyFormValues :=
  let s v := default "" (non_empty v) in
  mkPolicyFormValues (non_empty (px_client p)) (non_empty (px_secret p)) None
    (non_empty (px_mechanism p) ≫= Mechanism.from_str_opt) None "0"
    (s (px_origins p)) (s (px_methods p)) (s (px_paths p)) (s (px_max_ttl p)) (s (px_max_uses p)) "".
Definition has_more_conditions (v : PolicyFormValues) : bool :=
  is_some (pv_tag v)
  || (negb (eqb (pv_priority v) "") && negb (eqb (pv_priority v) "0"))
  || existsb (λ x, negb (eqb x ""))
       [pv_methods v; pv_paths v; pv_max_ttl v; pv_max_uses v; pv_not_after v].

(** The outcome the operator picks in the form. *)
Definition with_outcome (o : string) (f : PolicyForm) : PolicyForm :=
  mkPolicyForm (pf_csrf_token f) (pf_client_name f) (pf_secret_name f) (pf_secret_tag f)
    (pf_mechanism f) o (pf_priority f) (pf_origins f) (pf_methods f) (pf_path_prefixes f)
    (pf_max_ttl_seconds f) (pf_max_uses f) (pf_not_after f).

(** ** Text that survives trimming *)
(** A byte that is no part of a longer whitespace character. *)
Definition sep (c : ascii) : Prop :=
  ∀ a b, ws2 a c = false ∧ ws3 a b c = false ∧ ws3 a c b = false.
Lemma sep_lf : sep LF.
Proof.
  intros a b. unfold ws2, ws3.
  change (eqb LF _) with false. change (in_range "128" "138" LF) with false.
  by rewrite ?andb_false_r, ?andb_false_l, ?andb_false_r.
Qed.
Lemma sep_comma : sep ",".
Proof.
  intros a b. unfold ws2, ws3.
  change (eqb ","%char _) with false. change (in_range "128" "138" ",") with false.
  by rewrite ?andb_false_r, ?andb_false_l, ?andb_false_r.
Qed.

Lemma trim_start_sep c s t :
  sep c → trim_start (s +:+ String c t) = "" → trim_start (String c t) = "".
Proof.
  intros Hc. remember (String.length s) as n eqn:Hn. revert s Hn.
  induction n as [n IH] using lt_wf_ind. intros s Hn.
  destruct s as [|a s]; [done|]. cbn [String.append trim_start]. cbn in Hn.
  destruct (ws1 a); [by apply (IH (String.length s)); [lia|]|].
  destruct s as [|b s]; cbn [String.append].
  - rewrite (proj1 (Hc a a)). destruct t as [|d t]; [done|]. by rewrite (proj2 (proj2 (Hc a d))).
  - cbn in Hn. destruct (ws2 a b); [by apply (IH (String.length s)); [lia|]|].
    destruct s as [|d s]; cbn [String.append]; [by rewrite (proj1 (proj2 (Hc a b)))|].
    cbn in Hn. destruct (ws3 a b d); [by apply (IH (String.length s)); [lia|]|done].
Qed.
Lemma trim_end_sep c s t :
  sep c → trim_end (String c t) = String c t → trim_end (s +:+ String c t) = s +:+ String c t.
Proof.
  intros Hc Ht. induction s as [|a s IH]; [done|]. cbn [String.append]. rewrite trim_end_cons, IH.
  destruct (eqb _ "") eqn:E; [|done]. kbool. change (String a (s +:+ String c t)) with (String a s +:+ String c t) in E.
  apply trim_start_sep in E; [|done]. rewrite trim_end_cons, E in Ht. discriminate Ht.
Qed.
(** Non-blank pieces, joined, are left alone by [trim]. *)
Definition untrimmed (s : string) : Prop := ws_at s = false ∧ trim_end s = s ∧ s ≠ "".
Lemma untrimmed_trim s : untrimmed s → trim s = s.
Proof. intros (Hw & He & _). unfold trim. by rewrite trim_start_id. Qed.
Lemma untrimmed_solid s : solid s = true → s ≠ "" → untrimmed s.
Proof.
  intros Hs Hne. split; [|split; [|done]].
  - destruct s; [done|]. cbn [solid] in Hs. by kbool.
  - pose proof (solid_trim s Hs) as E. unfold trim in E.
    rewrite trim_start_id in E; [done|]. destruct s; [done|]. cbn [solid] in Hs. by kbool.
Qed.
Lemma untrimmed_field s : untrimmed s → non_empty (Some s) = Some s.
Proof.
  intros Hs. unfold non_empty. cbn -[trim]. rewrite (untrimmed_trim s Hs). unfold eqb.
  by rewrite bool_decide_eq_false_2 by apply Hs.
Qed.
Lemma untrimmed_sep c x t :
  sep c → low c = true ∨ c = LF → solid x = true → x ≠ "" → trim_end (String c t) = String c t →
  untrimmed (x +:+ String c t).
Proof.
  intros Hc Hl Hs Hne Ht. split; [|split; [by apply trim_end_sep|by destruct x]].
  destruct (untrimmed_solid x Hs Hne) as (Hw & _).
  destruct Hl as [Hl| ->]; [by rewrite ws_at_app|].
  destruct x as [|a [|b [|d x]]]; [done|..]; cbn in Hw |- *; apply orb_false_iff in Hw as [-> Hw].
  - cbn. rewrite (proj1 (sep_lf a a)). destruct t as [|d t]; [done|].
    by rewrite (proj2 (proj2 (sep_lf a d))).
  - apply orb_false_iff in Hw as [-> _]. cbn. by rewrite (proj1 (proj2 (sep_lf a b))).
  - exact Hw.
Qed.

Lemma join_untrimmed l :
  l ≠ [] → (∀ x, x ∈ l → solid x = true ∧ x ≠ "") → untrimmed (join LF l).
Proof.
  induction l as [|x l IH]; [done|]. intros _ Hl. destruct (Hl x ltac:(by left)) as [Hx Hne].
  destruct l as [|y l]; [by apply untrimmed_solid|].
  change (join LF (x :: y :: l)) with (x +:+ String LF (join LF (y :: l))).
  destruct IH as (Hw & He & Hn); [done|intros z Hz; apply Hl; by right|].
  apply untrimmed_sep; [apply sep_lf|by right|done|done|].
  rewrite trim_end_cons, He. change (trim_start (String LF ?t)) with (trim_start t).
  rewrite trim_start_id by done. unfold eqb. by rewrite bool_decide_eq_false_2.
Qed.
Lemma join_with_untrimmed l :
  l ≠ [] → (∀ x, x ∈ l → solid x = true ∧ x ≠ "") → untrimmed (join_with ", " l).
Proof.
  induction l as [|x l IH]; [done|]. intros _ Hl. destruct (Hl x ltac:(by left)) as [Hx Hne].
  destruct l as [|y l]; [by apply untrimmed_solid|].
  change (join_with ", " (x :: y :: l)) with (x +:+ String "," (String " " (join_with ", " (y :: l)))).
  destruct IH as (Hw & He & Hn); [done|intros z Hz; apply Hl; by right|].
  assert (Hs : trim_end (String " " (join_with ", " (y :: l))) = String " " (join_with ", " (y :: l))).
  { rewrite trim_end_cons, He. change (trim_start (String " " ?t)) with (trim_start t).
    rewrite trim_start_id by done. unfold eqb. by rewrite bool_decide_eq_false_2. }
  apply untrimmed_sep; [apply sep_comma|by left|done|done|].
  rewrite trim_end_cons, Hs, trim_start_id by (by apply ws_at_low). done.
Qed.

(** ** The rule that would have matched exactly this request *)
Section Prefill.
Context `{UrlLib, DateTimeText, FormUrlEncoded, JsonBytes}.

Definition opt_unless {A} (empty : bool) (x : A) : option A := if empty then None else Some x.
Lemma prefill_read client secret m k :
  prefill_of_query (form_encode (prefill_pairs client secret m k))
  = Some (mkPolicyPrefill (Some client) (Some secret) (Some (Mechanism.as_str m))
      (opt_unless (is_empty (origins k)) (join LF (map origin_field (origins k))))
      (opt_unless (is_empty (methods k)) (join_with ", " (methods k)))
      (opt_unless (is_empty (path_prefixes k)) (join LF (map path_field (path_prefixes k))))
      (Some (Z_to_string (ttl_seconds k))) (Z_to_string <$> max_uses k)).
Proof.
  unfold prefill_of_query, prefill_pairs. rewrite form_decode_encode. unfold pair_unless, opt_unless.
  by destruct (is_empty (origins k)), (is_empty (methods k)), (is_empty (path_prefixes k)), (max_uses k).
Qed.

(** The policy that has the request's client, secret, mechanism, scope and limits. *)
Definition policy_of_request (client secret : string) (m : Mechanism.t) (k : Constraints)
    (outcome created_by : string) : NewPolicy :=
  mkNewPolicy (Some client) (Some secret) None (Mechanism.as_str m) outcome 0
    (Array (map Origin_to_value (origins k))) (methods k) (path_prefixes k)
    (Some (ttl_seconds k)) (max_uses k) None created_by.

(** What a stored request's constraints are. *)
Record normalized (k : Constraints) : Prop := mk_normalized {
  nk_origins : Forall (origin_valid url_host_str) (origins k);
  nk_methods : ∀ x, x ∈ methods k → Policy.is_valid_http_method x = true ∧ to_ascii_uppercase x = x;
  nk_prefixes : ∀ x, x ∈ path_prefixes k → canonical x;
  nk_ttl : (1 ≤ ttl_seconds k ≤ MAX_TTL_SECONDS)%Z;
  nk_uses : ∀ n, max_uses k = Some n → (1 ≤ n ≤ i32_MAX)%Z
}.

Lemma joined_field {A} (g : A → string) (l : list A) :
  (∀ x, x ∈ l → solid (g x) = true ∧ g x ≠ "") →
  default "" (non_empty (opt_unless (is_empty l) (join LF (map g l)))) = join LF (map g l).
Proof.
  intros Hl. destruct l as [|x l]; [done|]. cbn [is_empty opt_unless].
  rewrite untrimmed_field; [done|]. apply join_untrimmed; [done|].
  by intros y (z & -> & Hz)%list_elem_of_fmap; apply Hl.
Qed.

Lemma prefill_form client secret m k o token id now owner managed by_ :
  plain (Some client) → plain (Some secret) → normalized k →
  with_outcome o (policy_form token (from_prefill
    (mkPolicyPrefill (Some client) (Some secret) (Some (Mechanism.as_str m))
      (opt_unless (is_empty (origins k)) (join LF (map origin_field (origins k))))
      (opt_unless (is_empty (methods k)) (join_with ", " (methods k)))
      (opt_unless (is_empty (path_prefixes k)) (join LF (map path_field (path_prefixes k))))
      (Some (Z_to_string (ttl_seconds k))) (Z_to_string <$> max_uses k))))
  = policy_form token (from_row (policy_row id now (policy_of_request client secret m k o by_) owner managed)).
Proof.
  intros Hc Hs [Ho Hm Hp Ht Hu]. unfold from_prefill, from_row, policy_row, policy_of_request.
  cbn -[non_empty Origins_of_value]. rewrite !plain_some by done. rewrite Origins_of_to_value by done.
  rewrite !joined_field.
  2:{ intros x Hx. by apply prefix_text, Hp. }
  2:{ intros x Hx. rewrite Forall_forall in Ho. by apply origin_text, Ho. }
  assert (Hms : default "" (non_empty (opt_unless (is_empty (methods k)) (join_with ", " (methods k))))
                = join_with ", " (methods k)).
  { destruct (methods k) as [|x l] eqn:E; [done|]. cbn [is_empty opt_unless].
    rewrite untrimmed_field; [done|]. apply join_with_untrimmed; [done|].
    intros y Hy. destruct (valid_method_item y) as (? & _ & ?); [by apply Hm|done]. }
  rewrite Hms. destruct (Z_to_string_low (ttl_seconds k)) as [Hl Hn].
  rewrite (solid_field (Z_to_string (ttl_seconds k))) by (by try apply solid_all_low).
  assert (Hus : default "" (non_empty (Z_to_string <$> max_uses k)) = opt_text Z_to_string (max_uses k)).
  { destruct (max_uses k) as [n|]; [|done]. cbn [fmap option_fmap option_map opt_text].
    destruct (Z_to_string_low n) as [Hl' Hn']. by rewrite solid_field by (by try apply solid_all_low). }
  rewrite Hus. rewrite (plain_some (Mechanism.as_str m)) by (by destruct m; intros ? [= <-]).
  cbn [mbind option_bind]. by rewrite Mechanism.from_as_str.
Qed.

Lemma validate_normalized req k :
  validate_request value_to_vec req = Ok k → constraints_wf url_host_str (constraints req) →
  normalized k ∧ (mechanism req = Mechanism.Brokered → origins k ≠ []).
Proof.
  intros HH (Ho & _ & Hu). unfold validate_request in HH. apply bind_Ok in HH as ([] & _ & HH).
  do 4 (match type of HH with (if ?b then _ else _) = _ => destruct b; [done|] end).
  destruct (_ || _) eqn:Ettl; [done|]. apply orb_false_iff in Ettl as [Et1 Et2].
  apply bind_Ok in HH as (ms & Hms & HH). apply bind_Ok in HH as (ps & Hps & HH).
  apply bind_Ok in HH as (u & Huse & [= <-]). apply try_map_Ok in Hms, Hps. split.
  - constructor; cbn; [done|..].
    + intros x Hx. apply list_elem_of_lookup in Hx as [i Hi].
      destruct (Forall2_lookup_r _ _ _ _ _ Hms Hi) as (y & _ & Hy).
      destruct (Policy.is_valid_http_method y) eqn:Ey; [|done]. injection Hy as <-.
      split; [by apply valid_method_upper|apply to_upper_idemp].
    + intros x Hx. apply list_elem_of_lookup in Hx as [i Hi].
      destruct (Forall2_lookup_r _ _ _ _ _ Hps Hi) as (y & _ & Hy).
      by apply map_err_Ok, canonicalize_Ok in Hy as (_ & _ & ?).
    + lia.
    + intros n Hn. unfold requested_uses in Huse. rewrite Hn in Huse.
      destruct (eqb (mechanism req) Mechanism.Brokered).
      * repeat (match type of Huse with (if ?b then _ else _) = _ => destruct b eqn:?; [done|] end).
        destruct (max_uses (constraints req)) as [v|]; [|done].
        destruct (Z.eqb_spec v 0); [done|]. destruct (Z.ltb_spec MAX_USES v); [done|].
        injection Huse as ->. unfold MAX_USES in *. lia.
      * destruct (max_uses (constraints req)) as [v|]; [|injection Huse as <-; unfold i32_MAX; lia].
        destruct (negb _); [done|]. injection Huse as <-. unfold i32_MAX. lia.
  - intros Hb E. cbn in E. unfold requested_uses in Huse. rewrite Hb, E in Huse. done.
Qed.

Lemma policy_of_request_form client secret m k o by_ :
  plain (Some client) → plain (Some secret) → normalized k → o ∈ POLICY_OUTCOMES →
  (m = Mechanism.Brokered → origins k ≠ []) → form_policy (policy_of_request client secret m k o by_).
Proof.
  intros Hc Hs [Ho Hm Hp Ht Hu] Hout Hb. constructor; cbn; try done.
  - exists m, (origins k). split_and!; try done. destruct (eqb m Mechanism.Brokered) eqn:E; [|done].
    kbool. destruct (origins k); [by destruct (Hb E)|done].
  - intros n [= <-]. unfold i64_MAX, MAX_TTL_SECONDS in *. lia.
  - intros n Hn. specialize (Hu n Hn). lia.
Qed.

Lemma policy_of_request_row client secret m k o by_ id now owner :
  normalized k → o ∈ POLICY_OUTCOMES → (∀ x, x ∈ path_prefixes k → canonicalize x = Ok x) →
  ∃ out, Policy.Outcome.from_str_opt o = Some out
    ∧ parse_policy (policy_row id now (policy_of_request client secret m k o by_) owner false)
      = Some (Policy.mkPolicyRow id (Some client) (Some secret) None m out 0 (origins k) (methods k)
                (path_prefixes k) (Some (ttl_seconds k)) (max_uses k) None).
Proof.
  intros [Ho Hm _ Ht Hu] Hout Hp.
  assert (Eo : ∃ out, Policy.Outcome.from_str_opt o = Some out).
  { unfold POLICY_OUTCOMES in Hout.
    repeat (apply elem_of_cons in Hout as [->|Hout]; [by eexists|]). by apply elem_of_nil in Hout. }
  destruct Eo as [out Eo]. exists out. split; [done|].
  unfold parse_policy, policy_row, policy_of_request. cbn -[Origins_of_value forallb try_map].
  rewrite Mechanism.from_as_str. cbn [mbind option_bind]. rewrite Eo. cbn [mbind option_bind].
  rewrite Origins_of_to_value by done. cbn [mbind option_bind].
  rewrite (proj2 (forallb_elem _ _)) by (intros x Hx; by apply Hm). cbn [negb].
  assert (Ep : try_map canonicalize (path_prefixes k) = Ok (path_prefixes k)).
  { revert Hp. clear. induction (path_prefixes k) as [|x l IH]; [done|]. intros Hl. cbn.
    rewrite (Hl x) by by left. cbn. rewrite IH; [done|]. intros y Hy. apply Hl. by right. }
  rewrite Ep. cbn. rewrite Z.max_r by lia.
  destruct (max_uses k) as [n|] eqn:En; cbn; [|done]. specialize (Hu n eq_refl).
  by rewrite Z.max_r by lia.
Qed.

Lemma canonical_covers_itself p : canonical p → prefix_matches p p = true.
Proof.
  intros Hp. destruct (eqb (trim_end_matches "/" p) "") eqn:E; kbool; [|by apply prefix_matches_refl].
  destruct (trim_end_matches_spec "/" p) as (t & Hs & Ht). rewrite E in Hs. cbn in Hs. subst t.
  pose proof (can_slash _ Hp) as Hc1. pose proof (can_slashes _ Hp) as Hc2.
  destruct p as [|a [|b r]]; [done|..]; cbn [all_bytes] in Ht.
  - apply andb_true_iff in Ht as [Ha _]. kbool. by subst a.
  - apply andb_true_iff in Ht as [Ha Hb]. apply andb_true_iff in Hb as [Hb _]. kbool. subst a b.
    destruct r; discriminate Hc2.
Qed.
Lemma subset_refl row k :
  Policy.p_origins row = origins k → Policy.p_methods row = methods k →
  Policy.p_path_prefixes row = path_prefixes k → Policy.p_max_ttl_seconds row = Some (ttl_seconds k) →
  Policy.p_max_uses row = max_uses k → (∀ x, x ∈ path_prefixes k → canonical x) →
  Policy.request_is_subset row k = true.
Proof.
  intros Eo Em Ep Et Eu Hv. unfold Policy.request_is_subset. rewrite Eo, Em, Ep, Et, Eu.
  assert (Hself : ∀ A (l : list A) (f : A → A → bool), (∀ x, x ∈ l → f x x = true) →
    (if is_empty l then is_empty l else is_empty l || forallb (λ r, existsb (λ p, f p r) l) l) = true).
  { intros A l f Hf. destruct (is_empty l) eqn:E; [done|]. cbn. apply forallb_elem. intros x Hx.
    apply existsb_elem. exists x. split; [done|by apply Hf]. }
  rewrite (Hself _ _ same_target).
  2:{ intros x _. unfold same_target. by rewrite eqb_refl, Z.eqb_refl. }
  rewrite (Hself _ _ eq_ignore_ascii_case).
  2:{ intros x _. unfold eq_ignore_ascii_case. by rewrite eqb_refl. }
  rewrite (Hself _ _ prefix_matches).
  2:{ intros x Hx. by apply canonical_covers_itself, Hv. }
  cbn [negb]. rewrite Z.ltb_irrefl. destruct (max_uses k) as [n|]; [|done]. by rewrite Z.ltb_irrefl.
Qed.

(** A policy row matches a request: it applies to it and covers it. *)
Definition row_matches (row : Policy.PolicyRow) (client : Policy.ClientRow)
    (req : Policy.RequestedGrant) (tags : list string) (t : DateTime) : Prop :=
  Policy.is_applicable row client req tags t = true
  ∧ Policy.request_is_subset row (Policy.r_constraints req) = true.
Lemma request_row_matches id client secret m out k c req tags t :
  normalized k →
  let row := Policy.mkPolicyRow id (Some client) (Some secret) None m out 0 (origins k) (methods k)
               (path_prefixes k) (Some (ttl_seconds k)) (max_uses k) None in
  (Policy.c_name c = client → req = Policy.mkRequestedGrant secret m k → row_matches row c req tags t)
  ∧ (row_matches row c req tags t →
     Policy.c_name c = client ∧ Policy.r_secret_name req = secret ∧ Policy.r_mechanism req = m
     ∧ (ttl_seconds (Policy.r_constraints req) ≤ ttl_seconds k)%Z
     ∧ (∀ n, max_uses k = Some n → ∃ u, max_uses (Policy.r_constraints req) = Some u ∧ (u ≤ n)%Z)
     ∧ ∀ call, Policy.constraints_admit (Policy.r_constraints req) call = true →
         Policy.constraints_admit k call = true).
Proof.
  intros Hk row. split.
  - intros Hc ->. split.
    + unfold Policy.is_applicable. cbn. by rewrite Hc, !eqb_refl.
    + apply subset_refl; try done. apply Hk.
  - intros [Ha Hs]. unfold Policy.is_applicable in Ha. cbn in Ha.
    destruct (eqb m (Policy.r_mechanism req)) eqn:Em; [|done].
    destruct (eqb client (Policy.c_name c)) eqn:Ec; [|done]. cbn in Ha. kbool.
    pose proof (Policy.request_is_subset_dims _ _ Hs) as (_ & _ & _ & Ht & Hu).
    split_and!; try done; [by apply Ht|].
    intros call. by apply (Policy.request_is_subset_admits row).
Qed.
End Prefill.

(** The rule made from a request is the one that would have matched exactly
    that request.  Whatever outcome the operator picks, the form the request's
    link opens, submitted as it is, is accepted; the row it stores is readable
    and matches the request it came from; and a request it matches is by the same
    client for the same secret and mechanism, admits no call the first did not,
    and asks for no longer a lifetime and no more uses.  (The names are ones a
    form can hold, and the prefixes hold no percent sign that would be decoded
    once more.) *)
Theorem policy_like_request `{UrlLib, DateTimeText, FormUrlEncoded, JsonBytes}
    client req k o token by_ id now :
  validate_request value_to_vec req = Ok k → constraints_wf url_host_str (constraints req) →
  plain (Some client) → plain (Some (secret_name req)) →
  (∀ x, x ∈ path_prefixes k → canonicalize x = Ok x) → o ∈ POLICY_OUTCOMES →
  ∃ query prefill p row,
    new_policy_href client (secret_name req) (mechanism req) k
      = "/ui/policies?" +:+ query +:+ "#new-policy"
    ∧ prefill_of_query query = Some prefill
    ∧ parse_policy_form (with_outcome o (policy_form token (from_prefill prefill))) by_ = Ok p
    ∧ parse_policy (policy_row id now p by_ false) = Some row
    ∧ Some (Policy.p_outcome row) = Policy.Outcome.from_str_opt o
    ∧ ∀ c req' tags t,
        (Policy.c_name c = client → req' = Policy.mkRequestedGrant (secret_name req) (mechanism req) k →
         row_matches row c req' tags t)
        ∧ (row_matches row c req' tags t →
           Policy.c_name c = client ∧ Policy.r_secret_name req' = secret_name req
           ∧ Policy.r_mechanism req' = mechanism req
           ∧ (ttl_seconds (Policy.r_constraints req') ≤ ttl_seconds k)%Z
           ∧ (∀ n, max_uses k = Some n →
                ∃ u, max_uses (Policy.r_constraints req') = Some u ∧ (u ≤ n)%Z)
           ∧ ∀ call, Policy.constraints_admit (Policy.r_constraints req') call = true →
               Policy.constraints_admit k call = true).
Proof.
  intros Hv Hwf Hc Hs Hp Ho. apply validate_normalized in Hv as [Hk Hb]; [|done].
  destruct (policy_of_request_row client (secret_name req) (mechanism req) k o by_ id now by_ Hk Ho Hp)
    as (out & Eo & Hrow).
  eexists _, _, (policy_of_request client (secret_name req) (mechanism req) k o by_), _.
  split; [done|]. split; [apply prefill_read|]. split.
  { rewrite (prefill_form client (secret_name req) (mechanism req) k o token id now by_ false by_) by done.
    by apply render_roundtrip; [apply policy_of_request_form|]. }
  split; [exact Hrow|]. split; [done|]. intros c req' tags t. by apply request_row_matches.
Qed.

(** ** Witness *)
Module PrefillExample.
#[export] Existing Instance HttpExample.url.
#[export] Existing Instance PolicyFormExample.dates.
(** Each byte marked with a dot, each text ended by a comma. *)
Fixpoint dotted (s t : string) : string :=
  match s with "" => String "," t | String c r => String "." (String c (dotted r t)) end.
Definition push_first (c : ascii) (l : list string) : list string :=
  match l with x :: l => String c x :: l | [] => [] end.
Fixpoint undotted (s : string) : list string :=
  match s with
  | String a r =>
      if eqb a ","%char then "" :: undotted r
      else match r with String c r => push_first c (undotted r) | "" => [] end
  | "" => []
  end.
Fixpoint paired (l : list string) : list (string * string) :=
  match l with a :: b :: l => (a, b) :: paired l | _ => [] end.
Definition encode (l : list (string * string)) : string :=
  fold_right (λ p t, dotted p.1 (dotted p.2 t)) "" l.
Lemma undotted_dotted s t : undotted (dotted s t) = s :: undotted t.
Proof.
  induction s as [|c s IH]; [done|]. cbn [dotted undotted].
  change (eqb "."%char ","%char) with false. by rewrite IH.
Qed.
Lemma decode_encode l : paired (undotted (encode l)) = l.
Proof.
  induction l as [|[a b] l IH]; [done|].
  change (encode ((a, b) :: l)) with (dotted a (dotted b (encode l))).
  rewrite !undotted_dotted. cbn [paired]. by rewrite IH.
Qed.
#[export] Instance urlencoded : FormUrlEncoded := {|
  form_encode := encode; form_decode := λ s, paired (undotted s); form_decode_encode := decode_encode
|}.
#[export] Existing Instance RequestExample.bytes.
Definition k : Constraints :=
  mkConstraints [mkOrigin "api.example.com" None] ["get"; "POST"] ["/v1/things"; "/v1/a%20b"] 600 (Some 3%Z).
Definition request : CreateAccessRequest :=
  mkCreateAccessRequest "key" "pat" Mechanism.Brokered k (mkRequestContext "why" None).
Definition stored : Constraints :=
  mkConstraints [mkOrigin "api.example.com" None] ["GET"; "POST"] ["/v1/things"; "/v1/a b"] 600 (Some 3%Z).
End PrefillExample.

Import PrefillExample.
Lemma policy_like_request_witness :
  ∃ query prefill p, new_policy_href "agent" "pat" Mechanism.Brokered stored
      = "/ui/policies?" +:+ query +:+ "#new-policy"
    ∧ prefill_of_query query = Some prefill
    ∧ parse_policy_form (with_outcome "auto-approve" (policy_form "t" (from_prefill prefill))) "alice"
      = Ok p.
Proof.
  destruct (policy_like_request "agent" PrefillExample.request stored "auto-approve" "t" "alice" 7 0)
    as (query & prefill & p & row & E1 & E2 & E3 & _).
  - vm_compute. reflexivity.
  - split; [|split; vm_compute; [by split|by split]]. apply Forall_singleton.
    split; [done|]. split; [by vm_compute|]. by vm_compute.
  - by intros s [= <-].
  - by intros s [= <-].
  - intros x Hx. repeat (apply elem_of_cons in Hx as [->|Hx]; [by vm_compute|]). by apply elem_of_nil in Hx.
  - apply (bool_decide_unpack _). by vm_compute.
  - by exists query, prefill, p.
Defined.
