(* ===== verification/UiView.v ===== *)
(** [server/src/ui/mod.rs]: what the operator's pages show of a request, a
    grant and a policy, as data: badges, durations, the block of what the server
    will enforce and the block of what the client claims.  A page is its texts
    and its forms; HTML elements, styles and maud's escaping are not modelled. *)

From S2P Require Import Prelude RustStr RustText Types Paths Json Crypto Examples SigV4 Http Injection Store.
From S2P Require Import Requests Grants Secrets Api ApiRequests Csrf Human Ui UiApprove FormText UiPolicies UiPrefill.
From S2P Require Policy.
Open Scope string_scope.

(** [chrono]'s display formats and [serde_json::to_string_pretty]. *)
Class PageText := {
  format_utc : DateTime → string;           (* %Y-%m-%d %H:%M:%S UTC *)
  format_utc_minutes : DateTime → string;   (* %Y-%m-%d %H:%M UTC *)
  to_string_pretty : Value → option string
}.

(** ** The frame of a page *)
Definition SECTIONS : list (string * string) :=
  [("/", "Overview"); ("/ui/requests", "Requests"); ("/ui/grants", "Grants");
   ("/ui/policies", "Policies"); ("/ui/secrets", "Secrets")].
(** A page: its title, the navigation (with the section marked as current) and
    its body. *)
Record Page (A : Type) := mkPage {
  pg_title : string;
  pg_nav : list (string * string * bool);
  pg_body : A
}.
Arguments mkPage {A} _ _ _.
Arguments pg_title {A} _.
Arguments pg_nav {A} _.
Arguments pg_body {A} _.
Definition layout_at {A} (title : string) (current : option string) (body : A) : Page A :=
  mkPage (title +:+ " — Keychute")
    (map (λ '(href, label), (href, label, eqb current (Some href))) SECTIONS) body.
Definition layout {A} (title : string) (body : A) : Page A := layout_at title None body.
Definition html_page_at {A} (title current : string) (body : A) : Page A :=
  layout_at title (Some current) body.

(** A form of a page: where it posts to, and its hidden fields. *)
Record HtmlForm := mkHtmlForm {
  fm_action : string;
  fm_hidden : list (string * string)
}.

(** ** Badges and labels *)
Record Badge := mkBadge { bd_class : string; bd_title : option string; bd_text : string }.

Definition tier_badge_class (tier : Tier.t) : string :=
  match tier with
  | Tier.Brokered => "badge badge-ok"
  | Tier.TrustedClient => "badge"
  | Tier.CooperatingClient => "badge badge-warn"
  | Tier.Direct => "badge badge-danger"
  end.
Definition tier_badge (tier : Tier.t) : Badge :=
  mkBadge (tier_badge_class tier) (Some (Tier.human_label tier)) (Tier.as_str tier).
Definition mechanism_badge (mechanism : string) : Badge :=
  match Mechanism.tier <$> Mechanism.from_str_opt mechanism with
  | Some tier => mkBadge (tier_badge_class tier) (Some (Tier.human_label tier)) mechanism
  | None => mkBadge "badge mono" None mechanism
  end.
Definition policy_outcome_badge (outcome : string) : Badge :=
  mkBadge (if eqb outcome "auto-approve" then "badge badge-warn"
           else if eqb outcome "deny" then "badge badge-danger"
           else if eqb outcome "notify-only" then "badge"
           else "badge badge-ok") None outcome.

Definition units_of (secs : Z) : list (Z * ascii) :=
  [(secs / 86400, "d"%char); (secs mod 86400 / 3600, "h"%char);
   (secs mod 3600 / 60, "m"%char); (secs mod 60, "s"%char)]%Z.
Definition unit_label (u : Z * ascii) : string := Z_to_string u.1 +:+ String u.2 "".
(** The units before the first that is not zero are zero as well. *)
Definition duration_label (secs : Z) : string :=
  match List.filter (λ u, (0 <? u.1)%Z) (units_of secs) with
  | [] => "0s"
  | units => join " " (map unit_label units)
  end.

(** [TimeDelta::num_seconds]: whole seconds, towards zero. *)
Definition num_seconds (d : Z) : Z := Z.quot d second.
Definition relative_time `{PageText} (at_ now : DateTime) : string * string :=
  let secs := num_seconds (at_ - now) in
  (format_utc at_,
   if (0 <=? secs)%Z then "in " +:+ duration_label (Z.abs secs)
   else duration_label (Z.abs secs) +:+ " ago").
Definition age_label (created_at now : DateTime) : string :=
  let secs := Z.max (num_seconds (now - created_at)) 0 in
  if (secs <? 60)%Z then Z_to_string secs +:+ "s"
  else if (secs <? 3600)%Z
  then Z_to_string (secs / 60) +:+ "m " +:+ Z_to_string (secs mod 60) +:+ "s"
  else Z_to_string (secs / 3600) +:+ "h " +:+ Z_to_string (secs mod 3600 / 60) +:+ "m".

(** ** What the server will enforce *)

(** A row of the block: its label and its texts.  [Muted] is the text shown for
    an empty list. *)
Inductive Cell := Text (s : string) | Muted (s : string).
Definition row : Type := string * list Cell.

Definition list_cells (empty : bool) (items : list string) : list Cell :=
  if empty then [Muted "(none)"] else map Text items.
Definition uses_text (mechanism : Mechanism.t) (max_uses : option Z) : string :=
  match max_uses with
  | Some n => "at most " +:+ Z_to_string n +:+ (if (n =? 1)%Z then " use" else " uses")
  | None => if Mechanism.is_releasing mechanism then "1 use (releasing default)"
            else "unlimited uses within TTL"
  end.
Definition grant_block (mechanism : Mechanism.t) (k : Constraints) (secret_line : list Cell)
  : list row :=
  let show_scope empty := negb empty || eqb mechanism Mechanism.Brokered in
  let scope empty label items :=
    if show_scope empty then [(label, list_cells empty items)] else [] in
  [("Secret", secret_line);
   ("Mechanism", [Text (bd_text (mechanism_badge (Mechanism.as_str mechanism)));
                  Text (Tier.human_label (Mechanism.tier mechanism))])]
  ++ scope (is_empty (origins k)) "Origins" (map to_display (origins k))
  ++ scope (is_empty (methods k)) "Methods" [join_with ", " (methods k)]
  ++ scope (is_empty (path_prefixes k)) "Path prefixes" (path_prefixes k)
  ++ [("Lasts", [Text (Z_to_string (ttl_seconds k) +:+ " seconds");
                 Text (duration_label (ttl_seconds k));
                 Text (uses_text mechanism (max_uses k))])].

(** ** What the client claims *)
Definition claimed_target (structured : option Value) : option string :=
  v ← structured; o ← as_object v; t ← map_get o "target"; as_str t.

(** The reason ([None]: "no reason given"), the target lifted out of the
    structured context, and that context. *)
Record Claims := mkClaims {
  cl_reason : option string;
  cl_target : option string;
  cl_structured : option string
}.
Record ContextBlock := mkContextBlock {
  cx_tier2_caveat : bool;
  cx_claims : option Claims
}.
Definition context_block `{PageText} (context : option Types.RequestContext)
    (mechanism : Mechanism.t) : ContextBlock :=
  mkContextBlock (eqb mechanism Mechanism.CliRead)
    ((λ ctx, mkClaims (if eqb (reason ctx) "" then None else Some (reason ctx))
               (if eqb mechanism Mechanism.Brokered then claimed_target (structured ctx) else None)
               ((λ v, default "(unrenderable)" (to_string_pretty v)) <$> structured ctx))
     <$> context).

(** [serde_json::from_slice] on a request's context. *)
Class ContextText `{JsonBytes} := {
  context_from_slice : string → option Types.RequestContext
}.

Section Context.
Context `{UuidText, Primitives, !FormLib, JoseLib, HttpLib, UrlLib, !OriginLib, SigText, JsonBytes,
  !ContextText}.

Definition decrypt_context (st : AppState) (r : AccessRequestRow) : option Types.RequestContext :=
  ct ← ar_context_ciphertext r;
  nonce ← ar_context_nonce r;
  dek ← ar_context_wrapped_dek r;
  kek_id ← ar_context_kek_id r;
  let aad := Crypto.RequestContext (ar_id r) in
  let opened := if eqb kek_id EPHEMERAL_KEK_ID
                then Ephemeral_open (st_ephemeral st) ct nonce dek aad
                else Keyset_open (st_keyset st) ct nonce dek kek_id aad in
  match opened with
  | Ok plain => context_from_slice plain
  | Err _ => None
  end.
End Context.

(** ** A policy row in the table *)
Section PolicyCell.
Context `{UrlLib, PageText}.

Definition phrase {A} (v : option A) (f : A → string) : list string :=
  match v with Some x => [f x] | None => [] end.
Definition policy_conditions (p : PolicyRow) : list string :=
  match Origins_of_value url_host_str (po_origins p) with
  | Some [] => []
  | Some os => [join_with ", " (map origin_field os)]
  | None => ["(unreadable origins)"]
  end
  ++ (if is_empty (po_methods p) then [] else [join_with ", " (po_methods p)])
  ++ (if is_empty (po_path_prefixes p) then [] else [join_with ", " (po_path_prefixes p)])
  ++ phrase (po_max_ttl_seconds p) (λ ttl, "ttl ≤ " +:+ duration_label (Z.max ttl 0))
  ++ phrase (po_max_uses p) (λ u, "uses ≤ " +:+ Z_to_string u)
  ++ phrase (po_not_after p) (λ t, "until " +:+ format_utc_minutes t)
  ++ (if (po_priority p =? 0)%Z then [] else ["priority " +:+ Z_to_string (po_priority p)]).
End PolicyCell.

(** ** The form of a policy *)

(** An [<option>]: its value, its label, and whether it is marked selected. *)
Record Choice := mkChoice { ch_value : string; ch_label : string; ch_selected : bool }.

Definition policy_picker (blank_label : string) (options : list (string * string))
    (selected : option string) (absent_note : string) : list Choice :=
  let absent := v ← selected; if existsb (λ o, eqb (fst o) v) options then None else Some v in
  [mkChoice "" blank_label (is_none selected)]
  ++ map (λ '(value, label), mkChoice value label (eqb selected (Some value))) options
  ++ match absent with
     | Some v => [mkChoice v (v +:+ " (" +:+ absent_note +:+ ")") true]
     | None => []
     end.

Record PolicyPickers := mkPolicyPickers {
  pp_clients : list (string * string);
  pp_secrets : list (string * string);
  pp_tags : list (string * string)
}.

(** The rendered form; the priority to the last field are input values. *)
Record PolicyFormView := mkPolicyFormView {
  fv_form : HtmlForm;
  fv_submit_label : string;
  fv_client : list Choice;
  fv_secret : list Choice;
  fv_mechanism : list Choice;
  fv_outcome : list Choice;
  fv_origins : string;
  fv_more_open : bool;
  fv_no_tags_note : bool;
  fv_tag : list Choice;
  fv_priority : string;
  fv_methods : string;
  fv_paths : string;
  fv_max_ttl : string;
  fv_max_uses : string;
  fv_not_after : string;
  fv_cancel : option string
}.

Definition hidden_token (token : string) : string * string := ("csrf_token", token).
Definition policy_form_view (action csrf_token submit_label : string) (v : PolicyFormValues)
    (pickers : PolicyPickers) (cancel_href : option string) : PolicyFormView :=
  mkPolicyFormView (mkHtmlForm action [hidden_token csrf_token]) submit_label
    (policy_picker "— any client —" (pp_clients pickers) (pv_client v) "not a configured client")
    (policy_picker "— any secret —" (pp_secrets pickers) (pv_secret v) "not stored yet")
    (map (λ m, mkChoice (Mechanism.as_str m) (Mechanism.as_str m) (eqb (pv_mechanism v) (Some m)))
       [Mechanism.Brokered; Mechanism.Autofill; Mechanism.CliRead; Mechanism.DirectRead])
    (map (λ o, mkChoice o o (eqb (pv_outcome v) (Some o))) POLICY_OUTCOMES)
    (pv_origins v) (has_more_conditions v) (is_empty (pp_tags pickers))
    (policy_picker "— none —" (pp_tags pickers) (pv_tag v) "no secret carries it")
    (pv_priority v) (pv_methods v) (pv_paths v) (pv_max_ttl v) (pv_max_uses v) (pv_not_after v)
    cancel_href.

(** What a browser submits: of a [<select>] the last option marked selected,
    the first option when none is; of a text area its lines ended by CR LF; of
    a hidden field its value. *)
Fixpoint last_selected (cs : list Choice) (found : option string) : option string :=
  match cs with
  | [] => found
  | c :: cs => last_selected cs (if ch_selected c then Some (ch_value c) else found)
  end.
Definition submitted_choice (cs : list Choice) : string :=
  default (match cs with c :: _ => ch_value c | [] => "" end) (last_selected cs None).
Definition hidden_field (name : string) (f : HtmlForm) : option string :=
  List.find (λ p, eqb (fst p) name) (fm_hidden f) ≫= λ p, Some (snd p).
Definition submit_policy_form (v : PolicyFormView) : PolicyForm :=
  mkPolicyForm (default "" (hidden_field "csrf_token" (fv_form v)))
    (Some (submitted_choice (fv_client v))) (Some (submitted_choice (fv_secret v)))
    (Some (submitted_choice (fv_tag v))) (submitted_choice (fv_mechanism v))
    (submitted_choice (fv_outcome v)) (Some (fv_priority v)) (Some (textarea (fv_origins v)))
    (Some (fv_methods v)) (Some (textarea (fv_paths v))) (Some (fv_max_ttl v))
    (Some (fv_max_uses v)) (Some (fv_not_after v)).

(** ** Lemmas on forms *)
Lemma last_selected_all cs v found :
  (∀ c, c ∈ cs → ch_selected c = true → ch_value c = v) →
  last_selected cs found = if existsb ch_selected cs then Some v else found.
Proof.
  revert found. induction cs as [|c cs IH]; intros found Hc; [done|]. cbn.
  rewrite IH by (intros c' Hc'; apply Hc; by right).
  destruct (ch_selected c) eqn:E; [|done]. rewrite (Hc c ltac:(by left) E). by destruct (existsb _ _).
Qed.

Lemma policy_picker_submits blank options selected note :
  submitted_choice (policy_picker blank options selected note) = default "" selected.
Proof.
  unfold submitted_choice. destruct selected as [v|].
  - rewrite (last_selected_all _ v).
    + replace (existsb ch_selected (policy_picker blank options (Some v) note)) with true; [done|].
      symmetry. apply existsb_exists. unfold policy_picker. cbn [mbind option_bind].
      destruct (existsb (λ o, eqb (fst o) v) options) eqn:E.
      * apply existsb_exists in E as ([x l] & Hin & Hx). kbool. cbn in *. subst x.
        exists (mkChoice v l true). split; [|done]. rewrite !in_app_iff. right. left.
        apply in_map_iff. exists (v, l). split; [|done]. by rewrite eqb_refl.
      * eexists. split; [rewrite !in_app_iff; right; right; by left|done].
    + intros c. unfold policy_picker. cbn [mbind option_bind is_none].
      rewrite !elem_of_app, !list_elem_of_singleton. intros [->|[Hc|Hc]] Hs; [done| |].
      * apply list_elem_of_fmap in Hc as ([x l] & -> & _). cbn in *. kbool. congruence.
      * destruct (existsb _ _); [by apply elem_of_nil in Hc|].
        apply list_elem_of_singleton in Hc as ->. done.
  - rewrite (last_selected_all _ ""); [done|].
    intros c. unfold policy_picker. cbn [mbind option_bind is_none].
    rewrite !elem_of_app, list_elem_of_singleton. intros [->|[Hc|Hc]] Hs; [done| |].
    + apply list_elem_of_fmap in Hc as ([x l] & -> & _). cbn in Hs. kbool. done.
    + by apply elem_of_nil in Hc.
Qed.

(** The rendered form submits what [policy_form] says. *)
Lemma policy_form_submits action token label v pickers cancel :
  (∀ o, pv_outcome v = Some o → o ∈ POLICY_OUTCOMES) →
  submit_policy_form (policy_form_view action token label v pickers cancel)
  = policy_form token v.
Proof.
  intros Ho. unfold submit_policy_form, policy_form, policy_form_view. cbn [fv_form fv_client
    fv_secret fv_tag fv_mechanism fv_outcome fv_priority fv_origins fv_methods fv_paths fv_max_ttl
    fv_max_uses fv_not_after]. rewrite !policy_picker_submits. f_equal.
  - by destruct (pv_mechanism v) as [[]|].
  - destruct (pv_outcome v) as [o|]; [|done]. specialize (Ho o eq_refl). unfold POLICY_OUTCOMES in *.
    rewrite !elem_of_cons, elem_of_nil in Ho. by destruct Ho as [->|[->|[->|[->|[]]]]].
Qed.

(** ** What the texts determine

    The label of a duration gives the seconds back, and the block of a request
    gives its mechanism and constraints back. *)
#[export] Instance unit_label_inj : Inj (=) (=) unit_label.
Proof.
  intros u u'.
  assert (HH : ∀ s t c c', s +:+ String c "" = t +:+ String c' "" → s = t ∧ c = c').
  { induction s as [|a s IH]; intros [|b t] c c' E.
    - by injection E as ->.
    - injection E as _ E. by destruct t.
    - injection E as _ E. by destruct s.
    - injection E as -> E. by apply IH in E as [-> ->]. }
  destruct u as [n c], u' as [n' c']. unfold unit_label. cbn.
  intros [E ->]%HH. by apply Z_to_string_inj in E as ->.
Qed.
Lemma unit_label_no_space u : u.2 ≠ " "%char → contains_char " " (unit_label u) = false.
Proof.
  intros Hu. unfold unit_label. rewrite contains_char_app. apply orb_false_iff. split.
  - unfold Z_to_string. destruct (u.1 <? 0)%Z.
    + rewrite contains_char_cons, orb_false_iff. split; [done|].
      apply (contains_char_excluded is_ascii_digit); [done|]. apply N_to_string_digits.
    + apply (contains_char_excluded is_ascii_digit); [done|]. apply N_to_string_digits.
  - rewrite contains_char_cons, orb_false_iff. split; [|done]. unfold eqb.
    by apply bool_decide_eq_false_2.
Qed.

(** The units that are shown give the seconds back. *)
Definition unit_seconds (c : ascii) : Z :=
  if eqb c "d"%char then 86400 else if eqb c "h"%char then 3600 else if eqb c "m"%char then 60
  else 1.
Fixpoint seconds_of (units : list (Z * ascii)) : Z :=
  match units with [] => 0 | u :: units => u.1 * unit_seconds u.2 + seconds_of units end.
Definition shown (u : Z * ascii) : bool := (0 <? u.1)%Z.
Lemma seconds_of_shown us : Forall (λ u, 0 ≤ u.1)%Z us →
  seconds_of (List.filter shown us) = seconds_of us.
Proof.
  induction 1 as [|[n c] us Hn _ IH]; [done|]. cbn [List.filter]. unfold shown at 1. cbn [fst] in *.
  destruct (Z.ltb_spec 0 n); cbn [seconds_of fst]; rewrite IH; [done|].
  replace n with 0%Z by lia. done.
Qed.
Lemma units_nonneg secs : (0 ≤ secs)%Z → Forall (λ u, 0 ≤ u.1)%Z (units_of secs).
Proof.
  intros Hs. unfold units_of.
  assert (Hm : ∀ b, (0 < b)%Z → (0 ≤ secs mod b)%Z) by (intros; by apply Z.mod_pos_bound).
  repeat apply Forall_cons_2; [..|by apply Forall_nil_2]; cbn [fst];
    try apply Z.div_pos; auto with zarith.
Qed.
Lemma seconds_of_units secs : (0 ≤ secs)%Z → seconds_of (units_of secs) = secs.
Proof.
  intros Hs. unfold units_of. cbn [seconds_of fst snd].
  change (unit_seconds "d") with 86400%Z. change (unit_seconds "h") with 3600%Z.
  change (unit_seconds "m") with 60%Z. change (unit_seconds "s") with 1%Z.
  pose proof (Z.div_mod secs 86400). pose proof (Z.div_mod (secs mod 86400) 3600).
  pose proof (Z.div_mod (secs mod 3600) 60).
  assert (secs mod 86400 mod 3600 = secs mod 3600)%Z
    by (rewrite <-(Z.mod_mod_divide secs 86400 3600); [done|by exists 24%Z]).
  assert (secs mod 3600 mod 60 = secs mod 60)%Z
    by (rewrite <-(Z.mod_mod_divide secs 3600 60); [done|by exists 60%Z]).
  lia.
Qed.

(** An empty list of units is shown as zero seconds. *)
Definition displayed (us : list (Z * ascii)) : list (Z * ascii) :=
  match us with [] => [(0%Z, "s"%char)] | us => us end.
Lemma duration_label_units secs :
  duration_label secs = join " " (map unit_label (displayed (List.filter shown (units_of secs)))).
Proof. unfold duration_label, shown. by destruct (List.filter _ _). Qed.
Lemma displayed_no_space secs u : u ∈ displayed (List.filter shown (units_of secs)) → u.2 ≠ " "%char.
Proof.
  intros Hu. assert (Hin : u = (0%Z, "s"%char) ∨ u ∈ units_of secs).
  { destruct (List.filter _ _) as [|u0 us] eqn:E; cbn in Hu.
    - left. by apply list_elem_of_singleton in Hu.
    - right. rewrite <-E in Hu. apply list_elem_of_In, filter_In in Hu as [Hu _].
      by apply list_elem_of_In. }
  unfold units_of in Hin. rewrite !elem_of_cons, elem_of_nil in Hin.
  by destruct Hin as [->|[->|[->|[->|[->|[]]]]]].
Qed.
Lemma duration_label_inj a b : (0 ≤ a)%Z → (0 ≤ b)%Z → duration_label a = duration_label b → a = b.
Proof.
  intros Ha Hb. rewrite !duration_label_units. intros E.
  assert (Hs : ∀ n, split " " (join " " (map unit_label (displayed (List.filter shown (units_of n)))))
                    = map unit_label (displayed (List.filter shown (units_of n)))).
  { intros n. apply split_join; [destruct (List.filter shown (units_of n)); discriminate|].
    intros x (u & -> & Hu)%list_elem_of_fmap. apply unit_label_no_space.
    by eapply displayed_no_space. }
  apply (f_equal (split " ")) in E. rewrite !Hs in E.
  apply (inj (fmap unit_label)) in E.
  rewrite <-(seconds_of_units a), <-(seconds_of_units b) by done.
  rewrite <-(seconds_of_shown (units_of a)), <-(seconds_of_shown (units_of b))
    by by apply units_nonneg.
  apply (f_equal seconds_of) in E. unfold displayed in E.
  destruct (List.filter shown (units_of a)), (List.filter shown (units_of b)); exact E.
Qed.

(** ** The block of a request *)
Definition row_labelled (label : string) (rows : list row) : option row :=
  List.find (λ r, eqb (fst r) label) rows.
Definition shown_scope (m : Mechanism.t) (empty : bool) (label : string) (items : list string)
  : option row :=
  if negb empty || eqb m Mechanism.Brokered then Some (label, list_cells empty items) else None.
Lemma grant_block_scope m k line :
  let b := grant_block m k line in
  row_labelled "Origins" b
    = shown_scope m (is_empty (origins k)) "Origins" (map to_display (origins k))
  ∧ row_labelled "Methods" b
    = shown_scope m (is_empty (methods k)) "Methods" [join_with ", " (methods k)]
  ∧ row_labelled "Path prefixes" b
    = shown_scope m (is_empty (path_prefixes k)) "Path prefixes" (path_prefixes k)
  ∧ row_labelled "Lasts" b
    = Some ("Lasts", [Text (Z_to_string (ttl_seconds k) +:+ " seconds");
                      Text (duration_label (ttl_seconds k)); Text (uses_text m (max_uses k))]).
Proof.
  unfold grant_block, shown_scope.
  destruct (negb (is_empty (origins k)) || _), (negb (is_empty (methods k)) || _),
    (negb (is_empty (path_prefixes k)) || _); by repeat split.
Qed.

(** Two lists shown alike are both empty or hold the same items. *)
Lemma shown_scope_inj {A} m label (l l' : list A) (f : list A → list string) :
  shown_scope m (is_empty l) label (f l) = shown_scope m (is_empty l') label (f l') →
  l = [] ∧ l' = [] ∨ l ≠ [] ∧ l' ≠ [] ∧ f l = f l'.
Proof.
  unfold shown_scope. destruct l as [|x l], l' as [|y l']; cbn [is_empty negb orb list_cells].
  - by left.
  - destruct (eqb m _); [|done]. intros [= E]. destruct (f (y :: l')); done.
  - destruct (eqb m _); [|done]. intros [= E]. destruct (f (x :: l)); done.
  - intros [= E]. right. split; [done|]. split; [done|]. revert E.
    generalize (f (x :: l)) as s, (f (y :: l')) as t. clear.
    induction s as [|a s IH]; intros [|b t] E; try done. injection E as -> E. by rewrite (IH t).
Qed.

Section Shown.
Context `{UrlLib}.

Lemma map_inj_on {A B} (f : A → B) (P : A → Prop) l l' :
  (∀ x y, P x → P y → f x = f y → x = y) → Forall P l → Forall P l' → map f l = map f l' → l = l'.
Proof.
  intros Hf Hl. revert l'. induction Hl as [|x l Hx Hl IH]; intros [|y l'] Hl' E; try done.
  apply Forall_cons in Hl' as [Hy Hl']. injection E as E1 E2.
  by rewrite (Hf x y), (IH l').
Qed.

Lemma uses_text_inj m a b : uses_text m a = uses_text m b → a = b.
Proof.
  unfold uses_text. intros E. destruct a as [n|], b as [n'|]; [|destruct (Mechanism.is_releasing m);
    discriminate E|destruct (Mechanism.is_releasing m); discriminate E|done].
  assert (HE : ∀ n : Z, (if (n =? 1)%Z then " use" else " uses")
                        = String " " (if (n =? 1)%Z then "use" else "uses"))
    by (intros x; by destruct (x =? 1)%Z).
  assert (Hn : ∀ n, contains_char " " (Z_to_string n) = false).
  { intros x. pose proof (unit_label_no_space (x, "s"%char) ltac:(done)) as Hx.
    unfold unit_label in Hx. rewrite contains_char_app in Hx. by apply orb_false_iff in Hx as [? _]. }
  rewrite !HE in E. injection E as E. apply app_sep_inj in E as [E _]; [|done..].
  by apply Z_to_string_inj in E as ->.
Qed.

(** The operator sees what the server enforces.  Two requests as the server
    stores them whose blocks "What the server will enforce" read the same have
    the same mechanism and the same constraints: origins, methods and path
    prefixes in order, the exact number of seconds and the number of uses.  No
    limit is rounded and no part of the scope is left out. *)
Theorem grant_block_faithful m k line m' k' line' :
  normalized k → normalized k' →
  grant_block m k line = grant_block m' k' line' →
  m = m' ∧ k = k' ∧ line = line'.
Proof.
  intros Hk Hk' E. assert (Em : m = m' ∧ line = line').
  { injection E as -> Em _ _. split; [|done]. by destruct m, m'. }
  destruct Em as [<- <-]. split; [done|]. split; [|done].
  destruct (grant_block_scope m k line) as (Ho & Hm & Hp & Hl).
  destruct (grant_block_scope m k' line) as (Ho' & Hm' & Hp' & Hl'). cbv zeta in *.
  rewrite E, Ho' in Ho. rewrite E, Hm' in Hm. rewrite E, Hp' in Hp. rewrite E, Hl' in Hl.
  clear E Ho' Hm' Hp' Hl'.
  apply (shown_scope_inj _ _ _ _ (map to_display)) in Ho.
  apply (shown_scope_inj _ _ _ _ (λ l, [join_with ", " l])) in Hm.
  apply (shown_scope_inj _ _ _ _ id) in Hp.
  injection Hl as _ Ht Hu. apply uses_text_inj in Hu.
  pose proof (nk_ttl _ Hk). pose proof (nk_ttl _ Hk'). apply duration_label_inj in Ht; [|lia..].
  assert (Eo : origins k = origins k').
  { destruct Ho as [[-> ->]|(_ & _ & E)]; [done|].
    by eapply (map_inj_on to_display) in E; [|apply (to_display_inj url_host_str)|apply Hk'|apply Hk]. }
  assert (Hit : ∀ k, normalized k → ∀ x, x ∈ methods k →
    solid x = true ∧ contains_char "," x = false ∧ x ≠ "").
  { intros k0 Hn x Hx. apply valid_method_item. by destruct (nk_methods _ Hn x Hx). }
  assert (Emth : methods k = methods k').
  { destruct Hm as [[-> ->]|(_ & _ & [= E])]; [done|]. apply (f_equal (λ s, entries (split_fields s))) in E.
rewrite !fields_entries in E by by apply Hit. done. }
  assert (Ep : path_prefixes k = path_prefixes k') by by destruct Hp as [[-> ->]|(_ & _ & E)].
  destruct k, k'. cbn in *. by subst.
Qed.
End Shown.

(** ** Two requests that read alike *)
Import PrefillExample.
Lemma grant_block_faithful_witness :
  duration_label 5400 = "1h 30m" ∧ PrefillExample.stored = PrefillExample.stored.
Proof.
  split; [vm_compute; reflexivity|].
  assert (Hk : normalized PrefillExample.stored).
  { apply (validate_normalized PrefillExample.request); [vm_compute; reflexivity|].
    split; [|split; vm_compute; [by split|by split]]. apply Forall_singleton.
    split; [done|]. split; [by vm_compute|]. by vm_compute. }
  destruct (grant_block_faithful Mechanism.Brokered PrefillExample.stored [] Mechanism.Brokered
    PrefillExample.stored [] Hk Hk eq_refl) as (_ & E & _).
  exact E.
Defined.
