(* ===== verification/UiPages.v ===== *)
(** [server/src/ui/mod.rs]: the operator's GET pages: the overview, the pending
    requests, one request with its forms, the grants and the policies. *)

From S2P Require Import Prelude RustStr Types Json Crypto Examples SigV4 Http Injection Store.
From S2P Require Import Requests Grants Secrets UiExt Policies Clients Api ApiRequests Csrf Human Ui.
From S2P Require Import UiApprove FormText UiPolicies UiPrefill UiView.
Open Scope string_scope.

(** [impl IntoResponse for UiError]: the status and the page. *)
Record ErrorPage := mkErrorPage { ep_heading : string; ep_lede : string; ep_msg : string }.
Definition error_response (e : UiError) : Z * Page ErrorPage :=
  (err_status e,
   layout "Error"
     (mkErrorPage "Something went wrong" "The action was not carried out." (err_msg e))).

(** [security_headers]: set on every answer of the pages, errors included. *)
Definition security_headers `{HttpLib} (resp : HeaderMap) : HeaderMap :=
  headers_insert "content-security-policy"
    "default-src 'none'; style-src 'unsafe-inline'; frame-ancestors 'none'; form-action 'self'"
    (headers_insert "x-frame-options" "DENY"
       (headers_insert "cache-control" "no-store" resp)).

(** [ui_root] *)
Definition ui_root : UiResponse := Redirect "/".

(** [F_SECRET_PRESENT], [F_SUBSTITUTE] *)
Definition F_SECRET_PRESENT : string := "secret_present".
Definition F_SUBSTITUTE : string := "substitute_secret".

(** ** What the pages hold *)
Record OverviewPage := mkOverviewPage {
  ov_callout : option (string * string);   (* the alert and its link *)
  ov_calm : option string;
  ov_stats : list (string * string * string * bool);   (* href, name, value, alert *)
  ov_signed_in : string
}.
Record RequestLine := mkRequestLine {
  rl_client : string;
  rl_secret : string;
  rl_mechanism : Badge;
  rl_age : string;
  rl_href : string
}.
Record GrantLine := mkGrantLine {
  gl_client : string;
  gl_secret : string;
  gl_mechanism : Badge;
  gl_expires : string * string;
  gl_uses : string;
  gl_revoke : HtmlForm
}.
(** The fields of the approve form for a secret that is not stored. *)
Record EntryFields := mkEntryFields {
  ef_substitutes : option (list Choice);
  ef_value_label : string;
  ef_store_max_tier : string;
  ef_kinds : list Choice
}.
Record ApprovePage := mkApprovePage {
  ap_client : string;
  ap_age : string;
  ap_expires : string;
  ap_notice : option string;
  ap_grant : list row;
  ap_context : ContextBlock;
  ap_approve : HtmlForm;
  ap_entry : option EntryFields;
  ap_ttl_max : Z;
  ap_deny : HtmlForm;
  ap_policy_href : string
}.
Record ResolvedPage := mkResolvedPage {
  rp_client : string;
  rp_badge : Badge;
  rp_facts : list (string * string);
  rp_grant : list row;
  rp_context : ContextBlock;
  rp_policy_href : string
}.
Inductive DetailPage :=
| Resolved (p : ResolvedPage)
| CapElapsed (id : string)
| Approvable (p : ApprovePage).
(** What a policy row offers: the mark of a config row, or its edit link and
    delete form. *)
Inductive RowAction := FromConfig | Editable (edit_href : string) (delete : HtmlForm).
Record PolicyLine := mkPolicyLine {
  pl_client : Cell;
  pl_secret : Cell;
  pl_mechanism : Badge;
  pl_outcome : Badge;
  pl_conditions : option string;
  pl_by : string;
  pl_action : RowAction
}.
Record PoliciesPage := mkPoliciesPage {
  ps_rows : list PolicyLine;
  ps_new_open : bool;
  ps_prefilled_note : bool;
  ps_unvetted : list string;
  ps_form : PolicyFormView
}.
Record EditPolicyPage := mkEditPolicyPage {
  ed_created_by : string;
  ed_created : string * string;
  ed_unvetted : list string;
  ed_form : PolicyFormView
}.

(** ** The pages *)
Definition tier_or_unknown (max_tier : Z) : string :=
  match Tier.from_int max_tier with Some t => Tier.as_str t | None => "?" end.
Definition stored_cells (s : SecretRow) : list Cell :=
  [Text (sr_name s);
   Muted ("(stored, version " +:+ Z_to_string (sr_current_version s) +:+ ", max tier: "
          +:+ tier_or_unknown (sr_max_tier s) +:+ ")")].
(** The secret a resolved request released. *)
Definition released_line (secret : option SecretRow) (released requested : string) : list Cell :=
  match secret with Some s => stored_cells s | None => [Text released] end
  ++ (if eqb released requested then []
      else [Text ("(released in place of " +:+ requested +:+ ", which is not stored)")]).
(** The secret a pending request asks for. *)
Definition requested_line (secret : option SecretRow) (requested : string) : list Cell :=
  match secret with
  | Some s =>
      stored_cells s
      ++ (if sr_operator_vetted s then []
          else [Text "(deposited by a client — not yet reviewed by you)"])
  | None => [Text requested; Text "(NOT stored in Keychute — value required below)"]
  end.
Definition substitute_choice (s : SecretRow) : Choice :=
  mkChoice (substitute_option_value s)
    (sr_name s +:+ " (version " +:+ Z_to_string (sr_current_version s) +:+ ", max tier: "
     +:+ tier_or_unknown (sr_max_tier s)
     +:+ (if sr_operator_vetted s then "" else ", deposited by a client, unreviewed") +:+ ")")
    false.
Definition INJECTION_KINDS : list Choice :=
  [mkChoice "bearer" "bearer (Authorization: Bearer …)" true;
   mkChoice "header" "header (named header)" false;
   mkChoice "basic" "basic-password (Authorization: Basic)" false].
Definition entry_fields (mechanism : Mechanism.t) (substitutes : list SecretRow) : EntryFields :=
  mkEntryFields
    (if is_empty substitutes then None
     else Some (mkChoice "" "— none: enter the value below —" true
                :: map substitute_choice substitutes))
    (if is_empty substitutes then "Secret value" else "Or enter the secret value")
    (Tier.as_str (Mechanism.tier mechanism)) INJECTION_KINDS.

Section Pages.
Context `{UuidText, Primitives, !FormLib, JoseLib, HttpLib, UrlLib, !OriginLib, SigText, JsonBytes,
  !ContextText, PageText, FormUrlEncoded, DateTimeText}.

(** A form token for the operator, as the page renders it. *)
Definition page_token (st : AppState) (v : Visit) (op : Operator)
    (route action_id form_state : string) : string :=
  issue_token (st_keyset st) (mkBinding route action_id (subject op) form_state) (v_wall v).

(** [GET /] *)
Definition overview_page (st : AppState) (v : Visit) : Handler UiError (Page OverviewPage) :=
  op ← lift (operator st v);
  pending ← query (λ now d, count_pending now d);
  grants ← query (λ now d, count_active_grants now (replay_window_seconds (limits (st_config st))) d);
  policies ← query (λ _ d, count_policies d);
  secrets ← query (λ _ d, count_secrets d);
  mret (html_page_at "Overview" "/" (mkOverviewPage
    (if (0 <? pending)%Z
     then Some (Z_to_string pending
                +:+ (if (pending =? 1)%Z then " request is" else " requests are")
                +:+ " waiting for your decision.", "/ui/requests")
     else None)
    (if (0 <? pending)%Z then None else Some "Nothing is waiting for your decision.")
    [("/ui/requests", "Requests", Z_to_string pending +:+ " pending", (0 <? pending)%Z);
     ("/ui/grants", "Grants", Z_to_string grants +:+ " active", false);
     ("/ui/policies", "Policies", Z_to_string policies, false);
     ("/ui/secrets", "Secrets", Z_to_string secrets +:+ " stored", false)]
    (subject op))).

(** [GET /ui/requests] *)
Definition request_line (now : DateTime) (r : AccessRequestRow) : RequestLine :=
  mkRequestLine (ar_client_name r) (ar_secret_name r) (mechanism_badge (ar_mechanism r))
    (age_label (ar_created_at r) now) ("/ui/requests/" +:+ uuid_display (ar_id r)).
Definition requests_page (st : AppState) (v : Visit)
  : Handler UiError (Page (list RequestLine)) :=
  _ ← lift (operator st v);
  now ← query (λ now _, now);
  pending ← query (λ _ d, list_pending d);
  let rows := List.filter (λ r, (now <? ar_expires_at r)%Z) pending in
  mret (html_page_at "Pending requests" "/ui/requests" (map (request_line now) rows)).

(** [GET /ui/requests/{id}] *)
Definition substitute_candidates (mechanism : Mechanism.t) : Handler UiError (list SecretRow) :=
  all ← query (λ _ d, list_secrets d);
  mret (List.filter (λ s, sr_enabled s
                          && (Tier.as_int (Mechanism.tier mechanism) <=? sr_max_tier s)%Z) all).

Definition resolved_facts (r : AccessRequestRow) (now : DateTime) : list (string * string) :=
  [("Age", "Created " +:+ age_label (ar_created_at r) now +:+ " ago")]
  ++ match ar_resolved_by r with Some by_ => [("Resolved by", by_)] | None => [] end
  ++ match ar_resolved_at r with Some t => [("Resolved at", format_utc t)] | None => [] end
  ++ match ar_deny_reason r with Some s => [("Deny reason", s)] | None => [] end.
Definition state_badge (label : string) : Badge :=
  mkBadge (if eqb label "approved" then "badge badge-ok"
           else if eqb label "denied" then "badge badge-danger" else "badge badge-warn") None label.

Definition render_resolved (st : AppState) (r : AccessRequestRow) (now : DateTime)
  : Handler UiError (Page DetailPage) :=
  let label := if is_pending r then "expired" else ar_state r in
  mechanism ← lift (parse_mechanism (ar_mechanism r));
  k ← lift (parse_constraints r);
  grant ← query (λ _ d, get_grant_for_request (ar_id r) d);
  let released := match grant with Some g => g_secret_name g | None => ar_secret_name r end in
  secret ← query (λ _ d, get_secret_by_name released d);
  let context := decrypt_context st r in
  mret (html_page_at "Request resolved" "/ui/requests" (Resolved (mkResolvedPage
    (ar_client_name r) (state_badge label) (resolved_facts r now)
    (grant_block mechanism k (released_line secret released (ar_secret_name r)))
    (context_block context mechanism)
    (new_policy_href (ar_client_name r) released mechanism k)))).

(** The page of a request that can be decided. *)
Definition approvable_page (st : AppState) (v : Visit) (op : Operator) (r : AccessRequestRow)
    (now : DateTime) (notice : option string) (mechanism : Mechanism.t) (k : Constraints)
    (secret : option SecretRow) (substitutes : list SecretRow) : ApprovePage :=
  let id := uuid_display (ar_id r) in
  let marker := secret_state_marker secret in
  mkApprovePage (ar_client_name r) (age_label (ar_created_at r) now) (format_utc (ar_expires_at r))
    notice (grant_block mechanism k (requested_line secret (ar_secret_name r)))
    (context_block (decrypt_context st r) mechanism)
    (mkHtmlForm ("/ui/requests/" +:+ id +:+ "/approve")
       [hidden_token (page_token st v op R_APPROVE id marker); (F_SECRET_PRESENT, marker)])
    (if is_none secret then Some (entry_fields mechanism substitutes) else None)
    (ttl_seconds k)
    (mkHtmlForm ("/ui/requests/" +:+ id +:+ "/deny")
       [hidden_token (page_token st v op R_DENY id "")])
    (new_policy_href (ar_client_name r) (ar_secret_name r) mechanism k).

Definition render_request_detail (st : AppState) (v : Visit) (op : Operator)
    (r : AccessRequestRow) (now : DateTime) (notice : option string)
  : Handler UiError (Page DetailPage) :=
  if negb (is_pending r) || (ar_expires_at r <=? now)%Z then render_resolved st r now
  else if policy_cap_elapsed (ar_policy_not_after r) now
  then mret (html_page_at "Request no longer approvable" "/ui/requests"
               (CapElapsed (uuid_display (ar_id r))))
  else
    mechanism ← lift (parse_mechanism (ar_mechanism r));
    k ← lift (parse_constraints r);
    secret ← query (λ _ d, get_secret_by_name (ar_secret_name r) d);
    substitutes ← match secret with
                  | Some _ => mret []
                  | None => substitute_candidates mechanism
                  end;
    mret (html_page_at "Approve request" "/ui/requests"
            (Approvable (approvable_page st v op r now notice mechanism k secret substitutes))).

Definition request_detail_page (st : AppState) (v : Visit) (id : Uuid)
  : Handler UiError (Page DetailPage) :=
  op ← lift (operator st v);
  r ← query (λ _ d, get_request id d);
  r ← lift (ok_or r (mkUiError NOT_FOUND "no such request"));
  now ← query (λ now _, now);
  render_request_detail st v op r now None.

(** [GET /ui/grants] *)
Definition grant_line (st : AppState) (v : Visit) (op : Operator) (db_now : DateTime)
    (g : GrantRow) : GrantLine :=
  let id := uuid_display (g_id g) in
  mkGrantLine (g_client_name g) (g_secret_name g) (mechanism_badge (g_mechanism g))
    (relative_time (g_not_after g) db_now)
    (Z_to_string (g_use_count g)
     +:+ match g_max_uses g with Some m => " / " +:+ Z_to_string m | None => " / unlimited" end)
    (mkHtmlForm ("/ui/grants/" +:+ id +:+ "/revoke")
       [hidden_token (page_token st v op R_REVOKE id "")]).
Definition grants_page (st : AppState) (v : Visit) : Handler UiError (Page (list GrantLine)) :=
  op ← lift (operator st v);
  db_now ← query (λ now _, now);
  grants ← query (λ now d,
    list_active_grants now (replay_window_seconds (limits (st_config st))) d);
  mret (html_page_at "Active grants" "/ui/grants" (map (grant_line st v op db_now) grants)).

(** [GET /ui/policies] *)
Definition policy_pickers : Handler UiError PolicyPickers :=
  clients ← query (λ _ d, list_clients d);
  secrets ← query (λ _ d, list_secrets d);
  tags ← query (λ _ d, list_secret_tags d);
  mret (mkPolicyPickers
    (map (λ c, (cl_name c, cl_name c)) (List.filter cl_enabled clients))
    (map (λ s, (sr_name s, if sr_operator_vetted s then sr_name s
                           else sr_name s +:+ " (not reviewed)")) secrets)
    (map (λ t, (t, t)) tags)).

Definition policy_line (st : AppState) (v : Visit) (op : Operator) (p : PolicyRow) : PolicyLine :=
  let id := uuid_display (po_id p) in
  mkPolicyLine
    (match po_client_name p with Some c => Text c | None => Muted "any" end)
    (match po_secret_name p, po_secret_tag p with
     | Some s, _ => Text s
     | None, Some t => Text ("tag:" +:+ t)
     | None, None => Muted "any"
     end)
    (mechanism_badge (po_mechanism p)) (policy_outcome_badge (po_outcome p))
    (match policy_conditions p with [] => None | cs => Some (join_with " · " cs) end)
    ("by " +:+ po_created_by p)
    (if po_managed_by_config p then FromConfig
     else Editable ("/ui/policies/" +:+ id +:+ "/edit")
            (mkHtmlForm ("/ui/policies/" +:+ id +:+ "/delete")
               [hidden_token (page_token st v op R_POLICY_DELETE id "")])).
Definition policies_page (st : AppState) (v : Visit) (prefill : PolicyPrefill)
  : Handler UiError (Page PoliciesPage) :=
  op ← lift (operator st v);
  policies ← query (λ _ d, list_policies d);
  pickers ← policy_pickers;
  let prefilled := negb (prefill_is_empty prefill) in
  let values := from_prefill prefill in
  unvetted ← query (λ _ d, list_unvetted_secret_names d);
  let create_token := page_token st v op R_POLICY_CREATE "" "" in
  mret (html_page_at "Policies" "/ui/policies" (mkPoliciesPage
    (map (policy_line st v op) policies) (is_empty policies || prefilled) prefilled unvetted
    (policy_form_view "/ui/policies" create_token "Create policy" values pickers None))).

(** [GET /ui/policies/{id}/edit] *)
Definition editable_policy (id : Uuid) : Handler UiError PolicyRow :=
  policies ← query (λ _ d, list_policies d);
  p ← lift (ok_or (List.find (λ p, eqb (po_id p) id) policies)
              (mkUiError NOT_FOUND "no such policy"));
  _ ← lift (fail_if po_managed_by_config p with mkUiError CONFLICT MANAGED_POLICY; Ok tt);
  mret p.
Definition edit_policy_page (st : AppState) (v : Visit) (id : Uuid)
  : Handler UiError (Page EditPolicyPage) :=
  op ← lift (operator st v);
  policy ← editable_policy id;
  pickers ← policy_pickers;
  unvetted ← query (λ _ d, list_unvetted_secret_names d);
  let token := page_token st v op R_POLICY_UPDATE (uuid_display id) "" in
  mret (html_page_at "Edit policy" "/ui/policies" (mkEditPolicyPage
    ("Created by " +:+ po_created_by policy) (relative_time (po_created_at policy) (v_wall v))
    unvetted
    (policy_form_view ("/ui/policies/" +:+ uuid_display id) token "Save changes"
       (from_row policy) pickers (Some "/ui/policies")))).
End Pages.
