(* ===== verification/UiDecide.v ===== *)
(** [server/src/ui/mod.rs]: the operator's decision and the page it was made on.
    What an approval grants is what its page showed; a page's own buttons work. *)

From S2P Require Import Prelude RustStr RustText Types Json Crypto Examples SigV4 Http Injection Store Requests Grants.
From S2P Require Import ApiExt Secrets UiExt Policies Clients Lifecycle Refinement Safety Api ApiRequests Csrf.
From S2P Require Import Human Ui UiApprove FormText UiPolicies UiPrefill UiView UiPages.
From S2P Require Policy.
Open Scope string_scope.

Section Decide.
Context `{UuidText, Primitives, !FormLib, JoseLib, HttpLib, UrlLib, !OriginLib, SigText, JsonBytes,
  !ContextText, PageText, FormUrlEncoded, DateTimeText}.

(** ** Running a page *)
Lemma substitute_candidates_later env m n w l n' w' :
  env_ok env → substitute_candidates m env (n, w) = (Ok l, (n', w')) → later w w'.
Proof.
  intros Henv HH. unfold substitute_candidates in HH. api_query HH Henv found w1 Hl.
  by apply ret_Ok in HH as [_ [= _ ->]].
Qed.

(** A page that offers a decision: what it was rendered from. *)
Lemma detail_run env st v id n w pg n' w' p :
  env_ok env →
  request_detail_page st v id env (n, w) = (Ok pg, (n', w')) → pg_body pg = Approvable p →
  ∃ op r now m k secret subs wr ws,
    operator st v = Ok op ∧ later w wr ∧ access_requests wr.2 !! id = Some r
    ∧ is_pending r = true ∧ (now < ar_expires_at r)%Z
    ∧ policy_cap_elapsed (ar_policy_not_after r) now = false
    ∧ Mechanism.from_str_opt (ar_mechanism r) = Some m
    ∧ Constraints_of_value url_host_str (ar_constraints r) = Some k
    ∧ later wr ws ∧ secret = get_secret_by_name (ar_secret_name r) ws.2 ∧ later ws w'
    ∧ p = approvable_page st v op r now None m k secret subs.
Proof.
  intros Henv HH Hb. unfold request_detail_page in HH.
  api_lift HH oper Hop. api_query HH Henv found wr Hlr. api_lift HH r Hr. apply ok_or_Ok in Hr.
  api_query HH Henv now wt Hlt. unfold render_request_detail in HH.
  destruct (negb (is_pending r) || _) eqn:Ep.
  { exfalso. unfold render_resolved in HH. api_lift HH m Hm. api_lift HH k Hk.
    api_query HH Henv g wg Hlg. api_query HH Henv s ws Hls. apply ret_Ok in HH as [-> _]. done. }
  apply orb_false_iff in Ep as [Ep Hexp]. apply negb_false_iff in Ep. apply Z.leb_gt in Hexp.
  destruct (policy_cap_elapsed _ _) eqn:Ec; [by apply ret_Ok in HH as [-> _]|].
  api_lift HH m Hm. apply ok_or_Ok in Hm. api_lift HH k Hk. apply ok_or_Ok in Hk.
  api_query HH Henv secret ws Hls.
  apply Api_bind_Ok in HH as (subs & [n5 w5] & Hsub & HH).
  apply ret_Ok in HH as [-> [= -> ->]]. injection Hb as <-.
  exists oper, r, wt.1, m, k, (get_secret_by_name (ar_secret_name r) ws.2), subs, wr, ws.
  split_and!; try done; [by etrans|].
  destruct (get_secret_by_name _ _).
  - by apply ret_Ok in Hsub as [_ [= _ ->]].
  - by eapply substitute_candidates_later.
Qed.

(** ** What was shown is what is granted *)
Lemma request_same w w' id r r' :
  world_reachable w → later w w' →
  access_requests w.2 !! id = Some r → access_requests w'.2 !! id = Some r' →
  request_identity r = request_identity r'.
Proof.
  intros Hw%world_inv Hl Hr Hr'. pose proof (later_evolves _ _ Hw Hl) as He.
  destruct (ev_requests _ _ He _ _ Hr) as (r2 & Hr2 & Hle). rewrite Hr' in Hr2.
  injection Hr2 as <-. apply Hle.
Qed.

(** No NUL byte: the separator of the token's fields. *)
Definition subject_plain (op : Operator) : Prop := contains_char NUL (subject op) = false.
Lemma uuid_no_nul id : contains_char NUL (uuid_display id) = false.
Proof.
  apply (contains_char_excluded uuid_char); [done|]. apply uuid_display_chars.
Qed.
Lemma form_binding_plain route id op state :
  contains_char NUL route = false → subject_plain op →
  binding_plain (mkBinding route (uuid_display id) (subject op) state).
Proof. intros. split_and!; [done|apply uuid_no_nul|done]. Qed.

(** The two bindings' tags of one expiry are told apart by HMAC. *)
Definition no_collision (ks : Keyset) (b b' : Binding) (t : DateTime) : Prop :=
  let expiry := (timestamp t + CSRF_TTL_SECONDS)%Z in
  csrf_mac ks (mac_input b expiry) = csrf_mac ks (mac_input b' expiry) →
  mac_input b expiry = mac_input b' expiry.

(** The secret a page showed against what an approval made on it releases. *)
Definition released_as_shown (secret : option SecretRow) (form : ApproveForm) (w : World)
    (g : GrantRow) : Prop :=
  match secret with
  | Some s0 =>
      g_secret_name g = sr_name s0 ∧ g_passthrough_ciphertext g = None
      ∧ ∃ wq s, later w wq ∧ get_secret_by_name (sr_name s0) wq.2 = Some s
          ∧ sr_current_version s = sr_current_version s0 ∧ sr_enabled s = true
  | None => is_Some (non_empty (af_substitute_secret form)) ∨ is_Some (af_secret_value form)
  end.

Lemma chosen_as_shown st fresh form w r m eff now rel gid id ttl uses t secret (ws : World) :
  secret = get_secret_by_name (ar_secret_name r) ws.2 →
  marker form (secret_state_marker secret) →
  chosen st fresh form w r m eff now rel →
  released_as_shown secret form w
    (new_grant_row gid id t (approval_grant r ttl uses now rel)).
Proof.
  intros Hs Hm Hc. unfold released_as_shown.
  assert (Hn : ∀ s, secret = Some s → sr_name s = ar_secret_name r).
  { intros s Hs'. rewrite Hs' in Hs. symmetry in Hs. apply find_row_Some in Hs as [_ Hn]. by kbool. }
  destruct secret as [s0|].
  - specialize (Hn s0 eq_refl). unfold marker in *. rewrite Hn.
    destruct Hc as [s wq Hl Hs' Hv [He _]|? ? ? ? ? ? ? ? ? Hv|? ? ? ? ? Hv|? ? Hv];
      unfold marker in Hv; rewrite Hm in Hv; try discriminate Hv.
    split; [done|]. split; [done|]. exists wq, s. split_and!; try done.
    cbn in Hv. injection Hv as Hv. by apply Z_to_string_inj in Hv.
  - destruct Hc as [s wq Hl Hs' Hv|? ? ? ? ? ? ? ? ? Hv Hsub|? ? ? ? ? Hv Hval|? ? Hv Hval];
      unfold marker in *; rewrite Hm in Hv; [discriminate Hv|left; by eexists|right; by eexists..].
Qed.


(** ** A page's own buttons *)

(** The page's form as a browser submits it when nothing is filled in. *)
Definition submit_approve (p : ApprovePage) : ApproveForm :=
  let fill := if ap_entry p then Some "" else None in
  mkApproveForm (default "" (hidden_field "csrf_token" (ap_approve p)))
    (hidden_field F_SECRET_PRESENT (ap_approve p)) (Some "") (Some "") fill
    (e ← ap_entry p; submitted_choice <$> ef_substitutes e) None
    (ef_store_max_tier <$> ap_entry p)
    ((λ e, submitted_choice (ef_kinds e)) <$> ap_entry p) fill fill.

(** A token a page rendered, used by the same operator while it lives. *)
Lemma page_token_guard st v v' op op' route id state :
  operator st v' = Ok op' → subject op' = subject op →
  browser_metadata_ok (external_url (st_config st)) (st_tls st) (v_headers v') = true →
  is_i64 (timestamp (v_wall v) + CSRF_TTL_SECONDS) →
  (timestamp (v_wall v) ≤ timestamp (v_wall v') < timestamp (v_wall v) + CSRF_TTL_SECONDS)%Z →
  guard_post st v' route id state (page_token st v op route id state) = Ok op'.
Proof.
  intros Hop Hs Hm Hi Ht. unfold guard_post. rewrite Hop. cbn [mbind result_bind].
  unfold check_post. rewrite Hm. cbn [negb]. rewrite Hs. unfold page_token.
  by rewrite issued_verifies.
Qed.

Lemma approve_stored_alone now vid rid by_ gid gp d r sid s :
  access_requests d !! rid = Some r → ar_id r = rid → live_pending now r = true →
  (now < gp_not_after gp)%Z → gp_passthrough gp = None →
  gp_secret_id gp = Some sid → secrets d !! sid = Some s → sr_name s = gp_secret_name gp →
  grants d !! gid = None → (∀ k g, grants d !! k = Some g → g_request_id g ≠ rid) →
  ∃ d', approve_request now vid rid by_ gid gp None d = Ok (ApproveOutcome.Approved gid, d')
    ∧ grants d' !! gid = Some (new_grant_row gid rid now gp).
Proof.
  intros Hr Hid Hl Hn Hp Hsid Hs Hname Hg Hnone. unfold approve_request, same_row.
  rewrite Hp, Hsid. unfold secret_incarnation_exists. rewrite Hs, Hname, eqb_refl. cbn [negb andb is_none].
  unfold guarded_request. rewrite Hr, Hl. rewrite (proj2 (Z.ltb_lt _ _) Hn). cbn [andb].
  cbn [store_with_approval mbind result_bind]. unfold insert_grant. cbn [g_id g_request_id new_grant_row].
  change (grants (put_request (set_approved by_ now r) d)) with (grants d).
  rewrite Hg. cbn [is_some].
  rewrite (proj2 (exists_row_false _ _)).
  2:{ intros k g Hk. unfold eqb. by apply bool_decide_eq_false_2, (Hnone k). }
  cbn [access_requests put_request with_access_requests]. change (ar_id (set_approved by_ now r)) with (ar_id r).
  rewrite Hid, lookup_insert_eq. cbn [is_none result_bind mbind]. eexists. split; [done|]. cbn. by rewrite lookup_insert_eq.
Qed.

(** The marker of a stored secret, as the handler reads it back. *)
Lemma marker_field s : non_empty (Some (secret_state_marker (Some s))) = Some (secret_state_marker (Some s)).
Proof.
  apply solid_field; [|done]. apply solid_all_low.
  change (secret_state_marker (Some s)) with (String "1" (String ":" (Z_to_string (sr_current_version s)))).
  cbn [all_bytes]. by destruct (Z_to_string_low (sr_current_version s)) as [-> _].
Qed.
Lemma marker_parses s :
  (- i32_MAX - 1 ≤ sr_current_version s ≤ i32_MAX)%Z →
  parse_secret_present (Some (secret_state_marker (Some s))) = Some true.
Proof.
  intros Hv. unfold parse_secret_present. cbn [mbind option_bind secret_state_marker].
  change (eqb ("1:" +:+ Z_to_string (sr_current_version s)) "0") with false. cbv iota.
  rewrite strip_prefix_app. cbn [mbind option_bind]. unfold parse_i32.
  by rewrite parse_int_Z_to_string.
Qed.

Lemma deadline_ahead cap now ttl :
  policy_cap_elapsed cap now = false → (1 ≤ ttl ≤ i64_MAX)%Z →
  (now < cap_at cap (now + seconds (as_i64 ttl)))%Z.
Proof.
  intros Hc Ht. unfold as_i64. rewrite (proj2 (Z.leb_le _ _)) by lia.
  assert (now < now + seconds ttl)%Z by (unfold seconds, second; lia).
  destruct cap as [c|]; cbn in *; [|done]. apply Z.leb_gt in Hc. lia.
Qed.

(** The Approve button works.  A page that shows a stored secret, submitted
    as it is by its operator from the site within fifteen minutes, while the
    request can still be decided and the secret is enabled, of the version shown
    and allowed for the mechanism, approves: with no other handler in between the
    answer is the redirect, and the grant is for that secret, the whole requested
    lifetime under the policy's cap, and the requested uses. *)
Theorem approve_button_works env st v v' fresh id n w0 pg n1 w1 p n2 (w2 : World) op op' r m k s :
  env_ok env → world_reachable w0 → later w1 w2 →
  request_detail_page st v id env (n, w0) = (Ok pg, (n1, w1)) → pg_body pg = Approvable p →
  hidden_field F_SECRET_PRESENT (ap_approve p) = Some (secret_state_marker (Some s)) →
  operator st v = Ok op → operator st v' = Ok op' → subject op' = subject op →
  browser_metadata_ok (external_url (st_config st)) (st_tls st) (v_headers v') = true →
  is_i64 (timestamp (v_wall v) + CSRF_TTL_SECONDS) →
  (timestamp (v_wall v) ≤ timestamp (v_wall v') < timestamp (v_wall v) + CSRF_TTL_SECONDS)%Z →
  access_requests w2.2 !! id = Some r → live_pending w2.1 r = true →
  policy_cap_elapsed (ar_policy_not_after r) w2.1 = false →
  Mechanism.from_str_opt (ar_mechanism r) = Some m →
  Constraints_of_value url_host_str (ar_constraints r) = Some k →
  (1 ≤ ttl_seconds k ≤ i64_MAX)%Z →
  get_secret_by_name (ar_secret_name r) w2.2 = Some s → sr_enabled s = true →
  (- i32_MAX - 1 ≤ sr_current_version s ≤ i32_MAX)%Z →
  (Tier.as_int (Mechanism.tier m) ≤ sr_max_tier s)%Z →
  grants w2.2 !! fr_grant fresh = None →
  ∃ n3 w3 g,
    approve st v' fresh id (submit_approve p) alone (n2, w2)
      = (Ok (Redirect "/ui/requests"), (n3, w3))
    ∧ grants w3.2 !! fr_grant fresh = Some g
    ∧ g_secret_name g = ar_secret_name r ∧ g_passthrough_ciphertext g = None
    ∧ g_not_after g = cap_at (ar_policy_not_after r) (w2.1 + seconds (ttl_seconds k))
    ∧ g_max_uses g = Z.min i32_MAX <$> base_uses m k.
Proof.
  intros Henv Hw Hl12 Hpage Hbody Hshown Hop Hop' Hsub Hmeta Hi Ht Hr Hlive Hcap Hm Hk Httl Hs Hen
    Hver Htier Hfresh.
  destruct (detail_run _ _ _ _ _ _ _ _ _ _ Henv Hpage Hbody)
    as (op1 & r0 & now & m0 & k0 & secret & subs & wr & ws & Hop1 & Hlr & Hr0 & _ & _ & _ & _ & _
        & Hls & _ & Hl1 & ->).
  rewrite Hop in Hop1. injection Hop1 as <-.
  assert (Hwr : world_reachable wr) by by eapply reachable_later.
  assert (Hw2 : world_reachable w2)
    by (eapply reachable_later; [exact Hwr|]; etrans; [exact Hls|]; by etrans).
  pose proof (request_at _ _ _ (inv_wf _ _ (world_inv _ Hwr)) Hr0) as Hid0.
  pose proof (inv_wf _ _ (world_inv _ Hw2)) as Hwf.
  pose proof (request_at _ _ _ Hwf Hr) as Hid.
  apply get_secret_by_name_Some in Hs as Hs'; [|done]. destruct Hs' as [Hsid Hname].
  apply (inj Some) in Hshown as Hmark. destruct secret as [s0|]; [|discriminate Hmark].
  set (form := submit_approve _).
  assert (Hform : form = mkApproveForm
    (page_token st v op R_APPROVE (uuid_display id) (secret_state_marker (Some s)))
    (Some (secret_state_marker (Some s))) (Some "") (Some "") None None None None None None None)
    by (unfold form; rewrite <-Hmark, <-Hid0; done).
  rewrite Hform. clear form Hform. unfold approve. cbn [af_secret_present af_csrf_token af_ttl_seconds
    af_max_uses]. rewrite marker_field. cbv zeta. cbn [default].
  erewrite lift_run by by eapply page_token_guard.
  erewrite lift_run by by rewrite marker_parses.
  rewrite query_run. unfold get_request. rewrite Hr. erewrite lift_run by done.
  rewrite query_run. erewrite lift_run.
  2:{ apply andb_true_iff in Hlive as [Hp He%Z.ltb_lt]. unfold check_approvable.
      rewrite Hp, (proj2 (Z.leb_gt _ _)) by done. cbn [negb orb]. by rewrite Hcap. }
  erewrite lift_run by (unfold parse_mechanism; by rewrite Hm).
  erewrite lift_run by (unfold parse_constraints; by rewrite Hk).
  erewrite lift_run by done. erewrite lift_run by done.
  rewrite query_run. rewrite Hs, eqb_refl. cbn [negb].
  erewrite bind_run.
  2:{ unfold choose_release. cbn [af_secret_value af_substitute_secret af_store_secret is_some].
      erewrite lift_run by done. cbn [take_secret_value non_empty mbind option_bind].
      erewrite lift_run; [done|]. unfold stored_release. rewrite Hen.
      rewrite (proj2 (Z.ltb_ge _ _)) by done. done. }
  cbv beta iota.
  destruct (approve_stored_alone w2.1 (fr_version fresh) id (subject op') (fr_grant fresh)
    (approval_grant r (ttl_seconds k) (base_uses m k) w2.1
       (mkRelease (ar_secret_name r) (Some (sr_id s)) None None None)) w2.2 r (sr_id s) s)
    as (d' & Hd & Hg); try done.
  - by apply deadline_ahead.
  - intros gid g Hg Hgr. apply live_pending_state in Hlive.
    pose proof (proj2 (inv_grant _ _ (world_inv _ Hw2) _ _ Hr)) as Ha.
    rewrite Hlive in Ha. discriminate Ha. by exists gid, g.
  - erewrite transact_run by exact Hd. do 3 eexists. split; [done|]. split; [exact Hg|].
    split_and!; try done. cbn. unfold as_i64. rewrite (proj2 (Z.leb_le _ _)) by lia. done.
Qed.
End Decide.

(** ** A page, and the approval made on it *)
Module PageExample.
Import ApiExample RequestExample HumanExample CsrfExample ApproveExample PrefillExample.
#[export] Existing Instance uuid_text_example.
#[export] Existing Instance CryptoExample.primitives.
#[export] Existing Instance CsrfExample.forms.
#[export] Existing Instance HumanExample.jose.
#[export] Existing Instance HttpExample.http.
#[export] Existing Instance HttpExample.url.
#[export] Existing Instance ApproveExample.origin_lib.
#[export] Existing Instance SigExample.text.
#[export] Existing Instance RequestExample.bytes.
#[export] Existing Instance PrefillExample.urlencoded.
#[export] Instance contexts : ContextText := {|
  context_from_slice := λ s, Some (Types.mkRequestContext s None)
|}.
#[export] Instance texts : PageText := {|
  format_utc := Z_to_string; format_utc_minutes := Z_to_string; to_string_pretty := λ _, None
|}.
Definition shown_to : Visit :=
  mkVisit [("authorization", "Bearer token"); ("origin", "https://kc")] (seconds 25) published ∅.
Definition run : result UiError (Page DetailPage) * St :=
  request_detail_page ApproveExample.state shown_to 10 alone (0, ApproveExample.start).
Definition page : Page DetailPage := Eval vm_compute in
  match run.1 with Ok pg => pg | Err _ => mkPage "" [] (CapElapsed "") end.
Definition decision : option ApprovePage := Eval vm_compute in
  match pg_body page with Approvable p => Some p | _ => None end.
Definition row_shown : AccessRequestRow := Eval vm_compute in
  default (new_request_row 0 0 (ApiExample.asked "" Null) None)
    (get_request 10 ApproveExample.start.2).
Definition secret_shown : SecretRow := Eval vm_compute in
  default (mkSecretRow 0 "" "" 0 "" None None 0 false false false 0 0)
    (get_secret_by_name "example-api-token" ApproveExample.start.2).
End PageExample.
Import PageExample.


Lemma approve_button_works_witness :
  ∃ n3 w3 g,
    approve ApproveExample.state ApproveExample.visit ApproveExample.fresh 10
      (default ApproveExample.form (submit_approve <$> PageExample.decision)) alone
      (0, ApproveExample.start) = (Ok (Redirect "/ui/requests"), (n3, w3))
    ∧ grants w3.2 !! 20%N = Some g ∧ g_max_uses g = Some 1%Z.
Proof.
  destruct PageExample.decision as [p|] eqn:Ed; [|discriminate Ed].
  injection Ed as Ep. cbn [fmap option_fmap option_map default].
  destruct (approve_button_works alone ApproveExample.state PageExample.shown_to
    ApproveExample.visit ApproveExample.fresh 10 0 ApproveExample.start
    PageExample.page PageExample.run.2.1 ApproveExample.start p 0 ApproveExample.start
    (mkOperator "alice") (mkOperator "alice") PageExample.row_shown Mechanism.CliRead
    ApproveExample.bounds PageExample.secret_shown alone_ok ApproveExample.start_reachable
    (rtc_refl _ _)) as (n3 & w3 & g & E & Hg & _ & _ & _ & Hu).
  - vm_compute. reflexivity.
  - rewrite <-Ep. reflexivity.
  - rewrite <-Ep. vm_compute. reflexivity.
  - vm_compute. reflexivity.
  - vm_compute. reflexivity.
  - reflexivity.
  - vm_compute. reflexivity.
  - split; vm_compute; congruence.
  - split; vm_compute; congruence.
  - vm_compute. reflexivity.
  - vm_compute. reflexivity.
  - vm_compute. reflexivity.
  - vm_compute. reflexivity.
  - vm_compute. reflexivity.
  - split; vm_compute; congruence.
  - vm_compute. reflexivity.
  - vm_compute. reflexivity.
  - split; vm_compute; congruence.
  - vm_compute. congruence.
  - vm_compute. reflexivity.
  - exists n3, w3, g. split; [exact E|]. split; [exact Hg|exact Hu].
Defined.
