(* ===== verification/UiPageFacts.v ===== *)
(** [server/src/ui/mod.rs]: facts about the operator's pages: the counts of the
    overview against the lists, the client's context as it comes back from
    storage, and what a resolved request's page says was released. *)

From S2P Require Import Prelude RustStr Types Json Crypto Examples SigV4 Http Injection Store Requests Grants.
From S2P Require Import Secrets UiExt Policies Clients Lifecycle Refinement Safety Api ApiRequests Csrf.
From S2P Require Import Human Ui UiApprove FormText UiPolicies UiPrefill UiView UiPages UiDecide.
Open Scope string_scope.

Section Facts.
Context `{UuidText, Primitives, !FormLib, JoseLib, HttpLib, UrlLib, !OriginLib, SigText, JsonBytes,
  !ContextText, PageText, FormUrlEncoded, DateTimeText}.

(** ** Counts and lists *)
Lemma filter_perm_length {A} (f : A → bool) l l' :
  l ≡ₚ l' → List.length (List.filter f l) = List.length (List.filter f l').
Proof.
  induction 1 as [|x l l' _ IH|x y l|l l' l'' _ IH1 _ IH2]; cbn; [done| | |congruence].
  - destruct (f x); cbn; by rewrite IH.
  - by destruct (f x), (f y).
Qed.
Lemma filter_and {A} (f g : A → bool) l :
  List.filter g (List.filter f l) = List.filter (λ x, f x && g x) l.
Proof.
  induction l as [|x l IH]; [done|]. cbn. destruct (f x); cbn; [|done]. destruct (g x); by rewrite IH.
Qed.
Lemma pending_counted now d :
  Z.of_nat (List.length (List.filter (λ r, (now <? ar_expires_at r)%Z) (list_pending d)))
  = count_pending now d.
Proof.
  unfold list_pending, count_pending, count_rows. f_equal.
  rewrite (filter_perm_length _ _ _ (sort_by_key_perm _ _)). unfold select. by rewrite filter_and.
Qed.
Lemma active_counted now window d :
  Z.of_nat (List.length (list_active_grants now window d)) = count_active_grants now window d.
Proof.
  unfold list_active_grants, count_active_grants, count_rows. f_equal.
  apply Permutation_length, sort_by_key_perm.
Qed.
Lemma rows_size {K V} `{Countable K} (m : gmap K V) : List.length (rows m) = size m.
Proof. unfold rows. by rewrite length_map, length_map_to_list. Qed.

(** The overview counts what the lists show.  At one instant, the overview
    says how many requests the requests page lists, how many grants the grants
    page lists, how many rules the policies page lists and how many secrets are
    stored, and it calls for a decision exactly when some request is listed. *)
Theorem overview_counts_lists st v prefill w n1 ov s1 n2 rq s2 n3 gr s3 n4 po s4 :
  overview_page st v alone (n1, w) = (Ok ov, s1) →
  requests_page st v alone (n2, w) = (Ok rq, s2) →
  grants_page st v alone (n3, w) = (Ok gr, s3) →
  policies_page st v prefill alone (n4, w) = (Ok po, s4) →
  let count {A} (l : list A) := Z_to_string (Z.of_nat (List.length l)) in
  ov_stats (pg_body ov)
  = [("/ui/requests", "Requests", count (pg_body rq) +:+ " pending",
      negb (is_empty (pg_body rq)));
     ("/ui/grants", "Grants", count (pg_body gr) +:+ " active", false);
     ("/ui/policies", "Policies", count (ps_rows (pg_body po)), false);
     ("/ui/secrets", "Secrets", count (list_secrets w.2) +:+ " stored", false)]
  ∧ (ov_callout (pg_body ov) = None ↔ pg_body rq = []).
Proof.
  intros Hov Hrq Hgr Hpo.
  unfold overview_page in Hov. api_lift Hov o1 Ho1. rewrite !query_run in Hov.
  apply ret_Ok in Hov as [-> _].
  unfold requests_page in Hrq. api_lift Hrq o2 Ho2. rewrite !query_run in Hrq.
  apply ret_Ok in Hrq as [-> _].
  unfold grants_page in Hgr. api_lift Hgr o3 Ho3. rewrite !query_run in Hgr.
  apply ret_Ok in Hgr as [-> _].
  unfold policies_page in Hpo. api_lift Hpo o4 Ho4. rewrite query_run in Hpo.
  apply Api_bind_Ok in Hpo as (pickers & [n5 w5] & _ & Hpo).
  rewrite query_run in Hpo. apply ret_Ok in Hpo as [-> _].
  cbn [pg_body html_page_at layout_at ov_stats ov_callout ps_rows].
  rewrite !length_map, <-pending_counted, <-active_counted.
  assert (Hlen : ∀ {A B} (f : A → B) l, (0 <? Z.of_nat (List.length l))%Z = negb (is_empty (map f l)))
    by (intros A B f [|x l]; done).
  split.
  - rewrite <-(Hlen _ _ (request_line w.1)). unfold count_policies, count_secrets, list_policies, list_secrets.
    by rewrite !(Permutation_length (sort_by_key_perm _ _)), !rows_size.
  - rewrite (Hlen _ _ (request_line w.1)). by destruct (map _ _).
Qed.

(** ** The client's context *)
Definition context_columns (r : AccessRequestRow) :=
  (ar_context_ciphertext r, ar_context_nonce r, ar_context_wrapped_dek r, ar_context_kek_id r).

(** The operator reads the context the client sent, and no other.  What a
    request's context was sealed into when it was created opens on its page to
    that context, as long as the row holds it; the same columns on a row with
    another id show nothing; and a purged context shows nothing.  ([serde_json]
    reads back the context it wrote.) *)
Theorem context_shown st draw id c sealed now req r :
  keyset_wf (st_keyset st) → draw_ok draw →
  context_from_slice (context_to_vec c) = Some c →
  seal_context (st_keyset st) draw id c = Some (Ok sealed) →
  context_columns r = context_columns (new_request_row id now req (Some sealed)) →
  (ar_id r = id → decrypt_context st r = Some c)
  ∧ (ar_id r ≠ id → decrypt_context st r = None)
  ∧ decrypt_context st (clear_context r) = None.
Proof.
  intros Hwf Hd Hread Hseal [= Ec En Ew Ek].
  unfold seal_context in Hseal. destruct (eqb (reason c) "" && _); [done|].
  apply (inj Some) in Hseal.
  apply bind_Ok in Hseal as (kek & Hkek & Hs).
  assert (Hid : sealed_kek_id sealed = active (st_keyset st)).
  { apply bind_Ok in Hs as (? & _ & (? & _ & [= <-])%bind_Ok). done. }
  assert (Hne : eqb (sealed_kek_id sealed) EPHEMERAL_KEK_ID = false).
  { unfold eqb. apply bool_decide_eq_false_2. rewrite Hid. intros E.
    destruct (wf_active _ Hwf) as [k Hk]. by rewrite E, (wf_reserved _ Hwf) in Hk. }
  assert (Hopen : decrypt_context st r =
    match open_with_kek kek (sealed_ciphertext sealed) (sealed_nonce sealed)
            (sealed_wrapped_dek sealed) (Crypto.RequestContext (ar_id r)) with
    | Ok plain => context_from_slice plain | Err _ => None end).
  { unfold decrypt_context. rewrite Ec, En, Ew, Ek. cbn [mbind option_bind]. rewrite Hne.
    unfold Keyset_open. by rewrite Hid, Hkek. }
  split; [|split; [|done]].
  - intros Er. rewrite Hopen.
    rewrite (proj2 (open_sealed draw kek _ _ _ _ kek _ (context_to_vec c) Hd Hs)); [exact Hread|].
    by rewrite Er.
  - intros Hr. rewrite Hopen. destruct (open_with_kek _ _ _ _ _) as [plain|e] eqn:Eo; [|done].
    apply (open_sealed draw kek _ _ _ _ kek _ plain Hd Hs) in Eo as (_ & [= E] & _). done.
Qed.

(** ** What was released *)
Lemma get_grant_for_request_approved w id r :
  world_reachable w → access_requests w.2 !! id = Some r → ar_state r = APPROVED →
  ∃ gid g, get_grant_for_request id w.2 = Some g ∧ grants w.2 !! gid = Some g ∧ g_request_id g = id.
Proof.
  intros Hw%world_inv Hr Ha.
  destruct (proj1 (inv_grant _ _ Hw _ _ Hr) Ha) as (gid & g & Hg & Hid).
  unfold get_grant_for_request. destruct (find_row _ _) as [g'|] eqn:E.
  - apply find_row_Some in E as [[k Hk] E]. kbool. by exists k, g'.
  - rewrite find_row_None in E. specialize (E _ _ Hg). by rewrite Hid, eqb_refl in E.
Qed.
End Facts.

(** ** Witnesses *)
Import PageExample.
Module FactsExample.
#[export] Existing Instance PageExample.contexts.
#[export] Existing Instance PageExample.texts.
Definition context : Types.RequestContext := Types.mkRequestContext "deploy" None.
Definition sealed : Sealed := Eval vm_compute in
  match seal_context ApiExample.keyset CryptoExample.draw 10 context with
  | Some (Ok s) => s | _ => mkSealed "" "" "" ""
  end.
Definition stored : AccessRequestRow :=
  new_request_row 10 0 (ApiExample.asked "cli-read" Null) (Some sealed).
Definition overview_run := overview_page ApproveExample.state PageExample.shown_to alone (0, ApproveExample.start).
Definition requests_run := requests_page ApproveExample.state PageExample.shown_to alone (0, ApproveExample.start).
Definition grants_run := grants_page ApproveExample.state PageExample.shown_to alone (0, ApproveExample.start).
Definition policies_run := policies_page ApproveExample.state PageExample.shown_to
  (mkPolicyPrefill None None None None None None None None) alone (0, ApproveExample.start).
Definition page_of {A} (r : result UiError (Page A) * St) : option (Page A) :=
  match r.1 with Ok pg => Some pg | Err _ => None end.
Definition overview : Page OverviewPage := Eval vm_compute in
  default (mkPage "" [] (mkOverviewPage None None [] "")) (page_of overview_run).
Definition requests : Page (list RequestLine) := Eval vm_compute in
  default (mkPage "" [] []) (page_of requests_run).
Definition grants_ : Page (list GrantLine) := Eval vm_compute in
  default (mkPage "" [] []) (page_of grants_run).
Definition policies_ : Page PoliciesPage := Eval vm_compute in
  default (mkPage "" [] (mkPoliciesPage [] false false []
    (policy_form_view "" "" "" (from_prefill (mkPolicyPrefill None None None None None None None None))
       (mkPolicyPickers [] [] []) None))) (page_of policies_run).
End FactsExample.

Lemma context_shown_witness :
  decrypt_context ApproveExample.state FactsExample.stored = Some FactsExample.context.
Proof.
  destruct (context_shown ApproveExample.state CryptoExample.draw 10 FactsExample.context
    FactsExample.sealed 0 (ApiExample.asked "cli-read" Null) FactsExample.stored) as (E & _).
  - apply (from_file_Ok CryptoExample.file CryptoExample.new_set). vm_compute. reflexivity.
  - repeat split; vm_compute; reflexivity.
  - reflexivity.
  - vm_compute. reflexivity.
  - reflexivity.
  - apply E. reflexivity.
Defined.

Lemma overview_counts_lists_witness :
  ov_stats (pg_body FactsExample.overview)
  = [("/ui/requests", "Requests", "1 pending", true); ("/ui/grants", "Grants", "0 active", false);
     ("/ui/policies", "Policies", "0", false); ("/ui/secrets", "Secrets", "1 stored", false)].
Proof.
  destruct (overview_counts_lists ApproveExample.state PageExample.shown_to
    (mkPolicyPrefill None None None None None None None None) ApproveExample.start
    0 FactsExample.overview FactsExample.overview_run.2 0 FactsExample.requests
    FactsExample.requests_run.2 0 FactsExample.grants_ FactsExample.grants_run.2
    0 FactsExample.policies_ FactsExample.policies_run.2) as [E _].
  - vm_compute. reflexivity.
  - vm_compute. reflexivity.
  - vm_compute. reflexivity.
  - vm_compute. reflexivity.
  - rewrite E. vm_compute. reflexivity.
Defined.
