(* ===== verification/UiRoutes.v ===== *)
(** [server/src/ui/mod.rs]: the router of the operator's pages, and the forms
    the pages render against it: each posts to the handler it is meant for, with
    a token that handler accepts. *)

From S2P Require Import Prelude RustStr RustText Types Json Crypto Examples SigV4 Http Injection Store Requests Grants.
From S2P Require Import Secrets UiExt Policies Clients Lifecycle Refinement Safety Api ApiRequests Csrf.
From S2P Require Import Human Ui UiApprove FormText UiPolicies UiPrefill UiView UiPages UiDecide.
Open Scope string_scope.

(** ** The router *)
Inductive Method := GET | POST.
Inductive Route :=
| ROverview | RRoot | RRequests | RRequest (id : Uuid) | RApprove (id : Uuid) | RDeny (id : Uuid)
| RGrants | RRevoke (id : Uuid)
| RPolicies | RCreatePolicy | RUpdatePolicy (id : Uuid) | REditPolicy (id : Uuid)
| RDeletePolicy (id : Uuid)
| RSecrets | RSaveSecret | RUpdateSecret (id : Uuid) | REditSecret (id : Uuid)
| RRotateSecret (id : Uuid) | RReviewSecret (id : Uuid) | RMarkReviewed (id : Uuid)
| RDeleteSecretPage (id : Uuid) | RDeleteSecret (id : Uuid).
#[export] Instance Method_eq_dec : EqDecision Method.
Proof. solve_decision. Defined.

(** A segment of a pattern: fixed, or [{id}]. *)
Inductive Seg := Lit (s : string) | Id.
(** What a pattern leads to: a handler, or one that extracts the id. *)
Inductive Target := Plain (r : Route) | WithId (f : Uuid → Route).

Definition routes : list (Method * list Seg * Target) :=
  [(GET, [Lit ""], Plain ROverview);
   (GET, [Lit "ui"], Plain RRoot);
   (GET, [Lit "ui"; Lit ""], Plain RRoot);
   (GET, [Lit "ui"; Lit "requests"], Plain RRequests);
   (GET, [Lit "ui"; Lit "requests"; Id], WithId RRequest);
   (POST, [Lit "ui"; Lit "requests"; Id; Lit "approve"], WithId RApprove);
   (POST, [Lit "ui"; Lit "requests"; Id; Lit "deny"], WithId RDeny);
   (GET, [Lit "ui"; Lit "grants"], Plain RGrants);
   (POST, [Lit "ui"; Lit "grants"; Id; Lit "revoke"], WithId RRevoke);
   (GET, [Lit "ui"; Lit "policies"], Plain RPolicies);
   (POST, [Lit "ui"; Lit "policies"], Plain RCreatePolicy);
   (POST, [Lit "ui"; Lit "policies"; Id], WithId RUpdatePolicy);
   (GET, [Lit "ui"; Lit "policies"; Id; Lit "edit"], WithId REditPolicy);
   (POST, [Lit "ui"; Lit "policies"; Id; Lit "delete"], WithId RDeletePolicy);
   (GET, [Lit "ui"; Lit "secrets"], Plain RSecrets);
   (POST, [Lit "ui"; Lit "secrets"], Plain RSaveSecret);
   (POST, [Lit "ui"; Lit "secrets"; Id], WithId RUpdateSecret);
   (GET, [Lit "ui"; Lit "secrets"; Id; Lit "edit"], WithId REditSecret);
   (POST, [Lit "ui"; Lit "secrets"; Id; Lit "rotate"], WithId RRotateSecret);
   (POST, [Lit "ui"; Lit "secrets"; Id; Lit "review"], WithId RReviewSecret);
   (POST, [Lit "ui"; Lit "secrets"; Id; Lit "reviewed"], WithId RMarkReviewed);
   (POST, [Lit "ui"; Lit "secrets"; Id; Lit "delete"], WithId RDeleteSecretPage);
   (POST, [Lit "ui"; Lit "secrets"; Id; Lit "deleted"], WithId RDeleteSecret)].

(** The segment bound to [{id}], when the pattern matches. *)
Fixpoint match_segs (pat : list Seg) (segs : list string) (id : string) : option string :=
  match pat, segs with
  | [], [] => Some id
  | Lit l :: pat, s :: segs => if eqb l s then match_segs pat segs id else None
  | Id :: pat, s :: segs => if eqb s "" then None else match_segs pat segs s
  | _, _ => None
  end.

Section Routing.
Context `{UuidText}.

(** [None]: no such route, or an id that is not one. *)
Definition try_route (m : Method) (segs : list string) (e : Method * list Seg * Target)
  : option (option Route) :=
  let '(m', pat, target) := e in
  if negb (eqb m m') then None
  else
    (λ id, match target with
           | Plain r => Some r
           | WithId f => f <$> uuid_parse id
           end) <$> match_segs pat segs "".
Fixpoint first_route (m : Method) (segs : list string) (l : list (Method * list Seg * Target))
  : option Route :=
  match l with
  | [] => None
  | e :: l => match try_route m segs e with Some r => r | None => first_route m segs l end
  end.
Definition router (m : Method) (path : string) : option Route :=
  match split "/" path with
  | "" :: segs => first_route m segs routes
  | _ => None
  end.
End Routing.

(** ** Where the forms of the pages lead *)
Section Forms.
Context `{UuidText, Primitives, !FormLib, JoseLib, HttpLib, UrlLib, !OriginLib, SigText, JsonBytes,
  !ContextText, PageText, FormUrlEncoded, DateTimeText}.

Lemma route_action a id b :
  contains_char "/" a = false → contains_char "/" b = false →
  router POST ("/ui/" +:+ a +:+ "/" +:+ uuid_display id +:+ "/" +:+ b)
  = first_route POST ["ui"; a; uuid_display id; b] routes.
Proof.
  intros Ha Hb. unfold router.
  change ("/ui/" +:+ a +:+ "/" +:+ uuid_display id +:+ "/" +:+ b)
    with (join "/" [""; "ui"; a; uuid_display id; b]).
  rewrite split_path; [done| |done]. intros x Hx. rewrite !elem_of_cons, elem_of_nil in Hx.
  destruct (uuid_segment id) as [Hid _]. by destruct Hx as [->|[->|[->|[->|[->|[]]]]]].
Qed.

Definition posts_to (f : HtmlForm) (r : Route) : Prop := router POST (fm_action f) = Some r.
(** Routing by computation, the id's text being some non-empty text that parses. *)
Ltac route_by E id :=
  unfold posts_to; cbn [fm_action]; etrans; [exact E|]; clear;
  pose proof (uuid_parse_display id) as Hp; destruct (uuid_display_chars id) as [Hne _];
  revert Hp Hne; generalize (uuid_display id) as x; intros [|? ?] Hp Hne; [done|];
  lazy -[uuid_parse]; by rewrite Hp.
Lemma request_forms_route id h :
  posts_to (mkHtmlForm ("/ui/requests/" +:+ uuid_display id +:+ "/approve") h) (RApprove id)
  ∧ posts_to (mkHtmlForm ("/ui/requests/" +:+ uuid_display id +:+ "/deny") h) (RDeny id).
Proof.
  split.
  - route_by (route_action "requests" id "approve" eq_refl eq_refl) id.
  - route_by (route_action "requests" id "deny" eq_refl eq_refl) id.
Qed.
Lemma revoke_form_routes id h :
  posts_to (mkHtmlForm ("/ui/grants/" +:+ uuid_display id +:+ "/revoke") h) (RRevoke id).
Proof. route_by (route_action "grants" id "revoke" eq_refl eq_refl) id. Qed.
Lemma delete_policy_form_routes id h :
  posts_to (mkHtmlForm ("/ui/policies/" +:+ uuid_display id +:+ "/delete") h) (RDeletePolicy id).
Proof. route_by (route_action "policies" id "delete" eq_refl eq_refl) id. Qed.
Lemma update_policy_form_routes id h :
  posts_to (mkHtmlForm ("/ui/policies/" +:+ uuid_display id) h) (RUpdatePolicy id).
Proof.
  assert (E : router POST ("/ui/policies/" +:+ uuid_display id)
              = first_route POST ["ui"; "policies"; uuid_display id] routes).
  { unfold router.
    change ("/ui/policies/" +:+ uuid_display id)
      with (join "/" [""; "ui"; "policies"; uuid_display id]).
    rewrite split_path; [done| |done]. intros x Hx. rewrite !elem_of_cons, elem_of_nil in Hx.
    destruct (uuid_segment id) as [Hid _]. by destruct Hx as [->|[->|[->|[->|[]]]]]. }
  route_by E id.
Qed.

(** A form leads to the handler [r], whose guard accepts its token. *)
Definition accepted (st : AppState) (v' : Visit) (f : HtmlForm) (r : Route)
    (route action_id form_state : string) : Prop :=
  posts_to f r
  ∧ ∃ token op', hidden_field "csrf_token" f = Some token
      ∧ guard_post st v' route action_id form_state token = Ok op'.

(** The visit [v'] is by the operator who saw the page of the visit [v], from
    the site, within the lifetime of the page's tokens. *)
Definition revisits (st : AppState) (v v' : Visit) : Prop :=
  (∃ op op', operator st v = Ok op ∧ operator st v' = Ok op' ∧ subject op' = subject op)
  ∧ browser_metadata_ok (external_url (st_config st)) (st_tls st) (v_headers v') = true
  ∧ is_i64 (timestamp (v_wall v) + CSRF_TTL_SECONDS)
  ∧ (timestamp (v_wall v) ≤ timestamp (v_wall v') < timestamp (v_wall v) + CSRF_TTL_SECONDS)%Z.
Lemma revisits_guard st v v' op route id state :
  revisits st v v' → operator st v = Ok op →
  ∃ op', guard_post st v' route id state (page_token st v op route id state) = Ok op'.
Proof.
  intros ((op1 & op' & Hop1 & Hop' & Hs) & Hm & Hi & Ht) Hop. rewrite Hop in Hop1. injection Hop1 as <-.
  exists op'. by apply page_token_guard.
Qed.

End Forms.

(** ** The pages of one visit *)
Import PageExample.
#[local] Existing Instance PolicyFormExample.dates.
