(* ===== verification/UiSecretPages.v ===== *)
(** [server/src/ui/mod.rs]: the pages of the stored secrets: the list, the edit
    page, and what the review and deletion pages show of the data their handlers
    gathered. *)

From S2P Require Import Prelude RustStr RustText Types Json Crypto Examples SigV4 Http Injection Store.
From S2P Require Import Requests Grants Secrets UiExt Policies Clients Api ApiRequests Csrf Human Ui.
From S2P Require Import UiApprove FormText UiPolicies UiSecrets UiPrefill UiView UiPages Provision Lifecycle Refinement Safety Reconcile.
Open Scope string_scope.

Definition TIERS : list Tier.t :=
  [Tier.Brokered; Tier.TrustedClient; Tier.CooperatingClient; Tier.Direct].
Definition tier_choices (selected : option Tier.t) : list Choice :=
  map (λ t, mkChoice (Tier.as_str t) (Tier.as_str t) (eqb selected (Some t))) TIERS.
Definition tier_cell (max_tier : Z) : Badge :=
  match Tier.from_int max_tier with
  | Some t => tier_badge t
  | None => mkBadge "badge muted" None "?"
  end.
Definition KIND_OPTIONS : list (string * string) :=
  [("bearer", "bearer"); ("header", "header"); ("basic", "basic-password");
   ("aws-sigv4", "aws-sigv4")].
Definition kind_choices (selected : string) : list Choice :=
  map (λ '(value, label), mkChoice value label (eqb selected value)) KIND_OPTIONS.
(** The injection template in words: the kind, the header, the user. *)
Definition injection_cell (s : SecretRow) : string :=
  sr_injection_kind s
  +:+ match sr_injection_header s with Some h => " (" +:+ h +:+ ")" | None => "" end
  +:+ match sr_injection_username s with Some u => " (user: " +:+ u +:+ ")" | None => "" end.

Record SecretLine := mkSecretLine {
  sl_name : string;
  sl_version : string;
  sl_description : option string;
  sl_tags : list string;
  sl_max_tier : Badge;
  sl_injection : string;
  sl_status : list Badge;
  sl_review : option HtmlForm;
  sl_action : RowAction
}.
Record SecretsPage := mkSecretsPage {
  sp_unreviewed_callout : bool;
  sp_lines : list SecretLine;
  sp_new_open : bool;
  sp_form : HtmlForm;
  sp_names : list string;
  sp_tiers : list Choice;
  sp_kinds : list Choice
}.
(** The settings form's fields, as rendered. *)
Record SettingsView := mkSettingsView {
  sv_form : HtmlForm;
  sv_description : string;
  sv_tiers : list Choice;
  sv_kinds : list Choice;
  sv_header : string;
  sv_scope : string;
  sv_tags : string;
  sv_enabled : bool
}.
Record EditSecretPage := mkEditSecretPage {
  es_heading : string;
  es_unreviewed_callout : bool;
  es_settings : SettingsView;
  es_rotate : HtmlForm
}.
(** A policy named on the review and deletion pages: outcome, mechanism, client,
    and how it selects the secret. *)
Record PolicyPhrase := mkPolicyPhrase {
  ph_outcome : Badge;
  ph_mechanism : string;
  ph_client : string;
  ph_selects : string
}.
Record ReviewView := mkReviewView {
  vw_name : string;
  vw_facts : list (string * string);
  vw_activated : list PolicyPhrase;
  vw_value : option (string * string);     (* the caption and the value *)
  vw_reveal : option HtmlForm;
  vw_reviewed : HtmlForm;
  vw_button : string
}.
Record DeleteView := mkDeleteView {
  dv_name : string;
  dv_facts : list (string * string);
  dv_grants : list string;
  dv_pending : option string;
  dv_policies : list PolicyPhrase;
  dv_confirm : HtmlForm;
  dv_button : string
}.

Definition policy_phrase (p : PolicyRow) : PolicyPhrase :=
  mkPolicyPhrase (policy_outcome_badge (po_outcome p)) (po_mechanism p)
    (default "ANY CLIENT" (po_client_name p))
    (match po_secret_name p, po_secret_tag p with
     | Some _, _ => " (this secret by name)"
     | None, Some tag => " (tag " +:+ tag +:+ ")"
     | None, None => " (any secret)"
     end).
Definition into_header (s : SecretRow) (account_note : string) : string :=
  sr_injection_kind s
  +:+ match sr_injection_header s with Some h => " into header " +:+ h | None => "" end
  +:+ match sr_injection_username s with
      | Some u => " as user " +:+ u +:+ account_note
      | None => ""
      end.
Definition described (label : string) (s : SecretRow) : list (string * string) :=
  if eqb (sr_description s) "" then [] else [(label, sr_description s)].

Section SecretPages.
Context `{UuidText, Primitives, !FormLib, JoseLib, HttpLib, UrlLib, !OriginLib, SigText, JsonBytes,
  PageText}.

(** [GET /ui/secrets] *)
Definition secret_line (st : AppState) (v : Visit) (op : Operator)
    (assignments : list (Uuid * string)) (s : SecretRow) : SecretLine :=
  let id := uuid_display (sr_id s) in
  let form route token_route :=
    mkHtmlForm ("/ui/secrets/" +:+ id +:+ route) [hidden_token (page_token st v op token_route id "")] in
  mkSecretLine (sr_name s) ("v" +:+ Z_to_string (sr_current_version s))
    (if eqb (sr_description s) "" then None else Some (sr_description s))
    (map (λ a, "tag:" +:+ snd a) (List.filter (λ a, eqb (fst a) (sr_id s)) assignments))
    (tier_cell (sr_max_tier s)) (injection_cell s)
    ((if sr_enabled s then [] else [mkBadge "badge badge-danger" None "disabled"])
     ++ (if sr_operator_vetted s then [] else [mkBadge "badge badge-warn" None "not reviewed"])
     ++ (if sr_enabled s && sr_operator_vetted s then [mkBadge "badge badge-ok" None "ready"] else []))
    (if sr_operator_vetted s then None else Some (form "/review" R_SECRET_REVEAL))
    (if sr_managed_by_config s then FromConfig
     else Editable ("/ui/secrets/" +:+ id +:+ "/edit") (form "/delete" R_SECRET_DELETE)).
Definition secrets_page (st : AppState) (v : Visit) : Handler UiError (Page SecretsPage) :=
  op ← lift (operator st v);
  secrets ← query (λ _ d, list_secrets d);
  assignments ← query (λ _ d, list_tag_assignments d);
  let token := page_token st v op R_SECRET_SAVE "" "" in
  mret (html_page_at "Secrets" "/ui/secrets" (mkSecretsPage
    (existsb (λ s, negb (sr_operator_vetted s)) secrets)
    (map (secret_line st v op assignments) secrets) (is_empty secrets)
    (mkHtmlForm "/ui/secrets" [hidden_token token]) (map sr_name secrets)
    (tier_choices (Some Tier.Brokered)) (kind_choices "bearer"))).

(** [GET /ui/secrets/{id}/edit] *)
Definition settings_view (id csrf_token : string) (s : SecretRow) (tags : list string)
  : SettingsView :=
  let '(kind, header_field, scope_field) := injection_form_fields s in
  mkSettingsView (mkHtmlForm ("/ui/secrets/" +:+ id) [hidden_token csrf_token])
    (sr_description s) (tier_choices (Tier.from_int (sr_max_tier s))) (kind_choices kind)
    header_field scope_field (join_with ", " tags) (sr_enabled s).
Definition edit_secret_page (st : AppState) (v : Visit) (id : Uuid)
  : Handler UiError (Page EditSecretPage) :=
  op ← lift (operator st v);
  secret ← editable_secret id;
  tags ← query (λ _ d, get_tags_for_secret id d);
  let id_str := uuid_display id in
  mret (html_page_at "Edit secret" "/ui/secrets" (mkEditSecretPage
    (sr_name secret +:+ " · v" +:+ Z_to_string (sr_current_version secret))
    (negb (sr_operator_vetted secret))
    (settings_view id_str (page_token st v op R_SECRET_UPDATE id_str "") secret tags)
    (mkHtmlForm ("/ui/secrets/" +:+ id_str +:+ "/rotate")
       [hidden_token (page_token st v op R_SECRET_ROTATE id_str "")]))).

(** The page of [POST /ui/secrets/{id}/review]. *)
Definition render_review (st : AppState) (v : Visit) (op : Operator) (p : ReviewPage)
  : Page ReviewView :=
  let secret := rv_secret p in
  let id := uuid_display (sr_id secret) in
  let version := Z_to_string (sv_version (rv_version p)) in
  html_page_at "Review secret" "/ui/secrets" (mkReviewView (sr_name secret)
    ([("Deposited by", match rv_origin p with
                       | Some (client, at_) => client +:+ " on " +:+ format_utc_minutes at_
                       | None => "unknown (no deposit record)"
                       end);
      ("Version", version); ("Max tier", bd_text (tier_cell (sr_max_tier secret)));
      ("Injection", into_header secret " (the account the client chose)")]
     ++ described "Client description" secret)
    (map policy_phrase (rv_activated p))
    ((λ '(shown, is_base64),
        (if (is_base64 : bool) then "As deposited — not valid UTF-8, shown base64-encoded:"
         else "As deposited:", shown)) <$> rv_revealed p)
    (if rv_revealed p then None
     else Some (mkHtmlForm ("/ui/secrets/" +:+ id +:+ "/review")
                  [hidden_token (page_token st v op R_SECRET_REVEAL id ""); ("reveal", "1")]))
    (mkHtmlForm ("/ui/secrets/" +:+ id +:+ "/reviewed")
       [hidden_token (rv_vet_token p); ("reviewed_version", version)])
    ("Mark reviewed (version " +:+ version +:+ ")")).

(** The page of [POST /ui/secrets/{id}/delete]. *)
Definition render_delete (tags : list string) (p : DeletePage) : Page DeleteView :=
  let secret := dp_secret p in
  let id := uuid_display (sr_id secret) in
  let version := Z_to_string (sr_current_version secret) in
  let count := Z.of_nat (List.length (dp_pending p)) in
  html_page_at "Delete secret" "/ui/secrets" (mkDeleteView (sr_name secret)
    ([("Versions stored", version +:+ " (all of them go)");
      ("Max tier", bd_text (tier_cell (sr_max_tier secret)));
      ("Injection", into_header secret "")]
     ++ described "Description" secret
     ++ (if is_empty tags then [] else [("Tags", join_with " " tags)]))
    (map (λ g, g_client_name g +:+ " via " +:+ g_mechanism g +:+ ", until "
               +:+ format_utc_minutes (g_not_after g)) (dp_grants p))
    (if is_empty (dp_pending p) then None
     else Some (Z_to_string count
                +:+ (if (count =? 1)%Z then " pending request asks" else " pending requests ask")
                +:+ " for this secret."))
    (map policy_phrase (dp_policies p))
    (mkHtmlForm ("/ui/secrets/" +:+ id +:+ "/deleted")
       [hidden_token (dp_confirm_token p); ("current_version", version)])
    ("Delete " +:+ sr_name secret +:+ " permanently")).

(** What a browser submits of the settings form, nothing changed. *)
Definition submit_settings (v : SettingsView) : SecretSettingsForm :=
  mkSecretSettingsForm (default "" (hidden_field "csrf_token" (sv_form v)))
    (Some (sv_description v)) (submitted_choice (sv_tiers v)) (submitted_choice (sv_kinds v))
    (Some (sv_header v)) (Some (sv_scope v)) (Some (sv_tags v))
    (if sv_enabled v then Some "on" else None).
End SecretPages.

(** ** The settings form, submitted unchanged *)
Lemma tags_field_roundtrip raw tags :
  parse_tags_field raw = Ok tags → parse_tags_field (join_with ", " tags) = Ok tags.
Proof.
  unfold parse_tags_field. intros (l & Hl & [= <-])%bind_Ok.
  set (tags := dedup (tag_sort l)).
  assert (Hin : ∀ t, t ∈ tags ↔ t ∈ l)
    by (intros t; unfold tags; by rewrite dedup_elem, (sort_by_key_perm bytes_key)).
  assert (Hok : ∀ t, t ∈ l → (solid t = true ∧ contains_char "," t = false ∧ t ≠ "")
                  ∧ (128 <? len t)%Z || any_control t = false).
  { intros t Ht. apply try_map_Ok in Hl. apply list_elem_of_lookup in Ht as [i Hi].
    destruct (Forall2_lookup_r _ _ _ _ _ Hl Hi) as (t' & Ht' & HH).
    destruct (_ || _) eqn:E; [done|]. injection HH as <-. split; [|exact E].
    apply list_elem_of_lookup_2 in Ht'. apply list_elem_of_In, filter_In in Ht' as [Ht' Hne].
    apply list_elem_of_In in Ht'. apply split_fields_items in Ht' as [? ?]. split_and!; try done.
    by intros ->. }
  rewrite split_fields_join by (intros t Ht; by apply Hok, Hin).
  assert (Htry : try_map (λ t, fail_if (128 <? len t)%Z || any_control t with bad_request "invalid tag"; Ok t) tags = Ok tags).
  { apply try_map_Ok, Forall_Forall2_diag, Forall_forall. intros t Ht.
    by destruct (Hok t (proj1 (Hin t) Ht)) as [_ ->]. }
  rewrite Htry. cbn [mbind result_bind]. unfold tags. by rewrite sorted_tags_fixed.
Qed.

(** What the validation of an injection template returns. *)
Lemma validated_injection kind header scope k h u :
  Injection.validate_injection kind header scope = Ok (k, h, u) →
  (k = "bearer" ∧ h = None ∧ u = None)
  ∨ (kind = "header" ∧ scope = None ∧ k = "header" ∧ u = None ∧ ∃ x, header = Some x ∧ h = Some x)
  ∨ ((kind = "basic" ∨ kind = "basic-password") ∧ scope = None ∧ k = "basic" ∧ h = None
     ∧ ∃ x, header = Some x ∧ u = Some x)
  ∨ (kind = "aws-sigv4" ∧ k = "aws-sigv4" ∧ ∃ x y, header = Some x ∧ scope = Some y
     ∧ u = Some x ∧ h = Some y).
Proof.
  unfold Injection.validate_injection.
  destruct (is_some scope && _) eqn:Es; [done|].
  assert (Hs : eqb kind "aws-sigv4" = false → scope = None).
  { intros E. rewrite E in Es. by destruct scope. }
  destruct (eqb kind "bearer") eqn:E1; [intros [= <- <- <-]; by left|].
  destruct (eqb kind "header") eqn:E2.
  { intros (x & Hx%ok_or_Ok & HH)%bind_Ok. destruct (_ <? _)%Z; [done|].
    destruct (Http.token x); [|done]. cbn [negb] in HH.
    destruct (contains RESERVED _ || _); [done|]. injection HH as <- <- <-. kbool. subst.
    right. left. split_and!; try done; [by apply Hs|by exists x]. }
  destruct (eqb kind "basic" || eqb kind "basic-password") eqn:E3.
  { intros (x & Hx%ok_or_Ok & HH)%bind_Ok. destruct (_ <? _)%Z; [done|].
    destruct (contains_char ":" x || any_control x); [done|]. injection HH as <- <- <-. right. right. left.
    apply orb_true_iff in E3. split; [by destruct E3; kbool; auto|].
    split_and!; try done; [|by exists x]. apply Hs. by destruct E3; kbool; subst. }
  destruct (eqb kind "aws-sigv4") eqn:E4; [|done]. kbool. subst kind.
  intros (x & Hx%ok_or_Ok & (? & _ & (y & Hy%ok_or_Ok & (? & _ & [= <- <- <-])%bind_Ok)%bind_Ok)%bind_Ok)%bind_Ok.
  right. right. right. split; [done|]. split; [done|]. by exists x, y.
Qed.
Lemma injection_roundtrip kind header scope k h u row :
  validate_injection kind (non_empty header) (non_empty scope) = Ok (k, h, u) →
  sr_injection_kind row = k → sr_injection_header row = h → sr_injection_username row = u →
  let '(kind', header', scope') := injection_form_fields row in
  submitted_choice (kind_choices kind') = kind'
  ∧ validate_injection (trim kind') (non_empty (Some header')) (non_empty (Some scope'))
    = Ok (k, h, u).
Proof.
  intros Hv Hk Hh Hu. unfold injection_form_fields. rewrite Hk, Hh, Hu. clear Hk Hh Hu row.
  unfold validate_injection in *. apply map_err_Ok in Hv.
  assert (Hp : ∀ v x, non_empty v = Some x → non_empty (Some x) = Some x).
  { intros v x Hx. apply plain_some. rewrite <-Hx. apply non_empty_plain. }
  destruct (validated_injection _ _ _ _ _ _ Hv)
    as [(-> & -> & ->)|[(-> & Es & -> & -> & x & Hx & ->)|[(Hk & Es & -> & -> & x & Hx & ->)
       |(-> & -> & x & y & Hx & Hy & -> & ->)]]].
  - split; reflexivity.
  - split; [reflexivity|]. rewrite Hx, Es in Hv. cbn [default]. cbv iota.
    change (eqb "header" "header") with true. cbv iota. unfold id. rewrite (Hp _ _ Hx).
    change (non_empty (Some "")) with (@None string). change (trim "header") with "header".
    by rewrite Hv.
  - split; [reflexivity|]. rewrite Hx, Es in Hv.
    change (eqb "basic" "header") with false. change (eqb "basic" "basic") with true.
    cbn [orb default from_option]. cbv iota. unfold id. rewrite (Hp _ _ Hx).
    change (non_empty (Some "")) with (@None string). change (trim "basic") with "basic".
    assert (Hv' : Injection.validate_injection "basic" (Some x) None = Ok ("basic", None, Some x))
      by (destruct Hk as [->| ->]; exact Hv).
    by rewrite Hv'.
  - split; [reflexivity|]. rewrite Hx, Hy in Hv.
    change (eqb "aws-sigv4" "header") with false. change (eqb "aws-sigv4" "basic") with false.
    change (eqb "aws-sigv4" "basic-password") with false. change (eqb "aws-sigv4" "aws-sigv4") with true.
    cbn [orb default from_option]. cbv iota. unfold id. rewrite (Hp _ _ Hx), (Hp _ _ Hy).
    change (trim "aws-sigv4") with "aws-sigv4". by rewrite Hv.
Qed.

(** A secret's settings survive being edited unchanged.  Settings accepted
    from the form and stored, read back from the row and its tags into the edit
    page and submitted as they are, are accepted as the same settings: the same
    description, tier, injection template (the form's fields invert its
    validation), enabled flag and tags, sorted and without repeats. *)
Theorem secret_edit_roundtrip `{UuidText, Primitives} form s w now id actor d' row id_text token :
  world_reachable w → parse_settings form = Ok s →
  update_secret_settings_audited now id s actor w.2 = Ok (UpdateSecretOutcome.Updated, d') →
  secrets d' !! id = Some row →
  parse_settings (submit_settings (settings_view id_text token row (get_tags_for_secret id d')))
  = Ok s.
Proof.
  intros Hw Hs Hup Hrow. pose proof (inv_wf _ _ (world_inv _ Hw)) as Hwf.
  unfold update_secret_settings_audited in Hup.
  destruct (secrets w.2 !! id) as [prev|] eqn:Hprev; [|done].
  pose proof (secret_at _ _ _ Hwf Hprev) as Hid.
  destruct (sr_managed_by_config prev); [done|].
  destruct (negb _); [done|]. cbv zeta in Hup.
  apply bind_Ok in Hup as (d2 & Hins & [= <-]).
  unfold parse_settings in Hs. apply bind_Ok in Hs as (tier & Ht & Hs).
  apply bind_Ok in Hs as ([[k h] u] & Hinj & Hs). apply bind_Ok in Hs as (tags & Htags & [= <-]).
  apply insert_tags_Ok in Hins as [-> _]. cbn in Hrow. rewrite Hid, lookup_insert_eq in Hrow.
  injection Hrow as <-.
  assert (Etags : ∀ d2, secret_tags d2 = list_to_set (map (pair id) tags)
                          ∪ filter (λ t, t.1 ≠ id) (secret_tags w.2) →
    get_tags_for_secret id d2 = tags).
  { intros d3 E. rewrite (get_tags_spec d3 id tags).
    - unfold parse_tags_field in Htags. apply bind_Ok in Htags as (l & _ & [= <-]).
      apply sorted_tags_fixed.
    - intros t. rewrite E, elem_of_union, elem_of_list_to_set, elem_of_filter, list_elem_of_fmap. cbn.
      split; [intros [(x & [= ->] & ?)|[? _]]; done|]. intros Hin. left. by exists t. }
  rewrite Etags by done. clear Etags.
  set (row := apply_settings _ _ _).
  pose proof (injection_roundtrip _ _ _ _ _ _ row Hinj eq_refl eq_refl eq_refl) as HH.
  unfold settings_view. destruct (injection_form_fields row) as [[kind' header'] scope'].
  destruct HH as [Hkind Hvalid]. unfold submit_settings, parse_settings.
  cbn [sv_form sv_description sv_tiers sv_kinds sv_header sv_scope sv_tags sv_enabled
    ssf_max_tier ssf_injection_kind ssf_injection_header ssf_injection_scope ssf_tags
    ssf_description ssf_enabled default].
  unfold Datatypes.id.
  replace (tier_from_str (trim (submitted_choice (tier_choices (Tier.from_int (sr_max_tier row))))))
    with (Some tier) by (cbn [sr_max_tier row apply_settings set_max_tier]; by destruct tier).
  cbn [ok_or mbind result_bind]. rewrite Hkind, Hvalid. cbn [mbind result_bind].
  rewrite (tags_field_roundtrip _ _ Htags). unfold row. cbn -[trim]. rewrite trim_idemp.
  by destruct (ssf_enabled form).
Qed.

(** ** An edit *)
Module SecretEditExample.
Import ApiExample ApproveExample.
#[export] Existing Instance uuid_text_example.
#[export] Existing Instance CryptoExample.primitives.
Definition form : SecretSettingsForm :=
  mkSecretSettingsForm "t" (Some " staging key ") " brokered " "basic-password" (Some " bob ") None
    (Some "zoo, api  zoo") (Some "on").
Definition settings : SecretSettings := Eval vm_compute in
  match parse_settings form with
  | Ok s => s | Err _ => mkSecretSettings "" 0 "" None None false []
  end.
Definition edited : Db := Eval vm_compute in
  match update_secret_settings_audited 0 1 settings "alice" ApproveExample.start.2 with
  | Ok (_, d) => d | Err _ => empty_db
  end.
Definition row : SecretRow := Eval vm_compute in
  default (mkSecretRow 0 "" "" 0 "" None None 0 false false false 0 0) (secrets edited !! 1%N).
End SecretEditExample.
Import SecretEditExample.

Lemma secret_edit_roundtrip_witness :
  set_tags SecretEditExample.settings = ["api"; "zoo"]
  ∧ parse_settings (submit_settings (settings_view "1" "t" SecretEditExample.row
      (get_tags_for_secret 1 SecretEditExample.edited))) = Ok SecretEditExample.settings.
Proof.
  split; [reflexivity|].
  apply (secret_edit_roundtrip SecretEditExample.form SecretEditExample.settings
    ApproveExample.start 0 1 "alice").
  - exact ApproveExample.start_reachable.
  - vm_compute. reflexivity.
  - vm_compute. reflexivity.
  - vm_compute. reflexivity.
Defined.
