(* ===== verification/Server.v ===== *)
(** [server/src/lib.rs]: the process as a whole: startup, the address it listens
    on, the one application made of the API's and the pages' routes, and the
    sweeper until the shutdown signal. *)

From S2P Require Import Prelude RustStr RustText Types Json Crypto Examples SigV4 Http Store Requests.
From S2P Require Import Grants Secrets UiExt Policies Clients Provision Notify Lifecycle Refinement.
From S2P Require Import Safety Reconcile Settle StoreProps Api Push Human NetAddr Config Startup.
From S2P Require ApiRoutes UiRoutes.
Open Scope string_scope.

(** ** One application of two routers *)

(** Who answers a request: the API, a page, or nobody (the bare 404). *)
Inductive Answerer :=
| ByApi (d : ApiRoutes.Dispatch)
| ByPage (r : UiRoutes.Route)
| ByNobody.

Section Application.
Context `{UuidText}.

(** [api::router(..).merge(ui::router(..))]; the pages' [get] answers HEAD too. *)
Definition ui_method (method : string) : option UiRoutes.Method :=
  if eqb method "GET" || eqb method "HEAD" then Some UiRoutes.GET
  else if eqb method "POST" then Some UiRoutes.POST
  else None.
Definition app (method path : string) : Answerer :=
  match ApiRoutes.dispatch method path with
  | Some d => ByApi d
  | None => match m ← ui_method method; UiRoutes.router m path with
            | Some r => ByPage r
            | None => ByNobody
            end
  end.

(** A path one of the pages' patterns matches, under any method. *)
Definition page_path (path : string) : Prop := ∃ segs m pat target id,
  split "/" path = "" :: segs ∧ (m, pat, target) ∈ UiRoutes.routes
  ∧ UiRoutes.match_segs pat segs "" = Some id.
Definition api_path (path : string) : Prop := ∃ d, ApiRoutes.dispatch "GET" path = Some d.

Lemma page_first segs pat m target id :
  (m, pat, target) ∈ UiRoutes.routes → UiRoutes.match_segs pat segs "" = Some id →
  ∃ s rest, segs = s :: rest ∧ (s = "" ∨ s = "ui").
Proof.
  intros Hin. assert (Hhead : ∃ l pat', pat = UiRoutes.Lit l :: pat' ∧ (l = "" ∨ l = "ui")).
  { unfold UiRoutes.routes in Hin.
    repeat (apply elem_of_cons in Hin as [[= -> -> ->]|Hin]; [eauto 6|]). by apply elem_of_nil in Hin. }
  destruct Hhead as (l & pat' & -> & Hl). destruct segs as [|s rest]; [done|]. cbn.
  destruct (eqb l s) eqn:E; [|done]. kbool. subst s. eauto.
Qed.
Lemma api_first segs x :
  ApiRoutes.find_route segs ApiRoutes.api_routes = Some x →
  ∃ s rest, segs = s :: rest ∧ (s = "healthz" ∨ s = "readyz" ∨ s = "v1").
Proof.
  destruct x as [t r]. intros (pats & f & id & Hin & Hm & _)%ApiRoutes.find_route_inv.
  assert (Hhead : ∃ l pat', pats = ApiRoutes.PLit l :: pat' ∧ (l = "healthz" ∨ l = "readyz" ∨ l = "v1")).
  { unfold ApiRoutes.api_routes in Hin.
    repeat (apply elem_of_cons in Hin as [[= -> _ _]|Hin]; [eauto 7|]). by apply elem_of_nil in Hin. }
  destruct Hhead as (l & pat' & -> & Hl). destruct segs as [|s rest]; [done|]. cbn in Hm.
  destruct (eqb l s) eqn:E; [|done]. kbool. subst s. eauto 6.
Qed.

Lemma dispatch_any m path d :
  ApiRoutes.dispatch m path = Some d → ∀ m', ∃ d', ApiRoutes.dispatch m' path = Some d'.
Proof.
  unfold ApiRoutes.dispatch. intros Hd m'. destruct (split "/" path) as [|[|? ?] segs]; try done.
  destruct (ApiRoutes.find_route segs _) as [[t r]|]; [|done]. by eexists.
Qed.

(** The two route tables share no path, so merging them neither panics nor
    depends on the order. *)
Lemma routers_disjoint path : api_path path → page_path path → False.
Proof.
  intros [d Hd] (segs & m & pat & target & id & Hs & Hin & Hm).
  unfold ApiRoutes.dispatch in Hd. rewrite Hs in Hd.
  destruct (ApiRoutes.find_route segs _) as [x|] eqn:Hf; [|done].
  apply api_first in Hf as (s & rest & -> & Ha).
  apply (page_first _ _ _ _ _ Hin) in Hm as (s' & rest' & [= <- <-] & Hp).
  by destruct Ha as [->|[->| ->]], Hp as [?|?].
Qed.
Lemma router_page m path r : UiRoutes.router m path = Some r → page_path path.
Proof.
  unfold UiRoutes.router, page_path.
  destruct (split "/" path) as [|[|? ?] segs]; try done. intros Hr. exists segs.
  revert Hr. generalize UiRoutes.routes as l. induction l as [|[[m' pat] t] l IH]; [done|]. cbn.
  destruct (negb (eqb m m')).
  - intros (m2 & p2 & t2 & id & Hs & Hin & Hm)%IH. exists m2, p2, t2, id. split; [done|].
    split; [by right|done].
  - destruct (UiRoutes.match_segs pat segs "") as [id|] eqn:E; cbn.
    + intros _. exists m', pat, t, id. split; [done|]. split; [by left|done].
    + intros (m2 & p2 & t2 & id & Hs & Hin & Hm)%IH. exists m2, p2, t2, id. split; [done|].
      split; [by right|done].
Qed.
End Application.

(** The merged application keeps the two surfaces apart.  No path is both an
    API path and a page's, whatever the methods, so that merging the routers is
    unambiguous; every request under [/v1] is answered by the API, by a handler
    or with its marked error, and never reaches a page; and every request a page
    answers is one the pages' own router sends there. *)
Theorem surfaces_apart `{UuidText} method path :
  (api_path path → page_path path → False)
  ∧ (ApiRoutes.in_v1 path → ∃ d, app method path = ByApi d)
  ∧ ∀ r, app method path = ByPage r ↔ ∃ m, ui_method method = Some m ∧ UiRoutes.router m path = Some r.
Proof.
  split; [apply routers_disjoint|]. split.
  - intros (rest & Hs)%ApiRoutes.v1_split. destruct (ApiRoutes.v1_matched rest) as (t & r & Hf).
    unfold app, ApiRoutes.dispatch. rewrite Hs, Hf. by eexists.
  - intros r. unfold app. destruct (ui_method method) as [m|]; cbn.
    2:{ destruct (ApiRoutes.dispatch _ _); split; [done|by intros (? & ? & _)|done|by intros (? & ? & _)]. }
    destruct (ApiRoutes.dispatch method path) as [d|] eqn:Hd.
    + split; [done|]. intros (m' & [= <-] & Hr%router_page). exfalso.
      apply dispatch_any with (m' := "GET") in Hd. by apply (routers_disjoint path).
    + destruct (UiRoutes.router m path) as [r'|] eqn:Hr; split.
      * intros [= <-]. by exists m.
      * intros (m' & [= <-] & Hr'). congruence.
      * done.
      * intros (m' & [= <-] & Hr'). congruence.
Qed.

(** ** The process *)

(** What is listening: the state, the address, and whether TLS ends there. *)
Record Listening `{Process} := mkListening {
  ls_state : Inner;
  ls_addr : IpAddr * Z;
  ls_tls : bool
}.

Section Run.
Context `{UrlLib, UuidText, Primitives, Process}.

(** [run], up to the listener. *)
Definition listen (r : StartupDraws) (c : ConfigFile) : Handler StartupError Listening :=
  state ← init r c;
  addr ← lift (ok_or (parse_socket_addr (cf_listen_addr (in_config state)))
                 (BadAddress (cf_listen_addr (in_config state))));
  mret (mkListening _ state addr (cf_tls (in_config state))).

Lemma validate_listener c : validate c = Ok tt → check_listener c = Ok tt.
Proof.
  unfold validate. destruct (is_none _); [done|]. by intros ([] & Hl & _)%bind_Ok.
Qed.
Lemma init_config r c env s st s' : init r c env s = (Ok st, s') → in_config st = c.
Proof.
  unfold init. intros (? & ? & _ & HH)%Api_bind_Ok.
  do 8 (apply Api_bind_Ok in HH as (? & ? & _ & HH)). by apply ret_Ok in HH as [-> _].
Qed.
End Run.

(** A server that starts never offers plaintext beyond the machine by
    accident.  When a configuration loads and the server comes to listen, amid
    whatever else happens to the database, then it listens at the configured
    address, and with TLS unless plaintext was allowed explicitly; and a
    plaintext listener is on a loopback address, unless leaving the machine was
    allowed explicitly too. *)
Theorem listens_safely `{UrlLib, UuidText, Primitives, Process} parsed env_url c r env s l s' :
  load parsed env_url = Ok c → listen r c env s = (Ok l, s') →
  parse_socket_addr (cf_listen_addr parsed) = Some (ls_addr l)
  ∧ ls_tls l = cf_tls parsed
  ∧ (ls_tls l = false →
       cf_allow_insecure_http parsed = true
       ∧ (is_loopback (ls_addr l).1 = true ∨ cf_allow_insecure_http_non_loopback parsed = true)).
Proof.
  intros Hload Hl. apply bind_Ok in Hload as ([] & Hv%validate_listener & [= <-]).
  apply Api_bind_Ok in Hl as (st & s1 & Hi & HH).
  apply Api_bind_Ok in HH as (addr & s2 & [Ha%ok_or_Ok ->]%lift_Ok & [-> ->]%ret_Ok).
  pose proof (init_config _ _ _ _ _ _ Hi) as Hc. rewrite Hc in *. cbn [ls_addr ls_tls].
  set (c := normalize _) in *.
  assert (Haddr : cf_listen_addr c = cf_listen_addr parsed) by (by destruct env_url).
  assert (Htls : cf_tls c = cf_tls parsed) by (by destruct env_url).
  assert (Hin : cf_allow_insecure_http c = cf_allow_insecure_http parsed) by (by destruct env_url).
  assert (Hout : cf_allow_insecure_http_non_loopback c = cf_allow_insecure_http_non_loopback parsed)
    by (by destruct env_url).
  split; [congruence|]. split; [done|]. intros Hplain. unfold check_listener in Hv.
  rewrite Hplain, Ha, Hin, Hout in Hv. destruct (cf_allow_insecure_http parsed); [|done]. split; [done|].
  destruct addr as [ip port]. cbn [negb fst] in *.
  destruct (is_loopback ip), (cf_allow_insecure_http_non_loopback parsed); by auto.
Qed.

(** ** The sweeper's life *)
Section Sweeping.
Context `{UuidText, Primitives} (env : Env) (Henv : env_ok env).
Context (external_url : string) (notifier : Notifier) (window : Z).

(** Nothing after the first shutdown is looked at. *)
Lemma sweeper_stops before after :
  sweeper external_url notifier window (before ++ Shutdown :: after)%list
  = sweeper external_url notifier window before.
Proof.
  induction before as [|[wall budget|] before IH]; cbn; [done| |done]. by rewrite IH.
Qed.
End Sweeping.

(** ** A server *)
Module ServerExample.
Import StartupExample.
Definition served : result StartupError Listening * St :=
  listen (draws 10000) loaded alone (0, (9%Z, before)).
Definition listening : Listening :=
  match served.1 with Ok l => l
  | Err _ => mkListening _ state (V4 [0; 0; 0; 0]%Z, 0%Z) true end.
End ServerExample.
Import StartupExample.

Lemma listens_safely_witness : is_loopback (ls_addr ServerExample.listening).1 = true.
Proof.
  destruct (listens_safely StartupExample.parsed ConfigExample.env_url StartupExample.loaded
    (StartupExample.draws 10000) alone (0, (9%Z, StartupExample.before)) ServerExample.listening
    ServerExample.served.2) as (_ & Ht & Hp).
  - vm_compute. reflexivity.
  - vm_compute. reflexivity.
  - destruct Hp as [_ [Hp|Hp]]; [rewrite Ht; reflexivity|exact Hp|discriminate Hp].
Defined.
